(* ===== verification/_CoqProject ===== *)
-Q . S2P
Prelude.v
GoStrings.v
GoNet.v
GoCIDR.v
GoFmt.v
SecurityGroup.v
RuleMerge.v
NPState.v
NPPending.v
NPGroups.v
NPPolicy.v
NPSync.v
NPController.v
NPInvariants.v
NPSafety.v
NPReach.v
NPSystem.v
NPMembers.v
NPRules.v
NPRetry.v
NPTheorems.v
NPDelivery.v
NPReady.v
NPChange.v
NPRemoval.v
NPHistory.v
NPWatch.v
AwsModel.v
AwsConverters.v
AwsSecurity.v
AwsTheorems.v
AwsLaws.v
AwsView.v
Enforcement.v
PolicyEnforcement.v
Selector.v
SelectorTheorems.v
AzureModel.v
AzureRules.v
AzureQuery.v
VirtualMachine.v
AzureSecurity.v
AzureView.v
AzureTheorems.v
AzureLaws.v
AzureMembers.v
AzureSim.v
AzureFindings.v
AzureEnforcement.v
Wrappers.v
WrappersTheorems.v
Accounts.v
Inventory.v
Credentials.v
CredentialsTheorems.v
Webhooks.v
InventoryTheorems.v
AccountsTheorems.v
Plugins.v
PluginsTheorems.v
Dispatcher.v
Poller.v
PollerTheorems.v
PollerSim.v
Controllers.v
ControllersTheorems.v
ImportTheorems.v
Converter.v
ConverterTheorems.v
VMPolicy.v
