(* ===== verification/Prelude.v ===== *)
(** * Nephe controller: verification library

    A model of the Nephe controller (the Go code under src/) with the theorems
    that make it correct.  Nephe enforces Antrea network policies on virtual
    machines of public clouds: it imports the machines that selectors describe,
    makes external entities of them for Antrea, and realizes the policies that
    Antrea computes as security groups of AWS and Azure.

    ** The program and its model

    Everything is a shallow embedding: methods are functions on explicit state,
    errors are values of sums, a nil dereference or failed type assertion is the
    outcome of a panic, and a goroutine that waits for ever is an outcome that
    blocks.  What is not under src/ (the cloud SDKs, the Kubernetes client, the
    watchers) is a parameter: a class of operations whose documented behaviour is
    a class of laws, with a simulated instance that satisfies them and on which
    the theorems are applied.

    - [Prelude]: hint databases, tactics, ranging over Go maps in an unspecified
      order ([MapRange]), generic lemmas.
    - [GoStrings], [GoNet], [GoCIDR], [GoFmt]: what the code uses of package
      strings, net and fmt: case, trimming, splitting, IP networks and their text,
      numbers and quoted strings.
    - [SecurityGroup]: pkg/cloud-provider/securitygroup: identifiers, cloud names,
      rules, members.
    - [RuleMerge]: the pure helpers of networkpolicy.go: merging and comparing
      members, and the deduplication of addresses and rules.
    - The network-policy reconciler (pkg/controllers/cloud/networkpolicy*.go).
      [NPState] is its state: a heap of groups, policies, trackers and pending
      items, since the Go code shares pointers, the indexers over it, and a state
      monad.  [NPPending] is networkpolicy_pendingitem.go, [NPGroups] the security
      groups, [NPPolicy] the policies and the status of machines, [NPSync] the
      synchronisation with the cloud, [NPController] the events, responses and
      the loop.  Requests to the cloud are queued by one step and answered by a
      later one, in any order and with any result.  [NPWatch] is the opening of the
      watches the events come from, against the class [WatchAPI].
    - The AWS plug-in: [AwsModel] (data, the class [EC2], the monad), [AwsConverters],
      [AwsSecurity] (aws_security.go), [Selector] (aws_filter_helpers.go and the
      webhook of selectors).
    - The Azure plug-in: [AzureModel] (data, the class [Azure], outcomes),
      [AzureRules] (azure_nsg_rules.go, azure_utils.go), [AzureQuery] (the
      resource-graph queries), [AzureSecurity] (azure_security.go, azure_nsg.go,
      azure_asg.go, azure_network_interfaces.go), [AzureView] (the reported view).
    - [Wrappers]: aws_api_wrappers.go, azure_api_wrappers.go and the resource-graph
      requests of azure_resourcegraph*.go: paged listings, iterators, creation and
      deletion over the calls of the SDKs.  The classes [EC2] and [Azure] are what
      the rest of the plug-ins sees of them.
    - [VirtualMachine]: the resource and how both plug-ins make it.
    - [Accounts]: cloudapi/internal: services as the class [CloudService], accounts,
      the inventory and its statistics.  [Inventory]: the services of both clouds
      (aws_ec2.go, azure_compute.go) as instances of the class.
    - [Credentials]: the credentials of accounts, read from secrets, compared and
      made into services, and the webhook that checks them.  [Webhooks]: updates and
      deletion of accounts, the webhooks of selectors and machines, and the SDK
      sessions of both clouds.
    - [Plugins]: the interface of a plug-in, the registry and the dispatcher of
      security-group requests, and both plug-ins as values of the interface.
    - [Poller] (account_poller.go) and [Controllers] (the account and selector
      controllers), against the class [KubeClient].
    - [Converter] (pkg/converter) against the class [EntityClient]; its timers are a
      list of events that come back at any time.
    - [VMPolicy]: the REST store of virtual machine policies and its table.

    ** What is proved

    - Reconciler ([NPInvariants], [NPSafety], [NPReach], [NPSystem], [NPRules],
      [NPRetry], [NPTheorems]): by induction over the steps, the groups and what
      the cloud was asked for agree, the indexes are consistent, groups follow
      their life cycle, nothing is sent before the initial synchronisation, and
      retries are bounded; the rules computed for a policy and those sent for a
      group are the ones the policies state.  Deduplication admits the same
      traffic ([RuleMerge]).
    - From a policy to a request ([NPDelivery], [NPReady], [NPChange], [NPRemoval]): the
      handler of an event returns and has asked for rules that admit exactly what
      the policies of the group allow, when a policy is new and its groups are
      ready, when the last group it waits for has been created (an appliedTo group
      or an address group), and when it comes again with other rules; when it is
      deleted, the rules of the others are asked for, or the members are taken out of
      the group if it was the last one.
    - From a request to the cloud: [PolicyEnforcement] composes the first of these
      with the AWS plug-in, down to the permissions of the group of EC2, and
      [AzureEnforcement] with the Azure plug-in, down to what the network security
      group decides about traffic.  [Dispatcher]: through the registry, a request
      reaches the plug-in that manages the VPC and is served as it serves it.
    - Histories of the reconciler ([NPMembers], [NPHistory]): a run together with the
      requests it made and the events it saw.  The last request for the members of
      a created address group is for the members the group has now, unless one of
      its requests failed; where that fails is stated with it.  [Enforcement]
      composes this with the AWS plug-in: when it serves that request, exactly the
      interfaces of these members are in the group of EC2.
    - AWS ([AwsTheorems], [AwsLaws], [AwsView]): each request leaves EC2 with the
      groups, permissions and memberships asked for, and the reported view is the
      cloud's.  [SelectorTheorems]: the filters select what the selector
      describes.  [WrappersTheorems]: paging returns the items of every page or the
      first error, iterators end with everything they hold, deletion is idempotent.
    - Azure ([AzureTheorems], [AzureLaws], [AzureMembers], [AzureSim]): the rules of a
      group are realized beside those of other groups, with priorities in
      Azure's range, and memberships are attached and detached as asked.
      [AzureFindings]: where the plug-in does not do what it means to.
    - Accounts and import ([AccountsTheorems], [CredentialsTheorems], [InventoryTheorems], [PluginsTheorems],
      [PollerTheorems], [PollerSim], [ControllersTheorems], [ImportTheorems]): the
      state of accounts is well-formed, admitted accounts are usable, requests reach the plug-in that manages
      the VPC, a poll never touches objects of others and converges when the API
      serves it, pollers run exactly for registered selectors, and, composed, a
      selector and one poll make objects of exactly the instances described.
    - Converter ([ConverterTheorems]): a handled event leaves the entity of the
      machine as the machine is, retry counts are bounded and retries end.
    - Theorems of kind error state what goes wrong where the code does not do what
      it means to; they are the ground of the recorded findings.

    ** Bounds and fuel

    Recursion is structural on lists nearly everywhere.  Loops that wait for the
    cloud have the number of attempts the code has ([retry_limit] of [EC2],
    [maxRetry] of the converter).  Loops whose number of rounds the server decides
    have fuel: [paged] one unit per page, and it returns the listing whenever the
    fuel is at least the number of pages; [iterate] as much as the iterator has
    items left, which its law decreases; [resetWatchers] one unit per attempt, since
    the code tries for ever and its theorem is about the attempt that succeeds.  Integers are [Z]; where the width matters the
    wrap-around is written out ([int32] of the priorities, [uint32] of the short
    identifiers, [uint64] of the statistics).

    ** Not modelled

    The text of JSON and what an SDK call does (parameters, with laws where the
    code relies on them), constructors of SDK clients, set-up of managers and of the
    API server (cmd/, pkg/apiserver/apiserver.go), logging, mutexes beyond making
    methods atomic, time (a timer fires at any later step), generated deep copies
    and tests. *)

From stdpp Require Export base tactics list gmap strings sets fin_maps pretty.

(** ** Notations of the development *)

Declare Scope nephe_scope.
Delimit Scope nephe_scope with nephe.

(** ** Hint databases

    [nephe] holds resolution lemmas, [nephe_simp] the rewrite rules that
    normalise the model's data structures. *)

Create HintDb nephe.
Create HintDb nephe_simp.

(** ** Tactics *)

(** An equation that holds by evaluation of its sides. *)
Ltac by_evaluation := match goal with |- _ = ?r => vm_cast_no_check (eq_refl r) end.

(** ** Iterating over a Go map

    [for k, v := range m] visits every entry of [m] once, in an order the
    language leaves unspecified.  The model takes the order as a parameter:
    a definition that ranges over a map is a function of a [MapRange], and a
    theorem about it holds for every order that is a permutation of the map's
    entries. *)

Class MapRange := {
  go_range : forall (K V : Type) {H : EqDecision K} {H0 : Countable K}, gmap K V -> list (K * V);
  go_range_perm : forall (K V : Type) {H : EqDecision K} {H0 : Countable K} (m : gmap K V),
    go_range K V m ≡ₚ map_to_list m
}.
Arguments go_range {_ K V _ _} m : assert.

(** One concrete order, used by the executable examples. *)
Definition map_to_list_range : MapRange := {|
  go_range K V _ _ m := map_to_list m;
  go_range_perm K V _ _ m := reflexivity (map_to_list m)
|}.
(** ** Ranges *)

Lemma elem_of_go_range `{MapRange} {K V} `{Countable K} (m : gmap K V) k v :
  (k, v) ∈ go_range m <-> m !! k = Some v.
Proof. by rewrite go_range_perm, elem_of_map_to_list. Qed.

Lemma NoDup_go_range_keys `{MapRange} {K V} `{Countable K} (m : gmap K V) :
  NoDup (go_range m).*1.
Proof. rewrite go_range_perm. apply NoDup_fst_map_to_list. Qed.

Lemma NoDup_go_range `{MapRange} {K V} `{Countable K} (m : gmap K V) : NoDup (go_range m).
Proof. rewrite go_range_perm. apply NoDup_map_to_list. Qed.

(** The values of a map whose keys are computed from the values. *)
Lemma elem_of_go_range_values `{MapRange} {K V} `{Countable K} (m : gmap K V) v :
  v ∈ map snd (go_range m) <-> exists k, m !! k = Some v.
Proof.
  rewrite list_elem_of_fmap. split.
  - intros ([k v'] & -> & Hin%elem_of_go_range). eauto.
  - intros [k Hk]. exists (k, v). by rewrite elem_of_go_range.
Qed.

Lemma go_range_values_keys `{MapRange} {K V} `{Countable K} (f : V -> K) (m : gmap K V) :
  (forall k v, m !! k = Some v -> f v = k) ->
  map f (map snd (go_range m)) = (go_range m).*1.
Proof.
  intros Hf. rewrite map_map. apply map_ext_in. intros [k v] Hin.
  apply Hf, elem_of_go_range, list_elem_of_In, Hin.
Qed.

Lemma go_range_empty `{MapRange} {K V} `{Countable K} (m : gmap K V) :
  go_range m = [] <-> m = ∅.
Proof.
  split.
  - intros E. apply map_to_list_empty_iff, Permutation_nil_r. by rewrite <- go_range_perm, E.
  - intros ->. apply Permutation_nil_r. rewrite go_range_perm. by rewrite map_to_list_empty.
Qed.

#[export] Hint Resolve NoDup_go_range NoDup_go_range_keys : nephe.

(** ** Lists with a key *)

(** In a list whose keys are distinct, a key fixes the position. *)
Lemma NoDup_key_split {A B} (f : A -> B) p1 x1 q1 p2 x2 q2 :
  NoDup (map f (p1 ++ x1 :: q1)) -> p1 ++ x1 :: q1 = p2 ++ x2 :: q2 -> f x1 = f x2 ->
  p1 = p2 /\ x1 = x2 /\ q1 = q2.
Proof.
  revert p2. induction p1 as [|a p1 IH]; intros [|b p2]; simpl; intros Hnd Heq Hf;
    injection Heq as Heq Heq'; subst; [done|..].
  - apply NoDup_cons in Hnd as [Hn _]. destruct Hn. rewrite Hf.
    apply list_elem_of_In, in_map, in_elt.
  - apply NoDup_cons in Hnd as [Hn _]. destruct Hn. rewrite <- Hf.
    apply list_elem_of_In, in_map, in_elt.
  - apply NoDup_cons in Hnd as [_ Hnd]. by destruct (IH p2 Hnd Heq' Hf) as (-> & -> & ->).
Qed.

Lemma NoDup_key_inj {A B} (f : A -> B) l x y :
  NoDup (map f l) -> x ∈ l -> y ∈ l -> f x = f y -> x = y.
Proof.
  intros Hnd (p1 & q1 & ->)%list_elem_of_split (p2 & q2 & Heq)%list_elem_of_split Hf.
  by destruct (NoDup_key_split f p1 x q1 p2 y q2) as (_ & ? & _).
Qed.

(** [m[f(x)] = x] for every [x] of a list, in order: the last [x] with a key
    stays. *)
Definition last_with {A B} `{EqDecision B} (f : A -> B) (k : B) (l : list A) : option A :=
  last (filter (fun x => f x = k) l).

Lemma last_with_app {A B} `{EqDecision B} (f : A -> B) k l x :
  last_with f k (l ++ [x]) = if decide (f x = k) then Some x else last_with f k l.
Proof.
  unfold last_with. rewrite filter_app. case_decide as Hk.
  - rewrite filter_cons_True by done. by rewrite filter_nil, last_snoc.
  - rewrite filter_cons_False by done. by rewrite filter_nil, app_nil_r.
Qed.

Lemma last_with_None {A B} `{EqDecision B} (f : A -> B) k l :
  last_with f k l = None <-> k ∉ map f l.
Proof.
  unfold last_with. rewrite last_None, list_elem_of_fmap. split.
  - intros E (x & -> & Hin). cut (x ∈ filter (fun y => f y = f x) l).
    + rewrite E. apply not_elem_of_nil.
    + by apply list_elem_of_filter.
  - intros Hn. destruct (filter _ l) as [|x r] eqn:E; [done|]. destruct Hn.
    assert (x ∈ filter (fun y => f y = k) l) as [Hx Hin]%list_elem_of_filter
      by (rewrite E; left). eauto.
Qed.

Lemma last_with_key {A B} `{EqDecision B} (f : A -> B) k l x :
  last_with f k l = Some x -> f x = k /\ x ∈ l.
Proof.
  intros Hx%last_Some_elem_of%list_elem_of_filter. exact Hx.
Qed.

Lemma fold_insert_lookup {A K} `{Countable K} (f : A -> K) l (m : gmap K A) k :
  fold_left (fun m x => <[f x := x]> m) l m !! k =
  match last_with f k l with Some x => Some x | None => m !! k end.
Proof.
  induction l as [|x l IH] using rev_ind; [done|].
  rewrite fold_left_app. simpl. rewrite last_with_app. case_decide as Hk.
  - subst. by rewrite lookup_insert_eq.
  - by rewrite lookup_insert_ne.
Qed.

Lemma fold_delete_lookup {A K V} `{Countable K} (f : A -> K) l (m : gmap K V) k :
  fold_left (fun m x => delete (f x) m) l m !! k =
  if decide (k ∈ map f l) then None else m !! k.
Proof.
  induction l as [|x l IH] using rev_ind; [by rewrite decide_False by apply not_elem_of_nil|].
  rewrite fold_left_app, map_app. simpl. destruct (decide (f x = k)) as [<-|Hk].
  - rewrite lookup_delete_eq, decide_True; [done|]. apply elem_of_app. right. by left.
  - rewrite lookup_delete_ne, IH by done.
    apply decide_ext. rewrite elem_of_app, list_elem_of_singleton. intuition congruence.
Qed.

(** ** Filters *)

Lemma filter_Forall_iff {A} (P Q : A -> Prop) `{!forall x, Decision (P x), !forall x, Decision (Q x)} l :
  Forall (fun x => P x <-> Q x) l -> filter P l = filter Q l.
Proof.
  induction 1 as [|x l Hx _ IH]; [done|]. rewrite !filter_cons, IH.
  by rewrite (decide_ext (P x) (Q x)).
Qed.

Lemma filter_Forall {A} (P : A -> Prop) `{!forall x, Decision (P x)} l : Forall P l -> filter P l = l.
Proof. induction 1 as [|x l Hx _ IH]; [done|]. by rewrite filter_cons_True, IH. Qed.

Lemma filter_Forall_not {A} (P : A -> Prop) `{!forall x, Decision (P x)} l : Forall (fun x => ~ P x) l -> filter P l = [].
Proof. induction 1 as [|x l Hx _ IH]; [done|]. by rewrite filter_cons_False, IH. Qed.

(** ** Lists related element by element *)

Lemma Forall2_elem_l {A B} (P : A -> B -> Prop) l k x : Forall2 P l k -> x ∈ l -> exists y, y ∈ k /\ P x y.
Proof. induction 1; [by intros ?%not_elem_of_nil|]. intros [->|?]%elem_of_cons; set_solver. Qed.

Lemma Forall2_elem_r {A B} (P : A -> B -> Prop) l k y : Forall2 P l k -> y ∈ k -> exists x, x ∈ l /\ P x y.
Proof. induction 1; [by intros ?%not_elem_of_nil|]. intros [->|?]%elem_of_cons; set_solver. Qed.

(** A map with one entry is ranged over in one way. *)
Lemma go_range_singleton `{MapRange} {K V} `{Countable K} (k : K) (v : V) : go_range {[k := v]} = [(k, v)].
Proof. apply Permutation_singleton_r. by rewrite go_range_perm, map_to_list_singleton. Qed.
