(* ===== verification/GoStrings.v ===== *)
(** * Go's [strings] and [strconv] packages

    The functions of Go's standard library that the controller applies to
    strings, on byte strings ([String.string]).  Case folding and white space
    follow Go on ASCII text: the names, identifiers and addresses the
    controller handles are ASCII; bytes above 127 are left unchanged. *)

From stdpp Require Import base strings list pretty.
From Stdlib Require Import Ascii ZArith Lia.
From S2P Require Import Prelude.

#[local] Open Scope string_scope.
#[local] Arguments String.append !_ _ : simpl nomatch.

(** ** Case folding: [strings.ToLower] *)

Definition lower_ascii (c : ascii) : ascii :=
  let n := nat_of_ascii c in
  if ((65 <=? n) && (n <=? 90))%nat then ascii_of_nat (n + 32) else c.

Fixpoint ToLower (s : string) : string :=
  match s with
  | EmptyString => EmptyString
  | String c s => String (lower_ascii c) (ToLower s)
  end.

(** ** Prefixes: [strings.HasPrefix], [strings.TrimPrefix] *)

Fixpoint strip_prefix (p s : string) : option string :=
  match p, s with
  | EmptyString, _ => Some s
  | String a p, String b s => if ascii_dec a b then strip_prefix p s else None
  | String _ _, EmptyString => None
  end.

Definition HasPrefix (s p : string) : bool :=
  match strip_prefix p s with Some _ => true | None => false end.

Definition TrimPrefix (s p : string) : string :=
  match strip_prefix p s with Some t => t | None => s end.

(** ** Searching: [strings.Contains] *)

Fixpoint Contains (s sub : string) : bool :=
  HasPrefix s sub ||
  match s with EmptyString => false | String _ s => Contains s sub end.

(** ** Trimming: [strings.TrimSpace], [strings.Trim] *)

Fixpoint trim_left (cut : ascii -> bool) (s : string) : string :=
  match s with
  | EmptyString => EmptyString
  | String c s' => if cut c then trim_left cut s' else s
  end.

Fixpoint trim_right (cut : ascii -> bool) (s : string) : string :=
  match s with
  | EmptyString => EmptyString
  | String c s' =>
      match trim_right cut s' with
      | EmptyString => if cut c then EmptyString else String c EmptyString
      | t => String c t
      end
  end.

Definition Trim (cut : ascii -> bool) (s : string) : string :=
  trim_right cut (trim_left cut s).

Definition is_space (c : ascii) : bool :=
  let n := nat_of_ascii c in ((9 <=? n) && (n <=? 13) || (n =? 32))%nat.

Definition TrimSpace (s : string) : string := Trim is_space s.

(** ** Splitting on a one-byte separator: [strings.Split] *)

Fixpoint Split (sep : ascii) (s : string) : list string :=
  match s with
  | EmptyString => [EmptyString]
  | String c s =>
      if ascii_dec c sep then EmptyString :: Split sep s
      else match Split sep s with
           | [] => [String c EmptyString]
           | t :: ts => String c t :: ts
           end
  end.

Definition has_byte (c : ascii) (s : string) : bool :=
  Contains s (String c EmptyString).

(** ** Decimal numbers: [strconv.Itoa], [%v] on an integer *)

Definition Itoa (z : Z) : string := pretty z.

(** ** Lemmas *)

Lemma lower_ascii_idem c : lower_ascii (lower_ascii c) = lower_ascii c.
Proof. destruct c as [[] [] [] [] [] [] [] []]; reflexivity. Qed.

Lemma ToLower_idem s : ToLower (ToLower s) = ToLower s.
Proof. induction s; simpl; [done|]. by rewrite lower_ascii_idem, IHs. Qed.

Lemma ToLower_app s t : ToLower (s +:+ t) = ToLower s +:+ ToLower t.
Proof. induction s; simpl; [done|]. by rewrite IHs. Qed.

Lemma ToLower_length s : String.length (ToLower s) = String.length s.
Proof. induction s; simpl; congruence. Qed.

Lemma string_app_nil_r s : s +:+ "" = s.
Proof. induction s; simpl; congruence. Qed.

Lemma string_app_assoc r s t : (r +:+ s) +:+ t = r +:+ (s +:+ t).
Proof. induction r; simpl; congruence. Qed.

Lemma string_app_length s t : String.length (s +:+ t) = (String.length s + String.length t)%nat.
Proof. induction s; simpl; congruence. Qed.

Lemma strip_prefix_app p s : strip_prefix p (p +:+ s) = Some s.
Proof. induction p; simpl; [done|]. by destruct (ascii_dec a a). Qed.

Lemma strip_prefix_Some p s t : strip_prefix p s = Some t <-> s = p +:+ t.
Proof.
  split; [|intros ->; apply strip_prefix_app].
  revert s; induction p as [|a p IH]; intros s; simpl; [naive_solver|].
  destruct s as [|b s]; [done|]. destruct (ascii_dec a b); [|done].
  intros ?%IH; subst; done.
Qed.

Lemma HasPrefix_true s p : HasPrefix s p = true <-> exists t, s = p +:+ t.
Proof.
  unfold HasPrefix. destruct (strip_prefix p s) as [t|] eqn:E.
  - apply strip_prefix_Some in E. naive_solver.
  - split; [done|]. intros [t ->]. by rewrite strip_prefix_app in E.
Qed.

Lemma TrimPrefix_app s p : TrimPrefix (p +:+ s) p = s.
Proof. unfold TrimPrefix. by rewrite strip_prefix_app. Qed.

Lemma TrimPrefix_shorter s p :
  p <> "" ->
  (String.length (TrimPrefix s p) <? String.length s)%nat = HasPrefix s p.
Proof.
  intros Hp. unfold TrimPrefix, HasPrefix.
  destruct (strip_prefix p s) as [t|] eqn:E.
  - apply strip_prefix_Some in E as ->. rewrite string_app_length.
    apply Nat.ltb_lt. destruct p; [done|]. simpl. lia.
  - apply Nat.ltb_irrefl.
Qed.

#[export] Instance string_app_inj_l s : Inj (=) (=) (String.append s).
Proof. induction s; intros ?? Heq; simpl in *; [done|]. apply IHs. by simplify_eq. Qed.

Lemma Contains_app_r s t sub : Contains t sub = true -> Contains (s +:+ t) sub = true.
Proof. intros H. induction s; simpl; [done|]. rewrite IHs. apply orb_true_r. Qed.

Lemma Contains_prefix sub t : Contains (sub +:+ t) sub = true.
Proof.
  assert (HasPrefix (sub +:+ t) sub = true) as H by (apply HasPrefix_true; eauto).
  destruct (sub +:+ t) eqn:E; simpl; rewrite <-?E in *; rewrite H; done.
Qed.

Lemma has_byte_cons b c s :
  has_byte b (String c s) = bool_decide (b = c) || has_byte b s.
Proof.
  unfold has_byte. cbn [Contains]. f_equal. unfold HasPrefix. simpl.
  by destruct (ascii_dec b c); case_bool_decide.
Qed.

(** Joining a [b]-free head and a tail at the separator [b] loses nothing. *)
Lemma split_at_byte_inj b (s1 s2 t1 t2 : string) :
  has_byte b s1 = false -> has_byte b s2 = false ->
  s1 +:+ String b t1 = s2 +:+ String b t2 -> s1 = s2 /\ t1 = t2.
Proof.
  revert s2; induction s1 as [|c s1 IH]; intros [|d s2] H1 H2; simpl; intros Heq;
    simplify_eq; try done.
  - rewrite has_byte_cons in H2. case_bool_decide; done.
  - rewrite has_byte_cons in H1. case_bool_decide; done.
  - rewrite has_byte_cons in H1, H2. apply orb_false_iff in H1 as [_ H1], H2 as [_ H2].
    destruct (IH s2) as [-> ->]; done.
Qed.

#[export] Instance Itoa_inj : Inj (=) (=) Itoa.
Proof. apply _. Qed.

#[export] Hint Rewrite ToLower_idem ToLower_app string_app_nil_r strip_prefix_app
  TrimPrefix_app : nephe_simp.
