(* ===== verification/GoNet.v ===== *)
(** * Go's [net] package: addresses, masks and blocks

    [net.IP], [net.IPMask] and [net.IPNet] of Go's standard library, as the
    controller uses them: byte slices, the 4-byte view of an address,
    containment in a block and printing. *)

From stdpp Require Import base strings list pretty.
From Stdlib Require Import Ascii ZArith Lia.
From S2P Require Import Prelude GoStrings.

#[local] Open Scope string_scope.
#[local] Open Scope Z_scope.
#[local] Arguments String.append !_ _ : simpl nomatch.

(** ** Data *)

Definition IP := list Z.
Definition IPMask := list Z.
Record IPNet := mkIPNet { in_IP : IP; in_Mask : IPMask }.

#[export] Instance IPNet_eq_dec : EqDecision IPNet.
Proof. unfold IP, IPMask. solve_decision. Defined.

Definition IPv4len : nat := 4.
Definition IPv6len : nat := 16.

Definition is_byte (b : Z) : bool := (0 <=? b) && (b <? 256).

(** ** Operations *)

(** [IP.To4]: the 4-byte form of an IPv4 or IPv4-in-IPv6 address. *)
Definition To4 (ip : IP) : option IP :=
  if decide (length ip = IPv4len) then Some ip
  else if decide (length ip = IPv6len /\ take 12 ip = [0;0;0;0;0;0;0;0;0;0;255;255])
  then Some (drop 12 ip) else None.

(** [networkNumberAndMask]; [None] is the pair of nils. *)
Definition networkNumberAndMask (n : IPNet) : option (IP * IPMask) :=
  match (match To4 (in_IP n) with
         | Some ip => Some ip
         | None => if decide (length (in_IP n) = IPv6len) then Some (in_IP n) else None
         end) with
  | None => None
  | Some ip =>
      if decide (length (in_Mask n) = IPv4len) then
        if decide (length ip = IPv4len) then Some (ip, in_Mask n) else None
      else if decide (length (in_Mask n) = IPv6len) then
        if decide (length ip = IPv4len) then Some (ip, drop 12 (in_Mask n))
        else Some (ip, in_Mask n)
      else None
  end.

Fixpoint masked_eq (nn m ip : list Z) : bool :=
  match nn, m, ip with
  | a :: nn, b :: m, c :: ip => (Z.land a b =? Z.land c b) && masked_eq nn m ip
  | _, _, _ => true
  end.

(** [(n *IPNet) Contains]. *)
Definition IPNet_Contains (n : IPNet) (ip : IP) : bool :=
  let '(nn, m) := match networkNumberAndMask n with Some p => p | None => ([], []) end in
  let ip := match To4 ip with Some x => x | None => ip end in
  if decide (length ip = length nn) then masked_eq nn m ip else false.

(** Leading one bits of a byte and what is left of it once they are shifted
    out: [for v&0x80 != 0 { n++; v <<= 1 }]. *)
Fixpoint shift_ones (fuel : nat) (n v : Z) : Z * Z :=
  match fuel with
  | O => (n, v)
  | S fuel =>
      if Z.land v 128 =? 0 then (n, v)
      else shift_ones fuel (n + 1) (Z.land (Z.shiftl v 1) 255)
  end.

(** [simpleMaskLength]; [None] is -1, a mask that is not ones then zeros. *)
Fixpoint simpleMaskLength_go (n : Z) (mask : IPMask) : option Z :=
  match mask with
  | [] => Some n
  | v :: rest =>
      if v =? 255 then simpleMaskLength_go (n + 8) rest
      else
        let '(n, v) := shift_ones 8 n v in
        if (v =? 0) && forallb (fun b => b =? 0) rest then Some n else None
  end.

Definition simpleMaskLength (mask : IPMask) : option Z := simpleMaskLength_go 0 mask.

(** [IPMask.Size], first result. *)
Definition Size_ones (mask : IPMask) : Z :=
  match simpleMaskLength mask with Some n => n | None => 0 end.

(** [net.CIDRMask]; [None] is the nil mask. *)
Fixpoint CIDRMask_go (len : nat) (n : Z) : IPMask :=
  match len with
  | O => []
  | S len =>
      if 8 <=? n then 255 :: CIDRMask_go len (n - 8)
      else Z.land (Z.lnot (Z.shiftr 255 n)) 255 :: CIDRMask_go len 0
  end.

Definition CIDRMask (ones bits : Z) : IPMask :=
  if negb ((bits =? 32) || (bits =? 128)) then []
  else if (ones <? 0) || (bits <? ones) then []
  else CIDRMask_go (Z.to_nat (bits / 8)) ones.

(** ** Printing *)

Definition hex_digit (d : Z) : string :=
  match d with
  | 10 => "a" | 11 => "b" | 12 => "c" | 13 => "d" | 14 => "e" | 15 => "f"
  | _ => Itoa d
  end.

Definition hexString (b : list Z) : string :=
  foldr (fun v s => hex_digit (Z.shiftr v 4) +:+ hex_digit (Z.land v 15) +:+ s) "" b.

(** Hexadecimal without leading zeros, as [appendHex] prints a 16-bit field. *)
Definition appendHex (v : Z) : string :=
  let d3 := Z.shiftr v 12 in
  let d2 := Z.land (Z.shiftr v 8) 15 in
  let d1 := Z.land (Z.shiftr v 4) 15 in
  let d0 := Z.land v 15 in
  (if d3 =? 0 then "" else hex_digit d3) +:+
  (if (d3 =? 0) && (d2 =? 0) then "" else hex_digit d2) +:+
  (if (d3 =? 0) && (d2 =? 0) && (d1 =? 0) then "" else hex_digit d1) +:+
  hex_digit d0.

(** The eight 16-bit fields of a 16-byte address. *)
Fixpoint ipv6_fields (p : list Z) : list Z :=
  match p with
  | a :: b :: p => Z.lor (Z.shiftl a 8) b :: ipv6_fields p
  | _ => []
  end.

Fixpoint zero_run (fs : list Z) : nat :=
  match fs with
  | f :: fs => if f =? 0 then S (zero_run fs) else O
  | [] => O
  end.

(** First longest run of zero fields: (start, length).  The Go loop skips to
    the end of a run it records; a later start inside the run is shorter, so
    scanning every start finds the same run. *)
Fixpoint longest_zero_run (i : nat) (best : nat * nat) (fs : list Z) : nat * nat :=
  match fs with
  | [] => best
  | _ :: fs' =>
      let r := zero_run fs in
      longest_zero_run (S i) (if decide (best.2 < r)%nat then (i, r) else best) fs'
  end.

Fixpoint ipv6_print (i e0 e1 : nat) (fs : list Z) : string :=
  match fs with
  | [] => ""
  | f :: fs =>
      if decide (i = e0 /\ (e0 < e1)%nat) then
        "::" +:+ ipv6_print (S i) e0 e1 fs
      else if decide ((e0 < i)%nat /\ (i < e1)%nat) then ipv6_print (S i) e0 e1 fs
      else (if decide ((0 < i)%nat /\ ~ (i = e1 /\ (e0 < e1)%nat)) then ":" else "") +:+
           appendHex f +:+ ipv6_print (S i) e0 e1 fs
  end.

Definition IP_String (ip : IP) : string :=
  if decide (length ip = O) then "<nil>"
  else match To4 ip with
  | Some [a; b; c; d] => Itoa a +:+ "." +:+ Itoa b +:+ "." +:+ Itoa c +:+ "." +:+ Itoa d
  | _ =>
      if decide (length ip = IPv6len) then
        let fs := ipv6_fields ip in
        let '(e0, len) := longest_zero_run O (O, O) fs in
        if decide (len <= 1)%nat then ipv6_print O O O fs
        else ipv6_print O e0 (e0 + len) fs
      else "?" +:+ hexString ip
  end.

(** [(n *IPNet) String]; the mask prints as a prefix length when it is one,
    in hexadecimal otherwise. *)
Definition IPNet_String (n : IPNet) : string :=
  match networkNumberAndMask n with
  | None => "<nil>"
  | Some (nn, m) =>
      match simpleMaskLength m with
      | None => IP_String nn +:+ "/" +:+ hexString m
      | Some l => IP_String nn +:+ "/" +:+ Itoa l
      end
  end.

(** ** Examples *)

Example IPNet_String_v4 : IPNet_String (mkIPNet [10;0;1;7] (CIDRMask 24 32)) = "10.0.1.7/24".
Proof. reflexivity. Qed.
Example IP_String_v6 :
  IP_String [32;1;13;184;0;0;0;0;0;0;0;0;0;0;0;1] = "2001:db8::1".
Proof. reflexivity. Qed.
Example IP_String_v6_loopback : IP_String (repeat 0 15 ++ [1])%list = "::1".
Proof. reflexivity. Qed.
Example IP_String_v6_any : IP_String (repeat 0 16) = "::".
Proof. reflexivity. Qed.
Example IP_String_v6_tail :
  IP_String [254;128;0;0;0;1;0;2;0;0;0;0;0;0;0;0] = "fe80:0:1:2::".
Proof. reflexivity. Qed.

(** ** IPv4 blocks

    [ipv4_ok] holds of the blocks the controller builds for IPv4 traffic: an
    address that has a 4-byte form and a 4-byte mask of leading ones, which is
    what [net.ParseCIDR] and [net.CIDRMask(n, 32)] return. *)

Definition ipv4_ok (n : IPNet) : bool :=
  match To4 (in_IP n) with
  | Some ip =>
      bool_decide (length ip = IPv4len) && forallb is_byte ip &&
      bool_decide (length (in_Mask n) = IPv4len) && forallb is_byte (in_Mask n) &&
      match simpleMaskLength (in_Mask n) with Some _ => true | None => false end
  | None => false
  end.

Lemma To4_length ip ip4 : To4 ip = Some ip4 -> length ip4 = IPv4len.
Proof.
  unfold To4. case_decide; [naive_solver|]. case_decide as H'; [|done].
  intros [= <-]. rewrite length_drop. destruct H' as [-> _]. reflexivity.
Qed.

(** The four address bytes, the mask and its length of an IPv4 block. *)
Lemma ipv4_ok_inv n :
  ipv4_ok n = true ->
  exists ip l, To4 (in_IP n) = Some ip /\ length ip = IPv4len /\ forallb is_byte ip = true /\
    length (in_Mask n) = IPv4len /\ forallb is_byte (in_Mask n) = true /\
    simpleMaskLength (in_Mask n) = Some l /\
    networkNumberAndMask n = Some (ip, in_Mask n).
Proof.
  unfold ipv4_ok, networkNumberAndMask. destruct (To4 (in_IP n)) as [ip|]; [|done].
  rewrite !andb_true_iff, !bool_decide_eq_true.
  intros [[[[Hip Hb] Hm] Hmb] Hs].
  destruct (simpleMaskLength (in_Mask n)) as [l|] eqn:E; [|done].
  exists ip, l. rewrite !decide_True by done. done.
Qed.

Lemma is_byte_seqZ b : is_byte b = true <-> b ∈ seqZ 0 256.
Proof.
  unfold is_byte. rewrite andb_true_iff, Z.leb_le, Z.ltb_lt, elem_of_seqZ. lia.
Qed.

(** A decidable fact about bytes is checked on the 256 of them. *)
Lemma byte_forall (P : Z -> bool) :
  forallb P (seqZ 0 256) = true -> forall b, is_byte b = true -> P b = true.
Proof.
  intros H b Hb%is_byte_seqZ. rewrite forallb_forall in H.
  apply H, list_elem_of_In, Hb.
Qed.

(** The bytes whose one bits all lead, each with the number of its ones. *)
Definition prefix_bytes : list (Z * Z) :=
  [(0, 0); (1, 128); (2, 192); (3, 224); (4, 240); (5, 248); (6, 252); (7, 254); (8, 255)].

Lemma shift_ones_shift fuel n v :
  shift_ones fuel n v = let '(k, w) := shift_ones fuel 0 v in (n + k, w).
Proof.
  revert n v. induction fuel as [|fuel IH]; intros n v; simpl.
  - f_equal; lia.
  - case_match; [f_equal; lia|]. rewrite (IH (n + 1)), (IH 1).
    destruct (shift_ones fuel 0 _). f_equal. lia.
Qed.

Lemma shift_ones_mono fuel n v : n <= (shift_ones fuel n v).1.
Proof.
  revert n v. induction fuel as [|fuel IH]; intros n v; simpl; [lia|].
  case_match; simpl; [lia|]. specialize (IH (n + 1) (Z.land (Z.shiftl v 1) 255)). lia.
Qed.

Lemma shift_ones_prefix_byte v k :
  is_byte v = true -> shift_ones 8 0 v = (k, 0) -> In (k, v) prefix_bytes.
Proof.
  intros Hv Hk.
  pose proof (byte_forall (fun v => match shift_ones 8 0 v with
    | (k, 0) => existsb (fun p => (p.1 =? k) && (p.2 =? v)) prefix_bytes
    | _ => true end) ltac:(vm_compute; reflexivity) v Hv) as H.
  cbv beta in H. rewrite Hk in H. apply existsb_exists in H as ([k' v'] & Hin & Heq).
  simpl in Heq. apply andb_true_iff in Heq as [<-%Z.eqb_eq <-%Z.eqb_eq]. done.
Qed.

#[local] Opaque shift_ones.

Lemma prefix_bytes_land k a k' b :
  In (k, a) prefix_bytes -> In (k', b) prefix_bytes -> k <= k' -> Z.land a b = a.
Proof.
  intros Ha Hb Hk.
  assert (forallb (fun p => forallb (fun q => (p.1 >? q.1) || (Z.land p.2 q.2 =? p.2))
    prefix_bytes) prefix_bytes = true) as H by (vm_compute; reflexivity).
  rewrite forallb_forall in H. apply H in Ha. rewrite forallb_forall in Ha. apply Ha in Hb.
  simpl in Hb. apply orb_true_iff in Hb as [?%Z.gtb_lt|?%Z.eqb_eq]; [lia|done].
Qed.

Lemma prefix_bytes_lt_8 k a : In (k, a) prefix_bytes -> a <> 255 -> k < 8.
Proof.
  intros Hin Ha. simpl in Hin.
  repeat (destruct Hin as [Hin|Hin]; [injection Hin as <- <-; lia|]). done.
Qed.

Definition subsumed (m1 m2 : list Z) : Prop := Forall2 (fun a b => Z.land a b = a) m1 m2.

Lemma subsumed_zeros m1 m2 :
  forallb (fun b => b =? 0) m1 = true -> length m1 = length m2 -> subsumed m1 m2.
Proof.
  revert m2. induction m1 as [|a m1 IH]; intros [|b m2]; simpl; try done.
  - constructor.
  - rewrite andb_true_iff, Z.eqb_eq. intros [-> ?] ?. constructor; [apply Z.land_0_l|].
    apply IH; [done|lia].
Qed.

Lemma simpleMaskLength_go_lower n m l : simpleMaskLength_go n m = Some l -> n <= l.
Proof.
  revert n. induction m as [|v m IH]; intros n; simpl; [intros [= ->]; lia|].
  case_match; [intros Hl%IH; lia|].
  rewrite shift_ones_shift. destruct (shift_ones 8 0 v) as [k w] eqn:E.
  case_match; [|done]. intros [= <-].
  pose proof (shift_ones_mono 8 0 v) as Hmono. rewrite E in Hmono. simpl in Hmono. lia.
Qed.

Lemma byte_land_255 b : is_byte b = true -> Z.land b 255 = b.
Proof.
  intros Hb. apply Z.eqb_eq.
  by apply (byte_forall (fun b => Z.land b 255 =? b) ltac:(vm_compute; reflexivity)).
Qed.

(** The shorter of two leading-ones masks selects a subset of the bits of the
    longer. *)
Lemma simpleMaskLength_subsumed n1 n2 m1 m2 l1 l2 :
  length m1 = length m2 -> forallb is_byte m1 = true -> forallb is_byte m2 = true ->
  simpleMaskLength_go n1 m1 = Some l1 -> simpleMaskLength_go n2 m2 = Some l2 ->
  l1 - n1 <= l2 - n2 -> subsumed m1 m2.
Proof.
  revert n1 n2 m2. induction m1 as [|a m1 IH]; intros n1 n2 [|b m2] Hlen H1 H2 E1 E2 Hle;
    simplify_eq/=; [constructor|].
  rewrite andb_true_iff in H1, H2. destruct H1 as [Ha H1], H2 as [Hb H2].
  destruct (a =? 255) eqn:Ea; destruct (b =? 255) eqn:Eb;
    rewrite ?Z.eqb_eq, ?Z.eqb_neq in *; subst.
  - constructor; [done|]. eapply IH; eauto. lia.
  - apply simpleMaskLength_go_lower in E1.
    rewrite shift_ones_shift in E2. destruct (shift_ones 8 0 b) as [k w] eqn:E.
    destruct (w =? 0) eqn:Ew; [|done]. apply Z.eqb_eq in Ew as ->.
    case_match; [|done]. simplify_eq.
    apply shift_ones_prefix_byte, prefix_bytes_lt_8 in E; [lia|done..].
  - rewrite shift_ones_shift in E1. destruct (shift_ones 8 0 a) as [k w].
    destruct (w =? 0) eqn:Ew; [|done]. simpl in E1. case_match; [|done].
    constructor; [by apply byte_land_255|]. by apply subsumed_zeros; [|lia].
  - rewrite shift_ones_shift in E1, E2.
    destruct (shift_ones 8 0 a) as [k w] eqn:F1, (shift_ones 8 0 b) as [k' w'] eqn:F2.
    destruct (w =? 0) eqn:Ew; [|done]. destruct (w' =? 0) eqn:Ew'; [|done].
    apply Z.eqb_eq in Ew as ->, Ew' as ->. simpl in *. do 2 (case_match; [|done]). simplify_eq.
    constructor; [|by apply subsumed_zeros; [|lia]].
    apply shift_ones_prefix_byte in F1, F2; [|done..].
    eapply prefix_bytes_land; eauto. lia.
Qed.

Lemma subsumed_antisym m1 m2 : subsumed m1 m2 -> subsumed m2 m1 -> m1 = m2.
Proof.
  induction 1 as [|a b m1 m2 Hab _ IH]; inversion 1 as [|? ? ? ? Hba]; subst; [done|].
  f_equal; [by rewrite <- Hab, Z.land_comm|by apply IH].
Qed.

Lemma masked_eq_trans nn1 m1 nn2 m2 ip :
  length nn1 = length m1 -> length nn2 = length m2 -> length ip = length m2 ->
  subsumed m1 m2 -> masked_eq nn1 m1 nn2 = true -> masked_eq nn2 m2 ip = true ->
  masked_eq nn1 m1 ip = true.
Proof.
  intros H1 H2 H3 Hs. revert nn1 nn2 ip H1 H2 H3.
  induction Hs as [|a b m1 m2 Hab _ IH]; intros [|x nn1] [|y nn2] [|z ip] ???; try done.
  simpl. rewrite !andb_true_iff, !Z.eqb_eq. intros [E1 R1] [E2 R2]. split.
  - assert (forall w, Z.land w a = Z.land (Z.land w b) a) as Hw.
    { intros w. by rewrite <- Z.land_assoc, (Z.land_comm b a), Hab. }
    by rewrite E1, Hw, E2, <- Hw.
  - by apply (IH nn1 nn2); auto with lia.
Qed.

Lemma masked_eq_refl nn m : masked_eq nn m nn = true.
Proof.
  revert m. induction nn as [|a nn IH]; intros [|b m]; simpl; [done..|].
  by rewrite Z.eqb_refl, IH.
Qed.

(** The address as [Contains] compares it. *)
Definition canon (ip : IP) : IP := match To4 ip with Some x => x | None => ip end.

Lemma IPNet_Contains_number n1 n2 ip :
  networkNumberAndMask n1 = networkNumberAndMask n2 ->
  IPNet_Contains n1 ip = IPNet_Contains n2 ip.
Proof. unfold IPNet_Contains. by intros ->. Qed.

Lemma IPNet_Contains_ok n nn ip :
  networkNumberAndMask n = Some (nn, in_Mask n) ->
  IPNet_Contains n ip = true <->
  length (canon ip) = length nn /\ masked_eq nn (in_Mask n) (canon ip) = true.
Proof. unfold IPNet_Contains. fold (canon ip). intros ->. case_decide; intuition congruence. Qed.

Lemma IPNet_Contains_self n : ipv4_ok n = true -> IPNet_Contains n (in_IP n) = true.
Proof.
  intros (ip & l & H4 & ? & _ & _ & _ & _ & Hn)%ipv4_ok_inv.
  rewrite (IPNet_Contains_ok _ ip) by done. unfold canon. rewrite H4.
  split; [done|apply masked_eq_refl].
Qed.

(** A block whose mask is no longer than another's and that holds the other's
    address holds all of the other's addresses. *)
Lemma IPNet_Contains_widen a b ip :
  ipv4_ok a = true -> ipv4_ok b = true ->
  Size_ones (in_Mask a) <= Size_ones (in_Mask b) ->
  IPNet_Contains a (in_IP b) = true -> IPNet_Contains b ip = true ->
  IPNet_Contains a ip = true.
Proof.
  intros (x & l & H4 & Hx & _ & Hm & Hmb & Hl & Hn)%ipv4_ok_inv
         (x' & l' & H4' & Hx' & _ & Hm' & Hmb' & Hl' & Hn')%ipv4_ok_inv.
  unfold Size_ones. rewrite Hl, Hl'. intros Hle.
  intros [_ H1]%(IPNet_Contains_ok _ x) [H2 H3]%(IPNet_Contains_ok _ x'); [|done..].
  unfold canon in H1. rewrite H4' in H1.
  apply (IPNet_Contains_ok _ x); [done|]. split; [congruence|].
  eapply masked_eq_trans; [..|apply H1|apply H3]; [congruence..|].
  eapply (simpleMaskLength_subsumed 0 0); eauto; [congruence|lia].
Qed.

(** Decimal bytes hold neither dots nor slashes. *)
Lemma Itoa_byte_sep c b :
  c = "."%char \/ c = "/"%char -> is_byte b = true -> has_byte c (Itoa b) = false.
Proof.
  intros Hc Hb.
  pose proof (byte_forall
    (fun b => negb (has_byte "."%char (Itoa b)) && negb (has_byte "/"%char (Itoa b)))
    ltac:(vm_compute; reflexivity) b Hb) as H.
  cbv beta in H. apply andb_true_iff in H as [H1%negb_true_iff H2%negb_true_iff].
  by destruct Hc as [-> | ->].
Qed.

Lemma IP_String_v4 a b c d :
  IP_String [a; b; c; d] =
  Itoa a +:+ "." +:+ Itoa b +:+ "." +:+ Itoa c +:+ "." +:+ Itoa d.
Proof. reflexivity. Qed.

(** Peels one decimal field off two equal printed addresses. *)
Lemma Itoa_field_inj c a a' r r' t t' :
  c = "."%char \/ c = "/"%char -> is_byte a = true -> is_byte a' = true ->
  (Itoa a +:+ String c r) +:+ t = (Itoa a' +:+ String c r') +:+ t' ->
  a = a' /\ r +:+ t = r' +:+ t'.
Proof.
  intros Hc Ha Ha' Heq. rewrite !string_app_assoc in Heq. simpl in Heq.
  by apply split_at_byte_inj in Heq as [->%(inj Itoa) Heq]; [|eauto using Itoa_byte_sep..].
Qed.

Lemma IP_String_v4_inj ip1 ip2 t1 t2 :
  length ip1 = IPv4len -> length ip2 = IPv4len ->
  forallb is_byte ip1 = true -> forallb is_byte ip2 = true ->
  IP_String ip1 +:+ String "/" t1 = IP_String ip2 +:+ String "/" t2 -> ip1 = ip2 /\ t1 = t2.
Proof.
  destruct ip1 as [|a [|b [|c [|d [|]]]]], ip2 as [|a' [|b' [|c' [|d' [|]]]]]; try done.
  intros _ _. rewrite !IP_String_v4. simpl. rewrite !andb_true_iff.
  intros (?&?&?&?&_) (?&?&?&?&_) Heq.
  do 3 (apply Itoa_field_inj in Heq as [-> Heq]; [|by auto..]).
  apply split_at_byte_inj in Heq as [->%(inj Itoa) ->]; [done|by eauto using Itoa_byte_sep..].
Qed.

(** Two IPv4 blocks that print alike are the same block. *)
Lemma IPNet_String_v4_inj a b :
  ipv4_ok a = true -> ipv4_ok b = true -> IPNet_String a = IPNet_String b ->
  networkNumberAndMask a = networkNumberAndMask b.
Proof.
  intros (x & l & H4 & Hx & Hxb & Hm & Hmb & Hl & Hn)%ipv4_ok_inv
         (x' & l' & H4' & Hx' & Hxb' & Hm' & Hmb' & Hl' & Hn')%ipv4_ok_inv.
  unfold IPNet_String. rewrite Hn, Hn', Hl, Hl'. intros Heq.
  apply IP_String_v4_inj in Heq as [-> ->%(inj Itoa)]; [|done..].
  do 2 f_equal. apply subsumed_antisym;
    eapply (simpleMaskLength_subsumed 0 0); eauto; first [congruence|lia].
Qed.

Lemma Size_ones_number a b :
  ipv4_ok a = true -> ipv4_ok b = true ->
  networkNumberAndMask a = networkNumberAndMask b ->
  Size_ones (in_Mask a) = Size_ones (in_Mask b).
Proof.
  intros (x & l & _ & _ & _ & _ & _ & _ & Hn)%ipv4_ok_inv
         (x' & l' & _ & _ & _ & _ & _ & _ & Hn')%ipv4_ok_inv.
  rewrite Hn, Hn'. by intros [= _ ->].
Qed.

Lemma masked_eq_common nn1 m1 nn2 m2 ip :
  length nn1 = length m1 -> length nn2 = length m2 -> length ip = length m2 ->
  subsumed m1 m2 -> masked_eq nn1 m1 ip = true -> masked_eq nn2 m2 ip = true ->
  masked_eq nn1 m1 nn2 = true.
Proof.
  intros H1 H2 H3 Hs. revert nn1 nn2 ip H1 H2 H3.
  induction Hs as [|a b m1 m2 Hab _ IH]; intros [|x nn1] [|y nn2] [|z ip] ???; try done.
  simpl. rewrite !andb_true_iff, !Z.eqb_eq. intros [E1 R1] [E2 R2]. split.
  - assert (forall w, Z.land w a = Z.land (Z.land w b) a) as Hw.
    { intros w. by rewrite <- Z.land_assoc, (Z.land_comm b a), Hab. }
    by rewrite E1, (Hw y), E2, <- Hw.
  - by apply (IH nn1 nn2 ip); auto with lia.
Qed.

(** Of two blocks that share an address, the one with the shorter mask holds
    the other's network address. *)
Lemma IPNet_Contains_common a b ip :
  ipv4_ok a = true -> ipv4_ok b = true ->
  Size_ones (in_Mask a) <= Size_ones (in_Mask b) ->
  IPNet_Contains a ip = true -> IPNet_Contains b ip = true ->
  IPNet_Contains a (in_IP b) = true.
Proof.
  intros (x & l & H4 & Hx & _ & Hm & Hmb & Hl & Hn)%ipv4_ok_inv
         (x' & l' & H4' & Hx' & _ & Hm' & Hmb' & Hl' & Hn')%ipv4_ok_inv.
  unfold Size_ones. rewrite Hl, Hl'. intros Hle.
  intros [H0 H1]%(IPNet_Contains_ok _ x) [H2 H3]%(IPNet_Contains_ok _ x'); [|done..].
  apply (IPNet_Contains_ok _ x); [done|]. unfold canon. rewrite H4'. split; [congruence|].
  eapply masked_eq_common; [..|apply H1|apply H3]; [congruence..|].
  eapply (simpleMaskLength_subsumed 0 0); eauto; [congruence|lia].
Qed.

Lemma Size_ones_nonneg m : 0 <= Size_ones m.
Proof.
  unfold Size_ones, simpleMaskLength. case_match eqn:E; [|done].
  by apply simpleMaskLength_go_lower in E.
Qed.
