(* ===== verification/GoCIDR.v ===== *)
(** * Go's [net.ParseCIDR]

    Parsing of addresses and blocks in CIDR notation, both IPv4 and IPv6, as
    the standard library of Go 1.17 does it.  The controller parses endpoint
    addresses with it, the cloud plug-ins the ranges of the cloud's rules. *)

From stdpp Require Import base strings list.
From Stdlib Require Import Ascii ZArith Lia.
From S2P Require Import Prelude GoStrings GoNet.

#[local] Open Scope string_scope.
#[local] Open Scope Z_scope.
#[local] Arguments String.append !_ _ : simpl nomatch.

(** ** Numbers *)

Definition big : Z := 16777215.

Definition dec_digit (c : ascii) : option Z :=
  let n := Z.of_nat (nat_of_ascii c) in
  if (48 <=? n) && (n <=? 57) then Some (n - 48) else None.

Definition hex_digit_val (c : ascii) : option Z :=
  let n := Z.of_nat (nat_of_ascii c) in
  if (48 <=? n) && (n <=? 57) then Some (n - 48)
  else if (97 <=? n) && (n <=? 102) then Some (n - 97 + 10)
  else if (65 <=? n) && (n <=? 70) then Some (n - 65 + 10)
  else None.

(** The loop of [dtoi] and [xtoi]: value, digits read and what follows them;
    [None] when the value reaches [big]. *)
Fixpoint digits_go (digit : ascii -> option Z) (base n : Z) (i : nat) (s : string) : option (Z * nat * string) :=
  match s with
  | "" => Some (n, i, s)
  | String c rest =>
      match digit c with
      | None => Some (n, i, s)
      | Some d =>
          let n := n * base + d in
          if big <=? n then None else digits_go digit base n (S i) rest
      end
  end.

Definition digits (digit : ascii -> option Z) (base : Z) (s : string) : option (Z * nat * string) :=
  match digits_go digit base 0 O s with
  | Some (n, i, rest) => if decide (i = O) then None else Some (n, i, rest)
  | None => None
  end.

Definition dtoi : string -> option (Z * nat * string) := digits dec_digit 10.
Definition xtoi : string -> option (Z * nat * string) := digits hex_digit_val 16.

(** ** Addresses *)

(** One octet of [parseIPv4]: at most 255, no leading zero. *)
Definition parse_octet (s : string) : option (Z * string) :=
  match dtoi s with
  | Some (n, c, rest) =>
      if 255 <? n then None
      else if bool_decide (1 < c)%nat && HasPrefix s "0" then None
      else Some (n, rest)
  | None => None
  end.

Fixpoint parse_octets (k : nat) (s : string) : option (list Z * string) :=
  match k with
  | O => Some ([], s)
  | S k =>
      match strip_prefix "." s with
      | None => None
      | Some s =>
          match parse_octet s with
          | None => None
          | Some (n, rest) =>
              match parse_octets k rest with
              | Some (ns, rest) => Some (n :: ns, rest)
              | None => None
              end
          end
      end
  end.

Definition v4InV6Prefix : list Z := [0;0;0;0;0;0;0;0;0;0;255;255].

(** [parseIPv4]: the 16-byte form. *)
Definition parseIPv4 (s : string) : option IP :=
  match parse_octet s with
  | None => None
  | Some (a, rest) =>
      match parse_octets 3 rest with
      | Some (ns, "") => Some (v4InV6Prefix ++ a :: ns)%list
      | _ => None
      end
  end.

(** Places the bytes before and after the ellipsis of an IPv6 address. *)
Definition place_ellipsis (ellipsis : option nat) (bs : list Z) : option IP :=
  if decide (length bs < IPv6len)%nat then
    match ellipsis with
    | None => None
    | Some e => Some (take e bs ++ repeat 0 (IPv6len - length bs) ++ drop e bs)%list
    end
  else match ellipsis with None => Some bs | Some _ => None end.

(** The loop of [parseIPv6], with the bytes read so far; at most eight fields
    are read, so nine rounds are enough. *)
Fixpoint parseIPv6_go (fuel : nat) (ellipsis : option nat) (bs : list Z) (s : string) : option IP :=
  match fuel with
  | O => None
  | S fuel =>
      if decide (IPv6len <= length bs)%nat then
        if decide (s = "") then place_ellipsis ellipsis bs else None
      else
      match xtoi s with
      | None => None
      | Some (n, _, rest) =>
          if 65535 <? n then None
          else if HasPrefix rest "." then
            if (match ellipsis with None => negb (bool_decide (length bs = 12)%nat) | Some _ => false end)
               || negb (bool_decide (length bs + IPv4len <= IPv6len)%nat) then None
            else match parseIPv4 s with
                 | None => None
                 | Some ip4 => place_ellipsis ellipsis (bs ++ drop 12 ip4)%list
                 end
          else
            let bs := (bs ++ [Z.shiftr n 8; Z.land n 255])%list in
            match rest with
            | "" => place_ellipsis ellipsis bs
            | String ":" "" => None
            | String ":" (String ":" rest) =>
                match ellipsis with
                | Some _ => None
                | None =>
                    if decide (rest = "") then place_ellipsis (Some (length bs)) bs
                    else parseIPv6_go fuel (Some (length bs)) bs rest
                end
            | String ":" rest => parseIPv6_go fuel ellipsis bs rest
            | _ => None
            end
      end
  end.

Definition parseIPv6 (s : string) : option IP :=
  match strip_prefix "::" s with
  | Some "" => Some (repeat 0 IPv6len)
  | Some rest => parseIPv6_go 9 (Some O) [] rest
  | None => parseIPv6_go 9 None [] s
  end.

(** ** Blocks *)

Fixpoint mask_bytes (ip : IP) (m : IPMask) : IP :=
  match ip, m with
  | a :: ip, b :: m => Z.land a b :: mask_bytes ip m
  | _, _ => []
  end.

(** [IP.Mask], for a mask of the length of the address family. *)
Definition IP_Mask (ip : IP) (m : IPMask) : IP :=
  if decide (length m = IPv4len /\ length ip = IPv6len /\ take 12 ip = v4InV6Prefix)
  then mask_bytes (drop 12 ip) m
  else mask_bytes ip m.

(** The text before and after the first slash. *)
Fixpoint cut_slash (s : string) : option (string * string) :=
  match s with
  | "" => None
  | String c rest =>
      if decide (c = "/"%char) then Some ("", rest)
      else match cut_slash rest with
           | Some (a, b) => Some (String c a, b)
           | None => None
           end
  end.

(** [ParseCIDR], its second result; [None] is the error. *)
Definition ParseCIDR (s : string) : option IPNet :=
  match cut_slash s with
  | None => None
  | Some (addr, mask) =>
      let '(iplen, ip) :=
        match parseIPv4 addr with
        | Some ip => (IPv4len, Some ip)
        | None => (IPv6len, parseIPv6 addr)
        end in
      match ip, dtoi mask with
      | Some ip, Some (n, _, "") =>
          if 8 * Z.of_nat iplen <? n then None
          else
            let m := CIDRMask n (8 * Z.of_nat iplen) in
            Some (mkIPNet (IP_Mask ip m) m)
      | _, _ => None
      end
  end.

(** ** Examples *)

Example ParseCIDR_v4 : ParseCIDR "10.1.2.3/24" = Some (mkIPNet [10;1;2;0] [255;255;255;0]).
Proof. reflexivity. Qed.
Example ParseCIDR_v6 :
  ParseCIDR "2001:db8::1/32" = Some (mkIPNet ([32;1;13;184] ++ repeat 0 12)%list (CIDRMask 32 128)).
Proof. reflexivity. Qed.
Example ParseCIDR_any : ParseCIDR "::/0" = Some (mkIPNet (repeat 0 16) (repeat 0 16)).
Proof. reflexivity. Qed.
Example ParseCIDR_embedded :
  option_map (fun n => IPNet_String n) (ParseCIDR "64:ff9b::10.0.0.1/128") = Some "64:ff9b::a00:1/128".
Proof. reflexivity. Qed.
Example ParseCIDR_leading_zero : ParseCIDR "10.01.2.3/24" = None.
Proof. reflexivity. Qed.
Example ParseCIDR_no_mask : ParseCIDR "10.1.2.3" = None.
Proof. reflexivity. Qed.

(** ** A parsed IPv4 block *)

Lemma dec_digit_bounds c d : dec_digit c = Some d -> 0 <= d.
Proof.
  unfold dec_digit. case_match eqn:E; [|done]. intros [= <-].
  apply andb_true_iff in E as [E1%Z.leb_le _]. lia.
Qed.

Lemma digits_go_nonneg n i s m j rest :
  0 <= n -> digits_go dec_digit 10 n i s = Some (m, j, rest) -> 0 <= m.
Proof.
  revert n i. induction s as [|c s IH]; intros n i Hn; simpl; [by intros [= <- _ _]|].
  destruct (dec_digit c) as [d|] eqn:E; [|by intros [= <- _ _]].
  case_match; [done|]. apply IH. apply dec_digit_bounds in E. lia.
Qed.

Lemma dtoi_nonneg s m j rest : dtoi s = Some (m, j, rest) -> 0 <= m.
Proof.
  unfold dtoi, digits. case_match eqn:E; [|done]. destruct p as [[n i] r].
  case_decide; [done|]. intros [= <- _ _]. by eapply digits_go_nonneg in E.
Qed.

(** ** Reading back a printed block *)

Definition ends_digits (t : string) : bool :=
  match t with "" => true | String c _ => match dec_digit c with None => true | Some _ => false end end.

Lemma digits_go_app s : forall n i m j t,
  digits_go dec_digit 10 n i s = Some (m, j, "") -> ends_digits t = true ->
  digits_go dec_digit 10 n i (s +:+ t) = Some (m, j, t).
Proof.
  induction s as [|c s IH]; intros n i m j t; simpl.
  - intros [= -> ->] Ht. destruct t as [|c t]; [done|]. simpl in *. by destruct (dec_digit c).
  - destruct (dec_digit c); [|done]. case_match; [done|]. apply IH.
Qed.

Lemma dtoi_app s m j t : dtoi s = Some (m, j, "") -> ends_digits t = true -> dtoi (s +:+ t) = Some (m, j, t).
Proof.
  unfold dtoi, digits. destruct (digits_go dec_digit 10 0 0 s) as [[[m' j'] r]|] eqn:Ed; [|done].
  case_decide as Hj; [done|]. intros [= -> -> ->] Ht. rewrite (digits_go_app _ _ _ _ _ _ Ed Ht). by rewrite decide_False.
Qed.

Definition octet_ok (b : Z) : bool :=
  match dtoi (Itoa b) with
  | Some (n, c, "") => (n =? b) && negb (bool_decide (1 < c)%nat && HasPrefix (Itoa b) "0") && negb (bool_decide (Itoa b = ""))
  | _ => false
  end.

Lemma HasPrefix_0_app s t : s <> "" -> HasPrefix (s +:+ t) "0" = HasPrefix s "0".
Proof. destruct s as [|c s]; [done|]. intros _. unfold HasPrefix. cbn [strip_prefix String.append]. by destruct (ascii_dec "0"%char c). Qed.

Lemma parse_octet_Itoa b t : is_byte b = true -> ends_digits t = true -> parse_octet (Itoa b +:+ t) = Some (b, t).
Proof.
  intros Hb Ht. assert (octet_ok b = true) as Hok by (revert b Hb; apply byte_forall; vm_compute; reflexivity).
  unfold octet_ok in Hok. unfold parse_octet. destruct (dtoi (Itoa b)) as [[[n c] r]|] eqn:Hd; [|done].
  destruct r; [|done]. rewrite !andb_true_iff in Hok. destruct Hok as [[->%Z.eqb_eq Hz] Hne].
  rewrite (dtoi_app _ _ _ _ Hd Ht). apply negb_true_iff, bool_decide_eq_false in Hne.
  rewrite HasPrefix_0_app by done. apply negb_true_iff in Hz. rewrite Hz.
  unfold is_byte in Hb. destruct (255 <? b) eqn:E; [lia|done].
Qed.

Lemma cut_slash_app s t : has_byte "/"%char s = false -> cut_slash (s +:+ String "/"%char t) = Some (s, t).
Proof.
  induction s as [|c s IH]; [done|]. rewrite has_byte_cons. intros [Hc Hs]%orb_false_iff.
  apply bool_decide_eq_false in Hc. cbn [cut_slash String.append].
  destruct (decide (c = "/"%char)) as [->|]; [done|]. by rewrite IH.
Qed.

Lemma has_byte_app b s t : has_byte b (s +:+ t) = has_byte b s || has_byte b t.
Proof.
  induction s as [|c s IH]; [reflexivity|].
  change (String c s +:+ t) with (String c (s +:+ t)). by rewrite !has_byte_cons, IH, orb_assoc.
Qed.

Lemma prefix_length_ok k : 0 <= k <= 32 ->
  simpleMaskLength (CIDRMask k 32) = Some k /\ exists j, dtoi (Itoa k) = Some (k, j, "").
Proof.
  intros Hk. assert (k ∈ seqZ 0 33) as Hin by (apply elem_of_seqZ; lia).
  assert (forallb (fun k => bool_decide (simpleMaskLength (CIDRMask k 32) = Some k) &&
    match dtoi (Itoa k) with Some (n, _, "") => n =? k | _ => false end) (seqZ 0 33) = true) as Hall by (vm_compute; reflexivity).
  rewrite forallb_forall in Hall. specialize (Hall k (proj1 (list_elem_of_In _ _) Hin)).
  apply andb_true_iff in Hall as [H1%bool_decide_eq_true H2]. split; [done|].
  destruct (dtoi (Itoa k)) as [[[n j] [|]]|]; try done. apply Z.eqb_eq in H2 as ->. eauto.
Qed.

Lemma CIDRMask_32_length k : 0 <= k <= 32 -> length (CIDRMask k 32) = IPv4len.
Proof.
  intros Hk. unfold CIDRMask. replace ((k <? 0) || (32 <? k)) with false by (symmetry; apply orb_false_iff; lia).
  assert (forall n z, length (CIDRMask_go n z) = n) as Hl.
  { induction n as [|n IH]; intros z; simpl; [done|]. case_match; simpl; by rewrite IH. }
  exact (Hl 4%nat k).
Qed.

Lemma parse_octets_Itoa k b t ns r :
  is_byte b = true -> ends_digits t = true -> parse_octets k t = Some (ns, r) ->
  parse_octets (S k) (String "." (Itoa b +:+ t)) = Some (b :: ns, r).
Proof.
  intros Hb Ht Hk. cbn [parse_octets].
  change (strip_prefix "." (String "." (Itoa b +:+ t))) with (Some (Itoa b +:+ t)).
  cbv iota. by rewrite parse_octet_Itoa, Hk.
Qed.

(** A printed IPv4 block without host bits reads back as itself. *)
Lemma ParseCIDR_String_v4 a b c d k :
  forallb is_byte [a; b; c; d] = true -> 0 <= k <= 32 ->
  mask_bytes [a; b; c; d] (CIDRMask k 32) = [a; b; c; d] ->
  ParseCIDR (IPNet_String (mkIPNet [a; b; c; d] (CIDRMask k 32))) = Some (mkIPNet [a; b; c; d] (CIDRMask k 32)).
Proof.
  intros Hb Hk Hm. destruct (prefix_length_ok k Hk) as [Hs (j & Hd)]. pose proof (CIDRMask_32_length k Hk) as Hlen.
  assert (IPNet_String (mkIPNet [a; b; c; d] (CIDRMask k 32)) = IP_String [a; b; c; d] +:+ String "/" (Itoa k)) as ->.
  { unfold IPNet_String, networkNumberAndMask. cbn [in_IP in_Mask]. unfold To4. rewrite decide_True by done.
    rewrite !Hlen. simpl. by rewrite Hs. }
  simpl in Hb. rewrite !andb_true_iff in Hb. destruct Hb as (Ha & Hb & Hc & Hdd & _).
  unfold ParseCIDR. rewrite IP_String_v4, cut_slash_app.
  2: { rewrite !has_byte_app. by rewrite !(Itoa_byte_sep "/"%char) by auto. }
  assert (parseIPv4 (Itoa a +:+ "." +:+ Itoa b +:+ "." +:+ Itoa c +:+ "." +:+ Itoa d) =
    Some (v4InV6Prefix ++ [a; b; c; d])%list) as ->.
  { unfold parseIPv4. rewrite parse_octet_Itoa by done.
    assert (parse_octets 3 ("." +:+ Itoa b +:+ "." +:+ Itoa c +:+ "." +:+ Itoa d) = Some ([b; c; d], "")) as ->; [|done].
    apply (parse_octets_Itoa 2 b ("." +:+ Itoa c +:+ "." +:+ Itoa d)); [done|done|].
    apply (parse_octets_Itoa 1 c ("." +:+ Itoa d)); [done|done|].
    pose proof (parse_octets_Itoa 0 d "" [] "" Hdd eq_refl eq_refl) as Hp. by rewrite string_app_nil_r in Hp. }
  rewrite Hd. replace (8 * Z.of_nat IPv4len <? k) with false by (symmetry; apply Z.ltb_ge; unfold IPv4len; lia).
  change (8 * Z.of_nat IPv4len) with 32. do 2 f_equal. unfold IP_Mask.
  rewrite decide_True by (split; [done|split; reflexivity]). done.
Qed.

(** An IPv4 block in canonical form: what the controller's blocks are, and what is
    read back from their text. *)
Definition block_v4 (n : IPNet) : Prop :=
  exists a b c d k, n = mkIPNet [a; b; c; d] (CIDRMask k 32) /\ forallb is_byte [a; b; c; d] = true /\ (0 <= k <= 32)%Z /\
    mask_bytes [a; b; c; d] (CIDRMask k 32) = [a; b; c; d].

Lemma parse_printed_blocks ips : Forall block_v4 ips -> omap ParseCIDR (map IPNet_String ips) = ips.
Proof.
  induction 1 as [|n ips (a & b & c & d & k & -> & H1 & H2 & H3) _ IH]; [done|]. cbn [map omap list_omap].
  rewrite ParseCIDR_String_v4 by done. by f_equal.
Qed.
