(* ===== verification/GoFmt.v ===== *)
(** * Go's [fmt] and [strconv] packages, continued

    What the Azure plug-in uses of them: the [%q] verb on strings and on string
    slices, [strings.Join], and [strconv.ParseInt] for 32-bit decimal numbers.
    As in the rest of the library, strings are ASCII; bytes above 127 are left
    unchanged. *)

From stdpp Require Import base strings list pretty.
From Stdlib Require Import Ascii ZArith Lia.
From S2P Require Import Prelude GoStrings GoNet GoCIDR.

#[local] Open Scope string_scope.
#[local] Arguments String.append !_ _ : simpl nomatch.

(** ** Quoting: [%q] *)

Definition dquote : ascii := "034"%char.
Definition backslash : ascii := "092"%char.

(** The letter of a control character with an escape of its own. *)
Definition escape_letter (c : ascii) : option ascii :=
  match nat_of_ascii c with
  | 7%nat => Some "a"%char | 8%nat => Some "b"%char | 12%nat => Some "f"%char | 10%nat => Some "n"%char
  | 13%nat => Some "r"%char | 9%nat => Some "t"%char | 11%nat => Some "v"%char
  | _ => None
  end.

Definition quote_byte (c : ascii) : string :=
  if ascii_dec c dquote then String backslash (String dquote "")
  else if ascii_dec c backslash then String backslash (String backslash "")
  else match escape_letter c with
  | Some l => String backslash (String l "")
  | None =>
      let n := nat_of_ascii c in
      if (n <? 32)%nat || (n =? 127)%nat
      then String backslash (String "x"%char (hex_digit (Z.of_nat n / 16) +:+ hex_digit (Z.of_nat n mod 16)))
      else String c ""
  end.

Fixpoint quote_bytes (s : string) : string :=
  match s with
  | EmptyString => EmptyString
  | String c s => quote_byte c +:+ quote_bytes s
  end.

Definition Quote (s : string) : string := String dquote (quote_bytes s +:+ String dquote "").

(** [strings.Join]. *)
Fixpoint Join (l : list string) (sep : string) : string :=
  match l with
  | [] => ""
  | [s] => s
  | s :: l => s +:+ sep +:+ Join l sep
  end.

(** [%q] on a slice: the quoted elements in brackets, separated by blanks. *)
Definition Quote_slice (l : list string) : string := "[" +:+ Join (map Quote l) " " +:+ "]".

Definition is_dquote (c : ascii) : bool := bool_decide (c = dquote).
Definition is_bracket (c : ascii) : bool := bool_decide (c = "["%char) || bool_decide (c = "]"%char).

(** ** [strconv.ParseInt(s, 10, 32)]

    An optional sign and at least one digit; [None] for a syntax or range
    error. *)

Fixpoint dec_value (n : Z) (s : string) : option Z :=
  match s with
  | EmptyString => Some n
  | String c s => match dec_digit c with Some d => dec_value (n * 10 + d) s | None => None end
  end%Z.

Definition ParseInt32 (s : string) : option Z :=
  let signed sgn t := match t with
    | EmptyString => None
    | _ => dec_value 0 t ≫= (fun n => if ((- 2 ^ 31 <=? sgn * n) && (sgn * n <? 2 ^ 31))%Z then Some (sgn * n)%Z else None)
    end in
  match s with
  | EmptyString => None
  | String c t =>
      if ascii_dec c "-"%char then signed (-1)%Z t
      else if ascii_dec c "+"%char then signed 1%Z t
      else signed 1%Z s
  end.

(** The width of Go's [int32]. *)
Definition int32 (z : Z) : Z := ((z + 2 ^ 31) mod 2 ^ 32 - 2 ^ 31)%Z.

(** ** Lemmas *)

(** A byte that [%q] prints as it is. *)
Definition plain_byte (c : ascii) : bool := bool_decide (quote_byte c = String c "").

Fixpoint plain (s : string) : bool :=
  match s with EmptyString => true | String c s => plain_byte c && plain s end.

Lemma quote_bytes_plain s : plain s = true -> quote_bytes s = s.
Proof.
  induction s as [|c s IH]; simpl; [done|]. intros [Hc Hs]%andb_prop.
  apply bool_decide_eq_true in Hc. rewrite Hc, (IH Hs). done.
Qed.

Lemma plain_app s t : plain (s +:+ t) = plain s && plain t.
Proof. induction s as [|c s IH]; simpl; [done|]. by rewrite IH, andb_assoc. Qed.

Lemma plain_not_dquote c : plain_byte c = true -> is_dquote c = false.
Proof. destruct c as [[] [] [] [] [] [] [] []]; by vm_compute. Qed.

Lemma int32_small z : (- 2 ^ 31 <= z < 2 ^ 31)%Z -> int32 z = z.
Proof. intros Hz. unfold int32. rewrite Z.mod_small; lia. Qed.

(** Splitting what was joined. *)
Lemma Split_app sep s t :
  has_byte sep s = false -> Split sep (s +:+ String sep t) = s :: Split sep t.
Proof.
  induction s as [|c s IH]; simpl.
  - intros _. by destruct (ascii_dec sep sep).
  - rewrite has_byte_cons. intros [Hc Hs]%orb_false_iff. rewrite (IH Hs).
    destruct (ascii_dec c sep) as [->|]; [|done]. by rewrite bool_decide_true in Hc.
Qed.

Lemma Split_none sep s : has_byte sep s = false -> Split sep s = [s].
Proof.
  induction s as [|c s IH]; simpl; [done|]. rewrite has_byte_cons.
  intros [Hc Hs]%orb_false_iff. rewrite (IH Hs). destruct (ascii_dec c sep) as [->|]; [|done].
  by rewrite bool_decide_true in Hc.
Qed.

(** ** Reading back a printed number *)

Lemma dec_digit_char x : (x < 10)%N -> dec_digit (pretty_N_char x) = Some (Z.of_N x).
Proof. intros Hx. destruct x as [|p]; [done|]. by do 4 (destruct p as [p|p|]; try (done || lia)). Qed.

Lemma dec_value_go x s : dec_value 0 (pretty_N_go x s) = dec_value (Z.of_N x) s.
Proof.
  revert s. induction (N.lt_wf_0 x) as [x _ IH]; intros s.
  assert (x = 0 \/ 0 < x)%N as [->|Hx] by lia; [by rewrite pretty_N_go_0|].
  rewrite pretty_N_go_step, IH by (done || apply N.div_lt; lia). cbn [dec_value].
  rewrite dec_digit_char by (apply N.mod_lt; lia). f_equal.
  rewrite N2Z.inj_div, N2Z.inj_mod. pose proof (Z.div_mod (Z.of_N x) (Z.of_N 10)). lia.
Qed.

Lemma dec_value_Itoa z : (0 <= z)%Z -> dec_value 0 (Itoa z) = Some z.
Proof.
  unfold Itoa, pretty, pretty_Z. destruct z as [|p|p]; [done| |lia]. intros _.
  transitivity (dec_value 0 (pretty_N_go (N.pos p) "")); [done|by rewrite dec_value_go].
Qed.

Lemma Itoa_nonempty z : Itoa z <> "".
Proof.
  intros E. destruct (Z.le_gt_cases 0 z) as [Hz|Hz].
  - destruct z as [|p|p]; [done| |lia]. pose proof (dec_value_Itoa (Z.pos p) Hz) as H. rewrite E in H.
    simpl in H. congruence.
  - destruct z as [|p|p]; [lia..|]. discriminate E.
Qed.

Lemma ParseInt32_Itoa z : (0 <= z < 2 ^ 31)%Z -> ParseInt32 (Itoa z) = Some z.
Proof.
  intros Hz. pose proof (dec_value_Itoa z) as Hv. destruct (Itoa z) as [|c t] eqn:E; [by destruct (Itoa_nonempty z)|].
  specialize (Hv ltac:(lia)). unfold ParseInt32.
  destruct (ascii_dec c "-"%char) as [->|_]; [done|]. destruct (ascii_dec c "+"%char) as [->|_]; [done|].
  rewrite Hv. cbn -[Z.mul Z.leb Z.ltb Z.pow]. rewrite Z.mul_1_l.
  by replace (_ && _) with true by (symmetry; apply andb_true_iff; split; [apply Z.leb_le|apply Z.ltb_lt]; lia).
Qed.

Lemma Itoa_not_star z : Itoa z <> "*".
Proof.
  intros E. destruct (Z.le_gt_cases 0 z) as [Hz|Hz].
  - pose proof (dec_value_Itoa z Hz) as H. by rewrite E in H.
  - destruct z as [|p|p]; [lia..|]. discriminate E.
Qed.
