(* ===== verification/SecurityGroup.v ===== *)
(** * Cloud resources and security group names

    Model of [src/pkg/cloud-provider/securitygroup] (package [securitygroup]):
    the identifiers, rules and synchronisation records the controller and the
    cloud plug-ins exchange, and the mapping between a group of the controller
    and the name of the group the plug-in creates in the cloud. *)

From stdpp Require Import base strings list gmap.
From Stdlib Require Import Ascii.
From S2P Require Import Prelude GoStrings GoNet.

#[local] Open Scope string_scope.
#[local] Arguments String.append !_ _ : simpl nomatch.

(** ** Data (securitygroup.go) *)

(** [CloudResourceType]: the Go type is a string; its two values are the type
    names of [cloud.VirtualMachine] and [cloud.NetworkInterface]. *)
Definition CloudResourceType := string.
Definition CloudResourceTypeVM : CloudResourceType := "VirtualMachine".
Definition CloudResourceTypeNIC : CloudResourceType := "NetworkInterface".

Record CloudResourceID := mkCloudResourceID { cid_Name : string; cid_Vpc : string }.

Record CloudResource := mkCloudResource {
  cr_Type : CloudResourceType;
  cr_Name : CloudResourceID
}.

#[export] Instance CloudResourceID_eq_dec : EqDecision CloudResourceID.
Proof. solve_decision. Defined.
#[export] Instance CloudResource_eq_dec : EqDecision CloudResource.
Proof. unfold CloudResourceType. solve_decision. Defined.
#[export] Instance CloudResourceID_countable : Countable CloudResourceID.
Proof.
  by refine (inj_countable' (fun i => (cid_Name i, cid_Vpc i))
    (fun p => mkCloudResourceID p.1 p.2) _); intros [].
Defined.
#[export] Instance CloudResource_countable : Countable CloudResource.
Proof.
  by refine (inj_countable' (fun i => (cr_Type i, cr_Name i))
    (fun p => mkCloudResource p.1 p.2) _); intros [].
Defined.

(** The [String] methods of [CloudResourceID] and [CloudResource]. *)
Definition CloudResourceID_String (c : CloudResourceID) : string :=
  cid_Name c +:+ "/" +:+ cid_Vpc c.

Definition CloudResource_String (c : CloudResource) : string :=
  cr_Type c +:+ "/" +:+ CloudResourceID_String (cr_Name c).

(** [IngressRule] and [EgressRule].  A nil pointer is [None]; a nil slice and an
    empty slice are both [[]], the code does not tell them apart. *)
Record IngressRule := mkIngressRule {
  ir_FromPort : option Z;
  ir_FromSrcIP : list IPNet;
  ir_FromSecurityGroups : list CloudResourceID;
  ir_Protocol : option Z
}.

Record EgressRule := mkEgressRule {
  er_ToPort : option Z;
  er_ToDstIP : list IPNet;
  er_ToSecurityGroups : list CloudResourceID;
  er_Protocol : option Z
}.

(** [SynchronizationContent]: one security group as found in the cloud. *)
Record SynchronizationContent := mkSynchronizationContent {
  sc_Resource : CloudResourceID;
  sc_MembershipOnly : bool;
  sc_Members : list CloudResource;
  sc_MembersWithOtherSGAttached : list CloudResource;
  sc_IngressRules : list IngressRule;
  sc_EgressRules : list EgressRule
}.

#[export] Instance IngressRule_eq_dec : EqDecision IngressRule.
Proof. solve_decision. Defined.
#[export] Instance EgressRule_eq_dec : EqDecision EgressRule.
Proof. solve_decision. Defined.
#[export] Instance SynchronizationContent_eq_dec : EqDecision SynchronizationContent.
Proof. solve_decision. Defined.

(** ** Cloud names *)

Definition NepheControllerPrefix : string := "nephe-".
Definition NepheControllerAddressGroupPrefix : string := NepheControllerPrefix +:+ "ag-".
Definition NepheControllerAppliedToPrefix : string := NepheControllerPrefix +:+ "at-".

Definition GetCloudName (c : CloudResourceID) (membershipOnly : bool) : string :=
  if membershipOnly
  then NepheControllerAddressGroupPrefix +:+ ToLower (cid_Name c)
  else NepheControllerAppliedToPrefix +:+ ToLower (cid_Name c).

(** [IsNepheControllerCreatedSG]: group name, is it an address group, is it an
    appliedTo group. *)
Definition IsNepheControllerCreatedSG (cloudSgName : string) : string * bool * bool :=
  let suffix := TrimPrefix cloudSgName NepheControllerAddressGroupPrefix in
  let isAG := (String.length suffix <? String.length cloudSgName)%nat in
  if isAG then (ToLower suffix, true, false)
  else
    let suffix := TrimPrefix cloudSgName NepheControllerAppliedToPrefix in
    if (String.length suffix <? String.length cloudSgName)%nat
    then (ToLower suffix, false, true)
    else ("", false, false).

(** [FindResourcesBasedOnKind]: lower-cased names of the virtual machines and
    of the network interfaces of a resource list. *)
Definition FindResourcesBasedOnKind (cloudResources : list CloudResource) : gset string * gset string :=
  fold_left (fun acc r =>
      let '(vms, nics) := acc in
      let name := ToLower (cid_Name (cr_Name r)) in
      ((if decide (cr_Type r = CloudResourceTypeVM) then {[name]} ∪ vms else vms),
       (if decide (cr_Type r = CloudResourceTypeNIC) then {[name]} ∪ nics else nics)))
    cloudResources (∅, ∅).

(** [ProtocolNameNumMap]. *)
Definition ProtocolNameNumMap : gmap string Z :=
  list_to_map [("icmp", 1); ("igmp", 2); ("tcp", 6); ("udp", 17); ("icmpv6", 58)]%Z.

(** ** Lemmas *)

(** Resource identifiers print injectively as long as the names hold no
    slash. *)
Lemma CloudResourceID_String_inj a b :
  has_byte "/"%char (cid_Name a) = false -> has_byte "/"%char (cid_Name b) = false ->
  CloudResourceID_String a = CloudResourceID_String b -> a = b.
Proof.
  destruct a as [na va], b as [nb vb]; unfold CloudResourceID_String; simpl.
  intros Ha Hb Heq. destruct (split_at_byte_inj "/"%char na nb va vb) as [-> ->]; done.
Qed.

Lemma not_AG_prefix_of_AT s :
  HasPrefix (NepheControllerAppliedToPrefix +:+ s) NepheControllerAddressGroupPrefix = false.
Proof. reflexivity. Qed.

Lemma IsNephe_AG s :
  IsNepheControllerCreatedSG (NepheControllerAddressGroupPrefix +:+ s) = (ToLower s, true, false).
Proof.
  unfold IsNepheControllerCreatedSG. rewrite TrimPrefix_shorter by done.
  rewrite TrimPrefix_app. replace (HasPrefix _ _) with true; [done|].
  symmetry. apply HasPrefix_true. eauto.
Qed.

Lemma IsNephe_AT s :
  IsNepheControllerCreatedSG (NepheControllerAppliedToPrefix +:+ s) = (ToLower s, false, true).
Proof.
  unfold IsNepheControllerCreatedSG. rewrite !TrimPrefix_shorter by done.
  rewrite not_AG_prefix_of_AT, TrimPrefix_app.
  replace (HasPrefix _ _) with true; [done|].
  symmetry. apply HasPrefix_true. eauto.
Qed.

Lemma ToLower_GetCloudName id mo : ToLower (GetCloudName id mo) = GetCloudName id mo.
Proof. unfold GetCloudName. destruct mo; by rewrite ToLower_app, ToLower_idem. Qed.

(** C36: The name of a security group in the cloud tells, whatever the case of the
    group's own name, its lower-cased name and whether it is a membership-only
    (address) or an appliedTo group: [IsNepheControllerCreatedSG] inverts
    [GetCloudName]. *)
Theorem GetCloudName_roundtrip c membershipOnly :
  IsNepheControllerCreatedSG (GetCloudName c membershipOnly) =
  (ToLower (cid_Name c), membershipOnly, negb membershipOnly).
Proof.
  unfold GetCloudName. destruct membershipOnly;
    [rewrite IsNephe_AG|rewrite IsNephe_AT]; by rewrite ToLower_idem.
Qed.

Lemma IsNepheControllerCreatedSG_kind cloudSgName :
  let '(_, isAG, isAT) := IsNepheControllerCreatedSG cloudSgName in
  isAG = HasPrefix cloudSgName NepheControllerAddressGroupPrefix /\
  isAT = HasPrefix cloudSgName NepheControllerAppliedToPrefix.
Proof.
  destruct (HasPrefix cloudSgName NepheControllerAddressGroupPrefix) eqn:E1.
  - apply HasPrefix_true in E1 as [s ->]. rewrite IsNephe_AG. auto.
  - destruct (HasPrefix cloudSgName NepheControllerAppliedToPrefix) eqn:E2.
    + apply HasPrefix_true in E2 as [s ->]. rewrite IsNephe_AT. auto.
    + unfold IsNepheControllerCreatedSG. rewrite !TrimPrefix_shorter, E1, E2 by done. auto.
Qed.

(** [IsNepheControllerCreatedSG] claims exactly the groups whose name carries
    one of the two prefixes of the controller, and never as both kinds. *)
Theorem IsNepheControllerCreatedSG_spec cloudSgName :
  let '(name, isAG, isAT) := IsNepheControllerCreatedSG cloudSgName in
  isAG = HasPrefix cloudSgName NepheControllerAddressGroupPrefix /\
  isAT = HasPrefix cloudSgName NepheControllerAppliedToPrefix /\
  isAG && isAT = false /\
  (isAG || isAT = true \/ name = "").
Proof.
  destruct (HasPrefix cloudSgName NepheControllerAddressGroupPrefix) eqn:E1.
  - apply HasPrefix_true in E1 as [s ->]. rewrite IsNephe_AG. auto.
  - destruct (HasPrefix cloudSgName NepheControllerAppliedToPrefix) eqn:E2.
    + apply HasPrefix_true in E2 as [s ->]. rewrite IsNephe_AT. auto.
    + unfold IsNepheControllerCreatedSG. rewrite !TrimPrefix_shorter, E1, E2 by done. auto.
Qed.

(** [FindResourcesBasedOnKind], one resource list after another. *)
Lemma FindResourcesBasedOnKind_app l r :
  FindResourcesBasedOnKind (l ++ [r]) =
  let '(vms, nics) := FindResourcesBasedOnKind l in
  let name := ToLower (cid_Name (cr_Name r)) in
  ((if decide (cr_Type r = CloudResourceTypeVM) then {[name]} ∪ vms else vms),
   (if decide (cr_Type r = CloudResourceTypeNIC) then {[name]} ∪ nics else nics)).
Proof. unfold FindResourcesBasedOnKind. by rewrite fold_left_app. Qed.

(** [FindResourcesBasedOnKind] splits a resource list by kind: the first set
    holds the lower-cased names of the virtual machines, the second those of
    the network interfaces, and resources of another kind are in neither. *)
Theorem FindResourcesBasedOnKind_spec l name :
  (name ∈ (FindResourcesBasedOnKind l).1 <->
    exists r, r ∈ l /\ cr_Type r = CloudResourceTypeVM /\ ToLower (cid_Name (cr_Name r)) = name) /\
  (name ∈ (FindResourcesBasedOnKind l).2 <->
    exists r, r ∈ l /\ cr_Type r = CloudResourceTypeNIC /\ ToLower (cid_Name (cr_Name r)) = name).
Proof.
  induction l as [|r l [IH1 IH2]] using rev_ind; [set_solver|].
  rewrite FindResourcesBasedOnKind_app. destruct (FindResourcesBasedOnKind l) as [vms nics].
  simpl in *. setoid_rewrite elem_of_app. setoid_rewrite list_elem_of_singleton.
  split; case_decide; rewrite ?elem_of_union, ?elem_of_singleton, ?IH1, ?IH2; naive_solver.
Qed.
