(* ===== verification/RuleMerge.v ===== *)
(** * Merging groups, members and rules

    Model of the pure helpers of [src/pkg/controllers/cloud/networkpolicy.go]:
    differences between group lists, merging of members and of address blocks,
    and the deduplication of the rules of the policies applied to one group. *)

From stdpp Require Import base strings list gmap.
From Stdlib Require Import Ascii ZArith Lia.
From S2P Require Import Prelude GoStrings GoNet SecurityGroup.

#[local] Open Scope string_scope.
#[local] Open Scope Z_scope.

(** ** Unique group names *)

Definition uniqueGroupNameMemberPrefix : string := "mm_".

Definition getGroupUniqueName (name : string) (memberOnly : bool) : string :=
  if memberOnly then uniqueGroupNameMemberPrefix +:+ name else name.

Definition getGroupIDFromUniqueName (name : string) : string * bool :=
  match strip_prefix uniqueGroupNameMemberPrefix name with
  | Some rest => (rest, true)
  | None => (name, false)
  end.

(** ** The part of Antrea's policy rules the controller reads

    [antreanetworking.NetworkPolicyRule] (antrea.io/antrea controlplane API):
    direction, peers, services and action. *)

Inductive Direction := DirectionIn | DirectionOut.
Inductive Protocol := ProtocolTCP | ProtocolUDP | ProtocolSCTP | ProtocolOther (name : string).
Inductive RuleAction := RuleActionAllow | RuleActionOther (name : string).

Record IPBlock := mkIPBlock { ib_IP : IP; ib_PrefixLength : Z }.

Record NetworkPolicyPeer := mkPeer {
  peer_AddressGroups : list string;
  peer_IPBlocks : list IPBlock
}.

Record Service := mkService { svc_Protocol : option Protocol; svc_Port : option Z }.

Record NetworkPolicyRule := mkRule {
  rule_Direction : Direction;
  rule_From : NetworkPolicyPeer;
  rule_To : NetworkPolicyPeer;
  rule_Services : option (list Service);
  rule_Action : option RuleAction
}.

#[export] Instance Direction_eq_dec : EqDecision Direction.
Proof. solve_decision. Defined.
#[export] Instance Protocol_eq_dec : EqDecision Protocol.
Proof. solve_decision. Defined.
#[export] Instance RuleAction_eq_dec : EqDecision RuleAction.
Proof. solve_decision. Defined.
#[export] Instance IPBlock_eq_dec : EqDecision IPBlock.
Proof. unfold EqDecision, IP. solve_decision. Defined.
#[export] Instance NetworkPolicyPeer_eq_dec : EqDecision NetworkPolicyPeer.
Proof. solve_decision. Defined.
#[export] Instance Service_eq_dec : EqDecision Service.
Proof. solve_decision. Defined.
#[export] Instance NetworkPolicyRule_eq_dec : EqDecision NetworkPolicyRule.
Proof. solve_decision. Defined.

(** [AntreaProtocolMap]. *)
Definition AntreaProtocolMap (p : Protocol) : option Z :=
  match p with
  | ProtocolTCP => Some 6
  | ProtocolUDP => Some 17
  | ProtocolSCTP => Some 132
  | ProtocolOther _ => None
  end.

(** ** Differences between group lists *)

(** [temp[s] += d] on a Go map of counters, absent entries read as 0. *)
Definition bump (d : Z) (m : gmap string Z) (s : string) : gmap string Z :=
  <[s := default 0 (m !! s) + d]> m.

(** The address groups of a rule, in the order the loops visit them. *)
Definition rule_address_groups (r : NetworkPolicyRule) : list string :=
  (peer_AddressGroups (rule_From r) ++ peer_AddressGroups (rule_To r))%list.

Section Merge.
Context `{MapRange}.

(** One round and the whole of the loop [for s, v := range temp] of both diff
    functions. *)
Definition split_diff_step (acc : list string * list string) (sv : string * Z) :=
  let '(added, removed) := acc in
  let '(s, v) := sv in
  if 0 <? v then (added, removed ++ [s])%list
  else if v <? 0 then (added ++ [s], removed)%list
  else (added, removed).

Definition split_diff (temp : gmap string Z) : list string * list string :=
  fold_left split_diff_step (go_range temp) ([], []).

Definition diffAppliedToGrp (a b : list string) : list string * list string :=
  let temp := fold_left (bump 1) a ∅ in
  let temp := fold_left (bump (-1)) b temp in
  split_diff temp.

Definition diffAddressGrp (a b : list NetworkPolicyRule) : list string * list string :=
  let temp := fold_left (fun m r => fold_left (bump 1) (rule_address_groups r) m) a ∅ in
  let temp := fold_left (fun m r => fold_left (bump (-1)) (rule_address_groups r) m) b temp in
  split_diff temp.

(** ** Merging members and address blocks *)

Definition res_key (r : CloudResource) : string := CloudResourceID_String (cr_Name r).

(** [srcMap] after the three loops of [mergeCloudResources]. *)
Definition mergeCloudResources_map (src added removed : list CloudResource) : gmap string CloudResource :=
  let srcMap := fold_left (fun m s => <[res_key s := s]> m) src ∅ in
  let srcMap := fold_left (fun m r => delete (res_key r) m) removed srcMap in
  fold_left (fun m a => <[res_key a := a]> m) added srcMap.

Definition mergeCloudResources (src added removed : list CloudResource) : list CloudResource :=
  map snd (go_range (mergeCloudResources_map src added removed)).

Definition compareCloudResources (s1 s2 : list CloudResource) : bool :=
  if decide (length s1 <> length s2) then false
  else bool_decide (length (mergeCloudResources s1 [] s2) = 0%nat).

Definition mergeIPs_map (src added removed : list IPNet) : gmap string IPNet :=
  let srcMap := fold_left (fun m s => <[IPNet_String s := s]> m) src ∅ in
  let srcMap := fold_left (fun m r => delete (IPNet_String r) m) removed srcMap in
  fold_left (fun m a => <[IPNet_String a := a]> m) added srcMap.

Definition mergeIPs (src added removed : list IPNet) : list IPNet :=
  map snd (go_range (mergeIPs_map src added removed)).

(** ** Deduplicating address blocks *)

Definition overlap (ip1 ip2 : IPNet) : option IPNet :=
  let maskLen1 := Size_ones (in_Mask ip1) in
  let maskLen2 := Size_ones (in_Mask ip2) in
  if maskLen1 <? maskLen2 then
    if IPNet_Contains ip1 (in_IP ip2) then Some ip2 else None
  else
    if IPNet_Contains ip2 (in_IP ip1) then Some ip1 else None.

(** First loop of [deduplicateIP]: [ipList] and [existing]. *)
Definition dedup_strings (inputIP : list IPNet) : list IPNet * gmap string IPNet :=
  fold_left (fun acc ip =>
      let '(ipList, existing) := acc in
      match existing !! IPNet_String ip with
      | Some _ => acc
      | None => (ipList ++ [ip], <[IPNet_String ip := ip]> existing)%list
      end)
    inputIP ([], ∅).

(** Inner loop over [j], for one [i]. *)
Definition drop_overlaps_with (ip : IPNet) (rest : list IPNet) (existing : gmap string IPNet) : gmap string IPNet :=
  fold_left (fun m jp =>
      match overlap ip jp with
      | Some smallerIP => delete (IPNet_String smallerIP) m
      | None => m
      end) rest existing.

(** Both loops over [i < j]. *)
Fixpoint drop_overlaps (ipList : list IPNet) (existing : gmap string IPNet) : gmap string IPNet :=
  match ipList with
  | [] => existing
  | ip :: rest => drop_overlaps rest (drop_overlaps_with ip rest existing)
  end.

Definition deduplicateIP (inputIP : list IPNet) : list IPNet :=
  let '(ipList, existing) := dedup_strings inputIP in
  map snd (go_range (drop_overlaps ipList existing)).

Definition deduplicateSG (inputSG : list CloudResourceID) : list CloudResourceID :=
  (fold_left (fun acc sg =>
      let '(out, existing) := acc in
      if decide (CloudResourceID_String sg ∈ existing) then acc
      else (out ++ [sg], {[CloudResourceID_String sg]} ∪ existing)%list)
    inputSG ([], ∅ : gset string)).1.

(** ** Deduplicating rules *)

(** [deduplicateKey]: port and protocol, 0 when not given. *)
Definition deduplicateKey : Type := Z * Z.

Definition key_field (p : option Z) : Z := match p with Some v => v | None => 0 end.
Definition field_ptr (v : Z) : option Z := if v =? 0 then None else Some v.

(** [m[k] = append(m[k], l...)]. *)
Definition append_at {A} (m : gmap deduplicateKey (list A)) (k : deduplicateKey) (l : list A) :=
  <[k := (default [] (m !! k) ++ l)%list]> m.

Definition deduplicateIngressRules (ingressRules : list IngressRule) : list IngressRule :=
  let key r := (key_field (ir_FromPort r), key_field (ir_Protocol r)) in
  let '(inRuleIPSet, inRuleSGSet) :=
    fold_left (fun acc r =>
        let '(ips, sgs) := acc in
        (append_at ips (key r) (ir_FromSrcIP r), append_at sgs (key r) (ir_FromSecurityGroups r)))
      ingressRules (∅, ∅) in
  map (fun kv : deduplicateKey * list IPNet =>
      let '(k, v) := kv in
      {| ir_FromPort := field_ptr k.1;
         ir_FromSrcIP := deduplicateIP v;
         ir_FromSecurityGroups := deduplicateSG (default [] (inRuleSGSet !! k));
         ir_Protocol := field_ptr k.2 |})
    (go_range inRuleIPSet).

Definition deduplicateEgressRules (egressRules : list EgressRule) : list EgressRule :=
  let key r := (key_field (er_ToPort r), key_field (er_Protocol r)) in
  let '(eRuleIPSet, eRuleSGSet) :=
    fold_left (fun acc r =>
        let '(ips, sgs) := acc in
        (append_at ips (key r) (er_ToDstIP r), append_at sgs (key r) (er_ToSecurityGroups r)))
      egressRules (∅, ∅) in
  map (fun kv : deduplicateKey * list IPNet =>
      let '(k, v) := kv in
      {| er_ToPort := field_ptr k.1;
         er_ToDstIP := deduplicateIP v;
         er_ToSecurityGroups := deduplicateSG (default [] (eRuleSGSet !! k));
         er_Protocol := field_ptr k.2 |})
    (go_range eRuleIPSet).

(** ** Differences *)

Definition occ (s : string) (l : list string) : Z := Z.of_nat (length (filter (eq s) l)).

Lemma occ_app s l1 l2 : occ s (l1 ++ l2)%list = occ s l1 + occ s l2.
Proof. unfold occ. rewrite filter_app, length_app. lia. Qed.

Lemma fold_bump_lookup d l m s :
  default 0 (fold_left (bump d) l m !! s) = default 0 (m !! s) + d * occ s l.
Proof.
  induction l as [|x l IH] using rev_ind; [unfold occ; simpl; lia|].
  rewrite fold_left_app, occ_app. simpl. unfold bump at 1, occ at 2.
  destruct (decide (s = x)) as [<-|Hne].
  - rewrite lookup_insert_eq, filter_cons_True by done. simpl. rewrite IH. lia.
  - rewrite lookup_insert_ne, filter_cons_False by done. simpl. rewrite IH. lia.
Qed.

Lemma fold_bump_flat {A} (f : A -> list string) d a m :
  fold_left (fun m r => fold_left (bump d) (f r) m) a m = fold_left (bump d) (flat_map f a) m.
Proof.
  revert m. induction a as [|r a IH]; intros m; simpl; [done|]. by rewrite fold_left_app, IH.
Qed.

Lemma split_diff_filter l :
  fold_left split_diff_step l ([], []) =
  (map fst (filter (fun sv : string * Z => sv.2 < 0) l),
   map fst (filter (fun sv : string * Z => 0 < sv.2) l)).
Proof.
  induction l as [|[s v] l IH] using rev_ind; [done|].
  rewrite fold_left_app, IH, !filter_app, !map_app, !filter_cons, !filter_nil. simpl.
  destruct (Z.ltb_spec 0 v), (Z.ltb_spec v 0); repeat case_decide; try lia;
    simpl; rewrite ?app_nil_r; done.
Qed.

Lemma elem_of_range_filter (P : string * Z -> Prop) `{forall z, Decision (P z)} temp s :
  ~ P (s, 0) ->
  s ∈ map fst (filter P (go_range temp)) <-> P (s, default 0 (temp !! s)).
Proof.
  intros HP. rewrite list_elem_of_fmap. setoid_rewrite list_elem_of_filter. split.
  - intros ([s' v] & -> & Hv & Hin%elem_of_go_range). simpl in *. by rewrite Hin.
  - destruct (temp !! s) as [v|] eqn:E; simpl; [|done].
    intros. exists (s, v). by rewrite elem_of_go_range.
Qed.

Lemma NoDup_range_filter (P : string * Z -> Prop) `{forall z, Decision (P z)} temp :
  NoDup (map fst (filter P (go_range temp))).
Proof.
  eapply sublist_NoDup; [apply (NoDup_go_range_keys temp)|]. apply fmap_sublist, sublist_filter.
Qed.

(** What both diff functions compute, from the sequences of names they count. *)
Definition diff_spec (a b : list string) (res : list string * list string) : Prop :=
  (forall s, s ∈ res.1 <-> occ s a < occ s b) /\
  (forall s, s ∈ res.2 <-> occ s b < occ s a) /\
  NoDup res.1 /\ NoDup res.2.

Lemma split_diff_spec a b :
  diff_spec a b (split_diff (fold_left (bump (-1)) b (fold_left (bump 1) a ∅))).
Proof.
  unfold split_diff. rewrite split_diff_filter.
  assert (forall s, default 0 (fold_left (bump (-1)) b (fold_left (bump 1) a ∅) !! s) =
    occ s a - occ s b) as Hocc.
  { intros s. rewrite !fold_bump_lookup, lookup_empty. simpl. lia. }
  refine (conj _ (conj _ (conj _ _))); simpl; try apply NoDup_range_filter; intros s.
  - rewrite elem_of_range_filter, Hocc; simpl; lia.
  - rewrite elem_of_range_filter, Hocc; simpl; lia.
Qed.

(** [diffAppliedToGrp] compares two lists of group names by multiplicity: a
    name is reported added exactly when the new list holds it more often than
    the old one, removed when less often, and no name is reported twice. *)
Theorem diffAppliedToGrp_spec a b : diff_spec a b (diffAppliedToGrp a b).
Proof. apply split_diff_spec. Qed.

(** [diffAddressGrp] reports as added, resp. removed, the address groups the
    new rules name more, resp. less, often than the old rules, over both peers
    of every rule. *)
Theorem diffAddressGrp_spec a b :
  diff_spec (flat_map rule_address_groups a) (flat_map rule_address_groups b) (diffAddressGrp a b).
Proof. unfold diffAddressGrp. rewrite !fold_bump_flat. apply split_diff_spec. Qed.

(** ** Merging *)

Lemma mergeCloudResources_lookup src added removed k :
  mergeCloudResources_map src added removed !! k =
  match last_with res_key k added with
  | Some a => Some a
  | None => if decide (k ∈ map res_key removed) then None else last_with res_key k src
  end.
Proof.
  unfold mergeCloudResources_map. rewrite fold_insert_lookup, fold_delete_lookup.
  rewrite fold_insert_lookup, lookup_empty.
  destruct (last_with res_key k src); by repeat case_match.
Qed.

Lemma mergeCloudResources_map_key src added removed k r :
  mergeCloudResources_map src added removed !! k = Some r -> res_key r = k.
Proof.
  rewrite mergeCloudResources_lookup. destruct (last_with res_key k added) eqn:E.
  - intros [= <-]. by apply last_with_key in E as [? _].
  - case_decide; [done|]. by intros [? _]%last_with_key.
Qed.

(** [mergeCloudResources] is the update of a member table by name: it holds
    the last added resource of every added name, the last source resource of
    every other name that is not removed, nothing else, and each name once. *)
Theorem mergeCloudResources_spec src added removed :
  NoDup (map res_key (mergeCloudResources src added removed)) /\
  (forall r, r ∈ mergeCloudResources src added removed <->
    last_with res_key (res_key r) added = Some r \/
    ((res_key r ∉ map res_key added) /\ (res_key r ∉ map res_key removed) /\
     last_with res_key (res_key r) src = Some r)).
Proof.
  unfold mergeCloudResources. split.
  { rewrite go_range_values_keys; auto with nephe. apply mergeCloudResources_map_key. }
  intros r. rewrite elem_of_go_range_values, <- last_with_None. split.
  - intros [k Hk]. pose proof (mergeCloudResources_map_key _ _ _ _ _ Hk) as <-.
    rewrite mergeCloudResources_lookup in Hk.
    destruct (last_with _ _ added); [by left|right]. case_decide; by repeat split.
  - intros Hr. exists (res_key r). rewrite mergeCloudResources_lookup.
    destruct Hr as [-> | (-> & Hn & ->)]; [done|]. by rewrite decide_False.
Qed.

(** On a member list whose names are distinct, [compareCloudResources]
    decides whether the two lists name the same resources. *)
Theorem compareCloudResources_spec s1 s2 :
  NoDup (map res_key s1) ->
  compareCloudResources s1 s2 = true <-> map res_key s1 ≡ₚ map res_key s2.
Proof.
  intros Hnd. unfold compareCloudResources, mergeCloudResources.
  assert (length (go_range (mergeCloudResources_map s1 [] s2)) = 0%nat <->
    map res_key s1 ⊆ map res_key s2) as Hsub.
  { rewrite length_zero_iff_nil, go_range_empty. split.
    - intros E k Hk. destruct (decide (k ∈ map res_key s2)) as [|Hn]; [done|].
      pose proof (mergeCloudResources_lookup s1 [] s2 k) as Hl.
      rewrite E, lookup_empty, decide_False in Hl by done.
      symmetry in Hl. by apply last_with_None in Hl.
    - intros Hs. apply map_empty. intros k. rewrite mergeCloudResources_lookup. simpl.
      case_decide as Hd; [done|]. apply last_with_None. eauto. }
  case_decide as Hlen; rewrite ?bool_decide_eq_true, ?length_map, ?Hsub.
  - split; [done|]. intros Hp%Permutation_length. rewrite !length_map in Hp. done.
  - split.
    + intros Hs. apply submseteq_length_Permutation; [by apply NoDup_submseteq|].
      rewrite !length_map. lia.
    + intros Hp k. by rewrite Hp.
Qed.

(** ** Deduplicating address blocks: proofs *)

Definition all_ipv4 (l : list IPNet) : Prop := Forall (fun n => ipv4_ok n = true) l.

(** What the first loop leaves: the list without repeated strings, and the same
    blocks as a map. *)
Lemma dedup_strings_spec l :
  let '(ipList, existing) := dedup_strings l in
  ipList ⊆ l /\ NoDup (map IPNet_String ipList) /\
  (forall x, x ∈ l -> exists y, y ∈ ipList /\ IPNet_String y = IPNet_String x) /\
  (forall s y, existing !! s = Some y <-> y ∈ ipList /\ IPNet_String y = s).
Proof.
  unfold dedup_strings. induction l as [|x l IH] using rev_ind.
  { refine (conj _ (conj _ (conj _ _))); [done|apply NoDup_nil_2|by intros x Hx%not_elem_of_nil|].
    intros s y. simpl. rewrite lookup_empty. split; [done|]. by intros [Hy%not_elem_of_nil _]. }
  rewrite fold_left_app. simpl. destruct (fold_left _ l _) as [ipList existing].
  destruct IH as (Hsub & Hnd & Hcov & Hmap).
  destruct (existing !! IPNet_String x) as [y|] eqn:E.
  - apply Hmap in E as [Hy Hs]. split_and!; [set_solver|done| |done].
    intros x'. rewrite elem_of_app, list_elem_of_singleton. intros [?| ->]; eauto.
  - assert (forall y, y ∈ ipList -> IPNet_String y <> IPNet_String x) as Hne.
    { intros y Hy Hs. enough (existing !! IPNet_String x = Some y) by congruence.
      by apply Hmap. }
    split_and!; [set_solver| | |].
    + rewrite map_app. apply NoDup_app. split_and!; [done| |apply NoDup_singleton].
      intros s Hs Hx. apply list_elem_of_singleton in Hx as ->.
      apply list_elem_of_fmap in Hs as (y & Hxy & Hy). by apply (Hne y).
    + intros x'. rewrite elem_of_app, list_elem_of_singleton. intros [Hx'| ->].
      * destruct (Hcov x' Hx') as (y & ? & ?). exists y. set_solver.
      * exists x. set_solver.
    + intros s y. rewrite elem_of_app, list_elem_of_singleton.
      destruct (decide (s = IPNet_String x)) as [->|Hs].
      * rewrite lookup_insert_eq. split; [naive_solver|].
        intros [[Hy | ->] Hxy]; [by destruct (Hne y Hy)|done].
      * rewrite lookup_insert_ne, Hmap by done. naive_solver.
Qed.

(** [drop_overlaps] deletes the block [overlap] selects from some pair. *)
Definition dropped (l : list IPNet) (s : string) : Prop :=
  exists p a q b e, l = (p ++ a :: q)%list /\ b ∈ q /\ overlap a b = Some e /\ IPNet_String e = s.

Lemma drop_overlaps_with_lookup a rest m s :
  drop_overlaps_with a rest m !! s = m !! s \/
  (drop_overlaps_with a rest m !! s = None /\
   exists b e, b ∈ rest /\ overlap a b = Some e /\ IPNet_String e = s).
Proof.
  revert m. induction rest as [|b rest IH]; intros m; [by left|]. unfold drop_overlaps_with in *.
  simpl. destruct (IH (match overlap a b with Some e => delete (IPNet_String e) m | None => m end))
    as [->|(-> & b' & e & ? & ? & ?)].
  - destruct (overlap a b) as [e|] eqn:E; [|by left].
    destruct (decide (IPNet_String e = s)) as [<-|Hs].
    + right. rewrite lookup_delete_eq. split; [done|]. exists b, e. set_solver.
    + left. by rewrite lookup_delete_ne.
  - right. split; [done|]. exists b', e. set_solver.
Qed.

Lemma drop_overlaps_with_dropped a rest m b e :
  b ∈ rest -> overlap a b = Some e -> drop_overlaps_with a rest m !! IPNet_String e = None.
Proof.
  intros Hb Ho. revert m. induction rest as [|c rest IH]; intros m; [by apply not_elem_of_nil in Hb|].
  apply elem_of_cons in Hb as [<-|Hb].
  - unfold drop_overlaps_with. simpl. rewrite Ho.
    destruct (drop_overlaps_with_lookup a rest (delete (IPNet_String e) m) (IPNet_String e))
      as [E|[E _]]; unfold drop_overlaps_with in E; rewrite E; [|done].
    by rewrite lookup_delete_eq.
  - unfold drop_overlaps_with in *. simpl. by apply IH.
Qed.

Lemma drop_overlaps_lookup l m s :
  (drop_overlaps l m !! s = m !! s /\ ~ dropped l s) \/ (drop_overlaps l m !! s = None /\ dropped l s) \/
  (drop_overlaps l m !! s = None /\ m !! s = None).
Proof.
  revert m. induction l as [|a l IH]; intros m; simpl.
  { left. split; [done|]. intros ([|] & ? & ? & ? & ? & ? & _); done. }
  destruct (IH (drop_overlaps_with a l m)) as [[-> Hn]|[[-> Hd]|[-> Hm]]].
  - destruct (drop_overlaps_with_lookup a l m s) as [E|(E & b & e & ? & ? & ?)].
    + destruct (m !! s) eqn:Em; rewrite E; [left|auto]. split; [done|].
      intros ([|c p] & a' & q & b & e & Heq & Hb & Ho & Hs); simplify_eq/=.
      * by rewrite (drop_overlaps_with_dropped a' q m b e) in E.
      * apply Hn. exists p, a', q, b, e. done.
    + right. left. rewrite E. split; [done|]. exists [], a, l, b, e. done.
  - right. left. split; [done|]. destruct Hd as (p & a' & q & b & e & -> & ?).
    exists (a :: p), a', q, b, e. done.
  - destruct (drop_overlaps_with_lookup a l m s) as [E|(E & b & e & ? & ? & ?)].
    + right. right. split; congruence.
    + right. left. split; [done|]. exists [], a, l, b, e. done.
Qed.

(** Membership of the result: the blocks of the first loop that no pair drops. *)
Lemma elem_of_deduplicateIP l x :
  x ∈ deduplicateIP l <->
  x ∈ (dedup_strings l).1 /\ ~ dropped (dedup_strings l).1 (IPNet_String x).
Proof.
  unfold deduplicateIP. pose proof (dedup_strings_spec l) as H'.
  destruct (dedup_strings l) as [ipList existing]. destruct H' as (_ & Hnd & _ & Hmap). simpl.
  rewrite elem_of_go_range_values. split.
  - intros [s Hs]. destruct (drop_overlaps_lookup ipList existing s) as [[E Hn]|[[E _]|[E _]]];
      rewrite E in Hs; try done. by apply Hmap in Hs as [? <-].
  - intros [Hx Hn]. exists (IPNet_String x).
    assert (existing !! IPNet_String x = Some x) as Ex by by apply Hmap.
    destruct (drop_overlaps_lookup ipList existing (IPNet_String x)) as [[-> _]|[[_ ?]|[_ ?]]];
      [done|done|congruence].
Qed.

Lemma overlap_cases a b e :
  overlap a b = Some e ->
  (e = b /\ Size_ones (in_Mask a) < Size_ones (in_Mask b) /\ IPNet_Contains a (in_IP b) = true) \/
  (e = a /\ Size_ones (in_Mask b) <= Size_ones (in_Mask a) /\ IPNet_Contains b (in_IP a) = true).
Proof. unfold overlap. destruct (Z.ltb_spec (Size_ones (in_Mask a)) (Size_ones (in_Mask b)));
  case_match; intros [= <-]; [left|right]; done.
Qed.

(** [y] covers [x]: its mask is no longer and it holds the address of [x]. *)
Definition covers (y x : IPNet) : Prop :=
  Size_ones (in_Mask y) <= Size_ones (in_Mask x) /\ IPNet_Contains y (in_IP x) = true.

Lemma covers_trans z y x :
  ipv4_ok z = true -> ipv4_ok y = true -> covers z y -> covers y x -> covers z x.
Proof.
  intros Hz Hy [Hzy Cz] [Hyx Cy]. split; [lia|]. by apply (IPNet_Contains_widen z y).
Qed.

(** A dropped block is covered by one with a strictly shorter mask, or by a
    later one. *)
Lemma dropped_covered l p x q :
  NoDup (map IPNet_String l) -> l = (p ++ x :: q)%list -> dropped l (IPNet_String x) ->
  exists y, y ∈ l /\ covers y x /\ (Size_ones (in_Mask y) < Size_ones (in_Mask x) \/ y ∈ q).
Proof.
  intros Hnd Hl (p' & a & q' & b & e & Hl' & Hb & Ho & He).
  assert (b ∈ l) as Hbl by (rewrite Hl'; set_solver).
  apply overlap_cases in Ho as [(-> & Hlt & Hc)|(-> & Hle & Hc)].
  - assert (b = x) as -> by (eapply NoDup_key_inj; eauto; rewrite Hl; set_solver).
    exists a. split; [rewrite Hl'; set_solver|]. split; [split; [lia|done]|by left].
  - destruct (NoDup_key_split IPNet_String p x q p' a q') as (-> & -> & ->); try congruence.
    exists b. split; [done|]. split; [by split|by right].
Qed.

Lemma dropped_dec l s : dropped l s \/ ~ dropped l s.
Proof.
  destruct (drop_overlaps_lookup l {[s := mkIPNet [] []]} s) as [[_ ?]|[[_ ?]|[_ E]]]; auto.
  by rewrite lookup_singleton_eq in E.
Qed.

Lemma survivor_covers l :
  all_ipv4 l -> NoDup (map IPNet_String l) ->
  forall x, x ∈ l -> exists y, y ∈ l /\ ~ dropped l (IPNet_String y) /\ covers y x.
Proof.
  intros Hok Hnd.
  assert (forall y, y ∈ l -> ipv4_ok y = true) as Hok' by by apply list.Forall_forall.
  cut (forall n k x p q, (Z.to_nat (Size_ones (in_Mask x)) < n)%nat -> (length q < k)%nat ->
    l = (p ++ x :: q)%list -> exists y, y ∈ l /\ ~ dropped l (IPNet_String y) /\ covers y x).
  { intros Hcut x (p & q & E)%list_elem_of_split. by apply (Hcut (S (Z.to_nat (Size_ones (in_Mask x)))) (S (length q)) x p q); [lia..|]. }
  induction n as [|n IHn]; [lia|]. induction k as [|k IHk]; [lia|]. intros x p q Hn Hk Hl.
  assert (x ∈ l) as Hx by (rewrite Hl; set_solver).
  destruct (dropped_dec l (IPNet_String x)) as [Hd|Hd].
  - destruct (dropped_covered l p x q Hnd Hl Hd) as (y & Hy & Hc & Hcase).
    assert (exists z, z ∈ l /\ ~ dropped l (IPNet_String z) /\ covers z y) as (z & Hz & Hzd & Hzy).
    { pose proof (Size_ones_nonneg (in_Mask y)). destruct Hcase as [Hlt|Hq].
      - apply list_elem_of_split in Hy as (p' & q' & E).
        apply (IHn (S (length q')) y p' q'); [lia..|done].
      - apply list_elem_of_split in Hq as (q1 & q2 & ->).
        apply (IHk y (p ++ x :: q1)%list q2).
        + destruct Hc. lia.
        + rewrite length_app in Hk. simpl in Hk. lia.
        + by rewrite Hl, <- app_assoc. }
    exists z. refine (conj Hz (conj Hzd _)). apply (covers_trans z y x); auto.
  - exists x. refine (conj Hx (conj Hd (conj _ _))); [lia|]. by apply IPNet_Contains_self, Hok'.
Qed.

Lemma dedup_strings_ipv4 l : all_ipv4 l -> all_ipv4 (dedup_strings l).1.
Proof.
  intros Hl. pose proof (dedup_strings_spec l) as Hs. destruct (dedup_strings l) as [l' m].
  destruct Hs as (Hsub & _). unfold all_ipv4 in *. rewrite list.Forall_forall in *. simpl. auto.
Qed.

Lemma deduplicateIP_covers l :
  all_ipv4 l ->
  deduplicateIP l ⊆ l /\
  (forall ip, (exists x, x ∈ l /\ IPNet_Contains x ip = true) <->
              (exists y, y ∈ deduplicateIP l /\ IPNet_Contains y ip = true)).
Proof.
  intros Hl. pose proof (dedup_strings_ipv4 l Hl) as Hl'. pose proof (dedup_strings_spec l) as Hs.
  destruct (dedup_strings l) as [l' m] eqn:El. destruct Hs as (Hsub & Hnd & Hcov & _). simpl in *.
  assert (deduplicateIP l ⊆ l) as Hsub'.
  { intros y. rewrite elem_of_deduplicateIP, El. intros [? _]. auto. }
  split; [done|]. unfold all_ipv4 in Hl, Hl'. rewrite list.Forall_forall in Hl, Hl'.
  intros ip. split; [|naive_solver].
  intros (x & Hx & Hip). destruct (Hcov x Hx) as (x' & Hx' & Heq).
  assert (IPNet_Contains x' ip = true) as Hip'.
  { rewrite <- Hip. apply IPNet_Contains_number, IPNet_String_v4_inj; auto. }
  destruct (survivor_covers l' (proj2 (list.Forall_forall _ _) Hl') Hnd x' Hx') as (y & Hy & Hnd' & Hle & Hc).
  exists y. rewrite elem_of_deduplicateIP, El. split; [done|].
  apply (IPNet_Contains_widen y x'); auto.
Qed.

(** Deduplicating the IPv4 blocks of a rule neither adds nor loses an
    address: an address is in a block of the result exactly when it is in a
    block of the input, and every block of the result is one of the input. *)
Theorem deduplicateIP_coverage l :
  all_ipv4 l ->
  deduplicateIP l ⊆ l /\
  (forall ip, (exists x, x ∈ l /\ IPNet_Contains x ip = true) <->
              (exists y, y ∈ deduplicateIP l /\ IPNet_Contains y ip = true)).
Proof. apply deduplicateIP_covers. Qed.

(** Two blocks that share an address overlap, whichever comes first. *)
Lemma overlap_common a b ip :
  ipv4_ok a = true -> ipv4_ok b = true ->
  IPNet_Contains a ip = true -> IPNet_Contains b ip = true ->
  exists e, overlap a b = Some e /\ (e = a \/ e = b).
Proof.
  intros Ha Hb Ca Cb. unfold overlap.
  destruct (Z.ltb_spec (Size_ones (in_Mask a)) (Size_ones (in_Mask b))).
  - rewrite (IPNet_Contains_common a b ip) by (done || lia). eauto.
  - rewrite (IPNet_Contains_common b a ip) by (done || lia). eauto.
Qed.

Lemma survivors_disjoint l x y ip :
  all_ipv4 l -> x ∈ l -> y ∈ l -> ~ dropped l (IPNet_String x) -> ~ dropped l (IPNet_String y) ->
  IPNet_Contains x ip = true -> IPNet_Contains y ip = true -> x = y.
Proof.
  unfold all_ipv4. rewrite list.Forall_forall. intros Hok Hx Hy Hdx Hdy Cx Cy.
  destruct (decide (x = y)) as [|Hne]; [done|exfalso].
  apply list_elem_of_split in Hx as (p & q & ->).
  apply elem_of_app in Hy as [Hy|[->|Hy]%elem_of_cons]; [|done|].
  - apply list_elem_of_split in Hy as (p1 & p2 & ->).
    destruct (overlap_common y x ip) as (e & He & Hcase); try (apply Hok; set_solver); [done..|].
    assert (dropped ((p1 ++ y :: p2) ++ x :: q) (IPNet_String e)) as Hd.
    { exists p1, y, (p2 ++ x :: q)%list, x, e. rewrite <- app_assoc. split_and!; set_solver. }
    destruct Hcase as [-> | ->]; done.
  - destruct (overlap_common x y ip) as (e & He & Hcase); try (apply Hok; set_solver); [done..|].
    assert (dropped (p ++ x :: q) (IPNet_String e)) as Hd by (exists p, x, q, y, e; done).
    destruct Hcase as [-> | ->]; done.
Qed.

(** The blocks [deduplicateIP] returns are distinct and share no address, so
    the rule sent to the cloud holds no redundant block. *)
Theorem deduplicateIP_disjoint l :
  all_ipv4 l ->
  NoDup (deduplicateIP l) /\
  (forall x y ip, x ∈ deduplicateIP l -> y ∈ deduplicateIP l ->
    IPNet_Contains x ip = true -> IPNet_Contains y ip = true -> x = y).
Proof.
  intros Hl. split.
  - unfold deduplicateIP. pose proof (dedup_strings_spec l) as Hs.
    destruct (dedup_strings l) as [l' m]. destruct Hs as (_ & _ & _ & Hmap).
    apply (NoDup_fmap_1 IPNet_String).
    rewrite (go_range_values_keys IPNet_String); auto with nephe.
    intros s v Hs. destruct (drop_overlaps_lookup l' m s) as [[E _]|[[E _]|[E _]]]; rewrite E in Hs;
      try done. by apply Hmap in Hs as [_ ?].
  - intros x y ip [Hx Hdx]%elem_of_deduplicateIP [Hy Hdy]%elem_of_deduplicateIP.
    apply (survivors_disjoint (dedup_strings l).1); auto using dedup_strings_ipv4.
Qed.

(** ** Deduplicating groups and rules: proofs *)

Lemma deduplicateSG_spec l :
  deduplicateSG l ⊆ l /\ NoDup (map CloudResourceID_String (deduplicateSG l)) /\
  (forall x, x ∈ l -> exists y, y ∈ deduplicateSG l /\ CloudResourceID_String y = CloudResourceID_String x).
Proof.
  unfold deduplicateSG.
  set (step := fun (acc : list CloudResourceID * gset string) sg => _).
  cut (let '(out, existing) := fold_left step l ([], ∅) in
    out ⊆ l /\ NoDup (map CloudResourceID_String out) /\
    (forall x, x ∈ l -> exists y, y ∈ out /\ CloudResourceID_String y = CloudResourceID_String x) /\
    (forall s, s ∈ existing <-> s ∈ map CloudResourceID_String out)).
  { destruct (fold_left step l ([], ∅)). intros (? & ? & ? & _). done. }
  induction l as [|x l IH] using rev_ind.
  { split_and!; [done|apply NoDup_nil_2|by intros x Hx%not_elem_of_nil|set_solver]. }
  rewrite fold_left_app. simpl. destruct (fold_left step l _) as [out existing].
  destruct IH as (Hsub & Hnd & Hcov & Hex). unfold step. case_decide as Hx; rewrite Hex in Hx.
  - apply list_elem_of_fmap in Hx as (y & Hxy & Hy). split_and!; [set_solver|done| |done].
    intros x'. rewrite elem_of_app, list_elem_of_singleton. intros [?| ->]; eauto.
  - rewrite map_app. split_and!; [set_solver| | |].
    + apply NoDup_app. split_and!; [done| |apply NoDup_singleton].
      intros s Hs Hs'. apply list_elem_of_singleton in Hs' as ->. done.
    + intros x'. rewrite elem_of_app, list_elem_of_singleton. intros [Hx'| ->].
      * destruct (Hcov x' Hx') as (y & ? & ?). exists y. set_solver.
      * exists x. set_solver.
    + intros s. rewrite elem_of_union, elem_of_singleton, Hex, elem_of_app. simpl.
      rewrite list_elem_of_singleton. tauto.
Qed.

Definition slash_free (c : CloudResourceID) : Prop := has_byte "/"%char (cid_Name c) = false.

Lemma elem_of_deduplicateSG l x :
  Forall slash_free l -> (x ∈ deduplicateSG l <-> x ∈ l).
Proof.
  rewrite list.Forall_forall. intros Hl. destruct (deduplicateSG_spec l) as (Hsub & _ & Hcov).
  split; [auto|]. intros Hx. destruct (Hcov x Hx) as (y & Hy & Heq).
  apply CloudResourceID_String_inj in Heq as <-; [done|apply Hl; auto..].
Qed.

(** [m[key(r)] = append(m[key(r)], f(r)...)] over a list of rules. *)
Lemma fold_append_at_lookup {R A} (key : R -> deduplicateKey) (f : R -> list A) rs m k :
  default [] (fold_left (fun m r => append_at m (key r) (f r)) rs m !! k) =
  (default [] (m !! k) ++ flat_map f (filter (fun r => key r = k) rs))%list.
Proof.
  induction rs as [|r rs IH] using rev_ind; [by rewrite app_nil_r|].
  rewrite fold_left_app, filter_app, flat_map_app. simpl. unfold append_at at 1.
  rewrite filter_cons, filter_nil. case_decide as Hk; simpl.
  - subst. by rewrite lookup_insert_eq, IH, app_nil_r, app_assoc.
  - by rewrite lookup_insert_ne, IH, app_nil_r.
Qed.

Lemma fold_append_at_is_Some {R A} (key : R -> deduplicateKey) (f : R -> list A) rs m k :
  is_Some (fold_left (fun m r => append_at m (key r) (f r)) rs m !! k) <->
  is_Some (m !! k) \/ k ∈ map key rs.
Proof.
  induction rs as [|r rs IH] using rev_ind; [set_solver|].
  rewrite fold_left_app, map_app, elem_of_app. simpl. rewrite list_elem_of_singleton.
  unfold append_at at 1. destruct (decide (key r = k)) as [<-|Hk].
  - rewrite lookup_insert_eq. split; eauto.
  - rewrite lookup_insert_ne, IH by done. intuition congruence.
Qed.

Lemma fold_left_pair {A B C} (f : A -> C -> A) (g : B -> C -> B) l a b :
  fold_left (fun acc r => let '(x, y) := acc in (f x r, g y r)) l (a, b) =
  (fold_left f l a, fold_left g l b).
Proof. revert a b. induction l as [|c l IH]; intros a b; simpl; auto. Qed.

(** ** What a rule admits

    A rule without port (protocol) admits every port (protocol); traffic comes
    from an address or from a member of a security group. *)
Inductive Peer := PeerIP (ip : IP) | PeerSG (sg : CloudResourceID).

Definition field_admits (f : option Z) (v : Z) : Prop := match f with None => True | Some w => w = v end.

Definition peer_admits (ips : list IPNet) (sgs : list CloudResourceID) (p : Peer) : Prop :=
  match p with
  | PeerIP ip => exists n, n ∈ ips /\ IPNet_Contains n ip = true
  | PeerSG sg => sg ∈ sgs
  end.

Definition ingress_admits (r : IngressRule) (proto port : Z) (p : Peer) : Prop :=
  field_admits (ir_Protocol r) proto /\ field_admits (ir_FromPort r) port /\
  peer_admits (ir_FromSrcIP r) (ir_FromSecurityGroups r) p.

Definition egress_admits (r : EgressRule) (proto port : Z) (p : Peer) : Prop :=
  field_admits (er_Protocol r) proto /\ field_admits (er_ToPort r) port /\
  peer_admits (er_ToDstIP r) (er_ToSecurityGroups r) p.

(** The rules the controller builds for IPv4 policies: port and protocol 0 are
    not used, blocks are IPv4, group names hold no slash. *)
Definition fields_wf (port proto : option Z) (ips : list IPNet) (sgs : list CloudResourceID) : Prop :=
  port <> Some 0 /\ proto <> Some 0 /\ all_ipv4 ips /\ Forall slash_free sgs.

Definition ingress_wf (r : IngressRule) : Prop :=
  fields_wf (ir_FromPort r) (ir_Protocol r) (ir_FromSrcIP r) (ir_FromSecurityGroups r).
Definition egress_wf (r : EgressRule) : Prop :=
  fields_wf (er_ToPort r) (er_Protocol r) (er_ToDstIP r) (er_ToSecurityGroups r).

Lemma field_ptr_key p : p <> Some 0 -> field_ptr (key_field p) = p.
Proof.
  destruct p as [v|]; [|done]. unfold field_ptr. simpl.
  destruct (Z.eqb_spec v 0); [|done]. intros []. by subst.
Qed.

(** Grouping by key and deduplicating each group, for any kind of rule. *)
Section Grouping.
Context {R : Type} (port proto : R -> option Z) (ips : R -> list IPNet) (sgs : R -> list CloudResourceID).

Definition rule_key (r : R) : deduplicateKey := (key_field (port r), key_field (proto r)).
Definition rule_wf (r : R) : Prop := fields_wf (port r) (proto r) (ips r) (sgs r).

Lemma merged_peer_admits rs k p :
  Forall rule_wf rs ->
  peer_admits (deduplicateIP (flat_map ips (filter (fun r => rule_key r = k) rs)))
              (deduplicateSG (flat_map sgs (filter (fun r => rule_key r = k) rs))) p <->
  exists r, r ∈ rs /\ rule_key r = k /\ peer_admits (ips r) (sgs r) p.
Proof.
  rewrite list.Forall_forall. intros Hwf.
  assert (forall r, r ∈ filter (fun r => rule_key r = k) rs <-> rule_key r = k /\ r ∈ rs) as Hin
    by (intros r; by rewrite list_elem_of_filter).
  destruct p as [ip|sg]; simpl.
  - destruct (deduplicateIP_covers (flat_map ips (filter (fun r => rule_key r = k) rs))) as [_ <-].
    { unfold all_ipv4. rewrite list.Forall_forall. intros n (r & Hr & Hn)%list_elem_of_In%in_flat_map.
      apply list_elem_of_In, Hin in Hr as [_ Hr]. destruct (Hwf r Hr) as (_ & _ & Hips & _).
      unfold all_ipv4 in Hips. rewrite list.Forall_forall in Hips. by apply Hips, list_elem_of_In. }
    setoid_rewrite list_elem_of_In. setoid_rewrite in_flat_map. setoid_rewrite <- list_elem_of_In.
    setoid_rewrite Hin. naive_solver.
  - rewrite elem_of_deduplicateSG.
    + rewrite list_elem_of_In, in_flat_map. setoid_rewrite <- list_elem_of_In.
      setoid_rewrite Hin. naive_solver.
    + rewrite list.Forall_forall. intros s (r & Hr & Hs)%list_elem_of_In%in_flat_map.
      apply list_elem_of_In, Hin in Hr as [_ Hr]. destruct (Hwf r Hr) as (_ & _ & _ & Hsgs).
      rewrite list.Forall_forall in Hsgs. by apply Hsgs, list_elem_of_In.
Qed.

(** The entries of the two maps the grouping loop fills, one rebuilt per key. *)
Lemma grouped_elem {X} (mk : deduplicateKey -> list IPNet -> list CloudResourceID -> X) rs x :
  x ∈ map (fun kv : deduplicateKey * list IPNet => let '(k, v) := kv in
        mk k v (default [] (fold_left (fun m r => append_at m (rule_key r) (sgs r)) rs ∅ !! k)))
      (go_range (fold_left (fun m r => append_at m (rule_key r) (ips r)) rs ∅)) <->
  exists k, k ∈ map rule_key rs /\
    x = mk k (flat_map ips (filter (fun r => rule_key r = k) rs))
             (flat_map sgs (filter (fun r => rule_key r = k) rs)).
Proof.
  rewrite list_elem_of_fmap.
  pose proof (fun k => fold_append_at_lookup rule_key ips rs ∅ k) as Hip.
  pose proof (fun k => fold_append_at_is_Some rule_key ips rs ∅ k) as Hdom.
  setoid_rewrite lookup_empty in Hdom. setoid_rewrite lookup_empty in Hip. simpl in Hip.
  split.
  - intros ([k v] & -> & Hin%elem_of_go_range). exists k.
    rewrite fold_append_at_lookup, lookup_empty. rewrite <- Hip, Hin. split; [|done].
    destruct (proj1 (Hdom k)) as [[]|]; eauto; done.
  - intros (k & Hk & ->). destruct (proj2 (Hdom k)) as [v Hv]; [by right|]. exists (k, v).
    rewrite elem_of_go_range, fold_append_at_lookup, lookup_empty. rewrite <- Hip, Hv. done.
Qed.

(** The rule rebuilt for a key stands for the rules with that key. *)
Lemma merged_fields rs k p proto' port' :
  Forall rule_wf rs -> 
  (exists r, r ∈ rs /\ rule_key r = k) /\ field_admits (field_ptr k.2) proto' /\
  field_admits (field_ptr k.1) port' /\
  peer_admits (deduplicateIP (flat_map ips (filter (fun r => rule_key r = k) rs)))
              (deduplicateSG (flat_map sgs (filter (fun r => rule_key r = k) rs))) p <->
  exists r, r ∈ rs /\ rule_key r = k /\
    field_admits (proto r) proto' /\ field_admits (port r) port' /\ peer_admits (ips r) (sgs r) p.
Proof.
  intros Hwf. rewrite merged_peer_admits by done. rewrite list.Forall_forall in Hwf.
  assert (forall r, r ∈ rs -> field_ptr (rule_key r).1 = port r /\ field_ptr (rule_key r).2 = proto r) as Hk.
  { intros r (H1 & H2 & _)%Hwf. unfold rule_key. simpl. by rewrite !field_ptr_key. }
  split.
  - intros (_ & H1 & H2 & r & Hr & <- & Hp). exists r. destruct (Hk r Hr) as [E1 E2].
    rewrite E1 in H2. rewrite E2 in H1. done.
  - intros (r & Hr & <- & H1 & H2 & Hp). destruct (Hk r Hr) as [-> ->]. eauto 10.
Qed.
End Grouping.

Lemma deduplicateIngressRules_shape rs :
  let key := rule_key ir_FromPort ir_Protocol in
  forall r', r' ∈ deduplicateIngressRules rs <->
  exists k, k ∈ map key rs /\
    r' = {| ir_FromPort := field_ptr k.1;
            ir_FromSrcIP := deduplicateIP (flat_map ir_FromSrcIP (filter (fun r => key r = k) rs));
            ir_FromSecurityGroups :=
              deduplicateSG (flat_map ir_FromSecurityGroups (filter (fun r => key r = k) rs));
            ir_Protocol := field_ptr k.2 |}.
Proof.
  intros key r'. unfold deduplicateIngressRules. rewrite fold_left_pair.
  apply (grouped_elem ir_FromPort ir_Protocol ir_FromSrcIP ir_FromSecurityGroups (fun k i s =>
    mkIngressRule (field_ptr k.1) (deduplicateIP i) (deduplicateSG s) (field_ptr k.2))).
Qed.

Lemma deduplicateEgressRules_shape rs :
  let key := rule_key er_ToPort er_Protocol in
  forall r', r' ∈ deduplicateEgressRules rs <->
  exists k, k ∈ map key rs /\
    r' = {| er_ToPort := field_ptr k.1;
            er_ToDstIP := deduplicateIP (flat_map er_ToDstIP (filter (fun r => key r = k) rs));
            er_ToSecurityGroups :=
              deduplicateSG (flat_map er_ToSecurityGroups (filter (fun r => key r = k) rs));
            er_Protocol := field_ptr k.2 |}.
Proof.
  intros key r'. unfold deduplicateEgressRules. rewrite fold_left_pair.
  apply (grouped_elem er_ToPort er_Protocol er_ToDstIP er_ToSecurityGroups (fun k i s =>
    mkEgressRule (field_ptr k.1) (deduplicateIP i) (deduplicateSG s) (field_ptr k.2))).
Qed.

Lemma dedup_ingress_admits rs proto port p :
  Forall ingress_wf rs ->
  (exists r, r ∈ deduplicateIngressRules rs /\ ingress_admits r proto port p) <->
  (exists r, r ∈ rs /\ ingress_admits r proto port p).
Proof.
  intros Hwf.
  pose proof (fun k => merged_fields ir_FromPort ir_Protocol ir_FromSrcIP ir_FromSecurityGroups
    rs k p proto port Hwf) as Hm.
  setoid_rewrite deduplicateIngressRules_shape. setoid_rewrite list_elem_of_fmap. split.
  - intros (r' & (k & (r & -> & Hr) & ->) & H1 & H2 & H3).
    destruct (proj1 (Hm (rule_key ir_FromPort ir_Protocol r))) as (r0 & ? & _ & ?); [eauto 10|].
    by exists r0.
  - intros (r & Hr & H1). destruct (proj2 (Hm (rule_key ir_FromPort ir_Protocol r))) as (_ & ? & ? & ?).
    { by exists r. }
    eexists. split; [exists (rule_key ir_FromPort ir_Protocol r); split; [eauto|reflexivity]|]. done.
Qed.


Lemma dedup_egress_admits rs proto port p :
  Forall egress_wf rs ->
  (exists r, r ∈ deduplicateEgressRules rs /\ egress_admits r proto port p) <->
  (exists r, r ∈ rs /\ egress_admits r proto port p).
Proof.
  intros Hwf.
  pose proof (fun k => merged_fields er_ToPort er_Protocol er_ToDstIP er_ToSecurityGroups
    rs k p proto port Hwf) as Hm.
  setoid_rewrite deduplicateEgressRules_shape. setoid_rewrite list_elem_of_fmap. split.
  - intros (r' & (k & (r & -> & Hr) & ->) & H1 & H2 & H3).
    destruct (proj1 (Hm (rule_key er_ToPort er_Protocol r))) as (r0 & ? & _ & ?); [eauto 10|].
    by exists r0.
  - intros (r & Hr & H1). destruct (proj2 (Hm (rule_key er_ToPort er_Protocol r))) as (_ & ? & ? & ?).
    { by exists r. }
    eexists. split; [exists (rule_key er_ToPort er_Protocol r); split; [eauto|reflexivity]|]. done.
Qed.

(** The same for egress rules. *)
Theorem deduplicateEgressRules_admits rs proto port p :
  Forall egress_wf rs ->
  (exists r, r ∈ deduplicateEgressRules rs /\ egress_admits r proto port p) <->
  (exists r, r ∈ rs /\ egress_admits r proto port p).
Proof. exact (dedup_egress_admits rs proto port p). Qed.

End Merge.

(** The unique name of a group tells its name and its kind, unless the name
    of an appliedTo group itself starts with the prefix of address groups. *)
Theorem getGroupUniqueName_roundtrip name memberOnly :
  memberOnly = true \/ HasPrefix name uniqueGroupNameMemberPrefix = false ->
  getGroupIDFromUniqueName (getGroupUniqueName name memberOnly) = (name, memberOnly).
Proof.
  unfold getGroupIDFromUniqueName, getGroupUniqueName. destruct memberOnly.
  - done.
  - intros [|Hp]; [done|]. unfold HasPrefix in Hp. destruct (strip_prefix _ name); done.
Qed.

(** ** Witnesses *)

Lemma getGroupUniqueName_roundtrip_witness :
  getGroupIDFromUniqueName (getGroupUniqueName "web" false) = ("web", false).
Proof. apply getGroupUniqueName_roundtrip. right. reflexivity. Defined.

Definition vm_res (name : string) : CloudResource :=
  mkCloudResource CloudResourceTypeVM (mkCloudResourceID name "vpc1").

Lemma compareCloudResources_witness :
  @compareCloudResources map_to_list_range [vm_res "a"; vm_res "b"] [vm_res "b"; vm_res "a"] = true.
Proof.
  apply (proj2 (@compareCloudResources_spec map_to_list_range [vm_res "a"; vm_res "b"]
    [vm_res "b"; vm_res "a"] ltac:(apply (bool_decide_unpack _); vm_compute; exact I))).
  apply (bool_decide_unpack _). vm_compute. exact I.
Defined.

(** With a repeated name the comparison is wrong: it accepts a list that
    names another resource. *)
Theorem compareCloudResources_repeated :
  @compareCloudResources map_to_list_range [vm_res "a"; vm_res "a"] [vm_res "a"; vm_res "b"] = true /\
  map res_key [vm_res "a"; vm_res "a"] <> map res_key [vm_res "a"; vm_res "b"] /\
  "b/vpc1" ∉ map res_key [vm_res "a"; vm_res "a"].
Proof.
  split; [vm_compute; reflexivity|]. split; [discriminate|].
  apply (bool_decide_unpack _). vm_compute. exact I.
Qed.

Definition block (a b c d len : Z) : IPNet := mkIPNet [a; b; c; d] (CIDRMask len 32).

Definition sample_blocks : list IPNet :=
  [block 10 0 1 0 24; block 10 0 0 0 16; block 10 0 1 7 24; block 192 168 0 1 32].

Example deduplicateIP_sample :
  @deduplicateIP map_to_list_range sample_blocks ≡ₚ [block 192 168 0 1 32; block 10 0 0 0 16].
Proof. apply (bool_decide_unpack _). vm_compute. exact I. Qed.

Lemma deduplicateIP_coverage_witness :
  exists y, y ∈ @deduplicateIP map_to_list_range sample_blocks /\
    IPNet_Contains y [10; 0; 1; 200] = true.
Proof.
  apply (proj2 (@deduplicateIP_coverage map_to_list_range sample_blocks
    ltac:(apply (bool_decide_unpack _); vm_compute; exact I))).
  exists (block 10 0 1 0 24). split; [left|reflexivity].
Defined.

Lemma deduplicateIP_disjoint_witness : NoDup (@deduplicateIP map_to_list_range sample_blocks).
Proof.
  apply (@deduplicateIP_disjoint map_to_list_range sample_blocks
    ltac:(apply (bool_decide_unpack _); vm_compute; exact I)).
Defined.

Definition sample_ingress : list IngressRule :=
  [mkIngressRule (Some 80) [block 10 0 0 0 16] [mkCloudResourceID "web" "vpc1"] (Some 6);
   mkIngressRule (Some 80) [block 10 0 1 0 24] [mkCloudResourceID "db" "vpc1"] (Some 6);
   mkIngressRule None [] [mkCloudResourceID "web" "vpc1"] None].

Definition sample_egress : list EgressRule :=
  [mkEgressRule (Some 80) [block 10 0 0 0 16] [mkCloudResourceID "web" "vpc1"] (Some 6);
   mkEgressRule (Some 80) [block 10 0 1 0 24] [mkCloudResourceID "db" "vpc1"] (Some 6)].


Lemma deduplicateEgressRules_admits_witness :
  exists r, r ∈ @deduplicateEgressRules map_to_list_range sample_egress /\
    egress_admits r 6 80 (PeerSG (mkCloudResourceID "db" "vpc1")).
Proof.
  apply (proj2 (@deduplicateEgressRules_admits map_to_list_range sample_egress 6 80
    (PeerSG (mkCloudResourceID "db" "vpc1"))
    ltac:(repeat constructor; discriminate || reflexivity))).
  exists (mkEgressRule (Some 80) [block 10 0 1 0 24] [mkCloudResourceID "db" "vpc1"] (Some 6)).
  split; [right; left|]. repeat split. left.
Defined.
