(* ===== verification/NPState.v ===== *)
(** * NetworkPolicy reconciler: data, state and effects

    The data [src/pkg/controllers/cloud/networkpolicy*.go] keeps: security
    groups, network policies, cloud resource trackers and pending items, the
    reconciler that owns them, and the monad its methods run in.

    The Go code shares objects by pointer: one [*appliedToSecurityGroup] is
    reachable from an indexer, from the retry queue, from several trackers and
    from answers of the cloud that are still to come.  The model keeps every
    such object in a heap, and a pointer is a location of the heap. *)

From stdpp Require Import base strings list gmap.
From Stdlib Require Import ZArith.
From S2P Require Import Prelude GoStrings GoNet SecurityGroup RuleMerge.

#[local] Open Scope string_scope.
#[local] Open Scope Z_scope.

(** ** Values *)

Definition loc := positive.

(** [error]: the marker of an operation under way, or a message. *)
Inductive GoError := InProgress | ErrorString (msg : string).

Definition Error (e : GoError) : string :=
  match e with InProgress => "in-progress" | ErrorString m => m end.

Inductive securityGroupOperation :=
  | securityGroupOperationAdd
  | securityGroupOperationUpdateMembers
  | securityGroupOperationClearMembers
  | securityGroupOperationUpdateRules
  | securityGroupOperationDelete.

Inductive securityGroupState :=
  | securityGroupStateInit
  | securityGroupStateCreated
  | securityGroupStateGarbageCollectState.

#[export] Instance GoError_eq_dec : EqDecision GoError.
Proof. solve_decision. Defined.
#[export] Instance securityGroupOperation_eq_dec : EqDecision securityGroupOperation.
Proof. solve_decision. Defined.
#[export] Instance securityGroupState_eq_dec : EqDecision securityGroupState.
Proof. solve_decision. Defined.

(** [watch.EventType]; [EventNone] is the empty string. *)
Inductive EventType := Added | Modified | Deleted | Bookmark | EventError | EventNone.
#[export] Instance EventType_eq_dec : EqDecision EventType.
Proof. solve_decision. Defined.

(** [types.NamespacedName]. *)
Record NamespacedName := mkNamespacedName { nn_Namespace : string; nn_Name : string }.
Definition NamespacedName_String (n : NamespacedName) : string :=
  nn_Namespace n +:+ "/" +:+ nn_Name n.

(** [antreanetworking.GroupMember]: only its external entity is read. *)
Record GroupMember := mkGroupMember { gm_ExternalEntity : option NamespacedName }.

Record OwnerReference := mkOwner { or_Kind : string; or_Name : string }.

Record ExternalEntity := mkExternalEntity {
  ee_Name : NamespacedName;
  ee_Labels : gmap string string;
  ee_OwnerReferences : list OwnerReference;
  ee_EndpointIPs : list string
}.

Record VirtualMachine := mkVirtualMachine {
  vm_Name : NamespacedName;
  vm_Annotations : gmap string string;
  vm_NetworkInterfaces : list string
}.

(** [antreanetworking.NetworkPolicy]: the fields the reconciler reads. *)
Inductive NetworkPolicyType := AntreaNetworkPolicy | OtherNetworkPolicy (t : string).
Record NetworkPolicyReference := mkSourceRef {
  ref_Type : NetworkPolicyType; ref_Namespace : string; ref_Name : string
}.
Record AntreaPolicy := mkAntreaPolicy {
  anp_Name : NamespacedName;
  anp_Rules : list NetworkPolicyRule;
  anp_AppliedToGroups : list string;
  anp_SourceRef : option NetworkPolicyReference
}.
#[export] Instance NetworkPolicyType_eq_dec : EqDecision NetworkPolicyType.
Proof. solve_decision. Defined.

(** ** Objects *)

(** [securityGroupImpl] with the fields of the two structs that embed it.
    [sg_membershipOnly] is the dynamic type: true for an [*addrSecurityGroup],
    which has [ipBlocks], false for an [*appliedToSecurityGroup], which has
    [hasRules] and [hasMembers]. *)
Record securityGroup := mkSG {
  sg_membershipOnly : bool;
  sg_members : list CloudResource;
  sg_id : CloudResourceID;
  sg_state : securityGroupState;
  sg_deletePending : bool;
  sg_status : option GoError;
  sg_retryOp : option securityGroupOperation;
  sg_retryInProgress : bool;
  sg_ipBlocks : list IPNet;
  sg_hasRules : bool;
  sg_hasMembers : bool
}.

Definition set_members v s := mkSG (sg_membershipOnly s) v (sg_id s) (sg_state s) (sg_deletePending s)
  (sg_status s) (sg_retryOp s) (sg_retryInProgress s) (sg_ipBlocks s) (sg_hasRules s) (sg_hasMembers s).
Definition set_state v s := mkSG (sg_membershipOnly s) (sg_members s) (sg_id s) v (sg_deletePending s)
  (sg_status s) (sg_retryOp s) (sg_retryInProgress s) (sg_ipBlocks s) (sg_hasRules s) (sg_hasMembers s).
Definition set_deletePending v s := mkSG (sg_membershipOnly s) (sg_members s) (sg_id s) (sg_state s) v
  (sg_status s) (sg_retryOp s) (sg_retryInProgress s) (sg_ipBlocks s) (sg_hasRules s) (sg_hasMembers s).
Definition set_status v s := mkSG (sg_membershipOnly s) (sg_members s) (sg_id s) (sg_state s) (sg_deletePending s)
  v (sg_retryOp s) (sg_retryInProgress s) (sg_ipBlocks s) (sg_hasRules s) (sg_hasMembers s).
Definition set_retryOp v s := mkSG (sg_membershipOnly s) (sg_members s) (sg_id s) (sg_state s) (sg_deletePending s)
  (sg_status s) v (sg_retryInProgress s) (sg_ipBlocks s) (sg_hasRules s) (sg_hasMembers s).
Definition set_retryInProgress v s := mkSG (sg_membershipOnly s) (sg_members s) (sg_id s) (sg_state s) (sg_deletePending s)
  (sg_status s) (sg_retryOp s) v (sg_ipBlocks s) (sg_hasRules s) (sg_hasMembers s).
Definition set_ipBlocks v s := mkSG (sg_membershipOnly s) (sg_members s) (sg_id s) (sg_state s) (sg_deletePending s)
  (sg_status s) (sg_retryOp s) (sg_retryInProgress s) v (sg_hasRules s) (sg_hasMembers s).
Definition set_hasRules v s := mkSG (sg_membershipOnly s) (sg_members s) (sg_id s) (sg_state s) (sg_deletePending s)
  (sg_status s) (sg_retryOp s) (sg_retryInProgress s) (sg_ipBlocks s) v (sg_hasMembers s).
Definition set_hasMembers v s := mkSG (sg_membershipOnly s) (sg_members s) (sg_id s) (sg_state s) (sg_deletePending s)
  (sg_status s) (sg_retryOp s) (sg_retryInProgress s) (sg_ipBlocks s) (sg_hasRules s) v.

(** [networkPolicy]; a nil rule list and an empty one are both [[]]: the code
    only ever appends non-empty lists to a nil one. *)
Record networkPolicy := mkNP {
  np_Name : NamespacedName;
  np_Rules : list NetworkPolicyRule;
  np_AppliedToGroups : list string;
  np_ingressRules : list IngressRule;
  np_egressRules : list EgressRule;
  np_rulesReady : bool
}.

(** [cloudResourceNPTracker]; [tr_dirty] is [None] until something is stored
    in the [atomic.Value]. *)
Record cloudResourceNPTracker := mkTracker {
  tr_cloudResource : CloudResource;
  tr_dirty : option bool;
  tr_appliedToSGs : gmap string loc;
  tr_prevAppliedToSGs : gmap string loc
}.

(** [NetworkPolicyStatus]. *)
Record NetworkPolicyStatus := mkNPStatus { nps_Name : NamespacedName; nps_NPStatus : gmap string string }.

(** [pendingGroup]. *)
Record pendingGroup := mkPendingGroup {
  pg_refCnt : option Z;
  pg_runOnClear : bool;
  pg_event : EventType;
  pg_addedMembers : gmap string GroupMember;
  pg_removedMembers : gmap string GroupMember
}.

Inductive PendingItem := PendingSG (l : loc) | PendingGroup (l : loc).
Record countingPendingItem := mkCounting { ci_item : PendingItem; ci_opCnt : option loc }.
Abbreviation queue := (gmap string countingPendingItem).

(** ** Calls to the cloud plug-in

    A call returns a channel; a goroutine waits for the answer and reports it.
    Which operation the report of a membership update names depends on the
    members of the group when the answer arrives. *)
Inductive CloudRequest :=
  | CreateSecurityGroup (id : CloudResourceID) (membershipOnly : bool)
  | DeleteSecurityGroup (id : CloudResourceID) (membershipOnly : bool)
  | UpdateSecurityGroupMembers (id : CloudResourceID) (members : list CloudResource) (membershipOnly : bool)
  | UpdateSecurityGroupRules (id : CloudResourceID) (ingress : list IngressRule) (egress : list EgressRule).

Inductive ReportedOp := ReportOp (op : securityGroupOperation) | ReportByMembers.

Record CloudCall := mkCall { call_sg : loc; call_req : CloudRequest; call_op : ReportedOp }.

(** [securityGroupStatus]. *)
Record securityGroupStatus := mkStatus {
  st_sg : loc; st_op : securityGroupOperation; st_err : option GoError
}.

(** ** Libraries the reconciler is built on *)

(** [cache.Indexer] of k8s.io/client-go, a store of pointers by key.  The store
    reports an error only when a key or index function fails or an index was
    not registered; the functions [SetupWithManager] registers never fail and
    every index the code asks for is registered, so the operations are total
    here and the code's branches on such an error do not occur.  The values of
    an index are those of the objects at the time of the call: the code never
    changes an indexed field of a stored object (it deletes, changes and adds
    again). *)
Class CacheIndexer := {
  Indexer : Type;
  ix_contents : Indexer -> gmap string loc;
  NewIndexer : Indexer;
  ix_Add : string -> loc -> Indexer -> Indexer;
  ix_Delete : string -> Indexer -> Indexer;
  ix_GetByKey : string -> Indexer -> option loc;
  ix_List : Indexer -> list loc;
  ix_ByIndex : (loc -> list string) -> string -> Indexer -> list loc;
  ix_new : ix_contents NewIndexer = ∅;
  ix_add : forall k l s, ix_contents (ix_Add k l s) = <[k := l]> (ix_contents s);
  ix_delete : forall k s, ix_contents (ix_Delete k s) = delete k (ix_contents s);
  ix_get : forall k s, ix_GetByKey k s = ix_contents s !! k;
  ix_list : forall s, ix_List s ≡ₚ map snd (map_to_list (ix_contents s));
  ix_byindex : forall f v s,
    ix_ByIndex f v s ≡ₚ filter (fun l => v ∈ f l) (map snd (map_to_list (ix_contents s)))
}.

(** The store of the executable examples. *)
Definition map_indexer : CacheIndexer := {|
  Indexer := gmap string loc;
  ix_contents m := m;
  NewIndexer := ∅;
  ix_Add k l s := <[k := l]> s;
  ix_Delete k s := delete k s;
  ix_GetByKey k s := s !! k;
  ix_List s := map snd (map_to_list s);
  ix_ByIndex f v s := filter (fun l => v ∈ f l) (map snd (map_to_list s));
  ix_new := eq_refl;
  ix_add _ _ _ := eq_refl;
  ix_delete _ _ := eq_refl;
  ix_get _ _ := eq_refl;
  ix_list s := reflexivity _;
  ix_byindex _ _ _ := reflexivity _
|}.

(** The Kubernetes client at the time of an event: [Get] of an external entity
    and of a virtual machine, [List] of virtual machines by a field index. *)
Inductive GetResult (A : Type) := GetOk (a : A) | GetNotFound | GetError (e : GoError).
Arguments GetOk {A} a. Arguments GetNotFound {A}. Arguments GetError {A} e.

Record Env := mkEnv {
  env_GetExternalEntity : NamespacedName -> GetResult ExternalEntity;
  env_GetVirtualMachine : NamespacedName -> GetResult VirtualMachine;
  env_ListByCloudID : string -> GoError + list VirtualMachine;
  env_ListByCloudName : string -> GoError + list VirtualMachine;
  (** what [GetSecurityGroupSyncChan] delivers until it is closed *)
  env_SyncContents : list SynchronizationContent
}.

(** ** The reconciler *)

Record Heap := mkHeap {
  h_sg : gmap loc securityGroup;
  h_np : gmap loc networkPolicy;
  h_tr : gmap loc cloudResourceNPTracker;
  h_vmp : gmap loc NetworkPolicyStatus;
  h_pg : gmap loc pendingGroup;
  h_cnt : gmap loc Z;
  h_next : loc
}.

Definition hset_sg v h := mkHeap v (h_np h) (h_tr h) (h_vmp h) (h_pg h) (h_cnt h) (h_next h).
Definition hset_np v h := mkHeap (h_sg h) v (h_tr h) (h_vmp h) (h_pg h) (h_cnt h) (h_next h).
Definition hset_tr v h := mkHeap (h_sg h) (h_np h) v (h_vmp h) (h_pg h) (h_cnt h) (h_next h).
Definition hset_vmp v h := mkHeap (h_sg h) (h_np h) (h_tr h) v (h_pg h) (h_cnt h) (h_next h).
Definition hset_pg v h := mkHeap (h_sg h) (h_np h) (h_tr h) (h_vmp h) v (h_cnt h) (h_next h).
Definition hset_cnt v h := mkHeap (h_sg h) (h_np h) (h_tr h) (h_vmp h) (h_pg h) v (h_next h).
Definition hset_next v h := mkHeap (h_sg h) (h_np h) (h_tr h) (h_vmp h) (h_pg h) (h_cnt h) v.

Inductive QueueId := PendingDeleteGroups | RetryQueue.

Section Reconciler.
Context `{CacheIndexer}.

Record Indexers := mkIndexers {
  networkPolicyIndexer : Indexer;
  addrSGIndexer : Indexer;
  appliedToSGIndexer : Indexer;
  cloudResourceNPTrackerIndexer : Indexer;
  virtualMachinePolicyIndexer : Indexer
}.

(** [NetworkPolicyReconciler], with the heap of its objects, the answers it
    waits for ([calls]), and whether a cloud plug-in is installed. *)
Record Reconciler := mkReconciler {
  heap : Heap;
  ixs : Indexers;
  pendingDeleteGroups : queue;
  retryQueue : queue;
  syncedWithCloud : bool;
  bookmarkCnt : Z;
  fedExternalEntityIPs : gmap string (list string);
  cloudPlugin : bool;
  calls : list CloudCall
}.

Definition set_heap v r := mkReconciler v (ixs r) (pendingDeleteGroups r) (retryQueue r) (syncedWithCloud r)
  (bookmarkCnt r) (fedExternalEntityIPs r) (cloudPlugin r) (calls r).
Definition set_ixs v r := mkReconciler (heap r) v (pendingDeleteGroups r) (retryQueue r) (syncedWithCloud r)
  (bookmarkCnt r) (fedExternalEntityIPs r) (cloudPlugin r) (calls r).
Definition set_queue (q : QueueId) v r :=
  match q with
  | PendingDeleteGroups => mkReconciler (heap r) (ixs r) v (retryQueue r) (syncedWithCloud r)
      (bookmarkCnt r) (fedExternalEntityIPs r) (cloudPlugin r) (calls r)
  | RetryQueue => mkReconciler (heap r) (ixs r) (pendingDeleteGroups r) v (syncedWithCloud r)
      (bookmarkCnt r) (fedExternalEntityIPs r) (cloudPlugin r) (calls r)
  end.
Definition get_queue (q : QueueId) r :=
  match q with PendingDeleteGroups => pendingDeleteGroups r | RetryQueue => retryQueue r end.
Definition set_synced v r := mkReconciler (heap r) (ixs r) (pendingDeleteGroups r) (retryQueue r) v
  (bookmarkCnt r) (fedExternalEntityIPs r) (cloudPlugin r) (calls r).
Definition set_bookmarkCnt v r := mkReconciler (heap r) (ixs r) (pendingDeleteGroups r) (retryQueue r)
  (syncedWithCloud r) v (fedExternalEntityIPs r) (cloudPlugin r) (calls r).
Definition set_calls v r := mkReconciler (heap r) (ixs r) (pendingDeleteGroups r) (retryQueue r)
  (syncedWithCloud r) (bookmarkCnt r) (fedExternalEntityIPs r) (cloudPlugin r) v.

Definition set_npIx v i := mkIndexers v (addrSGIndexer i) (appliedToSGIndexer i)
  (cloudResourceNPTrackerIndexer i) (virtualMachinePolicyIndexer i).
Definition set_sgIx (membershipOnly : bool) v i :=
  if membershipOnly
  then mkIndexers (networkPolicyIndexer i) v (appliedToSGIndexer i)
    (cloudResourceNPTrackerIndexer i) (virtualMachinePolicyIndexer i)
  else mkIndexers (networkPolicyIndexer i) (addrSGIndexer i) v
    (cloudResourceNPTrackerIndexer i) (virtualMachinePolicyIndexer i).
Definition sgIx (membershipOnly : bool) i := if membershipOnly then addrSGIndexer i else appliedToSGIndexer i.
Definition set_trIx v i := mkIndexers (networkPolicyIndexer i) (addrSGIndexer i) (appliedToSGIndexer i)
  v (virtualMachinePolicyIndexer i).
Definition set_vmpIx v i := mkIndexers (networkPolicyIndexer i) (addrSGIndexer i) (appliedToSGIndexer i)
  (cloudResourceNPTrackerIndexer i) v.

(** [SetupWithManager]: the reconciler as it starts, with empty indexers and
    queues. *)
Definition initial_heap : Heap := mkHeap ∅ ∅ ∅ ∅ ∅ ∅ 1%positive.

Definition SetupWithManager (plugin : bool) : Reconciler :=
  mkReconciler initial_heap
    (mkIndexers NewIndexer NewIndexer NewIndexer NewIndexer NewIndexer)
    ∅ ∅ false 0 ∅ plugin [].

(** ** Effects

    A method changes the reconciler and its objects and may panic ([None]):
    following a nil pointer, or a type assertion that does not hold. *)
Definition M (A : Type) : Type := Reconciler -> option (A * Reconciler).

#[export] Instance M_ret : MRet M := fun A a r => Some (a, r).
#[export] Instance M_bind : MBind M := fun A B k m r =>
  match m r with None => None | Some (a, r') => k a r' end.

Definition panic {A} : M A := fun _ => None.
Definition gets {A} (f : Reconciler -> A) : M A := fun r => Some (f r, r).
Definition modify (f : Reconciler -> Reconciler) : M unit := fun r => Some (tt, f r).
Definition mwhen (b : bool) (m : M unit) : M unit := if b then m else mret tt.

Fixpoint forM_ {A} (l : list A) (f : A -> M unit) : M unit :=
  match l with
  | [] => mret tt
  | x :: l => f x ≫= fun _ => forM_ l f
  end.

Definition with_heap (f : Heap -> Heap) : M unit := modify (fun r => set_heap (f (heap r)) r).
Definition with_ixs (f : Indexers -> Indexers) : M unit := modify (fun r => set_ixs (f (ixs r)) r).

(** Following a pointer. *)
Definition deref {A} (o : option A) : M A := match o with Some a => mret a | None => panic end.

Definition get_sg (l : loc) : M securityGroup := gets (fun r => h_sg (heap r) !! l) ≫= deref.
Definition get_np (l : loc) : M networkPolicy := gets (fun r => h_np (heap r) !! l) ≫= deref.
Definition get_tr (l : loc) : M cloudResourceNPTracker := gets (fun r => h_tr (heap r) !! l) ≫= deref.
Definition get_vmp (l : loc) : M NetworkPolicyStatus := gets (fun r => h_vmp (heap r) !! l) ≫= deref.
Definition get_pg (l : loc) : M pendingGroup := gets (fun r => h_pg (heap r) !! l) ≫= deref.
Definition get_cnt (l : loc) : M Z := gets (fun r => h_cnt (heap r) !! l) ≫= deref.

Definition put_sg (l : loc) (v : securityGroup) : M unit := with_heap (fun h => hset_sg (<[l := v]> (h_sg h)) h).
Definition put_np (l : loc) (v : networkPolicy) : M unit := with_heap (fun h => hset_np (<[l := v]> (h_np h)) h).
Definition put_tr (l : loc) (v : cloudResourceNPTracker) : M unit :=
  with_heap (fun h => hset_tr (<[l := v]> (h_tr h)) h).
Definition put_vmp (l : loc) (v : NetworkPolicyStatus) : M unit :=
  with_heap (fun h => hset_vmp (<[l := v]> (h_vmp h)) h).
Definition put_pg (l : loc) (v : pendingGroup) : M unit := with_heap (fun h => hset_pg (<[l := v]> (h_pg h)) h).
Definition put_cnt (l : loc) (v : Z) : M unit := with_heap (fun h => hset_cnt (<[l := v]> (h_cnt h)) h).

(** [s.f = v] through a pointer. *)
Definition upd_sg (l : loc) (f : securityGroup -> securityGroup) : M unit :=
  get_sg l ≫= fun s => put_sg l (f s).

Definition fresh : M loc :=
  gets (fun r => h_next (heap r)) ≫= fun l =>
  with_heap (hset_next (Pos.succ l)) ≫= fun _ => mret l.

Definition alloc {A} (put : loc -> A -> M unit) (v : A) : M loc :=
  fresh ≫= fun l => put l v ≫= fun _ => mret l.

(** Emits a call to the plug-in. *)
Definition call_cloud (c : CloudCall) : M unit := modify (fun r => set_calls (calls r ++ [c])%list r).

(** ** Index and key functions registered by [SetupWithManager] *)

Definition sg_group (h : Heap) (l : loc) : list string :=
  match h_sg h !! l with Some s => [cid_Name (sg_id s)] | None => [] end.
Definition np_key (n : networkPolicy) : string := NamespacedName_String (np_Name n).
Definition np_addr_groups (rs : list NetworkPolicyRule) : list string :=
  flat_map (fun r => peer_AddressGroups (rule_To r) ++ peer_AddressGroups (rule_From r))%list rs.
Definition np_by_addr (h : Heap) (l : loc) : list string :=
  match h_np h !! l with Some n => np_addr_groups (np_Rules n) | None => [] end.
Definition np_by_appliedTo (h : Heap) (l : loc) : list string :=
  match h_np h !! l with Some n => np_AppliedToGroups n | None => [] end.
Definition tr_key (t : cloudResourceNPTracker) : string := CloudResource_String (tr_cloudResource t).
Definition tr_by_appliedTo (h : Heap) (l : loc) : list string :=
  match h_tr h !! l with
  | Some t => (map fst (map_to_list (tr_appliedToSGs t)) ++ map fst (map_to_list (tr_prevAppliedToSGs t)))%list
  | None => []
  end.
Definition vmp_key (v : NetworkPolicyStatus) : string := NamespacedName_String (nps_Name v).

Definition sgs_of_group (membershipOnly : bool) (name : string) : M (list loc) :=
  gets (fun r => ix_ByIndex (sg_group (heap r)) name (sgIx membershipOnly (ixs r))).
Definition nps_of_addr (name : string) : M (list loc) :=
  gets (fun r => ix_ByIndex (np_by_addr (heap r)) name (networkPolicyIndexer (ixs r))).
Definition nps_of_appliedTo (name : string) : M (list loc) :=
  gets (fun r => ix_ByIndex (np_by_appliedTo (heap r)) name (networkPolicyIndexer (ixs r))).
Definition trackers_of_appliedTo (sgid : string) : M (list loc) :=
  gets (fun r => ix_ByIndex (tr_by_appliedTo (heap r)) sgid (cloudResourceNPTrackerIndexer (ixs r))).

(** [indexer.Add(c)] and [indexer.Delete(c)] of a security group. *)
Definition sg_Add (membershipOnly : bool) (l : loc) : M unit :=
  get_sg l ≫= fun s => with_ixs (fun i =>
    set_sgIx membershipOnly (ix_Add (CloudResourceID_String (sg_id s)) l (sgIx membershipOnly i)) i).
Definition sg_Delete (membershipOnly : bool) (l : loc) : M unit :=
  get_sg l ≫= fun s => with_ixs (fun i =>
    set_sgIx membershipOnly (ix_Delete (CloudResourceID_String (sg_id s)) (sgIx membershipOnly i)) i).
Definition sg_GetByKey (membershipOnly : bool) (key : string) : M (option loc) :=
  gets (fun r => ix_GetByKey key (sgIx membershipOnly (ixs r))).

Definition np_Add (l : loc) : M unit :=
  get_np l ≫= fun n => with_ixs (fun i => set_npIx (ix_Add (np_key n) l (networkPolicyIndexer i)) i).
Definition np_Delete (l : loc) : M unit :=
  get_np l ≫= fun n => with_ixs (fun i => set_npIx (ix_Delete (np_key n) (networkPolicyIndexer i)) i).

Definition tr_Add (l : loc) : M unit :=
  get_tr l ≫= fun t => with_ixs (fun i => set_trIx (ix_Add (tr_key t) l (cloudResourceNPTrackerIndexer i)) i).
Definition tr_Delete (l : loc) : M unit :=
  get_tr l ≫= fun t => with_ixs (fun i => set_trIx (ix_Delete (tr_key t) (cloudResourceNPTrackerIndexer i)) i).

Definition vmp_Update (l : loc) : M unit :=
  get_vmp l ≫= fun v => with_ixs (fun i => set_vmpIx (ix_Add (vmp_key v) l (virtualMachinePolicyIndexer i)) i).
Definition vmp_Delete (l : loc) : M unit :=
  get_vmp l ≫= fun v => with_ixs (fun i => set_vmpIx (ix_Delete (vmp_key v) (virtualMachinePolicyIndexer i)) i).

End Reconciler.
