(* ===== verification/NPPending.v ===== *)
(** * Pending items: retry queue and pending group deletions

    Model of the data side of [networkpolicy_pendingitem.go]: the queue of
    items that are to be run later, what an update does to an item, and when
    an item is to be run or deleted.  Running an item calls back into the
    reconciler and is modelled with it ([NPController]). *)

From stdpp Require Import base strings list gmap.
From Stdlib Require Import ZArith Lia.
From S2P Require Import Prelude GoStrings GoNet SecurityGroup RuleMerge NPState.

#[local] Open Scope string_scope.
#[local] Open Scope Z_scope.

(** [operationCount]. *)
Definition operationCount : Z := 15.

(** The [updates ...interface{}] of [Update]: a reference count with a run
    flag, an event with group members, or a cloud operation. *)
Inductive PendingUpdate :=
  | UpdateRef (refCnt : Z) (runOnClear : bool)
  | UpdateEvent (event : EventType) (added removed : list GroupMember)
  | UpdateOp (op : securityGroupOperation).

(** ** Group members of a pending group *)

(** [types.NamespacedName{...}.String()] of a member's external entity; the
    code follows the pointer without a check. *)
Definition member_key (m : GroupMember) : option string :=
  option_map NamespacedName_String (gm_ExternalEntity m).

Definition members_map := gmap string GroupMember.

(** Loop over [removed]. *)
Fixpoint drop_members (ms : list GroupMember) (acc : members_map * members_map) :
    option (members_map * members_map) :=
  match ms with
  | [] => Some acc
  | i :: ms =>
      match member_key i with
      | None => None
      | Some key =>
          let '(addedM, removedM) := acc in
          match addedM !! key with
          | Some _ => drop_members ms (delete key addedM, removedM)
          | None => drop_members ms (addedM, <[key := i]> removedM)
          end
      end
  end.

(** Loop over [added]. *)
Fixpoint take_members (ms : list GroupMember) (acc : members_map * members_map) :
    option (members_map * members_map) :=
  match ms with
  | [] => Some acc
  | i :: ms =>
      match member_key i with
      | None => None
      | Some key =>
          let '(addedM, removedM) := acc in
          take_members ms (<[key := i]> addedM, delete key removedM)
      end
  end.

(** [(p *pendingGroup) UpdatePendingItem]; [None] is a panic: the type
    assertion on a cloud operation, a nil counter, a member without external
    entity. *)
Definition pendingGroup_UpdatePendingItem (u : PendingUpdate) (p : pendingGroup) : option pendingGroup :=
  match u with
  | UpdateRef cnt run =>
      match pg_refCnt p with
      | None => None
      | Some c => Some (mkPendingGroup (Some (c + cnt)) run (pg_event p) (pg_addedMembers p) (pg_removedMembers p))
      end
  | UpdateEvent event added removed =>
      let p := match pg_event p with
               | EventNone => mkPendingGroup (pg_refCnt p) (pg_runOnClear p) event
                                (pg_addedMembers p) (pg_removedMembers p)
               | _ => p
               end in
      match event with
      | Deleted => Some (mkPendingGroup (pg_refCnt p) (pg_runOnClear p) EventNone ∅ ∅)
      | Added | Modified =>
          match drop_members removed (pg_addedMembers p, pg_removedMembers p) with
          | None => None
          | Some acc =>
              match take_members added acc with
              | None => None
              | Some (addedM, removedM) =>
                  Some (mkPendingGroup (pg_refCnt p) (pg_runOnClear p) (pg_event p) addedM removedM)
              end
          end
      | _ => Some p
      end
  | UpdateOp _ => None
  end.

(** [(p *pendingGroup) RunOrDeletePendingItem]: (run, delete). *)
Definition pendingGroup_RunOrDeletePendingItem (p : pendingGroup) : bool * bool :=
  match pg_refCnt p with
  | None => (true, false)
  | Some c => if (0 <? c) || negb (pg_runOnClear p) then (false, false) else (true, true)
  end.

(** [(s *securityGroupImpl) UpdatePendingItem]. *)
Definition securityGroup_UpdatePendingItem (u : PendingUpdate) (s : securityGroup) : option securityGroup :=
  match u with
  | UpdateOp op =>
      if decide (sg_retryOp s = Some op) then
        let s := set_retryInProgress false s in
        match sg_status s with
        | None => Some (set_retryOp None s)
        | Some _ => Some s
        end
      else Some s
  | _ => None
  end.

(** [(s *securityGroupImpl) RunOrDeletePendingItem]. *)
Definition securityGroup_RunOrDeletePendingItem (s : securityGroup) : bool * bool :=
  match sg_retryOp s with
  | None => (true, true)
  | Some _ => if sg_retryInProgress s then (false, false) else (true, false)
  end.

Section Pending.
Context `{CacheIndexer}.

(** The dispatch of the [PendingItem] interface. *)
Definition UpdatePendingItem (u : PendingUpdate) (i : PendingItem) : M unit :=
  match i with
  | PendingSG l => s ← get_sg l; s' ← deref (securityGroup_UpdatePendingItem u s); put_sg l s'
  | PendingGroup l => p ← get_pg l; p' ← deref (pendingGroup_UpdatePendingItem u p); put_pg l p'
  end.

Definition RunOrDeletePendingItem (i : PendingItem) : M (bool * bool) :=
  match i with
  | PendingSG l => s ← get_sg l; mret (securityGroup_RunOrDeletePendingItem s)
  | PendingGroup l => p ← get_pg l; mret (pendingGroup_RunOrDeletePendingItem p)
  end.

(** ** The queue *)

(** [opCnt] given to [NewPendingItemQueue] for each queue. *)
Definition queue_opCnt (q : QueueId) : option Z :=
  match q with PendingDeleteGroups => None | RetryQueue => Some operationCount end.

Definition queue_lookup (q : QueueId) (id : string) : M (option countingPendingItem) :=
  gets (fun r => get_queue q r !! id).

Definition queue_Has (q : QueueId) (id : string) : M bool :=
  o ← queue_lookup q id; mret (match o with Some _ => true | None => false end).

Definition queue_Remove (q : QueueId) (id : string) : M unit :=
  modify (fun r => set_queue q (delete id (get_queue q r)) r).

(** [Add]: an item that is present stays; a new one gets its own counter. *)
Definition queue_Add (q : QueueId) (id : string) (p : PendingItem) : M unit :=
  o ← queue_lookup q id;
  match o with
  | Some _ => mret tt
  | None =>
      cnt ← match queue_opCnt q with
            | None => mret None
            | Some n => l ← alloc put_cnt n; mret (Some l)
            end;
      modify (fun r => set_queue q (<[id := mkCounting p cnt]> (get_queue q r)) r)
  end.

(** [Update] without running the item ([checkRun] false): the item is looked
    up and updated; an unknown item is an error every caller drops. *)
Definition queue_UpdateOnly (q : QueueId) (id : string) (u : PendingUpdate) : M (option countingPendingItem) :=
  o ← queue_lookup q id;
  match o with
  | None => mret None
  | Some i => UpdatePendingItem u (ci_item i);; mret (Some i)
  end.

(** [*i.opCnt--] and [*i.opCnt], when there is a counter. *)
Definition dec_opCnt (i : countingPendingItem) : M unit :=
  match ci_opCnt i with
  | None => mret tt
  | Some l => n ← get_cnt l; put_cnt l (n - 1)
  end.

Definition read_opCnt (i : countingPendingItem) : M (option Z) :=
  match ci_opCnt i with
  | None => mret None
  | Some l => n ← get_cnt l; mret (Some n)
  end.

(** [GetRetryCount]: -1 without item or counter. *)
Definition queue_GetRetryCount (q : QueueId) (id : string) : M Z :=
  o ← queue_lookup q id;
  match o with
  | None => mret (-1)
  | Some i => n ← read_opCnt i; mret (match n with Some n => n | None => -1 end)
  end.

(** Second half of [Update], once the item is updated: it is run or deleted.
    [run] is the item's own [RunPendingItem]. *)
Definition queue_RunUpdated (run : string -> PendingItem -> M bool) (q : QueueId) (id : string)
    (i : countingPendingItem) : M unit :=
  rd ← RunOrDeletePendingItem (ci_item i);
  let '(runit, del) := rd : bool * bool in
  mwhen del (queue_Remove q id);;
  del ← (if runit then d ← run id (ci_item i); dec_opCnt i;; mret d else mret del);
  n ← read_opCnt i;
  mwhen (del || match n with Some n => n <=? 0 | None => false end) (queue_Remove q id).

Definition queue_Update (run : string -> PendingItem -> M bool) (q : QueueId) (id : string) (checkRun : bool)
    (u : PendingUpdate) : M unit :=
  o ← queue_UpdateOnly q id u;
  match o with
  | None => mret tt
  | Some i => mwhen checkRun (queue_RunUpdated run q id i)
  end.

(** One round of [CheckToRun]: an entry that an earlier round removed is not
    visited. *)
Definition queue_CheckItem (run : string -> PendingItem -> M bool) (q : QueueId) (k : string) : M unit :=
  o ← queue_lookup q k;
  match o with
  | None => mret tt
  | Some i =>
      rd ← RunOrDeletePendingItem (ci_item i);
      let '(runit, del) := rd : bool * bool in
      mwhen del (queue_Remove q k);;
      del ← (if runit then
               n ← read_opCnt i;
               d ← (if match n with None => true | Some n => 0 <? n end
                    then run k (ci_item i) else mret del);
               dec_opCnt i;; mret d
             else mret del);
      n ← read_opCnt i;
      mwhen (del || match n with Some n => n <? 0 | None => false end) (queue_Remove q k)
  end.

End Pending.

Section CheckToRun.
Context `{CacheIndexer} `{MapRange}.

Definition queue_CheckToRun (run : string -> PendingItem -> M bool) (q : QueueId) : M unit :=
  keys ← gets (fun r => map fst (go_range (get_queue q r)));
  forM_ keys (queue_CheckItem run q).

End CheckToRun.
