(* ===== verification/NPGroups.v ===== *)
(** * Security groups of the reconciler

    Model of [securityGroupImpl], [addrSecurityGroup], [appliedToSecurityGroup]
    and of the network policy rules they are given ([networkpolicy.go]), with
    the cloud resource trackers they notify
    ([networkpolicy_cloudresource.go]). *)

From stdpp Require Import base strings list gmap.
From Stdlib Require Import ZArith Lia.
From S2P Require Import Prelude GoStrings GoNet SecurityGroup RuleMerge NPState NPPending.

#[local] Open Scope string_scope.
#[local] Open Scope Z_scope.

Section Groups.
Context `{CacheIndexer} `{MapRange}.

(** ** Cloud resource trackers *)

Definition newCloudResourceNPTracker (rsc : CloudResource) : M loc :=
  l ← alloc put_tr (mkTracker rsc None ∅ ∅);
  tr_Add l;;
  mret l.

Definition getCloudResourceNPTracker (rsc : CloudResource) (create : bool) : M (option loc) :=
  o ← gets (fun r => ix_GetByKey (CloudResource_String rsc) (cloudResourceNPTrackerIndexer (ixs r)));
  match o with
  | Some l => mret (Some l)
  | None => if create then l ← newCloudResourceNPTracker rsc; mret (Some l) else mret None
  end.

(** [markDirty], [unmarkDirty] and [isDirty] of a tracker; loading a value that
    was never stored panics. *)
Definition tracker_setDirty (b : bool) (l : loc) : M unit :=
  t ← get_tr l;
  put_tr l (mkTracker (tr_cloudResource t) (Some b) (tr_appliedToSGs t) (tr_prevAppliedToSGs t)).
Definition tracker_isDirty (l : loc) : M bool := t ← get_tr l; deref (tr_dirty t).

(** [(c *cloudResourceNPTracker) update]. *)
Definition tracker_update (c sg : loc) (isDelete : bool) : M unit :=
  t ← get_tr c;
  s ← get_sg sg;
  let key := CloudResourceID_String (sg_id s) in
  let found := match tr_appliedToSGs t !! key with Some _ => true | None => false end in
  if negb (eqb found isDelete) then mret tt
  else
    tracker_setDirty true c;;
    tr_Delete c;;
    t ← get_tr c;
    put_tr c (if isDelete
              then mkTracker (tr_cloudResource t) (tr_dirty t) (delete key (tr_appliedToSGs t))
                     (<[key := sg]> (tr_prevAppliedToSGs t))
              else mkTracker (tr_cloudResource t) (tr_dirty t) (<[key := sg]> (tr_appliedToSGs t))
                     (delete key (tr_prevAppliedToSGs t)));;
    tr_Add c.

(** The loop [if tracker := r.getCloudResourceNPTracker(rsc, create); tracker != nil
    { tracker.update(a, isDelete, r) }] over resources. *)
Definition update_trackers (sg : loc) (create isDelete : bool) (rscs : list CloudResource) : M unit :=
  forM_ rscs (fun rsc =>
    o ← getCloudResourceNPTracker rsc create;
    match o with Some t => tracker_update t sg isDelete | None => mret tt end).

(** [(s *securityGroupImpl) markDirty]. *)
Definition securityGroup_markDirty (l : loc) (create : bool) : M unit :=
  s ← get_sg l;
  forM_ (sg_members s) (fun rsc =>
    o ← getCloudResourceNPTracker rsc create;
    match o with Some t => tracker_setDirty true t | None => mret tt end).

(** ** Common implementation *)

(** The members of [removeStaleMembers]: by resource name, without those whose
    name is part of a stale entity's name. *)
Definition stale_members (stales : list string) (members : list CloudResource) : list CloudResource :=
  let srcMap := fold_left (fun m c => <[cid_Name (cr_Name c) := c]> m) members (∅ : gmap string CloudResource) in
  let srcMap := fold_left (fun m stale => filter (fun kv => Contains stale kv.1 = false) m) stales srcMap in
  map snd (go_range srcMap).

Definition removeStaleMembers (l : loc) (stales : list string) : M unit :=
  s ← get_sg l;
  if decide (length (sg_members s) = 0%nat) then mret tt
  else put_sg l (set_members (stale_members stales (sg_members s)) s).

Definition addImpl (l : loc) (membershipOnly : bool) : M unit :=
  sg_Add membershipOnly l;;
  synced ← gets syncedWithCloud;
  if negb synced then mret tt
  else
    s ← get_sg l;
    match sg_retryOp s with
    | Some _ => mret tt
    | None =>
        call_cloud (mkCall l (CreateSecurityGroup (sg_id s) membershipOnly) (ReportOp securityGroupOperationAdd));;
        upd_sg l (set_status (Some InProgress))
    end.

(** The network policies that refer to a group, by the index of its kind. *)
Definition nps_of_group (membershipOnly : bool) (name : string) : M (list loc) :=
  if membershipOnly then nps_of_addr name else nps_of_appliedTo name.

(** [deleteImpl] once the group is garbage. *)
Definition deleteGarbage (l : loc) (membershipOnly : bool) : M unit :=
  s ← get_sg l;
  match sg_retryOp s with
  | Some _ => mret tt
  | None =>
      queue_UpdateOnly PendingDeleteGroups (getGroupUniqueName (cid_Name (sg_id s)) membershipOnly)
        (UpdateRef 1 false);;
      upd_sg l (set_status (Some InProgress));;
      call_cloud (mkCall l (DeleteSecurityGroup (sg_id s) membershipOnly) (ReportOp securityGroupOperationDelete))
  end.

Definition deleteImpl (l : loc) (membershipOnly : bool) : M unit :=
  s ← get_sg l;
  let uName := getGroupUniqueName (CloudResourceID_String (sg_id s)) membershipOnly in
  let guName := getGroupUniqueName (cid_Name (sg_id s)) membershipOnly in
  has ← queue_Has PendingDeleteGroups guName;
  mwhen (negb has) (p ← alloc put_pg (mkPendingGroup (Some 0) false EventNone ∅ ∅);
                    queue_Add PendingDeleteGroups guName (PendingGroup p));;
  if decide (sg_state s = securityGroupStateGarbageCollectState) then deleteGarbage l membershipOnly
  else
    sgs ← nps_of_group membershipOnly (cid_Name (sg_id s));
    if decide (length sgs <> 0%nat) then upd_sg l (set_deletePending true)
    else
      sg_Delete membershipOnly l;;
      queue_Remove RetryQueue uName;;
      upd_sg l (set_retryOp None);;
      if decide (sg_state s = securityGroupStateInit /\ sg_status s <> Some InProgress) then mret tt
      else
        upd_sg l (set_state securityGroupStateGarbageCollectState);;
        deleteGarbage l membershipOnly.

Definition updateImpl (l : loc) (added removed : list CloudResource) (membershipOnly : bool) : M unit :=
  s ← get_sg l;
  if decide ((length added + length removed + length (sg_members s))%nat = 0%nat) then mret tt
  else
    let s := set_members (mergeCloudResources (sg_members s) added removed) s in
    put_sg l s;;
    if decide (sg_state s <> securityGroupStateCreated) then mret tt
    else match sg_retryOp s with
         | Some _ => mret tt
         | None =>
             call_cloud (mkCall l (UpdateSecurityGroupMembers (sg_id s) (sg_members s) membershipOnly)
               ReportByMembers)
         end.

(** ** addrSecurityGroup *)

Definition newAddrSecurityGroup (id : CloudResourceID) (data : list IPNet + list CloudResource)
    (state : option securityGroupState) : securityGroup :=
  mkSG true (match data with inr m => m | inl _ => [] end) id
    (default securityGroupStateInit state) false None None false
    (match data with inl ips => ips | inr _ => [] end) false false.

Definition isIPBlocks (s : securityGroup) : bool := bool_decide (cid_Vpc (sg_id s) = "").

(** [isReady] of both kinds. *)
Definition addr_isReady (s : securityGroup) : bool :=
  isIPBlocks s || bool_decide (sg_state s = securityGroupStateCreated).
Definition appliedTo_isReady (s : securityGroup) : bool := bool_decide (sg_state s = securityGroupStateCreated).

Definition addr_add (l : loc) : M unit :=
  s ← get_sg l;
  if isIPBlocks s then sg_Add true l else addImpl l true.

Definition addr_delete (l : loc) : M unit :=
  s ← get_sg l;
  if isIPBlocks s then sg_Delete true l else deleteImpl l true.

Definition addr_updateIPs (l : loc) (added removed : list IPNet) : M unit :=
  upd_sg l (fun s => set_ipBlocks (mergeIPs (sg_ipBlocks s) added removed) s).

Definition addr_update (l : loc) (added removed : list CloudResource) : M unit :=
  s ← get_sg l;
  if isIPBlocks s then mret tt else updateImpl l added removed true.

Definition addr_getStatus (s : securityGroup) : option GoError :=
  match sg_status s with
  | Some e => Some e
  | None =>
      if bool_decide (sg_state s = securityGroupStateCreated) || isIPBlocks s then None else Some InProgress
  end.

Definition addr_notifyNetworkPolicyChange (l : loc) : M unit :=
  s ← get_sg l;
  if negb (sg_deletePending s) then mret tt
  else
    sgs ← nps_of_addr (cid_Name (sg_id s));
    mwhen (bool_decide (length sgs = 0%nat)) (addr_delete l).

(** ** appliedToSecurityGroup *)

Definition newAppliedToSecurityGroup (id : CloudResourceID) (data : list IPNet + list CloudResource)
    (state : option securityGroupState) : option securityGroup :=
  match data with
  | inl _ => None
  | inr members => Some (mkSG false members id (default securityGroupStateInit state) false None None false [] false false)
  end.

Definition appliedTo_add (l : loc) : M unit :=
  s ← get_sg l;
  update_trackers l true false (sg_members s);;
  addImpl l false.

Definition appliedTo_delete (l : loc) : M unit :=
  s ← get_sg l;
  mwhen (sg_hasMembers s) (update_trackers l false true (sg_members s));;
  deleteImpl l false.

(** The rules of the policies of a group, in turn; [None] when the rules of one
    are not ready. *)
Fixpoint collect_rules (nps : list networkPolicy) : option (list IngressRule * list EgressRule) :=
  match nps with
  | [] => Some ([], [])
  | np :: nps =>
      if negb (np_rulesReady np) then None
      else match collect_rules nps with
           | None => None
           | Some (irules, erules) => Some (np_ingressRules np ++ irules, np_egressRules np ++ erules)%list
           end
  end.

Fixpoint mapM_get (ls : list loc) : M (list networkPolicy) :=
  match ls with
  | [] => mret []
  | l :: ls => n ← get_np l; ns ← mapM_get ls; mret (n :: ns)
  end.

Definition updateRules (l : loc) : M unit :=
  s ← get_sg l;
  if negb (appliedTo_isReady s) then mret tt
  else match sg_retryOp s with
  | Some _ => mret tt
  | None =>
      nps ← nps_of_appliedTo (cid_Name (sg_id s));
      if decide (length nps = 0%nat) then
        if sg_hasMembers s then
          call_cloud (mkCall l (UpdateSecurityGroupMembers (sg_id s) [] false)
            (ReportOp securityGroupOperationClearMembers))
        else put_sg l (set_hasRules false s)
      else
        ns ← mapM_get nps;
        match collect_rules ns with
        | None => mret tt
        | Some (irules, erules) =>
            call_cloud (mkCall l (UpdateSecurityGroupRules (sg_id s)
                (deduplicateIngressRules irules) (deduplicateEgressRules erules))
              (ReportOp securityGroupOperationUpdateRules))
        end
  end.

Definition appliedTo_update (l : loc) (added removed : list CloudResource) : M unit :=
  update_trackers l false true removed;;
  update_trackers l true false added;;
  updateImpl l added removed false.

Definition appliedTo_getStatus (s : securityGroup) : option GoError :=
  match sg_status s with
  | Some e => Some e
  | None =>
      if bool_decide (sg_state s = securityGroupStateCreated) && sg_hasRules s then None else Some InProgress
  end.

Definition appliedTo_notifyNetworkPolicyChange (l : loc) : M unit :=
  s ← get_sg l;
  sgs ← nps_of_appliedTo (cid_Name (sg_id s));
  if bool_decide (length sgs = 0%nat) && sg_deletePending s then appliedTo_delete l
  else if negb (sg_deletePending s) then updateRules l
  else mret tt.

(** ** The interface [cloudSecurityGroup] *)

Definition sg_add (l : loc) : M unit :=
  s ← get_sg l; if sg_membershipOnly s then addr_add l else appliedTo_add l.
Definition sg_delete (l : loc) : M unit :=
  s ← get_sg l; if sg_membershipOnly s then addr_delete l else appliedTo_delete l.
Definition sg_update (l : loc) (added removed : list CloudResource) : M unit :=
  s ← get_sg l; if sg_membershipOnly s then addr_update l added removed else appliedTo_update l added removed.

End Groups.
