(* ===== verification/NPPolicy.v ===== *)
(** * Network policies of the reconciler

    Model of [networkPolicyRule] and [networkPolicy] ([networkpolicy.go]) and
    of the status a tracker computes for a cloud resource
    ([networkpolicy_cloudresource.go]). *)

From stdpp Require Import base strings list gmap.
From Stdlib Require Import ZArith Lia.
From S2P Require Import Prelude GoStrings GoNet SecurityGroup RuleMerge NPState NPPending NPGroups.

#[local] Open Scope string_scope.
#[local] Open Scope Z_scope.

(** ** Rules *)

(** [net.IPNet{IP: ip.CIDR.IP, Mask: net.CIDRMask(ip.CIDR.PrefixLength, 32)}]. *)
Definition block_of (b : IPBlock) : IPNet := mkIPNet (ib_IP b) (CIDRMask (ib_PrefixLength b) 32).

(** Protocol and port of a service. *)
Definition service_protocol (s : Service) : option Z := svc_Protocol s ≫= AntreaProtocolMap.

(** One rule per service, or a single one without services. *)
Definition ingress_per_service (services : option (list Service)) (ips : list IPNet)
    (sgs : list CloudResourceID) : list IngressRule :=
  match services with
  | None => [mkIngressRule None ips sgs None]
  | Some ss => map (fun s => mkIngressRule (svc_Port s) ips sgs (service_protocol s)) ss
  end.

Definition egress_per_service (services : option (list Service)) (ips : list IPNet)
    (sgs : list CloudResourceID) : list EgressRule :=
  match services with
  | None => [mkEgressRule None ips sgs None]
  | Some ss => map (fun s => mkEgressRule (svc_Port s) ips sgs (service_protocol s)) ss
  end.

Section Policy.
Context `{CacheIndexer} `{MapRange}.

(** The addresses and groups the address security groups of one list stand
    for. *)
Fixpoint group_peers (sgs : list loc) : M (list IPNet * list CloudResourceID) :=
  match sgs with
  | [] => mret ([], [])
  | l :: sgs =>
      s ← get_sg l;
      rest ← group_peers sgs;
      let '(ips, ids) := rest : list IPNet * list CloudResourceID in
      mret ((sg_ipBlocks s ++ ips)%list,
            if decide (cid_Vpc (sg_id s) = "") then ids else sg_id s :: ids)
  end.

(** The peers of the address groups of a rule; [None] when one is unknown. *)
Fixpoint address_group_peers (ags : list string) : M (option (list IPNet * list CloudResourceID)) :=
  match ags with
  | [] => mret (Some ([], []))
  | ag :: ags =>
      sgs ← sgs_of_group true ag;
      if decide (length sgs = 0%nat) then mret None
      else
        p ← group_peers sgs;
        rest ← address_group_peers ags;
        match rest with
        | None => mret None
        | Some (ips, ids) => mret (Some ((p.1 ++ ips)%list, (p.2 ++ ids)%list))
        end
  end.

(** [(r *networkPolicyRule) rules]: ingress rules, egress rules, ready. *)
Definition rules (rule : NetworkPolicyRule) : M (list IngressRule * list EgressRule * bool) :=
  match rule_Direction rule with
  | DirectionIn =>
      o ← address_group_peers (peer_AddressGroups (rule_From rule));
      match o with
      | None => mret ([], [], false)
      | Some (ips, sgs) =>
          let ips := (map block_of (peer_IPBlocks (rule_From rule)) ++ ips)%list in
          if decide (sgs = [] /\ ips = []) then mret ([], [], true)
          else mret (ingress_per_service (rule_Services rule) ips sgs, [], true)
      end
  | DirectionOut =>
      o ← address_group_peers (peer_AddressGroups (rule_To rule));
      match o with
      | None => mret ([], [], false)
      | Some (ips, sgs) =>
          let ips := (map block_of (peer_IPBlocks (rule_To rule)) ++ ips)%list in
          if decide (sgs = [] /\ ips = []) then mret ([], [], true)
          else mret ([], egress_per_service (rule_Services rule) ips sgs, true)
      end
  end.

(** ** Policies *)

Definition np_set_rules (ing : list IngressRule) (eg : list EgressRule) (ready : bool) (n : networkPolicy) :=
  mkNP (np_Name n) (np_Rules n) (np_AppliedToGroups n) ing eg ready.

Definition upd_np (l : loc) (f : networkPolicy -> networkPolicy) : M unit :=
  n ← get_np l; put_np l (f n).

(** Loop over the groups of one address group in [computeRulesReady]: [Some e]
    is an early return of [e]. *)
Fixpoint check_sgs (withStatus : bool) (sgs : list loc) : M (option (option GoError)) :=
  match sgs with
  | [] => mret None
  | l :: sgs =>
      s ← get_sg l;
      match (if withStatus then addr_getStatus s else None) with
      | Some e => mret (Some (Some (ErrorString (CloudResourceID_String (sg_id s) +:+ "=" +:+ Error e))))
      | None => if negb (addr_isReady s) then mret (Some None) else check_sgs withStatus sgs
      end
  end.

Fixpoint check_groups (withStatus : bool) (names : list string) : M (option (option GoError)) :=
  match names with
  | [] => mret None
  | name :: names =>
      sgs ← sgs_of_group true name;
      if decide (length sgs = 0%nat) then mret (Some (Some (ErrorString "internal error")))
      else
        o ← check_sgs withStatus sgs;
        match o with Some e => mret (Some e) | None => check_groups withStatus names end
  end.

(** The set [addrGrpNames], in the order it is iterated. *)
Definition addrGrpNames (rs : list NetworkPolicyRule) : list string :=
  map fst (go_range (fold_left (fun m s => <[s := tt]> m) (np_addr_groups rs) (∅ : gmap string unit))).

Definition computeRulesReady (l : loc) (withStatus : bool) : M (option GoError) :=
  n ← get_np l;
  if withStatus || negb (np_rulesReady n) then
    o ← check_groups withStatus (addrGrpNames (np_Rules n));
    match o with
    | Some e => mret e
    | None => put_np l (np_set_rules (np_ingressRules n) (np_egressRules n) true n);; mret None
    end
  else mret None.

(** Loop of [computeRules] over the rules; [false] when one is not ready. *)
Fixpoint computeRules_loop (l : loc) (rs : list NetworkPolicyRule) : M bool :=
  match rs with
  | [] => mret true
  | rule :: rs =>
      res ← rules rule;
      let '(ing, eg, ready) := res : list IngressRule * list EgressRule * bool in
      if negb ready then
        upd_np l (np_set_rules [] [] false);;
        mret false
      else
        upd_np l (fun n => np_set_rules (np_ingressRules n ++ ing)%list (np_egressRules n ++ eg)%list
          (np_rulesReady n) n);;
        computeRules_loop l rs
  end.

Definition computeRules (l : loc) : M bool :=
  upd_np l (np_set_rules [] [] false);;
  n ← get_np l;
  ok ← computeRules_loop l (np_Rules n);
  if negb ok then mret false
  else
    computeRulesReady l false;;
    n ← get_np l;
    mret (np_rulesReady n).

(** [(n *networkPolicy) markDirty]. *)
Definition np_markDirty (l : loc) : M unit :=
  n ← get_np l;
  forM_ (np_AppliedToGroups n) (fun key =>
    sgs ← sgs_of_group false key;
    forM_ sgs (fun asg => securityGroup_markDirty asg false)).

(** The two loops that notify the groups of a list of names. *)
Definition notify_addr_groups (names : list string) : M unit :=
  forM_ names (fun id => sgs ← sgs_of_group true id; forM_ sgs addr_notifyNetworkPolicyChange).
Definition notify_appliedTo_groups (names : list string) : M unit :=
  forM_ names (fun id => sgs ← sgs_of_group false id; forM_ sgs appliedTo_notifyNetworkPolicyChange).

(** The changes [update] makes for the new rules of a policy: the address
    groups no longer used and the appliedTo groups to notify. *)
Definition update_rules_part (l : loc) (anp : AntreaPolicy) : M (list string * list string) :=
  n ← get_np l;
  if decide (anp_Rules anp = np_Rules n) then mret ([], [])
  else
    np_Delete l;;
    let removedAddr := (diffAddressGrp (np_Rules n) (anp_Rules anp)).2 in
    upd_np l (fun n => mkNP (np_Name n) (anp_Rules anp) (np_AppliedToGroups n) (np_ingressRules n)
      (np_egressRules n) (np_rulesReady n));;
    np_Add l;;
    ok ← computeRules l;
    n ← get_np l;
    mret (removedAddr, if ok : bool then np_AppliedToGroups n else []).

(** The changes for its new appliedTo groups: removed and added groups. *)
Definition update_appliedTo_part (l : loc) (anp : AntreaPolicy) : M (list string * list string) :=
  n ← get_np l;
  if decide (anp_AppliedToGroups anp = np_AppliedToGroups n) then mret ([], [])
  else
    np_Delete l;;
    let '(added, removed) := diffAppliedToGrp (np_AppliedToGroups n) (anp_AppliedToGroups anp) in
    upd_np l (fun n => mkNP (np_Name n) (np_Rules n) (anp_AppliedToGroups anp) (np_ingressRules n)
      (np_egressRules n) (np_rulesReady n));;
    np_Add l;;
    mret (removed, added).

(** [(n *networkPolicy) update]: with [None] for a recomputation, with the
    policy received otherwise. *)
Definition np_update (l : loc) (anp : option AntreaPolicy) : M unit :=
  match anp with
  | None =>
      ok ← computeRules l;
      if negb ok then mret tt
      else n ← get_np l; notify_appliedTo_groups (np_AppliedToGroups n)
  | Some anp =>
      np_markDirty l;;
      ra ← update_rules_part l anp;
      let '(removedAddr, modified) := ra : list string * list string in
      ap ← update_appliedTo_part l anp;
      let '(removedAppliedTo, addedAppliedTo) := ap : list string * list string in
      notify_addr_groups removedAddr;;
      notify_appliedTo_groups (modified ++ removedAppliedTo ++ addedAppliedTo);;
      np_markDirty l
  end.

(** [(n *networkPolicy) delete]. *)
Definition np_delete (l : loc) : M unit :=
  np_markDirty l;;
  n ← get_np l;
  np_Delete l;;
  notify_appliedTo_groups (np_AppliedToGroups n);;
  notify_addr_groups (np_addr_groups (np_Rules n)).

Definition notifyAddrGrpChanges (l : loc) : M unit :=
  n ← get_np l;
  if np_rulesReady n then mret tt
  else
    computeRulesReady l false;;
    n ← get_np l;
    if negb (np_rulesReady n) then mret tt
    else forM_ (np_AppliedToGroups n) (fun gname => sgs ← sgs_of_group false gname; forM_ sgs updateRules).

(** [(n *networkPolicy) getStatus]. *)
Definition np_getStatus (l : loc) : M (option GoError) :=
  n ← get_np l;
  if decide (np_ingressRules n = [] /\ np_egressRules n = []) then mret (Some InProgress)
  else computeRulesReady l true.

(** ** Status of a cloud resource *)

Definition StatusMap := gmap string (gmap string string).

(** [npList[name] = v] in the map of a namespace, made if missing. *)
Definition put_status (ns name v : string) (ret : StatusMap) : StatusMap :=
  <[ns := <[name := v]> (default ∅ (ret !! ns))]> ret.

(** The policies of the groups of a tracker, each with the group it was last
    found for. *)
Fixpoint npMap_loop (entries : list (string * loc)) (acc : gmap loc string) : M (gmap loc string) :=
  match entries with
  | [] => mret acc
  | (key, asg) :: entries =>
      s ← get_sg asg;
      nps ← nps_of_appliedTo (cid_Name (sg_id s));
      npMap_loop entries (fold_left (fun m np => <[np := key]> m) nps acc)
  end.

(** Status of one policy applied through the group [asgName]. *)
Definition np_status_of (np : loc) (asgName : string) : M string :=
  st ← np_getStatus np;
  match st with
  | Some e => mret (Error e)
  | None =>
      o ← sg_GetByKey false asgName;
      match o with
      | None => mret (asgName +:+ "=Internal Error ")
      | Some l =>
          s ← get_sg l;
          mret (match appliedTo_getStatus s with
                | Some e => asgName +:+ "=" +:+ Error e
                | None => "applied"
                end)
      end
  end.

Fixpoint status_loop (entries : list (loc * string)) (ret : StatusMap) : M StatusMap :=
  match entries with
  | [] => mret ret
  | (np, asgName) :: entries =>
      n ← get_np np;
      v ← np_status_of np asgName;
      status_loop entries (put_status (nn_Namespace (np_Name n)) (nn_Name (np_Name n)) v ret)
  end.

(** Groups the resource was a member of: one without error is dropped, the
    error of the others is reported. *)
Fixpoint prev_loop (entries : list (string * loc)) (prev : gmap string loc) (ret : StatusMap) :
    M (gmap string loc * StatusMap) :=
  match entries with
  | [] => mret (prev, ret)
  | (_, asg) :: entries =>
      s ← get_sg asg;
      let sgid := CloudResourceID_String (sg_id s) in
      match sg_status s with
      | None => prev_loop entries (delete sgid prev) ret
      | Some e =>
          nps ← nps_of_appliedTo (cid_Name (sg_id s));
          let errMsg := "Deleting/Detaching " +:+ sgid +:+ ": " +:+ Error e in
          ns ← mapM_get nps;
          let ret := fold_left (fun ret n =>
            put_status (nn_Namespace (np_Name n)) (nn_Name (np_Name n)) errMsg ret) ns ret in
          let ret := if decide (length nps = 0%nat) then put_status "" sgid errMsg ret else ret in
          prev_loop entries prev ret
      end
  end.

Definition computeNPStatus (c : loc) : M StatusMap :=
  t ← get_tr c;
  npMap ← npMap_loop (go_range (tr_appliedToSGs t)) ∅;
  ret ← status_loop (go_range npMap) ∅;
  pr ← prev_loop (go_range (tr_prevAppliedToSGs t)) (tr_prevAppliedToSGs t) ret;
  let '(newPrevSgs, ret) := pr : gmap string loc * StatusMap in
  mwhen (negb (bool_decide (size newPrevSgs = size (tr_prevAppliedToSGs t))))
    (tr_Delete c;;
     t ← get_tr c;
     put_tr c (mkTracker (tr_cloudResource t) (tr_dirty t) (tr_appliedToSGs t) newPrevSgs);;
     tr_Add c);;
  mret ret.

(** Stores the status of one virtual machine in the cache entry found or made
    for it; [known] tells that the tracker has policies in its namespace. *)
Definition store_vm_status (vm : VirtualMachine) (known : bool) (npStatus : gmap string string)
    (found : option loc) : M bool :=
  cache ← match found with
          | Some l => mret l
          | None => alloc put_vmp (mkNPStatus (vm_Name vm) ∅)
          end;
  c ← get_vmp cache;
  if known && bool_decide (nps_NPStatus c = npStatus) then mret false
  else if decide (npStatus = ∅) then vmp_Delete cache;; mret true
  else put_vmp cache (mkNPStatus (nps_Name c) npStatus);; vmp_Update cache;; mret true.

(** One virtual machine of [vmNPStatusSetter]: was its status updated. *)
Definition set_vm_status (status : StatusMap) (vm : VirtualMachine) : M bool :=
  let o := status !! nn_Namespace (vm_Name vm) in
  let npStatus := default ∅ (status !! "") ∪ default ∅ o in
  found ← gets (fun r => ix_GetByKey (NamespacedName_String (vm_Name vm)) (virtualMachinePolicyIndexer (ixs r)));
  match o, found with
  | None, None => mret false
  | None, Some _ => store_vm_status vm false npStatus found
  | Some _, _ => store_vm_status vm true npStatus found
  end.

Fixpoint set_vms_status (status : StatusMap) (vms : list VirtualMachine) : M bool :=
  match vms with
  | [] => mret false
  | vm :: vms => b ← set_vm_status status vm; b' ← set_vms_status status vms; mret (b || b')
  end.

(** [vmNPStatusSetter]: updated, or the error of listing the machines. *)
Definition vmNPStatusSetter (env : Env) (tracker : loc) : M (GoError + bool) :=
  status ← computeNPStatus tracker;
  t ← get_tr tracker;
  match env_ListByCloudID env (cid_Name (cr_Name (tr_cloudResource t))) with
  | inl err => mret (inl err)
  | inr vms => b ← set_vms_status status vms; mret (inr b)
  end.

(** One round of [processCloudResourceNPTrackers]; [resourceNPStatusSetter] has
    an entry for virtual machines only, calling a missing one panics. *)
Definition processTracker (env : Env) (tracker : loc) : M unit :=
  dirty ← tracker_isDirty tracker;
  if negb dirty then mret tt
  else
    t ← get_tr tracker;
    if decide (cr_Type (tr_cloudResource t) <> CloudResourceTypeVM) then panic
    else
      res ← vmNPStatusSetter env tracker;
      match res with
      | inl _ => mret tt
      | inr _ =>
          t ← get_tr tracker;
          if decide (size (tr_appliedToSGs t) = 0%nat /\ size (tr_prevAppliedToSGs t) = 0%nat)
          then tr_Delete tracker
          else tracker_setDirty false tracker
      end.

Definition processCloudResourceNPTrackers (env : Env) : M unit :=
  trackers ← gets (fun r => ix_List (cloudResourceNPTrackerIndexer (ixs r)));
  forM_ trackers (processTracker env).

End Policy.
