(* ===== verification/NPSync.v ===== *)
(** * Synchronisation with the cloud

    Model of [networkpolicy_sync.go]: comparing every group with what the cloud
    reports and bringing the two together. *)

From stdpp Require Import base strings list gmap.
From Stdlib Require Import ZArith Lia.
From S2P Require Import Prelude GoStrings GoNet SecurityGroup RuleMerge NPState NPPending NPGroups NPPolicy.

#[local] Open Scope string_scope.
#[local] Open Scope Z_scope.

Definition npSyncReadyBookMarkCnt : Z := 3.

(** ** Comparing rules *)

Definition rule_items (port proto : option Z) (ips : list IPNet) (sgs : list CloudResourceID) : list string :=
  let proto := key_field proto in
  let port := key_field port in
  ((if (0 <? proto) || (0 <? port)
    then ["protocol=" +:+ Itoa proto +:+ ",port=" +:+ Itoa port] else []) ++
   map IPNet_String ips ++ map CloudResourceID_String sgs)%list.

Definition ingress_items (r : IngressRule) : list string :=
  rule_items (ir_FromPort r) (ir_Protocol r) (ir_FromSrcIP r) (ir_FromSecurityGroups r).
Definition egress_items (r : EgressRule) : list string :=
  rule_items (er_ToPort r) (er_Protocol r) (er_ToDstIP r) (er_ToSecurityGroups r).

(** [items] after the policies of the group are counted. *)
Definition np_items (n : networkPolicy) : list string :=
  (flat_map ingress_items (np_ingressRules n) ++ flat_map egress_items (np_egressRules n))%list.
Definition content_items (c : SynchronizationContent) : list string :=
  (flat_map ingress_items (sc_IngressRules c) ++ flat_map egress_items (sc_EgressRules c))%list.

Section Sync.
Context `{CacheIndexer} `{MapRange}.

(** [getNICsOfCloudResources]; a failing [List] returns the resources as they
    are. *)
Fixpoint nics_loop (env : Env) (all resources : list CloudResource) (nics : list CloudResource) : list CloudResource :=
  match resources with
  | [] => nics
  | rsc :: resources =>
      match env_ListByCloudName env (cid_Name (cr_Name rsc)) with
      | inl _ => all
      | inr vms =>
          nics_loop env all resources (nics ++ flat_map (fun vm =>
            map (fun nic => mkCloudResource CloudResourceTypeNIC (mkCloudResourceID nic (cid_Vpc (cr_Name rsc))))
              (vm_NetworkInterfaces vm)) vms)%list
      end
  end.

Definition getNICsOfCloudResources (env : Env) (resources : list CloudResource) : list CloudResource :=
  match resources with
  | [] => []
  | r0 :: _ =>
      if decide (cr_Type r0 = CloudResourceTypeNIC) then resources
      else nics_loop env resources resources []
  end.

(** Membership of the cloud's group and of the controller's is the same. *)
Definition same_members (env : Env) (s : securityGroup) (c : SynchronizationContent) : bool :=
  let nMembers :=
    match sc_Members c with
    | m0 :: _ => if decide (cr_Type m0 = CloudResourceTypeNIC)
                 then getNICsOfCloudResources env (sg_members s) else sg_members s
    | [] => sg_members s
    end in
  compareCloudResources nMembers (sc_Members c).

Definition sync_update (l : loc) (membershipOnly : bool) : M unit :=
  s ← get_sg l;
  match sg_state s with
  | securityGroupStateCreated => updateImpl l [] [] membershipOnly
  | securityGroupStateInit => addImpl l membershipOnly
  | securityGroupStateGarbageCollectState => mret tt
  end.

(** [syncImpl]: true when cloud and controller have the same members. *)
Definition syncImpl (env : Env) (l : loc) (c : option SynchronizationContent) (membershipOnly : bool) : M bool :=
  s ← get_sg l;
  match c with
  | Some c =>
      put_sg l (set_state securityGroupStateCreated s);;
      if same_members env s c then mret true
      else sync_update l membershipOnly;; mret false
  | None =>
      if decide (length (sg_members s) = 0%nat) then mret true
      else sync_update l membershipOnly;; mret false
  end.

Definition addr_sync (env : Env) (l : loc) (c : option SynchronizationContent) : M unit :=
  s ← get_sg l;
  if sg_deletePending s then mret tt
  else syncImpl env l c true;; mret tt.

(** The loop over the policies of the group: their rules are computed anew and
    counted; [None] when one is not ready. *)
Fixpoint count_rules (nps : list loc) (items : gmap string Z) : M (option (gmap string Z)) :=
  match nps with
  | [] => mret (Some items)
  | np :: nps =>
      ok ← computeRules np;
      if negb ok then mret None
      else
        n ← get_np np;
        count_rules nps (fold_left (bump 1) (np_items n) items)
  end.

(** The rough comparison of the counted items with the cloud's rules. *)
Definition items_differ (items : gmap string Z) (c : SynchronizationContent) : bool :=
  existsb (fun kv => negb (kv.2 =? 0)) (go_range (fold_left (bump (-1)) (content_items c) items)).

Definition appliedTo_sync (env : Env) (l : loc) (c : option SynchronizationContent) : M unit :=
  s ← get_sg l;
  if sg_deletePending s then mret tt
  else
    same ← syncImpl env l c false;
    s ← get_sg l;
    mwhen (same && negb (bool_decide (length (sg_members s) = 0%nat))) (upd_sg l (set_hasMembers true));;
    nps ← nps_of_appliedTo (cid_Name (sg_id s));
    o ← count_rules nps ∅;
    match o with
    | None => mret tt
    | Some items =>
        match c with
        | None => updateRules l
        | Some c =>
            if items_differ items c then updateRules l
            else mwhen (negb (bool_decide (length nps = 0%nat)))
                   (s ← get_sg l;
                    mwhen (negb (sg_hasRules s)) (securityGroup_markDirty l false);;
                    upd_sg l (set_hasRules true))
        end
    end.

(** ** The whole synchronisation *)

(** What [syncWithCloud] gathers from the channel. *)
Record Gathered := mkGathered {
  cloudAddrSGs : gmap CloudResourceID SynchronizationContent;
  cloudAppliedToSGs : gmap CloudResourceID SynchronizationContent;
  rscWithUnknownSGs : gmap CloudResource unit
}.

(** Deletes a group of the cloud the controller does not know, through an
    object made for the purpose. *)
Definition delete_unknown (c : SynchronizationContent) : M unit :=
  s ← deref (if sc_MembershipOnly c
             then Some (newAddrSecurityGroup (sc_Resource c) (inr []) (Some securityGroupStateCreated))
             else newAppliedToSecurityGroup (sc_Resource c) (inr []) (Some securityGroupStateCreated));
  l ← alloc put_sg s;
  sg_delete l.

Fixpoint gather (contents : list SynchronizationContent) (g : Gathered) : M Gathered :=
  match contents with
  | [] => mret g
  | c :: contents =>
      o ← sg_GetByKey (sc_MembershipOnly c) (CloudResourceID_String (sc_Resource c));
      match o with
      | None => delete_unknown c;; gather contents g
      | Some _ =>
          gather contents
            (if sc_MembershipOnly c
             then mkGathered (<[sc_Resource c := c]> (cloudAddrSGs g)) (cloudAppliedToSGs g) (rscWithUnknownSGs g)
             else mkGathered (cloudAddrSGs g) (<[sc_Resource c := c]> (cloudAppliedToSGs g))
                    (fold_left (fun m rsc => <[rsc := tt]> m) (sc_MembersWithOtherSGAttached c)
                       (rscWithUnknownSGs g)))
      end
  end.

(** Updates one group of a resource that other security groups are attached
    to. *)
Definition refresh_resource (rsc : CloudResource) : M unit :=
  o ← gets (fun r => ix_GetByKey (CloudResource_String rsc) (cloudResourceNPTrackerIndexer (ixs r)));
  match o with
  | None => mret tt
  | Some tr =>
      t ← get_tr tr;
      match go_range (tr_appliedToSGs t) with
      | [] => mret tt
      | (_, sg) :: _ => appliedTo_update sg [] []
      end
  end.

Definition syncWithCloud (env : Env) : M unit :=
  cnt ← gets bookmarkCnt;
  if cnt <? npSyncReadyBookMarkCnt then mret tt
  else
    g ← gather (env_SyncContents env) (mkGathered ∅ ∅ ∅);
    modify (set_synced true);;
    addrs ← gets (fun r => ix_List (addrSGIndexer (ixs r)));
    forM_ addrs (fun l =>
      s ← get_sg l;
      if isIPBlocks s then mret tt else addr_sync env l (cloudAddrSGs g !! sg_id s));;
    appliedTos ← gets (fun r => ix_List (appliedToSGIndexer (ixs r)));
    forM_ appliedTos (fun l => s ← get_sg l; appliedTo_sync env l (cloudAppliedToSGs g !! sg_id s));;
    forM_ (map fst (go_range (rscWithUnknownSGs g))) refresh_resource.

(** [processBookMark]: was the event a bookmark. *)
Definition processBookMark (env : Env) (event : EventType) : M bool :=
  if decide (event <> Bookmark) then mret false
  else
    synced ← gets syncedWithCloud;
    if synced : bool then mret true
    else
      modify (fun r => set_bookmarkCnt (bookmarkCnt r + 1) r);;
      syncWithCloud env;;
      mret true.

End Sync.
