(* ===== verification/NPController.v ===== *)
(** * Event handling of the NetworkPolicy reconciler

    Model of [networkpolicy_controller.go] and of the running of pending items:
    what each event the reconciler receives makes it do, and the system of the
    reconciler with the cloud's answers as a transition relation. *)

From stdpp Require Import base strings list gmap.
From Stdlib Require Import ZArith Lia.
From S2P Require Import Prelude GoStrings GoNet GoCIDR SecurityGroup RuleMerge NPState NPPending NPGroups NPPolicy NPSync.

#[local] Open Scope string_scope.
#[local] Open Scope Z_scope.

(** ** Resolving group members *)

Definition ExternalEntityLabelKeyKind : string := "kind.nephe".
Definition virtualMachineLabelKind : string := ToLower "VirtualMachine".
Definition VirtualMachineCRDKind : string := "VirtualMachine".
Definition AnnotationCloudAssignedIDKey : string := "cloud-assigned-id".
Definition AnnotationCloudAssignedVPCIDKey : string := "cloud-assigned-vpc-id".

(** [getOwnerAnnotations]; [None] is an error. *)
Definition getOwnerAnnotations (env : Env) (e : ExternalEntity) : option (gmap string string) :=
  match ee_OwnerReferences e with
  | [] => None
  | owner :: _ =>
      if decide (or_Kind owner = VirtualMachineCRDKind) then
        match env_GetVirtualMachine env (mkNamespacedName (nn_Namespace (ee_Name e)) (or_Name owner)) with
        | GetOk vm => Some (vm_Annotations vm)
        | _ => None
        end
      else None
  end.

(** Results of [vpcsFromGroupMembers]: resources by VPC, addresses, names of
    the entities that are missing. *)
Record Resolved := mkResolved {
  rs_vpcs : gmap string (list CloudResource);
  rs_ipBlocks : list IPNet;
  rs_notFound : list string
}.

Definition resolved_nil : Resolved := mkResolved ∅ [] [].

Definition add_resource (vpc : string) (rsc : CloudResource) (r : Resolved) : Resolved :=
  mkResolved (<[vpc := (default [] (rs_vpcs r !! vpc) ++ [rsc])%list]> (rs_vpcs r)) (rs_ipBlocks r) (rs_notFound r).

(** Appends the blocks of a list of texts.  [net.ParseCIDR] gives a nil block
    for a text that is no address, and the code that first prints such a block
    panics; the model panics ([None]) where it is stored. *)
Definition add_blocks (bs : list (option IPNet)) (r : Resolved) : option Resolved :=
  option_map (fun bs => mkResolved (rs_vpcs r) (rs_ipBlocks r ++ bs)%list (rs_notFound r)) (mapM id bs).

Definition endpoint_block (ip : string) : option IPNet :=
  match ParseCIDR ip with Some n => Some n | None => ParseCIDR (ip +:+ "/32") end.

(** One member whose entity exists. *)
Definition resolve_entity (env : Env) (e : ExternalEntity) (r : Resolved) : option Resolved :=
  match ee_Labels e !! ExternalEntityLabelKeyKind with
  | None => Some r
  | Some kind =>
      if decide (kind = virtualMachineLabelKind) then
        match getOwnerAnnotations env e with
        | None => Some r
        | Some annotations =>
            match annotations !! AnnotationCloudAssignedVPCIDKey with
            | None => Some r
            | Some vpc =>
                Some (add_resource vpc (mkCloudResource CloudResourceTypeVM
                  (mkCloudResourceID (default "" (annotations !! AnnotationCloudAssignedIDKey)) vpc)) r)
            end
        end
      else add_blocks (map endpoint_block (ee_EndpointIPs e)) r
  end.

(** [vpcsFromGroupMembers]: the error of the client, or the results. *)
Fixpoint vpcsFromGroupMembers (env : Env) (fed : gmap string (list string)) (members : list GroupMember)
    (acc : Resolved) : option (GoError + Resolved) :=
  match members with
  | [] => Some (inr acc)
  | m :: members =>
      match gm_ExternalEntity m with
      | None => vpcsFromGroupMembers env fed members acc
      | Some key =>
          match env_GetExternalEntity env key with
          | GetNotFound =>
              match fed !! NamespacedName_String key with
              | Some ips =>
                  match add_blocks (map (fun ip => ParseCIDR (ip +:+ "/32")) ips) acc with
                  | None => None
                  | Some acc => vpcsFromGroupMembers env fed members acc
                  end
              | None =>
                  vpcsFromGroupMembers env fed members
                    (mkResolved (rs_vpcs acc) (rs_ipBlocks acc) (rs_notFound acc ++ [nn_Name key])%list)
              end
          | GetError err => Some (inl err)
          | GetOk e =>
              match resolve_entity env e acc with
              | None => None
              | Some acc => vpcsFromGroupMembers env fed members acc
              end
          end
      end
  end.

Section Controller.
Context `{CacheIndexer} `{MapRange}.
Variable env : Env.

Definition vpcs_of (members : list GroupMember) : M (GoError + Resolved) :=
  fed ← gets fedExternalEntityIPs;
  deref (vpcsFromGroupMembers env fed members resolved_nil).

(** ** Group events *)

Definition missing (names : list string) : GoError :=
  ErrorString ("missing externalEntities: [" +:+ String.concat " " names +:+ "]").

(** The members of an Added or Modified event; [inl] is the error the handler
    returns. *)
Definition resolve_added (added : list GroupMember) : M (GoError + Resolved) :=
  res ← vpcs_of added;
  match res with
  | inl err => mret (inl err)
  | inr r => mret (if decide (length (rs_notFound r) = 0%nat) then inr r else inl (missing (rs_notFound r)))
  end.

Definition resolve_removed (name : string) (removed : list GroupMember) : M (GoError + Resolved) :=
  res ← vpcs_of removed;
  match res with
  | inl err => mret (inl err)
  | inr r =>
      mwhen (negb (bool_decide (length (rs_notFound r) = 0%nat)))
        (sgs ← sgs_of_group true name;
         forM_ sgs (fun l => removeStaleMembers l (rs_notFound r));;
         sgs1 ← sgs_of_group false name;
         forM_ sgs1 (fun l => removeStaleMembers l (rs_notFound r)));;
      mret (inr r)
  end.

(** The creator and the methods of the group's kind. *)
Definition create_sg (isAddrGrp : bool) (id : CloudResourceID) (data : list IPNet + list CloudResource) : option securityGroup :=
  if isAddrGrp then Some (newAddrSecurityGroup id data None) else newAppliedToSecurityGroup id data None.

(** Loop over the added members by VPC: the removed members left to handle, and
    whether a group was added. *)
Fixpoint apply_added (name : string) (isAddrGrp : bool) (vpcs : list (string * list CloudResource))
    (removedMembers : gmap string (list CloudResource)) (sgChanges : bool) :
    M (gmap string (list CloudResource) * bool) :=
  match vpcs with
  | [] => mret (removedMembers, sgChanges)
  | (vpc, members) :: vpcs =>
      let key := mkCloudResourceID name vpc in
      o ← sg_GetByKey isAddrGrp (CloudResourceID_String key);
      match o with
      | Some l =>
          s ← get_sg l;
          if compareCloudResources members (sg_members s)
          then apply_added name isAddrGrp vpcs removedMembers sgChanges
          else
            sg_update l members (default [] (removedMembers !! vpc));;
            apply_added name isAddrGrp vpcs (delete vpc removedMembers) sgChanges
      | None =>
          match create_sg isAddrGrp key (inr members) with
          | None => apply_added name isAddrGrp vpcs removedMembers sgChanges
          | Some s =>
              l ← alloc put_sg s;
              sg_add l;;
              apply_added name isAddrGrp vpcs removedMembers true
          end
      end
  end.

(** Loop over the removed members by VPC. *)
Definition apply_removed (name : string) (isAddrGrp : bool) (vpcs : list (string * list CloudResource)) : M unit :=
  forM_ vpcs (fun vm : string * list CloudResource =>
    o ← sg_GetByKey isAddrGrp (CloudResourceID_String (mkCloudResourceID name vm.1));
    match o with
    | None => mret tt
    | Some l => sg_update l [] vm.2
    end).

(** The group of the addresses outside of any VPC. *)
Definition apply_ips (name : string) (eventType : EventType) (addedIPs removedIPs : list IPNet) : M unit :=
  let key := mkCloudResourceID name "" in
  o ← sg_GetByKey true (CloudResourceID_String key);
  match o with
  | Some l => addr_updateIPs l addedIPs removedIPs
  | None =>
      mwhen (bool_decide (eventType = Added))
        (l ← alloc put_sg (newAddrSecurityGroup key (inl addedIPs) None); addr_add l)
  end.

(** An address group without members: false when it exists already. *)
Definition apply_empty (name : string) (addedIPs : list IPNet) : M bool :=
  let key := mkCloudResourceID name "" in
  o ← sg_GetByKey true (CloudResourceID_String key);
  match o with
  | Some _ => mret false
  | None => l ← alloc put_sg (newAddrSecurityGroup key (inl addedIPs) None); addr_add l;; mret true
  end.

Definition recompute_policies (name : string) : M unit :=
  nps ← nps_of_addr name;
  forM_ nps (fun np => np_update np None).

(** The end of the handler, once the members are resolved. *)
Definition apply_members (name : string) (eventType : EventType) (isAddrGrp : bool)
    (added removed : list GroupMember) (a r : Resolved) : M unit :=
  ac ← apply_added name isAddrGrp (go_range (rs_vpcs a)) (rs_vpcs r) false;
  let '(removedMembers, sgChanges) := ac : gmap string (list CloudResource) * bool in
  apply_removed name isAddrGrp (go_range removedMembers);;
  let withIPs := isAddrGrp && negb (bool_decide (rs_ipBlocks a = [] /\ rs_ipBlocks r = [])) in
  mwhen withIPs (apply_ips name eventType (rs_ipBlocks a) (rs_ipBlocks r));;
  let sgChanges := sgChanges || withIPs in
  if bool_decide (eventType = Added) && bool_decide (added = []) && bool_decide (removed = []) && isAddrGrp then
    ok ← apply_empty name (rs_ipBlocks a);
    if ok : bool then recompute_policies name else mret tt
  else mwhen (sgChanges && isAddrGrp) (recompute_policies name).

(** The body of [processMemberGrp] for an event that is not a bookmark; the
    result is the variable [err] its deferred function reads. *)
Definition processMemberGrp_body (name : string) (eventType : EventType) (isAddrGrp : bool)
    (added removed : list GroupMember) : M (option GoError) :=
  plugin ← gets cloudPlugin;
  if negb plugin then mret None
  else
    let uName := getGroupUniqueName name isAddrGrp in
    pending ← queue_Has PendingDeleteGroups uName;
    if pending : bool then
      queue_UpdateOnly PendingDeleteGroups uName (UpdateEvent eventType added removed);; mret None
    else match eventType with
    | Added =>
        a ← resolve_added added;
        match a with
        | inl err => mret (Some err)
        | inr a => apply_members name eventType isAddrGrp added removed a resolved_nil;; mret None
        end
    | Modified =>
        a ← resolve_added added;
        match a with
        | inl err => mret (Some err)
        | inr a =>
            r ← resolve_removed name removed;
            match r with
            | inl err => mret (Some err)
            | inr r => apply_members name eventType isAddrGrp added removed a r;; mret None
            end
        end
    | Deleted =>
        sgs ← sgs_of_group isAddrGrp name;
        forM_ sgs sg_delete;;
        mret None
    | _ => mret None
    end.

(** [processMemberGrp], with its deferred function. *)
Definition processMemberGrp (name : string) (eventType : EventType) (isAddrGrp : bool)
    (added removed : list GroupMember) : M (option GoError) :=
  bm ← processBookMark env eventType;
  if bm : bool then mret None
  else
    let uName := getGroupUniqueName name isAddrGrp in
    err ← processMemberGrp_body name eventType isAddrGrp added removed;
    mwhen (match err with None => false | Some _ => bool_decide (eventType = Added \/ eventType = Modified) end)
      (has ← queue_Has RetryQueue uName;
       mwhen (negb has) (p ← alloc put_pg (mkPendingGroup None false EventNone ∅ ∅);
                         queue_Add RetryQueue uName (PendingGroup p));;
       queue_UpdateOnly RetryQueue uName (UpdateEvent eventType added removed);;
       mret tt);;
    mwhen (bool_decide (eventType = Deleted)) (queue_Remove RetryQueue uName);;
    mret err.

(** ** Running pending items *)

(** [(p *pendingGroup) RunPendingItem]. *)
Definition pendingGroup_RunPendingItem (id : string) (l : loc) : M bool :=
  p ← get_pg l;
  if decide (size (pg_addedMembers p) = 0%nat) then mret true
  else
    let members := map snd (go_range (pg_addedMembers p)) in
    let '(name, memberOnly) := getGroupIDFromUniqueName id in
    err ← processMemberGrp name (pg_event p) memberOnly members [];
    p ← get_pg l;
    match pg_refCnt p with
    | Some _ => mret true
    | None => mret (match err with None => true | Some _ => false end)
    end.

(** [runPendingItemImpl]; retrying an operation of an appliedTo group on an
    address group is a type assertion that panics. *)
Definition runPendingItemImpl (l : loc) (memberOnly : bool) : M bool :=
  s ← get_sg l;
  match sg_retryOp s with
  | None =>
      mwhen (negb (bool_decide (sg_state s = securityGroupStateGarbageCollectState)))
        (if negb (sg_membershipOnly s)
         then upd_sg l (set_hasMembers false);; updateRules l
         else updateImpl l [] [] memberOnly);;
      mret true
  | Some op =>
      upd_sg l (set_retryOp None);;
      match op with
      | securityGroupOperationAdd => addImpl l memberOnly
      | securityGroupOperationUpdateMembers => updateImpl l [] [] memberOnly
      | securityGroupOperationDelete => deleteImpl l memberOnly
      | securityGroupOperationClearMembers | securityGroupOperationUpdateRules =>
          if sg_membershipOnly s then panic else updateRules l
      end;;
      upd_sg l (set_retryInProgress true);;
      upd_sg l (set_retryOp (Some op));;
      mret false
  end.

Definition RunPendingItem (id : string) (i : PendingItem) : M bool :=
  match i with
  | PendingSG l => s ← get_sg l; runPendingItemImpl l (sg_membershipOnly s)
  | PendingGroup l => pendingGroup_RunPendingItem id l
  end.

(** ** Answers of the cloud *)

Definition notifyImpl (l : loc) (membershipOnly : bool) (op : securityGroupOperation) (status : option GoError) : M unit :=
  s ← get_sg l;
  let uName := getGroupUniqueName (CloudResourceID_String (sg_id s)) membershipOnly in
  let failed := match status with Some _ => true | None => false end in
  has ← queue_Has RetryQueue uName;
  mwhen (failed && negb has &&
         (negb (bool_decide (sg_state s = securityGroupStateGarbageCollectState)) ||
          bool_decide (op = securityGroupOperationDelete)))
    (upd_sg l (set_retryOp (Some op));; queue_Add RetryQueue uName (PendingSG l));;
  has ← queue_Has RetryQueue uName;
  moreOps ← (if has : bool then
               queue_Update RunPendingItem RetryQueue uName (negb failed) (UpdateOp op);;
               has ← queue_Has RetryQueue uName;
               n ← queue_GetRetryCount RetryQueue uName;
               mret (has && (0 <? n))
             else mret false);
  mwhen (bool_decide (op = securityGroupOperationDelete))
    (queue_Update RunPendingItem PendingDeleteGroups
       (getGroupUniqueName (cid_Name (sg_id s)) membershipOnly) true (UpdateRef (-1) (negb moreOps))).

(** [a.status = status], unless the group is being deleted and the answer is to
    an earlier operation. *)
Definition record_status (l : loc) (op : securityGroupOperation) (status : option GoError) : M unit :=
  s ← get_sg l;
  mwhen (negb (bool_decide (sg_state s = securityGroupStateGarbageCollectState) &&
               negb (bool_decide (op = securityGroupOperationDelete))))
    (upd_sg l (set_status status)).

(** [if r.retryQueue.Has(uName) { r.retryQueue.Update(uName, false, op) }]. *)
Definition update_retry (l : loc) (membershipOnly : bool) (op : securityGroupOperation) : M unit :=
  s ← get_sg l;
  let uName := getGroupUniqueName (CloudResourceID_String (sg_id s)) membershipOnly in
  has ← queue_Has RetryQueue uName;
  mwhen has (queue_UpdateOnly RetryQueue uName (UpdateOp op);; mret tt).

Definition addr_notify (l : loc) (op : securityGroupOperation) (status : option GoError) : M unit :=
  s ← get_sg l;
  nps ← nps_of_addr (cid_Name (sg_id s));
  record_status l op status;;
  match status with
  | Some _ => mret tt
  | None =>
      update_retry l true op;;
      match op with
      | securityGroupOperationAdd =>
          upd_sg l (fun s => if decide (sg_state s = securityGroupStateInit)
                             then set_state securityGroupStateCreated s else s);;
          addr_update l [] [];;
          forM_ nps notifyAddrGrpChanges
      | _ => mret tt
      end
  end;;
  s ← get_sg l;
  mwhen (addr_isReady s) (forM_ nps np_markDirty);;
  notifyImpl l true op status.

Definition appliedTo_notify (l : loc) (op : securityGroupOperation) (status : option GoError) : M unit :=
  record_status l op status;;
  match status with
  | Some _ => mret tt
  | None =>
      update_retry l false op;;
      s ← get_sg l;
      match op with
      | securityGroupOperationAdd =>
          mwhen (bool_decide (sg_state s = securityGroupStateInit))
            (upd_sg l (set_state securityGroupStateCreated);; updateRules l)
      | securityGroupOperationUpdateMembers => upd_sg l (set_hasMembers true)
      | securityGroupOperationUpdateRules =>
          upd_sg l (set_hasRules true);;
          mwhen (negb (sg_hasMembers s)) (appliedTo_update l [] [])
      | securityGroupOperationClearMembers =>
          upd_sg l (set_hasMembers false);;
          mwhen (sg_hasRules s) (updateRules l)
      | securityGroupOperationDelete => mret tt
      end
  end;;
  s ← get_sg l;
  trackers ← trackers_of_appliedTo (CloudResourceID_String (sg_id s));
  forM_ trackers (tracker_setDirty true);;
  notifyImpl l false op status.

Definition processCloudResponse (st : securityGroupStatus) : M unit :=
  s ← get_sg (st_sg st);
  if sg_membershipOnly s then addr_notify (st_sg st) (st_op st) (st_err st)
  else appliedTo_notify (st_sg st) (st_op st) (st_err st).

(** ** Events of the watchers *)

(** An AddressGroup or AppliedToGroup object, or a patch of one. *)
Inductive GroupObject :=
  | CompleteGroup (name : string) (members : list GroupMember)
  | PatchGroup (name : string) (added removed : list GroupMember).

(** [processAddrGrp] and [processAppliedToGrp], which differ in the kind of the
    group only. *)
Definition process_group (isAddrGrp : bool) (eventType : EventType) (obj : GroupObject) : M (option GoError) :=
  match obj with
  | CompleteGroup name members =>
      if decide (eventType = Modified)
      then mret (Some (ErrorString "mismatch message type"))
      else processMemberGrp name eventType isAddrGrp
             (if decide (eventType = Added) then members else []) []
  | PatchGroup name added removed =>
      if decide (eventType <> Modified)
      then mret (Some (ErrorString "mismatch message type"))
      else processMemberGrp name eventType isAddrGrp added removed
  end.

Definition processAddrGrp : EventType -> GroupObject -> M (option GoError) := process_group true.
Definition processAppliedToGrp : EventType -> GroupObject -> M (option GoError) := process_group false.

(** [isNetworkPolicySupported]. *)
Definition isNetworkPolicySupported (anp : AntreaPolicy) : option GoError :=
  match anp_SourceRef anp with
  | None => Some (ErrorString "source reference not set in network policy")
  | Some ref =>
      if decide (ref_Type ref <> AntreaNetworkPolicy)
      then Some (ErrorString "only antrea network policy is supported")
      else if existsb (fun rule => match rule_Action rule with
                                   | Some a => bool_decide (a <> RuleActionAllow)
                                   | None => false
                                   end) (anp_Rules anp)
      then Some (ErrorString "only Allow action is supported in antrea network policy")
      else None
  end.

(** A policy of the Antrea controller gets its own name and namespace back. *)
Definition original_name (anp : AntreaPolicy) : NamespacedName :=
  match anp_SourceRef anp with
  | Some ref => if decide (nn_Namespace (anp_Name anp) = "")
                then mkNamespacedName (ref_Namespace ref) (ref_Name ref) else anp_Name anp
  | None => anp_Name anp
  end.

Definition processNetworkPolicy (eventType : EventType) (anp : AntreaPolicy) : M (option GoError) :=
  bm ← processBookMark env eventType;
  if bm : bool then mret None
  else match isNetworkPolicySupported anp with
  | Some err => mret (Some err)
  | None =>
      let name := original_name anp in
      o ← gets (fun r => ix_GetByKey (NamespacedName_String name) (networkPolicyIndexer (ixs r)));
      np ← match o with
           | Some l => mret l
           | None =>
               l ← alloc put_np (mkNP name (anp_Rules anp) (anp_AppliedToGroups anp) [] [] false);
               np_Add l;; mret l
           end;
      let isCreate := match o with Some _ => false | None => true end in
      if decide (eventType = Deleted) then np_delete np;; mret None
      else
        n ← get_np np;
        if negb isCreate && bool_decide (anp_Rules anp = np_Rules n) &&
           bool_decide (anp_AppliedToGroups anp = np_AppliedToGroups n) then mret None
        else
          plugin ← gets cloudPlugin;
          if negb plugin then mret None
          else np_update np (if isCreate then None else Some anp);; mret None
  end.

(** Every second: the trackers, the retry queue, and from time to time the
    cloud. *)
Definition tick (now : Z) : M unit :=
  processCloudResourceNPTrackers env;;
  queue_CheckToRun RunPendingItem RetryQueue;;
  mwhen (Z.land now 255 =? 0) (syncWithCloud env).

(** The objects an event of the local stack carries. *)
Inductive WatchObject :=
  | ObjNetworkPolicy (anp : AntreaPolicy)
  | ObjAppliedToGroup (obj : GroupObject)
  | ObjUnknown.

Definition processLocalEvent (eventType : EventType) (obj : WatchObject) : M (option GoError) :=
  match obj with
  | ObjNetworkPolicy anp => processNetworkPolicy eventType anp
  | ObjAppliedToGroup obj => processAppliedToGrp eventType obj
  | ObjUnknown => mret None
  end.

(** What the loop of [Start] receives. *)
Inductive Event :=
  | EvAddrGrp (t : EventType) (obj : GroupObject)
  | EvAppliedToGrp (t : EventType) (obj : GroupObject)
  | EvNetworkPolicy (t : EventType) (anp : AntreaPolicy)
  | EvResponse (st : securityGroupStatus)
  | EvLocal (t : EventType) (obj : WatchObject)
  | EvTick (now : Z).

(** An error event closes a watcher: the watchers are opened anew, which does
    not touch the state modelled here. *)
Definition watcher_event (t : EventType) (m : M (option GoError)) : M unit :=
  if decide (t = EventError) then mret tt else m;; mret tt.

(** One round of the loop of [Start]; errors are logged. *)
Definition handle (ev : Event) : M unit :=
  match ev with
  | EvAddrGrp t obj => watcher_event t (processAddrGrp t obj)
  | EvAppliedToGrp t obj => watcher_event t (processAppliedToGrp t obj)
  | EvNetworkPolicy t anp => watcher_event t (processNetworkPolicy t anp)
  | EvResponse st => processCloudResponse st
  | EvLocal t obj => processLocalEvent t obj;; mret tt
  | EvTick now => tick now
  end.

End Controller.

(** ** The system

    The reconciler with the answers of the cloud that wait to be received.  A
    call the reconciler made is answered at any time, in any order; the
    goroutine that waits for the answer of a membership update looks at the
    members of the group at that moment. *)
Section System.
Context `{CacheIndexer} `{MapRange}.

Record System := mkSystem { sys_r : Reconciler; sys_responses : list securityGroupStatus }.

Definition reported_op (r : Reconciler) (c : CloudCall) : securityGroupOperation :=
  match call_op c with
  | ReportOp op => op
  | ReportByMembers =>
      match h_sg (heap r) !! call_sg c with
      | Some s => if decide (length (sg_members s) = 0%nat)
                  then securityGroupOperationClearMembers else securityGroupOperationUpdateMembers
      | None => securityGroupOperationClearMembers
      end
  end.

Inductive step : System -> System -> Prop :=
  | step_event env ev r r' resp :
      (forall st, ev <> EvResponse st) ->
      handle env ev r = Some (tt, r') ->
      step (mkSystem r resp) (mkSystem r' resp)
  | step_answer r resp pre c post err :
      calls r = (pre ++ c :: post)%list ->
      step (mkSystem r resp)
           (mkSystem (set_calls (pre ++ post)%list r)
              (resp ++ [mkStatus (call_sg c) (reported_op r c) err])%list)
  | step_deliver env r r' pre st post :
      handle env (EvResponse st) r = Some (tt, r') ->
      step (mkSystem r (pre ++ st :: post)%list) (mkSystem r' (pre ++ post)%list).

Inductive reachable : System -> Prop :=
  | reach_init plugin : reachable (mkSystem (SetupWithManager plugin) [])
  | reach_step s s' : reachable s -> step s s' -> reachable s'.

(** A run of events, for the executable examples. *)
Fixpoint run (evs : list (Env * Event)) (r : Reconciler) : option Reconciler :=
  match evs with
  | [] => Some r
  | (env, ev) :: evs =>
      match handle env ev r with
      | Some (_, r') => run evs r'
      | None => None
      end
  end.

End System.
