(* ===== verification/NPInvariants.v ===== *)
(** * Invariants of the reconciler's state

    What holds of the reconciler between two steps: pointers lead to objects of
    the right kind, indexers file objects under their keys, a group only moves
    forward through its life cycle, and every call to the cloud that waits for
    an answer was made for a group in a state that allows it.  The invariant is
    stated on the components of the state and shown to be kept by the
    operations of [NPState] and [NPPending]; [NPSafety] follows the handlers. *)

From stdpp Require Import base strings list gmap.
From Stdlib Require Import ZArith Lia.
From S2P Require Import Prelude GoStrings GoNet SecurityGroup RuleMerge NPState NPPending.

#[local] Open Scope string_scope.
#[local] Open Scope Z_scope.

(** ** Life cycle of a group *)

Definition state_rank (s : securityGroupState) : Z :=
  match s with
  | securityGroupStateInit => 0
  | securityGroupStateCreated => 1
  | securityGroupStateGarbageCollectState => 2
  end.

(** Identity and kind of a group never change, its state only moves from
    initial to created to garbage. *)
Record sg_evolves (s s' : securityGroup) : Prop := mk_sg_evolves {
  ev_kind : sg_membershipOnly s' = sg_membershipOnly s;
  ev_id : sg_id s' = sg_id s;
  ev_state : state_rank (sg_state s) <= state_rank (sg_state s')
}.

#[export] Instance sg_evolves_refl : Reflexive sg_evolves.
Proof. intros s. split; [done..|lia]. Qed.
#[export] Instance sg_evolves_trans : Transitive sg_evolves.
Proof. intros a b c [] []. split; [congruence..|lia]. Qed.

Definition heap_evolves (h h' : gmap loc securityGroup) : Prop :=
  forall l s, h !! l = Some s -> exists s', h' !! l = Some s' /\ sg_evolves s s'.

#[export] Instance heap_evolves_refl : Reflexive heap_evolves.
Proof. intros h l s Hs. exists s. split; [done|reflexivity]. Qed.
#[export] Instance heap_evolves_trans : Transitive heap_evolves.
Proof.
  intros a b c Hab Hbc l s Hs. destruct (Hab l s Hs) as (s' & Hs' & E).
  destruct (Hbc l s' Hs') as (s'' & Hs'' & E'). exists s''. split; [done|]. by transitivity s'.
Qed.

Lemma heap_evolves_insert h l s s' :
  h !! l = Some s -> sg_evolves s s' -> heap_evolves h (<[l := s']> h).
Proof.
  intros Hl He k t Hk. destruct (decide (l = k)) as [<-|Hne].
  - exists s'. rewrite lookup_insert_eq. split; [done|congruence].
  - exists t. rewrite lookup_insert_ne by done. split; [done|reflexivity].
Qed.

Lemma heap_evolves_fresh h l s : h !! l = None -> heap_evolves h (<[l := s]> h).
Proof.
  intros Hl k t Hk. exists t. rewrite lookup_insert_ne by congruence. split; [done|reflexivity].
Qed.

(** ** Well-formed components *)

(** A group that is being deleted retries nothing but its deletion. *)
Definition sg_ok (s : securityGroup) : Prop :=
  sg_state s = securityGroupStateGarbageCollectState ->
  sg_retryOp s = None \/ sg_retryOp s = Some securityGroupOperationDelete.

Definition sgs_wf (h : gmap loc securityGroup) : Prop := forall l s, h !! l = Some s -> sg_ok s.

(** An indexer files live groups of its kind under their identifiers. *)
Definition sgix_wf (h : gmap loc securityGroup) (kind : bool) (ix : gmap string loc) : Prop :=
  forall k l, ix !! k = Some l -> exists s, h !! l = Some s /\ sg_membershipOnly s = kind /\
    CloudResourceID_String (sg_id s) = k /\ sg_state s <> securityGroupStateGarbageCollectState.

(** An indexer files objects under their keys. *)
Definition keyed_wf {A} (key : A -> string) (h : gmap loc A) (ix : gmap string loc) : Prop :=
  forall k l, ix !! k = Some l -> exists a, h !! l = Some a /\ key a = k.

(** A tracker refers to appliedTo groups under their identifiers. *)
Definition groups_wf (h : gmap loc securityGroup) (m : gmap string loc) : Prop :=
  forall k l, m !! k = Some l -> exists s, h !! l = Some s /\ sg_membershipOnly s = false /\
    CloudResourceID_String (sg_id s) = k.
Definition trs_wf (h : gmap loc securityGroup) (trs : gmap loc cloudResourceNPTracker) : Prop :=
  forall c t, trs !! c = Some t -> groups_wf h (tr_appliedToSGs t) /\ groups_wf h (tr_prevAppliedToSGs t).

(** What a call to the cloud says of the group it was made for. *)
Definition call_ok (s : securityGroup) (c : CloudCall) : Prop :=
  match call_req c with
  | CreateSecurityGroup id mo =>
      id = sg_id s /\ mo = sg_membershipOnly s /\ call_op c = ReportOp securityGroupOperationAdd
  | DeleteSecurityGroup id mo =>
      id = sg_id s /\ mo = sg_membershipOnly s /\ call_op c = ReportOp securityGroupOperationDelete /\
      sg_state s = securityGroupStateGarbageCollectState
  | UpdateSecurityGroupMembers id _ mo =>
      id = sg_id s /\ mo = sg_membershipOnly s /\ sg_state s <> securityGroupStateInit /\
      (call_op c = ReportByMembers \/
       (call_op c = ReportOp securityGroupOperationClearMembers /\ mo = false))
  | UpdateSecurityGroupRules id _ _ =>
      id = sg_id s /\ sg_membershipOnly s = false /\ sg_state s <> securityGroupStateInit /\
      call_op c = ReportOp securityGroupOperationUpdateRules
  end.
Definition calls_wf (h : gmap loc securityGroup) (cs : list CloudCall) : Prop :=
  forall c, c ∈ cs -> exists s, h !! call_sg c = Some s /\ call_ok s c.

(** Items of the two queues.  A retried group is filed under its unique name,
    with a counter that was never above [operationCount]; a pending deletion
    counts references. *)
Definition item_wf (h : gmap loc securityGroup) (pgs : gmap loc pendingGroup) (k : string) (i : PendingItem) : Prop :=
  match i with
  | PendingSG l => exists s, h !! l = Some s /\
      k = getGroupUniqueName (CloudResourceID_String (sg_id s)) (sg_membershipOnly s)
  | PendingGroup l => exists p, pgs !! l = Some p /\ pg_refCnt p = None
  end.
Definition retry_wf (h : gmap loc securityGroup) (pgs : gmap loc pendingGroup) (cnts : gmap loc Z) (q : queue) : Prop :=
  forall k i, q !! k = Some i -> item_wf h pgs k (ci_item i) /\
    exists c n, ci_opCnt i = Some c /\ cnts !! c = Some n /\ n <= operationCount.
Definition pending_wf (pgs : gmap loc pendingGroup) (q : queue) : Prop :=
  forall k i, q !! k = Some i -> ci_opCnt i = None /\
    exists l p, ci_item i = PendingGroup l /\ pgs !! l = Some p /\ is_Some (pg_refCnt p).

Definition below {A} (n : loc) (h : gmap loc A) : Prop := forall l, is_Some (h !! l) -> (l < n)%positive.

(** *** Each component under a change of the groups *)

Lemma groups_wf_mono h h' m : heap_evolves h h' -> groups_wf h m -> groups_wf h' m.
Proof.
  intros He Hm k l Hl. destruct (Hm k l Hl) as (s & Hs & Hk & Hid).
  destruct (He l s Hs) as (s' & Hs' & [E1 E2 _]). exists s'. by rewrite E1, E2.
Qed.

Lemma trs_wf_mono h h' trs : heap_evolves h h' -> trs_wf h trs -> trs_wf h' trs.
Proof.
  intros He Ht c t Hc. destruct (Ht c t Hc) as [H1 H2].
  split; [exact (groups_wf_mono _ _ _ He H1)|exact (groups_wf_mono _ _ _ He H2)].
Qed.

Lemma state_not_init s s' :
  sg_evolves s s' -> sg_state s <> securityGroupStateInit -> sg_state s' <> securityGroupStateInit.
Proof. intros [_ _ Hr] Hn Hi. rewrite Hi in Hr. destruct (sg_state s); simpl in *; done. Qed.

Lemma state_garbage s s' :
  sg_evolves s s' -> sg_state s = securityGroupStateGarbageCollectState ->
  sg_state s' = securityGroupStateGarbageCollectState.
Proof. intros [_ _ Hr] Hn. rewrite Hn in Hr. destruct (sg_state s'); simpl in *; [lia|lia|done]. Qed.

Lemma call_ok_mono s s' c : sg_evolves s s' -> call_ok s c -> call_ok s' c.
Proof.
  intros He. pose proof He as [E1 E2 _]. unfold call_ok. rewrite E1, E2.
  pose proof (state_not_init s s' He). pose proof (state_garbage s s' He).
  destruct (call_req c); tauto.
Qed.

Lemma calls_wf_mono h h' cs : heap_evolves h h' -> calls_wf h cs -> calls_wf h' cs.
Proof.
  intros He Hc c Hin. destruct (Hc c Hin) as (s & Hs & Hok).
  destruct (He _ s Hs) as (s' & Hs' & E). eauto using call_ok_mono.
Qed.

Lemma retry_wf_mono h h' pgs cnts q : heap_evolves h h' -> retry_wf h pgs cnts q -> retry_wf h' pgs cnts q.
Proof.
  intros He Hq k i Hi. destruct (Hq k i Hi) as [Hit Hc]. split; [|done].
  unfold item_wf in *. destruct (ci_item i); [|done].
  destruct Hit as (s & Hs & ->). destruct (He _ s Hs) as (s' & Hs' & [E1 E2 _]).
  exists s'. by rewrite E1, E2.
Qed.

(** A group the cloud has not been told of. *)
Definition sg_quiet (s : securityGroup) : Prop :=
  sg_state s = securityGroupStateInit /\ sg_status s <> Some InProgress /\ sg_retryOp s = None.

(** ** The invariant

    Until the first synchronisation with the cloud the reconciler is quiet: it
    has made no call, no group is created or retried.  The invariant is stated
    with that part ([strict]) and without, because a synchronisation makes its
    first calls before it is recorded as done. *)

Class Strictness := strict : bool.

Section Invariant.
Context {IXC : CacheIndexer} {STR : Strictness}.

Definition quiet (r : Reconciler) : Prop :=
  calls r = [] /\
  (forall l s, h_sg (heap r) !! l = Some s -> sg_quiet s) /\
  (forall k i, retryQueue r !! k = Some i -> exists l, ci_item i = PendingGroup l).

Definition before_sync (r : Reconciler) : Prop := strict = true /\ syncedWithCloud r = false.

Record wf (r : Reconciler) : Prop := mk_wf {
  wf_sgs : sgs_wf (h_sg (heap r));
  wf_sgix : forall b, sgix_wf (h_sg (heap r)) b (ix_contents (sgIx b (ixs r)));
  wf_npix : keyed_wf np_key (h_np (heap r)) (ix_contents (networkPolicyIndexer (ixs r)));
  wf_trix : keyed_wf tr_key (h_tr (heap r)) (ix_contents (cloudResourceNPTrackerIndexer (ixs r)));
  wf_vmpix : keyed_wf vmp_key (h_vmp (heap r)) (ix_contents (virtualMachinePolicyIndexer (ixs r)));
  wf_trs : trs_wf (h_sg (heap r)) (h_tr (heap r));
  wf_calls : calls_wf (h_sg (heap r)) (calls r);
  wf_retry : retry_wf (h_sg (heap r)) (h_pg (heap r)) (h_cnt (heap r)) (retryQueue r);
  wf_pending : pending_wf (h_pg (heap r)) (pendingDeleteGroups r);
  wf_quiet : before_sync r -> quiet r;
  wf_below : below (h_next (heap r)) (h_sg (heap r)) /\ below (h_next (heap r)) (h_np (heap r)) /\
    below (h_next (heap r)) (h_tr (heap r)) /\ below (h_next (heap r)) (h_vmp (heap r)) /\
    below (h_next (heap r)) (h_pg (heap r)) /\ below (h_next (heap r)) (h_cnt (heap r))
}.

Definition evolves (r r' : Reconciler) : Prop :=
  heap_evolves (h_sg (heap r)) (h_sg (heap r')) /\
  (syncedWithCloud r = true -> syncedWithCloud r' = true).

#[export] Instance evolves_refl : Reflexive evolves.
Proof. intros r. split; [reflexivity|done]. Qed.
#[export] Instance evolves_trans : Transitive evolves.
Proof. intros a b c [H1 H2] [H3 H4]. split; [by transitivity (h_sg (heap b))|auto]. Qed.

(** The result of a method run from a well-formed state. *)
Definition good (r r' : Reconciler) : Prop := wf r' /\ evolves r r'.

Lemma good_trans r1 r2 r3 : good r1 r2 -> good r2 r3 -> good r1 r3.
Proof. intros [_ E1] [W E2]. split; [done|by transitivity r2]. Qed.

Lemma good_refl r : wf r -> good r r.
Proof. split; [done|reflexivity]. Qed.

(** A fact about the groups a pointer leads to, kept by every method. *)
Definition has_kind (b : bool) (l : loc) (r : Reconciler) : Prop :=
  exists s, h_sg (heap r) !! l = Some s /\ sg_membershipOnly s = b.

Lemma has_kind_mono b l r r' : evolves r r' -> has_kind b l r -> has_kind b l r'.
Proof.
  intros [He _] (s & Hs & Hb). destruct (He l s Hs) as (s' & Hs' & [E _ _]).
  exists s'. split; [done|congruence].
Qed.

Lemma SetupWithManager_wf plugin : wf (SetupWithManager plugin).
Proof.
  split; simpl; unfold sgs_wf, keyed_wf, trs_wf, retry_wf, pending_wf, below; intros;
    try (by rewrite ?ix_new, ?lookup_empty in *).
  - intros k l. destruct b; simpl; by rewrite ix_new, lookup_empty.
  - intros c Hc. by apply not_elem_of_nil in Hc.
  - split_and!; intros l [x Hx]; by rewrite lookup_empty in Hx.
Qed.

(** ** Running a method step by step *)

Lemma bind_inv {A B} (m : M A) (k : A -> M B) r b r2 :
  (m ≫= k) r = Some (b, r2) -> exists a r1, m r = Some (a, r1) /\ k a r1 = Some (b, r2).
Proof. unfold mbind, M_bind. destruct (m r) as [[a r1]|]; [eauto|done]. Qed.

Lemma mret_inv {A} (a b : A) r r' : (mret a : M A) r = Some (b, r') -> b = a /\ r' = r.
Proof. by intros [= <- <-]. Qed.

Lemma gets_inv {A} (f : Reconciler -> A) r a r' : gets f r = Some (a, r') -> a = f r /\ r' = r.
Proof. by intros [= <- <-]. Qed.

Lemma modify_inv f r a r' : modify f r = Some (a, r') -> r' = f r.
Proof. by intros [= <- <-]. Qed.

Lemma deref_inv {A} (o : option A) r a r' : deref o r = Some (a, r') -> o = Some a /\ r' = r.
Proof. destruct o; [|done]. by intros [= <- <-]. Qed.

Lemma get_inv {A} (f : Reconciler -> option A) r a r' :
  (gets f ≫= deref) r = Some (a, r') -> f r = Some a /\ r' = r.
Proof. intros (o & r1 & [-> ->]%gets_inv & [Ho ->]%deref_inv)%bind_inv. done. Qed.

Lemma get_sg_inv l r s r' : get_sg l r = Some (s, r') -> h_sg (heap r) !! l = Some s /\ r' = r.
Proof. intros Hr. exact (get_inv _ _ _ _ Hr). Qed.
Lemma get_np_inv l r s r' : get_np l r = Some (s, r') -> h_np (heap r) !! l = Some s /\ r' = r.
Proof. intros Hr. exact (get_inv _ _ _ _ Hr). Qed.
Lemma get_tr_inv l r s r' : get_tr l r = Some (s, r') -> h_tr (heap r) !! l = Some s /\ r' = r.
Proof. intros Hr. exact (get_inv _ _ _ _ Hr). Qed.
Lemma get_vmp_inv l r s r' : get_vmp l r = Some (s, r') -> h_vmp (heap r) !! l = Some s /\ r' = r.
Proof. intros Hr. exact (get_inv _ _ _ _ Hr). Qed.
Lemma get_pg_inv l r s r' : get_pg l r = Some (s, r') -> h_pg (heap r) !! l = Some s /\ r' = r.
Proof. intros Hr. exact (get_inv _ _ _ _ Hr). Qed.
Lemma get_cnt_inv l r s r' : get_cnt l r = Some (s, r') -> h_cnt (heap r) !! l = Some s /\ r' = r.
Proof. intros Hr. exact (get_inv _ _ _ _ Hr). Qed.

Lemma queue_Has_inv q id r b r' :
  queue_Has q id r = Some (b, r') -> r' = r /\ b = bool_decide (is_Some (get_queue q r !! id)).
Proof.
  unfold queue_Has, queue_lookup. intros (o & r1 & [-> ->]%gets_inv & [-> ->]%mret_inv)%bind_inv.
  split; [done|]. by destruct (get_queue q r !! id).
Qed.

End Invariant.

(** Follows the run of a method recorded in a hypothesis. *)
Ltac minv1 :=
  match goal with
  | H : (_ ≫= _) ?r = Some (_, _) |- _ =>
      let a := fresh "x" in let r1 := fresh "r" in let H1 := fresh "Hm" in
      apply bind_inv in H as (a & r1 & H1 & H)
  | H : mret _ ?r = Some (_, _) |- _ => apply mret_inv in H as [? ?]; subst
  | H : gets _ ?r = Some (_, _) |- _ => apply gets_inv in H as [? ?]; subst
  | H : get_sg _ _ = Some (_, _) |- _ => apply get_sg_inv in H as [H ?]; subst
  | H : get_np _ _ = Some (_, _) |- _ => apply get_np_inv in H as [H ?]; subst
  | H : get_tr _ _ = Some (_, _) |- _ => apply get_tr_inv in H as [H ?]; subst
  | H : get_vmp _ _ = Some (_, _) |- _ => apply get_vmp_inv in H as [H ?]; subst
  | H : get_pg _ _ = Some (_, _) |- _ => apply get_pg_inv in H as [H ?]; subst
  | H : get_cnt _ _ = Some (_, _) |- _ => apply get_cnt_inv in H as [H ?]; subst
  | H : queue_lookup _ _ _ = Some (_, _) |- _ => apply gets_inv in H as [? ?]; subst
  | H : queue_Has _ _ _ = Some (_, _) |- _ => apply queue_Has_inv in H as [? ?]; subst
  | H : sgs_of_group _ _ _ = Some (_, _) |- _ => apply gets_inv in H as [? ?]; subst
  | H : nps_of_addr _ _ = Some (_, _) |- _ => apply gets_inv in H as [? ?]; subst
  | H : nps_of_appliedTo _ _ = Some (_, _) |- _ => apply gets_inv in H as [? ?]; subst
  | H : trackers_of_appliedTo _ _ = Some (_, _) |- _ => apply gets_inv in H as [? ?]; subst
  | H : sg_GetByKey _ _ _ = Some (_, _) |- _ => apply gets_inv in H as [? ?]; subst
  | H : deref _ _ = Some (_, _) |- _ => apply deref_inv in H as [H ?]; subst
  | H : panic _ = Some _ |- _ => discriminate H
  | H : mwhen ?b _ _ = Some _ |- _ => unfold mwhen in H
  | H : (if ?b then _ else _) _ = Some _ |- _ => let E := fresh "Eb" in destruct b eqn:E
  | H : (match ?x with _ => _ end) _ = Some _ |- _ => let E := fresh "E" in destruct x eqn:E
  end.
Ltac minv := cbv beta in * |-; repeat (minv1; simpl in * |-).

(** Unfolds the changes of the state a run consists of. *)
Ltac minv_heap :=
  repeat match goal with
  | Hm : modify _ _ = Some _ |- _ => apply modify_inv in Hm; subst
  | Hm : put_sg _ _ _ = Some _ |- _ => apply modify_inv in Hm; subst
  | Hm : put_np _ _ _ = Some _ |- _ => apply modify_inv in Hm; subst
  | Hm : put_tr _ _ _ = Some _ |- _ => apply modify_inv in Hm; subst
  | Hm : put_vmp _ _ _ = Some _ |- _ => apply modify_inv in Hm; subst
  | Hm : put_pg _ _ _ = Some _ |- _ => apply modify_inv in Hm; subst
  | Hm : put_cnt _ _ _ = Some _ |- _ => apply modify_inv in Hm; subst
  | Hm : with_ixs _ _ = Some _ |- _ => apply modify_inv in Hm; subst
  end.

(** Shows the invariant after a change of one component: the other parts carry
    over. *)
Ltac wf_frame W :=
  let W1 := fresh "W1" in let W2 := fresh "W2" in let W3 := fresh "W3" in
  let W4 := fresh "W4" in let W5 := fresh "W5" in let W6 := fresh "W6" in
  let W7 := fresh "W7" in let W8 := fresh "W8" in let W9 := fresh "W9" in
  let WQ := fresh "WQ" in
  split; [destruct W as [W1 W2 W3 W4 W5 W6 W7 W8 W9 WQ (B1 & B2 & B3 & B4 & B5 & B6)];
          split; simpl; auto 9; try exact WQ|split; simpl; [try reflexivity|auto]].

Section Primitives.
Context {IXC : CacheIndexer} {STR : Strictness}.

(** ** The primitive changes keep the invariant *)

Lemma below_insert {A} n (h : gmap loc A) l a : (l < n)%positive -> below n h -> below n (<[l := a]> h).
Proof.
  intros Hl Hb k Hk. apply lookup_insert_is_Some in Hk as [<-|[_ ?]]; auto.
Qed.

Lemma below_succ {A} n (h : gmap loc A) : below n h -> below (Pos.succ n) h.
Proof. intros Hb l Hl%Hb. lia. Qed.

Lemma below_fresh {A} n (h : gmap loc A) : below n h -> h !! n = None.
Proof. intros Hb. destruct (h !! n) eqn:E; [|done]. destruct (Pos.lt_irrefl n). apply Hb. eauto. Qed.

Lemma keyed_wf_insert {A} (key : A -> string) h ix l a b :
  h !! l = Some a -> key b = key a -> keyed_wf key h ix -> keyed_wf key (<[l := b]> h) ix.
Proof.
  intros Ha Hk Hw k l' Hl'. destruct (Hw k l' Hl') as (c & Hc & Hkc).
  destruct (decide (l = l')) as [<-|Hne].
  - exists b. rewrite lookup_insert_eq. split; [done|congruence].
  - exists c. by rewrite lookup_insert_ne.
Qed.

Lemma keyed_wf_fresh {A} (key : A -> string) h ix l b :
  h !! l = None -> keyed_wf key h ix -> keyed_wf key (<[l := b]> h) ix.
Proof.
  intros Ha Hw k l' Hl'. destruct (Hw k l' Hl') as (c & Hc & Hkc).
  exists c. rewrite lookup_insert_ne by congruence. done.
Qed.

Lemma keyed_wf_add {A} (key : A -> string) h ix l a :
  h !! l = Some a -> keyed_wf key h ix -> keyed_wf key h (<[key a := l]> ix).
Proof.
  intros Ha Hw k l'. destruct (decide (key a = k)) as [<-|Hne].
  - rewrite lookup_insert_eq. intros [= <-]. eauto.
  - rewrite lookup_insert_ne by done. apply Hw.
Qed.

Lemma keyed_wf_delete {A} (key : A -> string) h ix k : keyed_wf key h ix -> keyed_wf key h (delete k ix).
Proof. intros Hw k' l' Hl'. apply lookup_delete_Some in Hl' as [_ Hl']. by apply Hw. Qed.

(** A change of one group. *)
Lemma put_sg_good l s s' r a r' :
  wf r -> h_sg (heap r) !! l = Some s -> sg_evolves s s' -> sg_ok s' ->
  (before_sync r -> sg_quiet s -> sg_quiet s') ->
  (sg_state s' <> securityGroupStateGarbageCollectState \/
   sg_state s = securityGroupStateGarbageCollectState \/
   (forall b k, ix_contents (sgIx b (ixs r)) !! k <> Some l)) ->
  put_sg l s' r = Some (a, r') -> good r r'.
Proof.
  intros W Hl He Hok Hq Hix ->%modify_inv.
  pose proof (heap_evolves_insert _ _ _ _ Hl He) as Hh.
  split; [|by split].
  destruct W as [W1 W2 W3 W4 W5 W6 W7 W8 W9 WQ (B1 & B2)]. split; simpl; auto.
  - intros k t. destruct (decide (l = k)) as [<-|Hne];
      [rewrite lookup_insert_eq; by intros [= <-]|rewrite lookup_insert_ne by done; apply W1].
  - intros b k k' Hk. destruct (W2 b k k' Hk) as (t & Ht & Hkind & Hid & Hst).
    destruct (decide (l = k')) as [<-|Hne].
    + exists s'. rewrite lookup_insert_eq. destruct He as [E1 E2 _].
      assert (t = s) as -> by congruence. rewrite E1, E2. split_and!; try done.
      destruct Hix as [?|[?|Hn]]; [done|congruence|]. by destruct (Hn b k).
    + exists t. by rewrite lookup_insert_ne.
  - by eapply trs_wf_mono.
  - by eapply calls_wf_mono.
  - by eapply retry_wf_mono.
  - intros Hb. destruct (WQ Hb) as (Q1 & Q2 & Q3). split; [done|split; [|done]]. simpl. intros k t.
    destruct (decide (l = k)) as [<-|Hne];
      [rewrite lookup_insert_eq; intros [= <-]; eauto|rewrite lookup_insert_ne by done; apply Q2].
  - split; [|done]. apply below_insert; [|done]. apply B1. eauto.
Qed.

(** A change that leaves identity, kind, state, status and retried operation alone. *)
Definition neutral (f : securityGroup -> securityGroup) : Prop := forall s,
  sg_membershipOnly (f s) = sg_membershipOnly s /\ sg_id (f s) = sg_id s /\
  sg_state (f s) = sg_state s /\ sg_retryOp (f s) = sg_retryOp s /\ sg_status (f s) = sg_status s.

Lemma put_sg_neutral f l s r a r' :
  wf r -> h_sg (heap r) !! l = Some s -> neutral f -> put_sg l (f s) r = Some (a, r') -> good r r'.
Proof.
  intros W Hl Hf. destruct (Hf s) as (E1 & E2 & E3 & E4 & E5).
  apply (put_sg_good l s); [done|done| | | |].
  - split; [done..|]. rewrite E3. lia.
  - unfold sg_ok. rewrite E3, E4. by apply (wf_sgs r W l).
  - unfold sg_quiet. by rewrite E3, E4, E5.
  - rewrite E3. destruct (decide (sg_state s = securityGroupStateGarbageCollectState)); auto.
Qed.

Lemma upd_sg_neutral f l r a r' : wf r -> neutral f -> upd_sg l f r = Some (a, r') -> good r r'.
Proof. unfold upd_sg. intros W Hf Hr. minv. eapply put_sg_neutral; eauto. Qed.

Lemma alloc_sg_good s r l r' :
  wf r -> sg_ok s -> (before_sync r -> sg_quiet s) -> alloc put_sg s r = Some (l, r') ->
  good r r' /\ h_sg (heap r') !! l = Some s /\
  (forall b k, ix_contents (sgIx b (ixs r')) !! k <> Some l).
Proof.
  unfold alloc, fresh, with_heap. intros W Hok Hq Hr. minv.
  minv_heap.
  destruct W as [W1 W2 W3 W4 W5 W6 W7 W8 W9 WQ (B1 & B2 & B3 & B4 & B5 & B6)].
  pose proof (below_fresh _ _ B1) as Hf.
  pose proof (heap_evolves_fresh _ _ s Hf) as Hh. simpl in *.
  split; [split; [split; simpl; auto|by split]|split; [apply lookup_insert_eq|]].
  - intros k t. destruct (decide (h_next (heap r) = k)) as [<-|Hne];
      [rewrite lookup_insert_eq; by intros [= <-]|rewrite lookup_insert_ne by done; apply W1].
  - intros b k k' Hk. destruct (W2 b k k' Hk) as (t & Ht & ?).
    exists t. rewrite lookup_insert_ne by congruence. done.
  - by eapply trs_wf_mono.
  - by eapply calls_wf_mono.
  - by eapply retry_wf_mono.
  - intros Hb. destruct (WQ Hb) as (Q1 & Q2 & Q3). split; [done|split; [|done]]. simpl. intros k t.
    destruct (decide (h_next (heap r) = k)) as [<-|Hne];
      [rewrite lookup_insert_eq; intros [= <-]; eauto|rewrite lookup_insert_ne by done; apply Q2].
  - split_and!; auto using below_succ. apply below_insert; [lia|]. by apply below_succ.
  - intros b k Hk. destruct (W2 b k _ Hk) as (t & Ht & _). congruence.
Qed.

(** Allocating an object of another kind. *)
Lemma alloc_np_good n r l r' :
  wf r -> alloc put_np n r = Some (l, r') -> good r r' /\ h_np (heap r') !! l = Some n.
Proof.
  unfold alloc, fresh, with_heap. intros W Hr. minv.
  minv_heap.
  split; [|apply lookup_insert_eq]. wf_frame W.
  - apply keyed_wf_fresh; [|done]. by apply below_fresh.
  - split_and!; auto using below_succ. apply below_insert; [lia|]. by apply below_succ.
Qed.

Lemma alloc_tr_good t r l r' :
  wf r -> groups_wf (h_sg (heap r)) (tr_appliedToSGs t) -> groups_wf (h_sg (heap r)) (tr_prevAppliedToSGs t) ->
  alloc put_tr t r = Some (l, r') -> good r r' /\ h_tr (heap r') !! l = Some t.
Proof.
  unfold alloc, fresh, with_heap. intros W H1 H2 Hr. minv.
  minv_heap.
  split; [|apply lookup_insert_eq]. wf_frame W.
  - apply keyed_wf_fresh; [|done]. by apply below_fresh.
  - intros c u. destruct (decide (h_next (heap r) = c)) as [<-|Hne];
      [rewrite lookup_insert_eq; by intros [= <-]|rewrite lookup_insert_ne by done; eauto].
  - split_and!; auto using below_succ. apply below_insert; [lia|]. by apply below_succ.
Qed.

Lemma alloc_vmp_good v r l r' :
  wf r -> alloc put_vmp v r = Some (l, r') -> good r r' /\ h_vmp (heap r') !! l = Some v.
Proof.
  unfold alloc, fresh, with_heap. intros W Hr. minv.
  minv_heap.
  split; [|apply lookup_insert_eq]. wf_frame W.
  - apply keyed_wf_fresh; [|done]. by apply below_fresh.
  - split_and!; auto using below_succ. apply below_insert; [lia|]. by apply below_succ.
Qed.

Lemma retry_wf_pgs h pgs pgs' cnts q :
  (forall l p, pgs !! l = Some p -> pg_refCnt p = None -> exists p', pgs' !! l = Some p' /\ pg_refCnt p' = None) ->
  retry_wf h pgs cnts q -> retry_wf h pgs' cnts q.
Proof.
  intros Hp Hq k i Hi. destruct (Hq k i Hi) as [Hit Hc]. split; [|done].
  unfold item_wf in *. destruct (ci_item i); [done|]. destruct Hit as (p & ? & ?). eauto.
Qed.

Lemma pending_wf_pgs pgs pgs' q :
  (forall l p, pgs !! l = Some p -> is_Some (pg_refCnt p) -> exists p', pgs' !! l = Some p' /\ is_Some (pg_refCnt p')) ->
  pending_wf pgs q -> pending_wf pgs' q.
Proof.
  intros Hp Hq k i Hi. destruct (Hq k i Hi) as (Hc & l & p & Hl & Hpl & Hs). split; [done|].
  destruct (Hp l p Hpl Hs) as (p' & ? & ?). eauto 6.
Qed.

Lemma alloc_pg_good p r l r' :
  wf r -> alloc put_pg p r = Some (l, r') -> good r r' /\ h_pg (heap r') !! l = Some p.
Proof.
  unfold alloc, fresh, with_heap. intros W Hr. minv. minv_heap.
  split; [|apply lookup_insert_eq]. wf_frame W.
  - eapply retry_wf_pgs; [|done]. intros l p' Hl Hp. exists p'. simpl.
    rewrite lookup_insert_ne; [done|]. intros <-. by rewrite below_fresh in Hl.
  - eapply pending_wf_pgs; [|done]. intros l p' Hl Hp. exists p'. simpl.
    rewrite lookup_insert_ne; [done|]. intros <-. by rewrite below_fresh in Hl.
  - split_and!; auto using below_succ. apply below_insert; [lia|]. by apply below_succ.
Qed.

Lemma put_pg_good l p p' r a r' :
  wf r -> h_pg (heap r) !! l = Some p -> (pg_refCnt p' = None <-> pg_refCnt p = None) ->
  put_pg l p' r = Some (a, r') -> good r r'.
Proof.
  intros W Hl Hp Hr. minv_heap. wf_frame W.
  - eapply retry_wf_pgs; [|done]. intros k q Hk Hq. destruct (decide (l = k)) as [<-|Hne].
    + exists p'. rewrite lookup_insert_eq. split; [done|]. apply Hp. congruence.
    + exists q. by rewrite lookup_insert_ne.
  - eapply pending_wf_pgs; [|done]. intros k q Hk Hq. destruct (decide (l = k)) as [<-|Hne].
    + exists p'. rewrite lookup_insert_eq. split; [done|].
      rewrite <- not_eq_None_Some. rewrite Hp. assert (q = p) as -> by congruence. by apply not_eq_None_Some.
    + exists q. by rewrite lookup_insert_ne.
  - split_and!; auto. apply below_insert; [|done]. eauto.
Qed.

Lemma retry_wf_cnts h pgs cnts cnts' q :
  (forall c n, cnts !! c = Some n -> exists n', cnts' !! c = Some n' /\ n' <= n) ->
  retry_wf h pgs cnts q -> retry_wf h pgs cnts' q.
Proof.
  intros Hc Hq k i Hi. destruct (Hq k i Hi) as (Hit & c & n & Hci & Hn & Hle). split; [done|].
  destruct (Hc c n Hn) as (n' & ? & ?). exists c, n'. split_and!; [done..|lia].
Qed.

Lemma alloc_cnt_good n r l r' :
  wf r -> alloc put_cnt n r = Some (l, r') ->
  good r r' /\ h_cnt (heap r') !! l = Some n /\ h_pg (heap r') = h_pg (heap r).
Proof.
  unfold alloc, fresh, with_heap. intros W Hr. minv. minv_heap.
  split; [|split; [apply lookup_insert_eq|done]]. wf_frame W.
  - eapply retry_wf_cnts; [|done]. intros l m Hl. exists m. simpl.
    rewrite lookup_insert_ne; [done|]. intros <-. by rewrite below_fresh in Hl.
  - split_and!; auto using below_succ. apply below_insert; [lia|]. by apply below_succ.
Qed.

Lemma put_cnt_good l n n' r a r' :
  wf r -> h_cnt (heap r) !! l = Some n -> n' <= n -> put_cnt l n' r = Some (a, r') -> good r r'.
Proof.
  intros W Hl Hn Hr. minv_heap. wf_frame W.
  - eapply retry_wf_cnts; [|done]. intros k q Hk. destruct (decide (l = k)) as [<-|Hne].
    + exists n'. rewrite lookup_insert_eq. split; [done|]. assert (q = n) as -> by congruence. done.
    + exists q. by rewrite lookup_insert_ne.
  - split_and!; auto. apply below_insert; [|done]. eauto.
Qed.

Lemma put_np_good l n n' r a r' :
  wf r -> h_np (heap r) !! l = Some n -> np_Name n' = np_Name n -> put_np l n' r = Some (a, r') -> good r r'.
Proof.
  intros W Hl Hn Hr. minv_heap. wf_frame W.
  - eapply keyed_wf_insert; eauto. unfold np_key. by rewrite Hn.
  - split_and!; auto. apply below_insert; [|done]. eauto.
Qed.

Lemma put_tr_good l t t' r a r' :
  wf r -> h_tr (heap r) !! l = Some t -> tr_cloudResource t' = tr_cloudResource t ->
  groups_wf (h_sg (heap r)) (tr_appliedToSGs t') -> groups_wf (h_sg (heap r)) (tr_prevAppliedToSGs t') ->
  put_tr l t' r = Some (a, r') -> good r r'.
Proof.
  intros W Hl Hn H1 H2 Hr. minv_heap. wf_frame W.
  - eapply keyed_wf_insert; eauto. unfold tr_key. by rewrite Hn.
  - intros c u. destruct (decide (l = c)) as [<-|Hne];
      [rewrite lookup_insert_eq; by intros [= <-]|rewrite lookup_insert_ne by done; eauto].
  - split_and!; auto. apply below_insert; [|done]. eauto.
Qed.

Lemma put_vmp_good l v v' r a r' :
  wf r -> h_vmp (heap r) !! l = Some v -> nps_Name v' = nps_Name v -> put_vmp l v' r = Some (a, r') -> good r r'.
Proof.
  intros W Hl Hn Hr. minv_heap. wf_frame W.
  - eapply keyed_wf_insert; eauto. unfold vmp_key. by rewrite Hn.
  - split_and!; auto. apply below_insert; [|done]. eauto.
Qed.

(** Indexers. *)
Lemma np_Add_good l r a r' : wf r -> np_Add l r = Some (a, r') -> good r r'.
Proof.
  unfold np_Add. intros W Hr. minv. minv_heap. wf_frame W.
  rewrite ix_add. by apply keyed_wf_add.
Qed.

Lemma np_Delete_good l r a r' : wf r -> np_Delete l r = Some (a, r') -> good r r'.
Proof.
  unfold np_Delete. intros W Hr. minv. minv_heap. wf_frame W.
  rewrite ix_delete. by apply keyed_wf_delete.
Qed.

Lemma tr_Add_good l r a r' : wf r -> tr_Add l r = Some (a, r') -> good r r'.
Proof.
  unfold tr_Add. intros W Hr. minv. minv_heap. wf_frame W.
  rewrite ix_add. by apply keyed_wf_add.
Qed.

Lemma tr_Delete_good l r a r' : wf r -> tr_Delete l r = Some (a, r') -> good r r'.
Proof.
  unfold tr_Delete. intros W Hr. minv. minv_heap. wf_frame W.
  rewrite ix_delete. by apply keyed_wf_delete.
Qed.

Lemma vmp_Update_good l r a r' : wf r -> vmp_Update l r = Some (a, r') -> good r r'.
Proof.
  unfold vmp_Update. intros W Hr. minv. minv_heap. wf_frame W.
  rewrite ix_add. by apply keyed_wf_add.
Qed.

Lemma vmp_Delete_good l r a r' : wf r -> vmp_Delete l r = Some (a, r') -> good r r'.
Proof.
  unfold vmp_Delete. intros W Hr. minv. minv_heap. wf_frame W.
  rewrite ix_delete. by apply keyed_wf_delete.
Qed.

Lemma sg_Add_good b l s r a r' :
  wf r -> h_sg (heap r) !! l = Some s -> sg_membershipOnly s = b ->
  sg_state s <> securityGroupStateGarbageCollectState ->
  sg_Add b l r = Some (a, r') -> good r r'.
Proof.
  unfold sg_Add. intros W Hl Hb Hs Hr. minv. minv_heap. simplify_eq.
  set (b := sg_membershipOnly s) in *. wf_frame W; try by destruct b.
  intros b' k l' Hk. destruct (decide (b' = b)) as [->|Hne].
  - assert (sgIx b (set_sgIx b (ix_Add (CloudResourceID_String (sg_id s)) l (sgIx b (ixs r))) (ixs r)) =
      ix_Add (CloudResourceID_String (sg_id s)) l (sgIx b (ixs r))) as E by by destruct b.
    rewrite E, ix_add in Hk. destruct (decide (CloudResourceID_String (sg_id s) = k)) as [<-|Hk'].
    + rewrite lookup_insert_eq in Hk. simplify_eq. eauto 6.
    + rewrite lookup_insert_ne in Hk by done. by apply W2.
  - apply (W2 b'). rewrite <- Hk. by destruct b, b'.
Qed.

(** Deleting a group from its indexer leaves no entry that leads to it. *)
Lemma sg_Delete_good b l s r a r' :
  wf r -> h_sg (heap r) !! l = Some s -> sg_membershipOnly s = b ->
  sg_Delete b l r = Some (a, r') ->
  good r r' /\ (forall b' k, ix_contents (sgIx b' (ixs r')) !! k <> Some l) /\
  h_sg (heap r') = h_sg (heap r) /\ calls r' = calls r /\ syncedWithCloud r' = syncedWithCloud r.
Proof.
  unfold sg_Delete. intros W Hl Hb Hr. minv. minv_heap. simplify_eq.
  set (b := sg_membershipOnly s) in *.
  assert (forall b' k l', ix_contents (sgIx b' (set_sgIx b (ix_Delete (CloudResourceID_String (sg_id s))
    (sgIx b (ixs r))) (ixs r))) !! k = Some l' ->
    ix_contents (sgIx b' (ixs r)) !! k = Some l' /\ (b' = b -> k <> CloudResourceID_String (sg_id s))) as Hix.
  { intros b' k l' Hk. destruct (decide (b' = b)) as [->|Hne].
    - assert (sgIx b (set_sgIx b (ix_Delete (CloudResourceID_String (sg_id s)) (sgIx b (ixs r))) (ixs r)) =
        ix_Delete (CloudResourceID_String (sg_id s)) (sgIx b (ixs r))) as E by by destruct b.
      rewrite E, ix_delete in Hk. by apply lookup_delete_Some in Hk as [? ?].
    - split; [|done]. rewrite <- Hk. by destruct b, b'. }
  split; [|split; [|done]].
  - wf_frame W; try by destruct b.
    intros b' k l' [Hk _]%Hix. by apply W2.
  - intros b' k [Hk Hne]%Hix. destruct (wf_sgix r W b' k l Hk) as (s' & Hs' & Hkind & Hid & _).
    assert (s' = s) as -> by congruence. by apply Hne.
Qed.

(** Queues. *)
Lemma queue_Remove_good q id r a r' :
  wf r -> queue_Remove q id r = Some (a, r') ->
  good r r' /\ heap r' = heap r /\ ixs r' = ixs r /\ calls r' = calls r /\ syncedWithCloud r' = syncedWithCloud r.
Proof.
  unfold queue_Remove. intros W Hr. minv_heap. split; [|by destruct q].
  destruct q; wf_frame W.
  - intros k i Hk. apply lookup_delete_Some in Hk as [_ Hk]. exact (W9 k i Hk).
  - intros k i Hk. apply lookup_delete_Some in Hk as [_ Hk]. exact (W8 k i Hk).
  - intros Hb. destruct (WQ Hb) as (Q1 & Q2 & Q3). split; [done|split; [done|]]. simpl.
    intros k i Hk. apply lookup_delete_Some in Hk as [_ Hk]. exact (Q3 k i Hk).
Qed.

Lemma call_cloud_good c s r a r' :
  wf r -> h_sg (heap r) !! call_sg c = Some s -> call_ok s c -> ~ before_sync r -> call_cloud c r = Some (a, r') ->
  good r r' /\ heap r' = heap r /\ ixs r' = ixs r.
Proof.
  unfold call_cloud. intros W Hs Hc Hq Hr. minv_heap. split; [|done]. wf_frame W.
  - intros c' [Hc'| ->%list_elem_of_singleton]%elem_of_app; eauto.
  - intros Hb. by destruct Hq.
Qed.

Lemma queue_insert_good q id i r :
  wf r ->
  match q with
  | RetryQueue => item_wf (h_sg (heap r)) (h_pg (heap r)) id (ci_item i) /\
      (before_sync r -> exists l, ci_item i = PendingGroup l) /\
      exists c n, ci_opCnt i = Some c /\ h_cnt (heap r) !! c = Some n /\ n <= operationCount
  | PendingDeleteGroups => ci_opCnt i = None /\
      exists l p, ci_item i = PendingGroup l /\ h_pg (heap r) !! l = Some p /\ is_Some (pg_refCnt p)
  end ->
  good r (set_queue q (<[id := i]> (get_queue q r)) r).
Proof.
  intros W Hi. destruct q; wf_frame W.
  - intros k j. destruct (decide (id = k)) as [<-|Hne];
      [rewrite lookup_insert_eq; by intros [= <-]|rewrite lookup_insert_ne by done; intros Hj].
    exact (W9 k j Hj).
  - destruct Hi as (Hi1 & _ & Hi2). intros k j. destruct (decide (id = k)) as [<-|Hne];
      [rewrite lookup_insert_eq; by intros [= <-]|rewrite lookup_insert_ne by done; intros Hj].
    exact (W8 k j Hj).
  - intros Hb. destruct (WQ Hb) as (Q1 & Q2 & Q3). split; [done|split; [done|]]. simpl. intros k j.
    destruct (decide (id = k)) as [<-|Hne];
      [rewrite lookup_insert_eq; intros [= <-]; by apply Hi|rewrite lookup_insert_ne by done; apply Q3].
Qed.

Lemma queue_Add_good q id p r a r' :
  wf r ->
  match q with
  | RetryQueue => item_wf (h_sg (heap r)) (h_pg (heap r)) id p /\
      (before_sync r -> exists l, p = PendingGroup l)
  | PendingDeleteGroups =>
      exists l pg, p = PendingGroup l /\ h_pg (heap r) !! l = Some pg /\ is_Some (pg_refCnt pg)
  end ->
  queue_Add q id p r = Some (a, r') -> good r r'.
Proof.
  unfold queue_Add, queue_opCnt. intros W Hp Hr.
  destruct q; minv; try (by apply good_refl); minv_heap.
  - by apply (queue_insert_good PendingDeleteGroups).
  - apply alloc_cnt_good in Hm0 as (G & Hc & Hpg); [|done].
    eapply good_trans; [exact G|]. apply (queue_insert_good RetryQueue); [apply G|].
    destruct Hp as [Hp Hq]. split; [|split; [|exists x0, operationCount; done]].
    2: { intros [Hb1 Hb2]. apply Hq. split; [done|]. destruct (syncedWithCloud r) eqn:E; [|done].
         rewrite (proj2 (proj2 G) E) in Hb2. done. }
    simpl. rewrite Hpg. unfold item_wf in *. destruct p; [|done]. destruct Hp as (s & Hs & ->).
    destruct (proj1 (proj2 G) _ _ Hs) as (s' & Hs' & [E1 E2 _]). exists s'. by rewrite E1, E2.
Qed.

Lemma securityGroup_UpdatePendingItem_ok u s s' :
  securityGroup_UpdatePendingItem u s = Some s' -> sg_ok s ->
  sg_evolves s s' /\ sg_ok s' /\ sg_state s' = sg_state s /\ (sg_quiet s -> sg_quiet s').
Proof.
  unfold securityGroup_UpdatePendingItem, sg_ok, sg_quiet. destruct u as [| |op]; try done.
  case_decide as Hop.
  - destruct s as [? ? ? ? ? [] ? ? ? ? ?]; simpl; intros [= <-] Hok; simpl in *;
      (split; [split; simpl; [done..|lia]|split; [|split; [done|]]]); auto; tauto.
  - intros [= <-] Hok. split; [reflexivity|done].
Qed.

Lemma pendingGroup_UpdatePendingItem_ref u p p' :
  pendingGroup_UpdatePendingItem u p = Some p' -> (pg_refCnt p' = None <-> pg_refCnt p = None).
Proof.
  destruct u as [c b|ev added removed|op]; simpl; [|destruct ev|done].
  - by destruct (pg_refCnt p) eqn:E; [intros [= <-]|].
  - destruct (drop_members _ _); [|done]. destruct (take_members _ _) as [[]|]; [|done].
    intros [= <-]. simpl. by destruct (pg_event p).
  - destruct (drop_members _ _); [|done]. destruct (take_members _ _) as [[]|]; [|done].
    intros [= <-]. simpl. by destruct (pg_event p).
  - intros [= <-]. simpl. by destruct (pg_event p).
  - intros [= <-]. by destruct (pg_event p).
  - intros [= <-]. by destruct (pg_event p).
  - intros [= <-]. by destruct (pg_event p).
Qed.

Lemma UpdatePendingItem_good u i r a r' : wf r -> UpdatePendingItem u i r = Some (a, r') -> good r r'.
Proof.
  intros W Hr. destruct i as [l|l]; simpl in Hr; minv.
  - apply securityGroup_UpdatePendingItem_ok in Hm0 as (He & Hok & Hst & Hq); [|by eapply (wf_sgs _ W)].
    eapply put_sg_good; eauto. rewrite Hst.
    destruct (decide (sg_state x = securityGroupStateGarbageCollectState)); auto.
  - apply pendingGroup_UpdatePendingItem_ref in Hm0. by apply (put_pg_good l x x0 r a).
Qed.

Lemma queue_UpdateOnly_good q id u r a r' : wf r -> queue_UpdateOnly q id u r = Some (a, r') -> good r r'.
Proof.
  unfold queue_UpdateOnly, queue_lookup. intros W Hr. minv; [|by apply good_refl].
  by eapply UpdatePendingItem_good.
Qed.

Lemma dec_opCnt_good i r a r' : wf r -> dec_opCnt i r = Some (a, r') -> good r r'.
Proof.
  unfold dec_opCnt. intros W Hr. minv; [|by apply good_refl]. eapply put_cnt_good; eauto. lia.
Qed.

(** Loops. *)
Lemma forM_good {A} (P : A -> Reconciler -> Prop) (f : A -> M unit) l :
  (forall x r r', P x r -> evolves r r' -> P x r') ->
  (forall x r r', x ∈ l -> wf r -> P x r -> f x r = Some (tt, r') -> good r r') ->
  forall r r', wf r -> (forall x, x ∈ l -> P x r) -> forM_ l f r = Some (tt, r') -> good r r'.
Proof.
  intros Hmono. induction l as [|x l IH]; intros Hf r r' W HP Hr; simpl in Hr; minv.
  - by apply good_refl.
  - destruct x0. assert (good r r0) as G by (eapply Hf; [left| |apply HP; left|]; done).
    eapply good_trans; [exact G|]. apply IH; [|apply G| |done].
    + intros y r1 r2 Hy. apply Hf. by right.
    + intros y Hy. eapply Hmono; [apply HP; by right|apply G].
Qed.

Lemma forM_good_all {A} (f : A -> M unit) l r a r' :
  (forall x r r', wf r -> f x r = Some (tt, r') -> good r r') ->
  wf r -> forM_ l f r = Some (a, r') -> good r r'.
Proof.
  intros Hf W. destruct a. apply (forM_good (fun _ _ => True)); auto. intros; eapply Hf; eauto.
Qed.

End Primitives.
