(* ===== verification/NPSafety.v ===== *)
(** * The reconciler keeps its invariant

    Every handler of the reconciler takes a well-formed state to a well-formed
    state in which the groups have only moved forward; so do sequences of
    events and answers of the cloud in any order. *)

From stdpp Require Import base strings list gmap.
From Stdlib Require Import ZArith Lia.
From S2P Require Import Prelude GoStrings GoNet GoCIDR SecurityGroup RuleMerge NPState NPPending NPGroups.
From S2P Require Import NPPolicy NPSync NPController NPInvariants.

#[local] Open Scope string_scope.
#[local] Open Scope Z_scope.

Create HintDb np_good.

(** Advances along a run: every step that is known to be good extends what is
    known of the state it started from. *)
Ltac good_ext G r :=
  repeat match goal with
  | G0 : good ?x r |- _ =>
      lazymatch x with
      | r => clear G0
      | _ => let G' := fresh "G" in pose proof (good_trans _ _ _ G0 G) as G'; clear G0
      end
  end.

Ltac good_step :=
  match goal with
  | G0 : good ?r0 ?r, Hm : ?m ?r = Some (_, ?r1) |- _ =>
      let W := fresh "W" in let G := fresh "G" in
      pose proof (proj1 G0) as W;
      assert (good r r1) as G by (solve [eauto with np_good]);
      good_ext G r;
      pose proof (good_refl r1 (proj1 G));
      clear W Hm
  end.

Ltac good_run := minv; repeat (good_step; minv).

Ltac good_start W :=
  match type of W with wf ?r => pose proof (good_refl r W) end.

(** Two reads through one pointer give one object. *)
Ltac same_sg Hs :=
  match type of Hs with
  | ?h !! ?l = Some ?s =>
      repeat match goal with
      | Hm : h !! l = Some ?x |- _ =>
          lazymatch x with s => fail | _ => assert (x = s) by congruence; subst x end
      end
  end.

Section Safety.
Context {IXC : CacheIndexer} {RNG : MapRange} {STR : Strictness}.

Lemma good_has_kind b l r r' : good r r' -> has_kind b l r -> has_kind b l r'.
Proof. intros [_ He]. by apply has_kind_mono. Qed.

Lemma has_kind_intro l r s : h_sg (heap r) !! l = Some s -> has_kind (sg_membershipOnly s) l r.
Proof. by exists s. Qed.

(** The groups an index lists are of the indexer's kind. *)
Lemma sgs_of_group_kind b f v r l :
  wf r -> l ∈ ix_ByIndex f v (sgIx b (ixs r)) -> has_kind b l r.
Proof.
  rewrite ix_byindex. intros W [_ ([k l'] & -> & Hk%elem_of_map_to_list)%list_elem_of_fmap]%list_elem_of_filter.
  destruct (wf_sgix r W b k l' Hk) as (s & ? & ? & _). by exists s.
Qed.

Lemma sgs_list_kind b r l : wf r -> l ∈ ix_List (sgIx b (ixs r)) -> has_kind b l r.
Proof.
  rewrite ix_list. intros W ([k l'] & -> & Hk%elem_of_map_to_list)%list_elem_of_fmap.
  destruct (wf_sgix r W b k l' Hk) as (s & ? & ? & _). by exists s.
Qed.

Lemma sg_GetByKey_kind b k r l :
  wf r -> ix_GetByKey k (sgIx b (ixs r)) = Some l -> has_kind b l r.
Proof.
  rewrite ix_get. intros W Hk. destruct (wf_sgix r W b k l Hk) as (s & ? & ? & _). by exists s.
Qed.

(** A kind known of an earlier state holds later. *)
Hint Extern 0 (has_kind ?b ?l ?r') =>
  match goal with
  | K : has_kind b l r' |- _ => exact K
  | G : good ?r r', K : has_kind b l ?r |- _ => exact (good_has_kind b l r r' G K)
  end : np_good.
Hint Resolve np_Add_good np_Delete_good tr_Add_good tr_Delete_good vmp_Update_good vmp_Delete_good : np_good.
Hint Resolve queue_UpdateOnly_good dec_opCnt_good UpdatePendingItem_good : np_good.

Lemma queue_Remove_good' q id r a r' : wf r -> queue_Remove q id r = Some (a, r') -> good r r'.
Proof. intros W Hr. by eapply queue_Remove_good in Hr as [? _]. Qed.
Hint Resolve queue_Remove_good' : np_good.

(** Loops over groups of one kind. *)
Lemma forM_kind_good b (f : loc -> M unit) ls r a r' :
  (forall l r r', wf r -> f l r = Some (tt, r') -> has_kind b l r -> good r r') ->
  wf r -> (forall l, l ∈ ls -> has_kind b l r) -> forM_ ls f r = Some (a, r') -> good r r'.
Proof.
  intros Hf W HP. destruct a. apply (forM_good (has_kind b)); auto.
  - intros; by eapply has_kind_mono.
  - intros x r1 r2 _ W1 Hk Hr. by eapply Hf.
Qed.

(** ** Trackers *)

Lemma tracker_setDirty_good b l r a r' : wf r -> tracker_setDirty b l r = Some (a, r') -> good r r'.
Proof.
  unfold tracker_setDirty. intros W Hr. minv.
  destruct (wf_trs _ W _ _ Hm). eapply put_tr_good; [exact W|exact Hm| | | |exact Hr]; done.
Qed.
Hint Resolve tracker_setDirty_good : np_good.

Lemma groups_wf_empty h : groups_wf h ∅.
Proof. intros k c Hk. by rewrite lookup_empty in Hk. Qed.

Lemma newCloudResourceNPTracker_good rsc r l r' :
  wf r -> newCloudResourceNPTracker rsc r = Some (l, r') -> good r r'.
Proof.
  unfold newCloudResourceNPTracker. intros W Hr. minv.
  eapply alloc_tr_good in Hm as [G _]; [|done|apply groups_wf_empty..].
  eapply good_trans; [exact G|]. eapply tr_Add_good; eauto. apply G.
Qed.
Hint Resolve newCloudResourceNPTracker_good : np_good.

Lemma getCloudResourceNPTracker_good rsc create r o r' :
  wf r -> getCloudResourceNPTracker rsc create r = Some (o, r') -> good r r'.
Proof. unfold getCloudResourceNPTracker. intros W Hr. good_start W. good_run; eauto using good_refl. Qed.
Hint Resolve getCloudResourceNPTracker_good : np_good.

Lemma groups_wf_insert h m k l s :
  h !! l = Some s -> sg_membershipOnly s = false -> CloudResourceID_String (sg_id s) = k ->
  groups_wf h m -> groups_wf h (<[k := l]> m).
Proof.
  intros Hs Hk Hid Hm k' l'. destruct (decide (k = k')) as [<-|Hne].
  - rewrite lookup_insert_eq. intros [= <-]. eauto.
  - rewrite lookup_insert_ne by done. apply Hm.
Qed.

Lemma groups_wf_delete h m k : groups_wf h m -> groups_wf h (delete k m).
Proof. intros Hm k' l' [_ Hl]%lookup_delete_Some. by apply Hm. Qed.

Lemma tracker_update_good c sg isDelete r a r' :
  wf r -> tracker_update c sg isDelete r = Some (a, r') -> has_kind false sg r -> good r r'.
Proof.
  unfold tracker_update. intros W Hr Hk. good_start W. minv; [by apply good_refl|].
  do 2 good_step. minv.
  match goal with G : good r ?r2, Ht : h_tr (heap ?r2) !! c = Some ?t |- _ =>
    destruct (wf_trs _ (proj1 G) _ _ Ht) as [T1 T2];
    destruct (proj1 (proj2 G) _ _ Hm0) as (s' & Hs' & [E1 E2 _]) end.
  destruct Hk as (s0 & Hs0 & Hkind). assert (s0 = x0) as -> by congruence.
  assert (good r1 r3) as G.
  { eapply put_tr_good; [apply G1|exact Hm3| | | |exact Hm4]; destruct isDelete; simpl;
      eauto using groups_wf_delete; eapply groups_wf_insert; eauto; congruence. }
  eapply good_trans; [exact G1|]. eapply good_trans; [exact G|].
  eapply tr_Add_good; [apply G|exact Hr].
Qed.
Hint Resolve tracker_update_good : np_good.

Lemma update_trackers_good sg create isDelete rscs r a r' :
  wf r -> update_trackers sg create isDelete rscs r = Some (a, r') -> has_kind false sg r -> good r r'.
Proof.
  unfold update_trackers. intros W Hr Hk. destruct a. revert Hr.
  apply (forM_good (fun _ => has_kind false sg)); auto.
  - intros; by eapply has_kind_mono.
  - intros rsc r1 r2 _ W1 Hk1 Hr. good_start W1. good_run; eauto.
Qed.
Hint Resolve update_trackers_good : np_good.

Lemma securityGroup_markDirty_good l create r a r' :
  wf r -> securityGroup_markDirty l create r = Some (a, r') -> good r r'.
Proof.
  unfold securityGroup_markDirty. intros W Hr. minv. eapply forM_good_all; [|exact W|exact Hr].
  intros rsc r1 r2 W1 Hr1. good_start W1. good_run; eauto.
Qed.
Hint Resolve securityGroup_markDirty_good : np_good.

(** ** Groups *)

Lemma neutral_set_members v : neutral (set_members v). Proof. done. Qed.
Lemma neutral_set_deletePending v : neutral (set_deletePending v). Proof. done. Qed.
Lemma neutral_set_retryInProgress v : neutral (set_retryInProgress v). Proof. done. Qed.
Lemma neutral_set_hasRules v : neutral (set_hasRules v). Proof. done. Qed.
Lemma neutral_set_hasMembers v : neutral (set_hasMembers v). Proof. done. Qed.
Hint Resolve neutral_set_members neutral_set_deletePending neutral_set_retryInProgress
  neutral_set_hasRules neutral_set_hasMembers upd_sg_neutral put_sg_neutral : np_good.

Lemma removeStaleMembers_good l stales r a r' : wf r -> removeStaleMembers l stales r = Some (a, r') -> good r r'.
Proof. unfold removeStaleMembers. intros W Hr. good_start W. good_run; eauto. Qed.
Hint Resolve removeStaleMembers_good : np_good.

(** Clearing the retried operation is always allowed. *)
Lemma before_sync_mono r r' : evolves r r' -> before_sync r' -> before_sync r.
Proof.
  intros [_ Hs] [H1 H2]. split; [done|]. destruct (syncedWithCloud r); [|done]. by rewrite Hs in H2.
Qed.

(** A group that is created, garbage or retried shows that the first
    synchronisation is over. *)
Lemma not_quiet_synced l s r :
  wf r -> h_sg (heap r) !! l = Some s -> ~ sg_quiet s -> ~ before_sync r.
Proof. intros W Hs Hn Hb. apply Hn. by apply (proj2 (wf_quiet r W Hb)) with l. Qed.

Lemma upd_status_good l v r a r' :
  wf r -> upd_sg l (set_status v) r = Some (a, r') -> (before_sync r -> v <> Some InProgress) -> good r r'.
Proof.
  unfold upd_sg. intros W Hr Hv. minv. eapply put_sg_good; [done|exact Hm| | | | |exact Hr].
  - split; simpl; [done..|lia].
  - by apply (wf_sgs _ W _ _ Hm).
  - intros Hb (? & ? & ?). split; [done|split; [|done]]. simpl. auto.
  - simpl. destruct (decide (sg_state x = securityGroupStateGarbageCollectState)); auto.
Qed.

Lemma upd_retryOp_None_good l r a r' : wf r -> upd_sg l (set_retryOp None) r = Some (a, r') -> good r r'.
Proof.
  unfold upd_sg. intros W Hr. minv. eapply put_sg_good; [done|exact Hm| | | | |exact Hr].
  - split; simpl; [done..|lia].
  - by left.
  - by intros _ (? & ? & ?).
  - simpl. destruct (decide (sg_state x = securityGroupStateGarbageCollectState)); auto.
Qed.
Hint Resolve upd_retryOp_None_good : np_good.

Lemma upd_retryOp_good l s op r a r' :
  wf r -> h_sg (heap r) !! l = Some s ->
  (sg_state s = securityGroupStateGarbageCollectState -> op = securityGroupOperationDelete) ->
  ~ before_sync r ->
  upd_sg l (set_retryOp (Some op)) r = Some (a, r') -> good r r'.
Proof.
  unfold upd_sg. intros W Hs Hop Hq Hr. minv. simplify_eq. eapply put_sg_good; [done|exact Hs| | | | |exact Hr].
  - split; simpl; [done..|lia].
  - intros Hst. right. simpl. by rewrite (Hop Hst).
  - done.
  - simpl. destruct (decide (sg_state s = securityGroupStateGarbageCollectState)); auto.
Qed.

Lemma addImpl_good l b s r a r' :
  wf r -> h_sg (heap r) !! l = Some s -> sg_membershipOnly s = b ->
  sg_state s <> securityGroupStateGarbageCollectState ->
  addImpl l b r = Some (a, r') -> good r r'.
Proof.
  unfold addImpl. intros W Hs Hb Hst Hr. minv.
  all: eapply sg_Add_good in Hm as G; eauto.
  all: pose proof (good_refl _ (proj1 G)).
  all: try exact G.
  destruct (proj1 (proj2 G) _ _ Hs) as (s' & Hs' & [E1 E2 _]). simplify_eq.
  match goal with Eb : negb (syncedWithCloud ?r0) = false |- _ =>
    assert (~ before_sync r0) as Hq by (intros [_ E]; by rewrite E in Eb) end.
  eapply call_cloud_good in Hm1 as G1; [|apply G|exact Hm0|by repeat split|done].
  destruct G1 as (G1 & _). eapply good_trans; [exact G|]. eapply good_trans; [exact G1|].
  eapply upd_status_good; [apply G1|exact Hr|]. intros Hb. destruct Hq. by eapply before_sync_mono; [apply G1|].
Qed.

(** What a change through a pointer leaves alone. *)
Lemma upd_sg_frame l f r a r' :
  upd_sg l f r = Some (a, r') -> ixs r' = ixs r /\
  exists s, h_sg (heap r) !! l = Some s /\ h_sg (heap r') !! l = Some (f s).
Proof.
  unfold upd_sg. intros Hr. minv. minv_heap. split; [done|]. exists x.
  split; [done|apply lookup_insert_eq].
Qed.

Lemma evolves_lookup l s r r' :
  good r r' -> h_sg (heap r) !! l = Some s ->
  exists s', h_sg (heap r') !! l = Some s' /\ sg_evolves s s'.
Proof. intros [_ [He _]]. apply He. Qed.

Lemma deleteGarbage_good l b s r a r' :
  wf r -> h_sg (heap r) !! l = Some s -> sg_membershipOnly s = b ->
  sg_state s = securityGroupStateGarbageCollectState ->
  deleteGarbage l b r = Some (a, r') -> good r r'.
Proof.
  unfold deleteGarbage. intros W Hs Hb Hst Hr. good_start W.
  assert (~ before_sync r) as Hq by (eapply not_quiet_synced; eauto; intros [? _]; congruence).
  apply bind_inv in Hr as (x & r0 & [Hx ->]%get_sg_inv & Hr). assert (x = s) as -> by congruence.
  destruct (sg_retryOp s); [minv; by apply good_refl|].
  apply bind_inv in Hr as (? & r1 & ? & Hr). good_step.
  match goal with G : good r r1 |- _ => rename G into G1 end.
  apply bind_inv in Hr as (? & r2 & Hu & Hr).
  assert (good r1 r2) as G2.
  { eapply upd_status_good; [apply G1|exact Hu|]. intros Hb'. destruct Hq. by eapply before_sync_mono; [apply G1|]. }
  assert (good r r2) as G by by eapply good_trans.
  destruct (evolves_lookup _ _ _ _ G Hs) as (s' & Hs' & E).
  eapply call_cloud_good in Hr as (G' & _); [by eapply good_trans|apply G|exact Hs'| |].
  - pose proof E as [E1 E2 _]. repeat split; [done| |by eapply state_garbage]. simpl. congruence.
  - intros Hb'. destruct Hq. by eapply before_sync_mono; [apply G|].
Qed.

Lemma create_pending_good guName r a r' :
  wf r ->
  (alloc put_pg (mkPendingGroup (Some 0) false EventNone ∅ ∅) ≫= fun p =>
   queue_Add PendingDeleteGroups guName (PendingGroup p)) r = Some (a, r') -> good r r'.
Proof.
  intros W Hr. minv. apply alloc_pg_good in Hm as [G Hp]; [|done].
  eapply good_trans; [exact G|]. eapply queue_Add_good; [apply G| |exact Hr]. simpl. eauto 8.
Qed.
Hint Resolve create_pending_good : np_good.

(** Deleting a live group: it leaves the indexer before it becomes garbage. *)
Lemma delete_live_good l b s (P : Prop) {HP : Decision P} r a r' :
  wf r -> h_sg (heap r) !! l = Some s -> sg_membershipOnly s = b -> (before_sync r -> P) ->
  (sg_Delete b l;;
   queue_Remove RetryQueue (getGroupUniqueName (CloudResourceID_String (sg_id s)) b);;
   upd_sg l (set_retryOp None);;
   if decide P then mret tt
   else
     upd_sg l (set_state securityGroupStateGarbageCollectState);;
     deleteGarbage l b) r = Some (a, r') ->
  good r r'.
Proof.
  intros W Hs Hb HPq Hr. apply bind_inv in Hr as (x1 & r1 & Hd1 & Hr). apply bind_inv in Hr as (x2 & r2 & Hd2 & Hr).
  apply bind_inv in Hr as (x3 & r3 & Hd3 & Hr).
  eapply sg_Delete_good in Hd1 as (G1 & Hix & Hh & _); [|eauto..].
  apply queue_Remove_good in Hd2 as (G2 & Hh2 & Hix2 & _); [|apply G1].
  pose proof (upd_sg_frame _ _ _ _ _ Hd3) as (Hix3 & s3 & Hs3 & Hs3').
  apply upd_retryOp_None_good in Hd3 as G3; [|apply G2].
  assert (good r r3) as G by (eapply good_trans; [exact G1|]; by eapply good_trans).
  case_decide as HP'; [minv; done|]. minv. unfold upd_sg in Hm. minv.
  assert (x0 = set_retryOp None s3) as -> by congruence.
  eapply put_sg_good in Hm as G4; [|apply G|exact Hs3'| | | |].
  - eapply good_trans; [exact G|]. eapply good_trans; [exact G4|].
    destruct (evolves_lookup _ _ _ _ G Hs) as (s' & Hs' & [E1 _ _]).
    assert (s' = set_retryOp None s3) as -> by congruence.
    minv_heap. eapply deleteGarbage_good; [apply G4|apply lookup_insert_eq|exact E1|done|exact Hr].
  - split; simpl; [done..|]. destruct (sg_state s3); simpl; lia.
  - by left.
  - intros Hq. destruct HP'. apply HPq. by eapply before_sync_mono; [apply G|].
  - right. right. by rewrite Hix3, Hix2.
Qed.

Lemma deleteImpl_good l b r a r' :
  wf r -> deleteImpl l b r = Some (a, r') -> has_kind b l r -> good r r'.
Proof.
  unfold deleteImpl. intros W Hr (s & Hs & Hb).
  apply bind_inv in Hr as (x & r0 & H1 & Hr). apply get_sg_inv in H1 as [H1 ->].
  assert (x = s) as -> by congruence. subst b.
  apply bind_inv in Hr as (has & r0 & [-> ->]%queue_Has_inv & Hr).
  apply bind_inv in Hr as (u & r1 & H2 & Hr).
  assert (good r r1) as G1.
  { unfold mwhen in H2. destruct (negb _); [by eapply create_pending_good|minv; by apply good_refl]. }
  eapply good_trans; [exact G1|]. destruct (evolves_lookup _ _ _ _ G1 Hs) as (s1 & Hs1 & E).
  pose proof E as [E1 E2 _]. clear H2. case_decide as Hst.
  - eapply deleteGarbage_good; [apply G1|exact Hs1|exact E1| |exact Hr]. by eapply state_garbage.
  - apply bind_inv in Hr as (sgs & r2 & H3 & Hr).
    assert (r2 = r1) as -> by (unfold nps_of_group in H3; destruct (sg_membershipOnly s); by minv).
    case_decide; [eapply upd_sg_neutral; [apply G1|apply neutral_set_deletePending|exact Hr]|].
    rewrite <- E2 in Hr. eapply delete_live_good; [apply G1|exact Hs1|exact E1| |exact Hr].
    intros Hb. pose proof (before_sync_mono _ _ (proj2 G1) Hb) as Hb'.
    by destruct (proj1 (proj2 (wf_quiet r W Hb')) l s Hs) as (? & ? & _).
Qed.
Hint Resolve deleteImpl_good : np_good.

Lemma updateImpl_good l added removed b r a r' :
  wf r -> updateImpl l added removed b r = Some (a, r') -> has_kind b l r -> good r r'.
Proof.
  unfold updateImpl. intros W Hr (s & Hs & Hb). subst b. minv; same_sg Hs; try (by apply good_refl).
  all: eapply put_sg_neutral in Hm0 as G; [|done|exact Hs|apply neutral_set_members]; try exact G.
  minv_heap. eapply call_cloud_good in Hr as (G1 & _); [by eapply good_trans|apply G|apply lookup_insert_eq| |].
  2: { eapply not_quiet_synced; [apply G|apply lookup_insert_eq|]. intros [Hi _].
       match goal with Hn : ~ (_ <> _) |- _ => apply Hn; simpl in Hi; congruence end. }
  repeat split; simpl; [|by left]. intros Hi. match goal with Hn : ~ (_ <> _) |- _ => apply Hn; congruence end.
Qed.
Hint Resolve updateImpl_good : np_good.

(** Tracker operations do not touch the groups. *)
Definition same_sgs (r r' : Reconciler) : Prop := h_sg (heap r') = h_sg (heap r).

Lemma forM_same_sgs {A} (f : A -> M unit) l r a r' :
  (forall x r r', f x r = Some (tt, r') -> same_sgs r r') -> forM_ l f r = Some (a, r') -> same_sgs r r'.
Proof.
  intros Hf. revert r. induction l as [|x l IH]; intros r Hr; simpl in Hr; minv; [done|].
  destruct x0. apply Hf in Hm. apply IH in Hr. unfold same_sgs in *. congruence.
Qed.

Lemma getCloudResourceNPTracker_same rsc create r o r' :
  getCloudResourceNPTracker rsc create r = Some (o, r') -> same_sgs r r'.
Proof.
  unfold getCloudResourceNPTracker, newCloudResourceNPTracker, alloc, fresh, tr_Add, with_heap. intros Hr.
  minv; minv_heap; done.
Qed.

Lemma tracker_update_same c sg isDelete r a r' :
  tracker_update c sg isDelete r = Some (a, r') -> same_sgs r r'.
Proof.
  unfold tracker_update, tracker_setDirty, tr_Delete, tr_Add. intros Hr. minv; minv_heap; done.
Qed.

Lemma update_trackers_same sg create isDelete rscs r a r' :
  update_trackers sg create isDelete rscs r = Some (a, r') -> same_sgs r r'.
Proof.
  apply forM_same_sgs. intros rsc r1 r2 Hr. apply bind_inv in Hr as (o & r3 & H1 & Hr).
  apply getCloudResourceNPTracker_same in H1. destruct o; [|minv; done].
  apply tracker_update_same in Hr. unfold same_sgs in *. congruence.
Qed.

(** ** Address groups and appliedTo groups *)

Definition live (b : bool) (l : loc) (r : Reconciler) : Prop :=
  exists s, h_sg (heap r) !! l = Some s /\ sg_membershipOnly s = b /\
    sg_state s <> securityGroupStateGarbageCollectState.

Lemma live_has_kind b l r : live b l r -> has_kind b l r.
Proof. intros (s & ? & ? & _). by exists s. Qed.
Hint Resolve live_has_kind : np_good.

Lemma addr_add_good l r a r' : wf r -> live true l r -> addr_add l r = Some (a, r') -> good r r'.
Proof.
  unfold addr_add. intros W (s & Hs & Hk & Hst) Hr. minv; same_sg Hs.
  - by eapply sg_Add_good.
  - by eapply addImpl_good.
Qed.

Lemma sg_Delete_good' b l r a r' : wf r -> sg_Delete b l r = Some (a, r') -> has_kind b l r -> good r r'.
Proof. intros W Hr (s & Hs & Hk). by eapply sg_Delete_good in Hr as [? _]. Qed.
Hint Resolve sg_Delete_good' : np_good.

Lemma addr_delete_good l r a r' : wf r -> addr_delete l r = Some (a, r') -> has_kind true l r -> good r r'.
Proof. unfold addr_delete. intros W Hr Hk. good_start W. good_run; eauto. Qed.
Hint Resolve addr_delete_good : np_good.

Lemma addr_updateIPs_good l added removed r a r' :
  wf r -> addr_updateIPs l added removed r = Some (a, r') -> good r r'.
Proof. intros W. by apply upd_sg_neutral. Qed.
Hint Resolve addr_updateIPs_good : np_good.

Lemma addr_update_good l added removed r a r' :
  wf r -> addr_update l added removed r = Some (a, r') -> has_kind true l r -> good r r'.
Proof. unfold addr_update. intros W Hr Hk. good_start W. good_run; eauto. Qed.
Hint Resolve addr_update_good : np_good.

Lemma addr_notifyNetworkPolicyChange_good l r a r' :
  wf r -> addr_notifyNetworkPolicyChange l r = Some (a, r') -> has_kind true l r -> good r r'.
Proof. unfold addr_notifyNetworkPolicyChange. intros W Hr Hk. good_start W. good_run; eauto. Qed.
Hint Resolve addr_notifyNetworkPolicyChange_good : np_good.

Lemma appliedTo_add_good l r a r' : wf r -> live false l r -> appliedTo_add l r = Some (a, r') -> good r r'.
Proof.
  unfold appliedTo_add. intros W Hl Hr. minv.
  pose proof (update_trackers_same _ _ _ _ _ _ _ Hm0) as Hsame.
  apply update_trackers_good in Hm0 as G; [|done|by apply live_has_kind].
  destruct Hl as (s & Hs & Hk & Hst). eapply good_trans; [exact G|].
  eapply addImpl_good; [apply G| |exact Hk|exact Hst|exact Hr]. by rewrite Hsame.
Qed.

Lemma appliedTo_delete_good l r a r' :
  wf r -> appliedTo_delete l r = Some (a, r') -> has_kind false l r -> good r r'.
Proof. unfold appliedTo_delete. intros W Hr Hk. good_start W. good_run; eauto. Qed.
Hint Resolve appliedTo_delete_good : np_good.

Lemma mapM_get_same ls r ns r' : mapM_get ls r = Some (ns, r') -> r' = r.
Proof.
  revert ns. induction ls as [|l ls IH]; intros ns Hr; simpl in Hr; minv; [done|].
  by apply IH in Hm0 as ->.
Qed.

Lemma updateRules_good l r a r' : wf r -> updateRules l r = Some (a, r') -> has_kind false l r -> good r r'.
Proof.
  unfold updateRules. intros W Hr (s & Hs & Hk). good_start W.
  minv; repeat match goal with Hm : mapM_get _ _ = _ |- _ => apply mapM_get_same in Hm as -> end;
    same_sg Hs; try (by apply good_refl).
  all: match goal with Eb : negb (appliedTo_isReady _) = false |- _ =>
    apply negb_false_iff, bool_decide_eq_true in Eb; rename Eb into Hst end.
  all: assert (~ before_sync r) as Hq by (eapply not_quiet_synced; eauto; intros [? _]; congruence).
  - eapply call_cloud_good in Hr as (G & _); [exact G|done|exact Hs| |done].
    repeat split; simpl; [done|congruence|auto].
  - eapply put_sg_neutral; eauto. done.
  - eapply call_cloud_good in Hr as (G & _); [exact G|done|exact Hs| |done].
    repeat split; simpl; congruence.
Qed.
Hint Resolve updateRules_good : np_good.

Lemma appliedTo_update_good l added removed r a r' :
  wf r -> appliedTo_update l added removed r = Some (a, r') -> has_kind false l r -> good r r'.
Proof. unfold appliedTo_update. intros W Hr Hk. good_start W. good_run; eauto. Qed.
Hint Resolve appliedTo_update_good : np_good.

Lemma appliedTo_notifyNetworkPolicyChange_good l r a r' :
  wf r -> appliedTo_notifyNetworkPolicyChange l r = Some (a, r') -> has_kind false l r -> good r r'.
Proof. unfold appliedTo_notifyNetworkPolicyChange. intros W Hr Hk. good_start W. good_run; eauto. Qed.
Hint Resolve appliedTo_notifyNetworkPolicyChange_good : np_good.

Lemma sg_add_good b l r a r' : wf r -> live b l r -> sg_add l r = Some (a, r') -> good r r'.
Proof.
  unfold sg_add. intros W Hl Hr. pose proof Hl as (s & Hs & Hk & _). minv; same_sg Hs.
  - apply addr_add_good in Hr; [done..|]. by rewrite <- Eb.
  - apply appliedTo_add_good in Hr; [done..|]. by rewrite <- Eb.
Qed.
Hint Resolve sg_add_good : np_good.

Lemma sg_delete_good l r a r' : wf r -> sg_delete l r = Some (a, r') -> good r r'.
Proof.
  unfold sg_delete. intros W Hr. good_start W. minv; apply has_kind_intro in Hm; rewrite Eb in Hm; eauto with np_good.
Qed.
Hint Resolve sg_delete_good : np_good.

Lemma sg_update_good l added removed r a r' : wf r -> sg_update l added removed r = Some (a, r') -> good r r'.
Proof.
  unfold sg_update. intros W Hr. good_start W. minv; apply has_kind_intro in Hm; rewrite Eb in Hm; eauto with np_good.
Qed.
Hint Resolve sg_update_good : np_good.

End Safety.

#[export] Hint Extern 0 (has_kind ?b ?l ?r') =>
  match goal with
  | K : has_kind b l r' |- _ => exact K
  | G : good ?r r', K : has_kind b l ?r |- _ => exact (good_has_kind b l r r' G K)
  end : np_good.
#[export] Hint Resolve np_Add_good np_Delete_good tr_Add_good tr_Delete_good vmp_Update_good vmp_Delete_good
  queue_UpdateOnly_good dec_opCnt_good UpdatePendingItem_good queue_Remove_good' : np_good.
#[export] Hint Resolve tracker_setDirty_good getCloudResourceNPTracker_good tracker_update_good
  update_trackers_good securityGroup_markDirty_good removeStaleMembers_good upd_retryOp_None_good : np_good.
#[export] Hint Resolve neutral_set_members neutral_set_deletePending
  neutral_set_retryInProgress neutral_set_hasRules neutral_set_hasMembers upd_sg_neutral put_sg_neutral : np_good.
#[export] Hint Resolve deleteImpl_good updateImpl_good addr_delete_good addr_updateIPs_good addr_update_good
  addr_notifyNetworkPolicyChange_good appliedTo_delete_good updateRules_good appliedTo_update_good
  appliedTo_notifyNetworkPolicyChange_good sg_add_good sg_delete_good sg_update_good live_has_kind : np_good.
