(* ===== verification/NPReach.v ===== *)
(** * The handlers keep the invariant

    Policies, synchronisation with the cloud, group events, pending items and
    answers of the cloud: each keeps the invariant of [NPInvariants], hence so
    does every reachable state of the system. *)

From stdpp Require Import base strings list gmap.
From Stdlib Require Import ZArith Lia.
From S2P Require Import Prelude GoStrings GoNet GoCIDR SecurityGroup RuleMerge NPState NPPending NPGroups.
From S2P Require Import NPPolicy NPSync NPController NPInvariants NPSafety.

#[local] Open Scope string_scope.
#[local] Open Scope Z_scope.

(** Deleting the groups of the cloud that are unknown here: the calls come
    before the synchronisation is recorded, so this part is followed without
    the quiet part of the invariant. *)
Section Gather.
Context {IXC : CacheIndexer} {RNG : MapRange}.
#[local] Instance lax : Strictness := false.

Lemma not_before_sync r : ~ before_sync r.
Proof. by intros [? _]. Qed.

Lemma delete_unknown_good c r a r' : wf r -> delete_unknown c r = Some (a, r') -> good r r'.
Proof.
  unfold delete_unknown. intros W Hr. minv. apply alloc_sg_good in Hm0 as (G & _); [|done| |].
  - eapply good_trans; [exact G|]. eapply sg_delete_good; [apply G|exact Hr].
  - destruct (sc_MembershipOnly c); simplify_eq/=; by left.
  - intros Hb. by apply not_before_sync in Hb.
Qed.
Hint Resolve delete_unknown_good : np_good.

Lemma gather_good contents g r a r' : wf r -> gather contents g r = Some (a, r') -> good r r'.
Proof.
  revert g r. induction contents as [|c contents IH]; intros g r W Hr; simpl in Hr; good_start W; good_run; eauto.
Qed.

End Gather.

Section Handlers.
Context {IXC : CacheIndexer} {RNG : MapRange} {STR : Strictness}.

(** ** Policies *)

(** Computing rules reads the groups only. *)
Lemma group_peers_same sgs r p r' : group_peers sgs r = Some (p, r') -> r' = r.
Proof.
  revert p. induction sgs as [|l sgs IH]; intros p Hr; simpl in Hr; minv; [done|].
  by eapply IH.
Qed.

Lemma address_group_peers_same ags r p r' : address_group_peers ags r = Some (p, r') -> r' = r.
Proof.
  revert p. induction ags as [|l ags IH]; intros p Hr; simpl in Hr; minv; try done;
    repeat match goal with Hm : group_peers _ _ = _ |- _ => apply group_peers_same in Hm as -> end; by eapply IH.
Qed.

Lemma rules_same rule r p r' : rules rule r = Some (p, r') -> r' = r.
Proof. unfold rules. intros Hr. minv; by eapply address_group_peers_same. Qed.

Lemma check_sgs_same w sgs r p r' : check_sgs w sgs r = Some (p, r') -> r' = r.
Proof.
  revert p. induction sgs as [|l sgs IH]; intros p Hr; simpl in Hr; minv; try done; by eapply IH.
Qed.

Lemma check_groups_same w names r p r' : check_groups w names r = Some (p, r') -> r' = r.
Proof.
  revert p. induction names as [|n names IH]; intros p Hr; simpl in Hr; minv; try done;
    repeat match goal with Hm : check_sgs _ _ _ = _ |- _ => apply check_sgs_same in Hm as -> end;
    try done; by eapply IH.
Qed.

Lemma upd_np_good l f r a r' :
  wf r -> upd_np l f r = Some (a, r') -> (forall n, np_Name (f n) = np_Name n) -> good r r'.
Proof. unfold upd_np. intros W Hr Hf. minv. eapply put_np_good; eauto. Qed.
Hint Extern 1 (forall n, np_Name _ = np_Name n) => done : np_good.
Hint Resolve upd_np_good : np_good.

Lemma computeRulesReady_good l w r a r' : wf r -> computeRulesReady l w r = Some (a, r') -> good r r'.
Proof.
  unfold computeRulesReady. intros W Hr.
  minv; repeat match goal with Hm : check_groups _ _ _ = _ |- _ => apply check_groups_same in Hm as -> end;
    try (by apply good_refl). eapply put_np_good; [exact W|exact Hm| |eassumption]; done.
Qed.
Hint Resolve computeRulesReady_good : np_good.

Lemma computeRules_loop_good l rs r a r' : wf r -> computeRules_loop l rs r = Some (a, r') -> good r r'.
Proof.
  revert r. induction rs as [|rule rs IH]; intros r W Hr; simpl in Hr.
  { minv. by apply good_refl. }
  minv; repeat match goal with Hm : rules _ _ = _ |- _ => apply rules_same in Hm as -> end.
  - by eapply upd_np_good; [|eassumption|].
  - eapply upd_np_good in Hm0 as G; [|done..]. eapply good_trans; [exact G|]. eapply IH; [apply G|exact Hr].
Qed.
Hint Resolve computeRules_loop_good : np_good.

Lemma computeRules_good l r a r' : wf r -> computeRules l r = Some (a, r') -> good r r'.
Proof. unfold computeRules. intros W Hr. good_start W. good_run; eauto. Qed.
Hint Resolve computeRules_good : np_good.

Lemma forM_sgs_good b name (f : loc -> M unit) r a r' :
  (forall l r r', wf r -> f l r = Some (tt, r') -> has_kind b l r -> good r r') ->
  wf r -> (sgs_of_group b name ≫= fun sgs => forM_ sgs f) r = Some (a, r') -> good r r'.
Proof.
  intros Hf W Hr. minv. eapply forM_kind_good; [exact Hf|exact W| |exact Hr].
  intros l. by apply sgs_of_group_kind.
Qed.

Lemma np_markDirty_good l r a r' : wf r -> np_markDirty l r = Some (a, r') -> good r r'.
Proof.
  unfold np_markDirty. intros W Hr. minv. eapply forM_good_all; [|exact W|exact Hr].
  intros key r1 r2 W1. apply (forM_sgs_good false); [|done]. intros; by eapply securityGroup_markDirty_good.
Qed.
Hint Resolve np_markDirty_good : np_good.

Lemma notify_addr_groups_good names r a r' : wf r -> notify_addr_groups names r = Some (a, r') -> good r r'.
Proof.
  intros W. apply forM_good_all; [|done]. intros id r1 r2 W1. apply (forM_sgs_good true); [|done].
  intros; by eapply addr_notifyNetworkPolicyChange_good.
Qed.
Hint Resolve notify_addr_groups_good : np_good.

Lemma notify_appliedTo_groups_good names r a r' :
  wf r -> notify_appliedTo_groups names r = Some (a, r') -> good r r'.
Proof.
  intros W. apply forM_good_all; [|done]. intros id r1 r2 W1. apply (forM_sgs_good false); [|done].
  intros; by eapply appliedTo_notifyNetworkPolicyChange_good.
Qed.
Hint Resolve notify_appliedTo_groups_good : np_good.

Lemma update_rules_part_good l anp r a r' : wf r -> update_rules_part l anp r = Some (a, r') -> good r r'.
Proof. unfold update_rules_part. intros W Hr. good_start W. good_run; eauto. Qed.
Hint Resolve update_rules_part_good : np_good.

Lemma update_appliedTo_part_good l anp r a r' :
  wf r -> update_appliedTo_part l anp r = Some (a, r') -> good r r'.
Proof.
  unfold update_appliedTo_part. intros W Hr. good_start W.
  good_run; eauto.
Qed.
Hint Resolve update_appliedTo_part_good : np_good.

Lemma np_update_good l anp r a r' : wf r -> np_update l anp r = Some (a, r') -> good r r'.
Proof. unfold np_update. intros W Hr. good_start W. destruct anp; good_run; eauto. Qed.
Hint Resolve np_update_good : np_good.

Lemma np_delete_good l r a r' : wf r -> np_delete l r = Some (a, r') -> good r r'.
Proof. unfold np_delete. intros W Hr. good_start W. good_run; eauto. Qed.
Hint Resolve np_delete_good : np_good.

Lemma notifyAddrGrpChanges_good l r a r' : wf r -> notifyAddrGrpChanges l r = Some (a, r') -> good r r'.
Proof.
  unfold notifyAddrGrpChanges. intros W Hr. good_start W. good_run; eauto.
  eapply good_trans; [eassumption|]. eapply forM_good_all; [|eapply proj1; eassumption|exact Hr].
  intros gname r1 r2 W1. apply (forM_sgs_good false); [|done]. intros; by eapply updateRules_good.
Qed.
Hint Resolve notifyAddrGrpChanges_good : np_good.

(** ** Status of cloud resources *)

Lemma np_getStatus_good l r a r' : wf r -> np_getStatus l r = Some (a, r') -> good r r'.
Proof. unfold np_getStatus. intros W Hr. good_start W. good_run; eauto. Qed.
Hint Resolve np_getStatus_good : np_good.

Lemma npMap_loop_same es acc r p r' : npMap_loop es acc r = Some (p, r') -> r' = r.
Proof.
  revert acc. induction es as [|[k l] es IH]; intros acc Hr; simpl in Hr; minv; [done|]. by eapply IH.
Qed.

Lemma np_status_of_good np asg r a r' : wf r -> np_status_of np asg r = Some (a, r') -> good r r'.
Proof. unfold np_status_of. intros W Hr. good_start W. good_run; eauto. Qed.
Hint Resolve np_status_of_good : np_good.

Lemma status_loop_good es ret r a r' : wf r -> status_loop es ret r = Some (a, r') -> good r r'.
Proof.
  revert ret r. induction es as [|[np asg] es IH]; intros ret r W Hr; simpl in Hr; good_start W; good_run; eauto.
Qed.
Hint Resolve status_loop_good : np_good.

(** The previous groups a tracker keeps are among those it had. *)
Lemma prev_loop_spec es prev ret r prev' ret' r' :
  prev_loop es prev ret r = Some ((prev', ret'), r') -> r' = r /\ prev' ⊆ prev.
Proof.
  revert prev ret. induction es as [|[k l] es IH]; intros prev ret Hr; simpl in Hr.
  { minv. simplify_eq. done. }
  minv; repeat match goal with Hm : mapM_get _ _ = _ |- _ => apply mapM_get_same in Hm as -> end.
  - by eapply IH.
  - apply IH in Hr as [-> Hsub]. split; [done|]. etransitivity; [exact Hsub|]. apply delete_subseteq.
Qed.

Lemma groups_wf_subseteq h m m' : m' ⊆ m -> groups_wf h m -> groups_wf h m'.
Proof. intros Hsub Hm k l Hk. apply Hm. by eapply lookup_weaken. Qed.

Lemma npMap_loop_good es acc r a r' : wf r -> npMap_loop es acc r = Some (a, r') -> good r r'.
Proof. intros W ->%npMap_loop_same. by apply good_refl. Qed.
Lemma prev_loop_good es prev ret r a r' : wf r -> prev_loop es prev ret r = Some (a, r') -> good r r'.
Proof. destruct a. intros W [-> _]%prev_loop_spec. by apply good_refl. Qed.
Hint Resolve npMap_loop_good prev_loop_good : np_good.

Lemma computeNPStatus_good c r a r' : wf r -> computeNPStatus c r = Some (a, r') -> good r r'.
Proof.
  unfold computeNPStatus. intros W Hr. good_start W.
  apply bind_inv in Hr as (t & r0 & [Ht ->]%get_tr_inv & Hr).
  do 2 (apply bind_inv in Hr as (? & ? & ? & Hr); good_step).
  apply bind_inv in Hr as ([prev ret] & r3 & Hp & Hr).
  apply prev_loop_spec in Hp as [-> Hsub].
  match goal with G : good r ?r2, _ : good ?r2 ?r2 |- _ => rename r2 into r9, G into G9 end.
  assert (groups_wf (h_sg (heap r9)) prev) as Hprev.
  { eapply groups_wf_subseteq; [exact Hsub|]. eapply groups_wf_mono; [apply G9|].
    by destruct (wf_trs _ W _ _ Ht). }
  apply bind_inv in Hr as ([] & r4 & Hw & Hr). apply mret_inv in Hr as [-> ->]. unfold mwhen in Hw.
  destruct (negb _); [|minv; done]. apply bind_inv in Hw as (? & r5 & ? & Hw).
  pose proof (good_refl _ (proj1 G9)). good_step.
  apply bind_inv in Hw as (t' & r6 & [Ht' ->]%get_tr_inv & Hw).
  apply bind_inv in Hw as (? & r7 & Hput & Hw).
  match goal with G : good r r5, G' : good r9 r5 |- _ =>
    destruct (wf_trs _ (proj1 G) _ _ Ht') as [T1 _];
    pose proof (groups_wf_mono _ _ _ (proj1 (proj2 G')) Hprev) as T2;
    eapply put_tr_good in Hput as G7; [|apply G|exact Ht'|done..];
    eapply good_trans; [exact G|]; eapply good_trans; [exact G7|] end.
  eapply tr_Add_good; [apply G7|exact Hw].
Qed.
Hint Resolve computeNPStatus_good : np_good.

Lemma store_vm_status_good vm known st found r a r' :
  wf r -> store_vm_status vm known st found r = Some (a, r') -> good r r'.
Proof.
  unfold store_vm_status. intros W Hr. apply bind_inv in Hr as (cache & r1 & H1 & Hr).
  assert (good r r1) as G.
  { clear Hr. destruct found; minv; [by apply good_refl|]. by eapply alloc_vmp_good in H1 as [? _]. }
  clear H1. eapply good_trans; [exact G|]. pose proof (proj1 G) as W1. good_start W1.
  apply bind_inv in Hr as (v & r2 & [Hv ->]%get_vmp_inv & Hr). case_match; [minv; done|].
  case_decide; [good_run; done|]. apply bind_inv in Hr as (? & r3 & Hp & Hr).
  eapply put_vmp_good in Hp as G3; [|done|exact Hv|done]. eapply good_trans; [exact G3|].
  pose proof (proj1 G3) as W3. good_start W3. good_run; done.
Qed.
Hint Resolve store_vm_status_good : np_good.

Lemma set_vm_status_good status vm r a r' : wf r -> set_vm_status status vm r = Some (a, r') -> good r r'.
Proof. unfold set_vm_status. intros W Hr. good_start W. good_run; done. Qed.
Hint Resolve set_vm_status_good : np_good.

Lemma set_vms_status_good status vms r a r' : wf r -> set_vms_status status vms r = Some (a, r') -> good r r'.
Proof.
  revert r a. induction vms as [|vm vms IH]; intros r a W Hr; simpl in Hr; good_start W; good_run; eauto.
Qed.
Hint Resolve set_vms_status_good : np_good.

Lemma vmNPStatusSetter_good env tr r a r' : wf r -> vmNPStatusSetter env tr r = Some (a, r') -> good r r'.
Proof. unfold vmNPStatusSetter. intros W Hr. good_start W. good_run; eauto. Qed.
Hint Resolve vmNPStatusSetter_good : np_good.

Lemma processTracker_good env tr r a r' : wf r -> processTracker env tr r = Some (a, r') -> good r r'.
Proof. unfold processTracker, tracker_isDirty. intros W Hr. good_start W. good_run; eauto. Qed.

Lemma processCloudResourceNPTrackers_good env r a r' :
  wf r -> processCloudResourceNPTrackers env r = Some (a, r') -> good r r'.
Proof.
  unfold processCloudResourceNPTrackers. intros W Hr. minv. eapply forM_good_all; [|exact W|exact Hr].
  intros; by eapply processTracker_good.
Qed.
Hint Resolve processCloudResourceNPTrackers_good : np_good.

(** ** Synchronisation *)

Lemma sync_update_good l b r a r' :
  wf r -> sync_update l b r = Some (a, r') -> live b l r -> good r r'.
Proof.
  unfold sync_update. intros W Hr Hl. pose proof Hl as (s & Hs & Hk & Hst). minv; same_sg Hs.
  - by eapply addImpl_good.
  - eapply updateImpl_good; [done|exact Hr|by exists s].
  - by apply good_refl.
Qed.

Lemma syncImpl_good env l c b r a r' :
  wf r -> syncImpl env l c b r = Some (a, r') -> live b l r -> ~ before_sync r -> good r r'.
Proof.
  unfold syncImpl. intros W Hr (s & Hs & Hk & Hst) Hq. apply bind_inv in Hr as (x & r0 & [Hx ->]%get_sg_inv & Hr).
  assert (x = s) as -> by congruence. destruct c as [c|].
  - apply bind_inv in Hr as (? & r1 & Hp & Hr).
    assert (good r r1 /\ live b l r1) as [G Hl].
    { split; [|apply modify_inv in Hp as ->; exists (set_state securityGroupStateCreated s);
        simpl; by rewrite lookup_insert_eq].
      eapply put_sg_good; [done|exact Hs| | | | |exact Hp]; simpl.
      - split; simpl; [done..|]. destruct (sg_state s); simpl; [lia|lia|done].
      - done.
      - done.
      - by left. }
    eapply good_trans; [exact G|]. minv; [apply good_refl, G|].
    eapply sync_update_good; [apply G|eassumption|done].
  - minv; [by apply good_refl|]. eapply sync_update_good; [done|eassumption|]. by exists s.
Qed.

Lemma addr_sync_good env l c r a r' :
  wf r -> addr_sync env l c r = Some (a, r') -> live true l r -> ~ before_sync r -> good r r'.
Proof.
  unfold addr_sync. intros W Hr Hl Hq. minv; [by apply good_refl|]. by eapply syncImpl_good.
Qed.

Lemma count_rules_good nps items r a r' : wf r -> count_rules nps items r = Some (a, r') -> good r r'.
Proof.
  revert items r. induction nps as [|np nps IH]; intros items r W Hr; simpl in Hr; good_start W; good_run; eauto.
Qed.
Hint Resolve count_rules_good : np_good.

Lemma appliedTo_sync_good env l c r a r' :
  wf r -> appliedTo_sync env l c r = Some (a, r') -> live false l r -> ~ before_sync r -> good r r'.
Proof.
  unfold appliedTo_sync. intros W Hr Hl Hq. pose proof (live_has_kind _ _ _ Hl) as Hk.
  apply bind_inv in Hr as (x & r0 & [Hx ->]%get_sg_inv & Hr). destruct (sg_deletePending x);
    [minv; by apply good_refl|].
  apply bind_inv in Hr as (same & r1 & H1 & Hr). eapply syncImpl_good in H1 as G; [|done..].
  pose proof (good_refl _ (proj1 G)). destruct c; good_run; eauto.
Qed.

(** Synchronising a group turns no group into garbage, so the groups listed
    before a loop are still live when their turn comes. *)
Definition calm (r r' : Reconciler) : Prop := forall l s',
  h_sg (heap r') !! l = Some s' -> sg_state s' = securityGroupStateGarbageCollectState ->
  exists s, h_sg (heap r) !! l = Some s /\ sg_state s = securityGroupStateGarbageCollectState.

Lemma calm_trans r1 r2 r3 : calm r1 r2 -> calm r2 r3 -> calm r1 r3.
Proof. intros H1 H2 l s Hs Hst. destruct (H2 l s Hs Hst) as (s2 & ? & ?). eauto. Qed.

Lemma calm_same r r' : same_sgs r r' -> calm r r'.
Proof. intros Hs l s. rewrite Hs. eauto. Qed.

Lemma calm_refl r : calm r r.
Proof. by apply calm_same. Qed.

Lemma put_sg_calm l s s' r a r' :
  h_sg (heap r) !! l = Some s ->
  sg_state s' = sg_state s \/ sg_state s' <> securityGroupStateGarbageCollectState ->
  put_sg l s' r = Some (a, r') -> calm r r'.
Proof.
  intros Hs Hst ->%modify_inv l' t. simpl. destruct (decide (l = l')) as [<-|Hne].
  - rewrite lookup_insert_eq. intros [= <-] Hg. destruct Hst; [|done]. exists s. split; [done|congruence].
  - rewrite lookup_insert_ne by done. eauto.
Qed.

Lemma upd_sg_calm l f r a r' : (forall s, sg_state (f s) = sg_state s) -> upd_sg l f r = Some (a, r') -> calm r r'.
Proof.
  unfold upd_sg. intros Hf Hr. minv. eapply put_sg_calm; [exact Hm| |exact Hr].
  left. apply Hf.
Qed.

Lemma updateImpl_calm l added removed b r a r' : updateImpl l added removed b r = Some (a, r') -> calm r r'.
Proof.
  unfold updateImpl. intros Hr. minv; try (apply calm_refl).
  all: eapply put_sg_calm in Hm0 as C; [|exact Hm|by left]; try done.
  eapply calm_trans; [exact C|]. apply calm_same. by apply modify_inv in Hr as ->.
Qed.

Lemma addImpl_calm l b r a r' : addImpl l b r = Some (a, r') -> calm r r'.
Proof.
  unfold addImpl, sg_Add. intros Hr. minv; minv_heap; try (by apply calm_same).
  unfold call_cloud in *. minv_heap. apply upd_sg_calm in Hr; [|done].
  eapply calm_trans; [|exact Hr]. by apply calm_same.
Qed.

Lemma updateRules_calm l r a r' : updateRules l r = Some (a, r') -> calm r r'.
Proof.
  unfold updateRules, call_cloud. intros Hr.
  minv; repeat match goal with Hm : mapM_get _ _ = _ |- _ => apply mapM_get_same in Hm as -> end;
    try (apply calm_refl).
  - minv_heap. by apply calm_same.
  - eapply put_sg_calm; [exact Hm| |exact Hr]; by left.
  - minv_heap. by apply calm_same.
Qed.

Lemma computeRules_loop_same l rs r a r' : computeRules_loop l rs r = Some (a, r') -> same_sgs r r'.
Proof.
  revert r. induction rs as [|rule rs IH]; intros r Hr; simpl in Hr; unfold upd_np in Hr;
    minv; repeat match goal with Hm : rules _ _ = _ |- _ => apply rules_same in Hm as -> end;
    minv_heap; try done. by apply IH in Hr.
Qed.

Lemma computeRulesReady_same l w r a r' : computeRulesReady l w r = Some (a, r') -> same_sgs r r'.
Proof.
  unfold computeRulesReady. intros Hr.
  minv; repeat match goal with Hm : check_groups _ _ _ = _ |- _ => apply check_groups_same in Hm as -> end;
    minv_heap; done.
Qed.

Lemma computeRules_same l r a r' : computeRules l r = Some (a, r') -> same_sgs r r'.
Proof.
  unfold computeRules, upd_np. intros Hr. minv; minv_heap.
  all: repeat match goal with
    | Hm : computeRules_loop _ _ _ = _ |- _ => apply computeRules_loop_same in Hm
    | Hm : computeRulesReady _ _ _ = _ |- _ => apply computeRulesReady_same in Hm end;
    unfold same_sgs in *; simpl in *; congruence.
Qed.

Lemma count_rules_same nps items r a r' : count_rules nps items r = Some (a, r') -> same_sgs r r'.
Proof.
  revert items r. induction nps as [|np nps IH]; intros items r Hr; simpl in Hr; minv; try done;
    repeat match goal with Hm : computeRules _ _ = _ |- _ => apply computeRules_same in Hm end; try done.
  apply IH in Hr. unfold same_sgs in *. congruence.
Qed.

Lemma securityGroup_markDirty_same l create r a r' : securityGroup_markDirty l create r = Some (a, r') -> same_sgs r r'.
Proof.
  unfold securityGroup_markDirty. intros Hr. minv. revert Hr. apply forM_same_sgs. intros rsc r1 r2 Hr.
  apply bind_inv in Hr as (o & r3 & H1 & Hr). apply getCloudResourceNPTracker_same in H1.
  destruct o; unfold tracker_setDirty in Hr; minv; minv_heap; done.
Qed.

Lemma sync_update_calm l b r a r' : sync_update l b r = Some (a, r') -> calm r r'.
Proof.
  unfold sync_update. intros Hr. minv; eauto using addImpl_calm, updateImpl_calm, calm_refl.
Qed.

Lemma syncImpl_calm env l c b r a r' : syncImpl env l c b r = Some (a, r') -> calm r r'.
Proof.
  unfold syncImpl. intros Hr. destruct c; minv; eauto using sync_update_calm, calm_refl.
  - eapply put_sg_calm; [exact Hm| |eassumption]; by right.
  - eapply calm_trans; [|by eapply sync_update_calm]. eapply put_sg_calm; [exact Hm| |eassumption]; by right.
Qed.

Lemma addr_sync_calm env l c r a r' : addr_sync env l c r = Some (a, r') -> calm r r'.
Proof. unfold addr_sync. intros Hr. minv; eauto using syncImpl_calm, calm_refl. Qed.

Lemma appliedTo_sync_calm env l c r a r' : appliedTo_sync env l c r = Some (a, r') -> calm r r'.
Proof.
  unfold appliedTo_sync. intros Hr.
  apply bind_inv in Hr as (x & r0 & [Hx ->]%get_sg_inv & Hr). destruct (sg_deletePending x);
    [minv; apply calm_refl|].
  apply bind_inv in Hr as (same & r1 & H1 & Hr). apply syncImpl_calm in H1.
  eapply calm_trans; [exact H1|]. clear H1.
  apply bind_inv in Hr as (y & r2 & [Hy ->]%get_sg_inv & Hr).
  apply bind_inv in Hr as (u & r3 & H2 & Hr).
  assert (calm r1 r3) as C by (unfold mwhen in H2; destruct (_ && _); [by eapply upd_sg_calm; [|exact H2]|minv; apply calm_refl]).
  eapply calm_trans; [exact C|]. clear H2 C.
  apply bind_inv in Hr as (nps & r4 & [-> ->]%gets_inv & Hr).
  apply bind_inv in Hr as (o & r5 & H3%count_rules_same%calm_same & Hr).
  eapply calm_trans; [exact H3|]. clear H3.
  destruct o as [items|], c as [c|]; minv; eauto using updateRules_calm, calm_refl.
  - apply securityGroup_markDirty_same, calm_same in Hm0. eapply calm_trans; [exact Hm0|].
    by eapply upd_sg_calm; [|exact Hr].
  - by eapply upd_sg_calm; [|exact Hr].
Qed.

Lemma calm_live b l r r' : good r r' -> calm r r' -> live b l r -> live b l r'.
Proof.
  intros G C (s & Hs & Hk & Hst). destruct (evolves_lookup _ _ _ _ G Hs) as (s' & Hs' & [E _ _]).
  exists s'. split_and!; [done|congruence|]. intros Hg. destruct (C l s' Hs' Hg) as (t & Ht & Hgt). congruence.
Qed.

Lemma forM_live_good b (f : loc -> M unit) ls r a r' :
  (forall l r r', wf r -> f l r = Some (tt, r') -> live b l r -> ~ before_sync r -> good r r' /\ calm r r') ->
  wf r -> forM_ ls f r = Some (a, r') -> (forall l, l ∈ ls -> live b l r) -> ~ before_sync r -> good r r'.
Proof.
  intros Hf. revert r. induction ls as [|l ls IH]; intros r W Hr HP Hq; simpl in Hr; minv; [by apply good_refl|].
  destruct x. destruct (Hf _ _ _ W Hm) as [G C]; [apply HP; left|done|].
  eapply good_trans; [exact G|]. eapply IH; [apply G|exact Hr| |].
  - intros l' Hl'. eapply calm_live; [exact G|exact C|]. apply HP. by right.
  - intros Hb. apply Hq. by eapply before_sync_mono; [apply G|].
Qed.

Lemma sgs_list_live b r l : wf r -> l ∈ ix_List (sgIx b (ixs r)) -> live b l r.
Proof.
  rewrite ix_list. intros W ([k l'] & -> & Hk%elem_of_map_to_list)%list_elem_of_fmap.
  destruct (wf_sgix r W b k l' Hk) as (s & ? & ? & _ & ?). by exists s.
Qed.

Lemma refresh_resource_good rsc r a r' : wf r -> refresh_resource rsc r = Some (a, r') -> good r r'.
Proof.
  unfold refresh_resource. intros W Hr. apply bind_inv in Hr as (o & r0 & [-> ->]%gets_inv & Hr).
  destruct (ix_GetByKey _ _) as [tr|]; [|minv; by apply good_refl].
  apply bind_inv in Hr as (t & r0 & [Ht ->]%get_tr_inv & Hr).
  destruct (go_range (tr_appliedToSGs t)) as [|[k l] es] eqn:E; [minv; by apply good_refl|].
  assert (tr_appliedToSGs t !! k = Some l) as Hkl by (apply elem_of_go_range; rewrite E; left).
  destruct (proj1 (wf_trs _ W _ _ Ht) _ _ Hkl) as (s & Hs & Hk & _).
  eapply appliedTo_update_good; [done|exact Hr|]. by exists s.
Qed.

Lemma wf_relax r : wf r -> wf (STR := false) r.
Proof. intros []. split; auto. by intros [? _]. Qed.

(** Once a synchronisation is recorded, the strict invariant holds again. *)
Lemma wf_synced r : wf (STR := false) r -> wf (set_synced true r).
Proof. intros []. split; auto. by intros [_ ?]. Qed.

Lemma syncWithCloud_good env r a r' : wf r -> syncWithCloud env r = Some (a, r') -> good r r'.
Proof.
  unfold syncWithCloud. intros W Hr. apply bind_inv in Hr as (cnt & r0 & [-> ->]%gets_inv & Hr).
  destruct (_ <? _); [minv; by apply good_refl|].
  apply bind_inv in Hr as (g & r1 & H1 & Hr). apply gather_good in H1 as [W1 E1]; [|by apply wf_relax].
  apply bind_inv in Hr as (? & r2 & ->%modify_inv & Hr).
  assert (good r (set_synced true r1)) as G2.
  { split; [by apply wf_synced|]. destruct E1 as [E1 _]. by split. }
  assert (~ before_sync (set_synced true r1)) as Hq by by intros [_ ?].
  eapply good_trans; [exact G2|]. revert Hr G2 Hq. generalize (set_synced true r1). intros r2 Hr [W2 _] Hq.
  apply bind_inv in Hr as (addrs & r3 & [-> ->]%gets_inv & Hr).
  apply bind_inv in Hr as (? & r4 & H4 & Hr).
  eapply (forM_live_good true) in H4 as G4; [|intros l r5 r6 W5 H5 Hl Hq5|done|intros l; by apply (sgs_list_live true)|done].
  2: { apply bind_inv in H5 as (s & r7 & [Hs ->]%get_sg_inv & H5). destruct (isIPBlocks s).
       - minv. split; [by apply good_refl|apply calm_refl].
       - split; [by eapply addr_sync_good|by eapply addr_sync_calm]. }
  eapply good_trans; [exact G4|]. destruct G4 as [W4 E4]. clear H4.
  assert (~ before_sync r4) as Hq4 by (intros Hb; apply Hq; by eapply before_sync_mono).
  apply bind_inv in Hr as (apps & r7 & [-> ->]%gets_inv & Hr).
  apply bind_inv in Hr as (? & r8 & H8 & Hr).
  eapply (forM_live_good false) in H8 as G8; [|intros l r5 r6 W5 H5 Hl Hq5|done|intros l; by apply (sgs_list_live false)|done].
  2: { apply bind_inv in H5 as (s & r9 & [Hs ->]%get_sg_inv & H5).
       split; [by eapply appliedTo_sync_good|by eapply appliedTo_sync_calm]. }
  eapply good_trans; [exact G8|]. eapply forM_good_all; [|apply G8|exact Hr].
  intros; by eapply refresh_resource_good.
Qed.
Hint Resolve syncWithCloud_good : np_good.

Lemma set_bookmarkCnt_good v r : wf r -> good r (set_bookmarkCnt v r).
Proof. intros W. wf_frame W. Qed.

Lemma processBookMark_good env ev r a r' : wf r -> processBookMark env ev r = Some (a, r') -> good r r'.
Proof.
  unfold processBookMark. intros W Hr. minv; try (by apply good_refl). minv_heap.
  pose proof (set_bookmarkCnt_good (bookmarkCnt r + 1) r W) as G.
  eapply good_trans; [exact G|]. eapply syncWithCloud_good; [apply G|eassumption].
Qed.
Hint Resolve processBookMark_good : np_good.

(** ** Group events *)

Lemma vpcs_of_good env ms r a r' : wf r -> vpcs_of env ms r = Some (a, r') -> good r r'.
Proof. unfold vpcs_of. intros W Hr. minv. by apply good_refl. Qed.
Hint Resolve vpcs_of_good : np_good.

Lemma resolve_added_good env ms r a r' : wf r -> resolve_added env ms r = Some (a, r') -> good r r'.
Proof. unfold resolve_added. intros W Hr. good_start W. good_run; eauto. Qed.
Hint Resolve resolve_added_good : np_good.

Lemma remove_stale_all_good ls stales r a r' :
  wf r -> forM_ ls (fun l => removeStaleMembers l stales) r = Some (a, r') -> good r r'.
Proof. intros W. apply forM_good_all; [|done]. intros; by eapply removeStaleMembers_good. Qed.
Hint Resolve remove_stale_all_good : np_good.

Lemma resolve_removed_good env name ms r a r' : wf r -> resolve_removed env name ms r = Some (a, r') -> good r r'.
Proof. unfold resolve_removed. intros W Hr. good_start W. good_run; eauto. Qed.
Hint Resolve resolve_removed_good : np_good.

(** Making a group and adding it. *)
Lemma alloc_add_good b s (add : loc -> M unit) r l r1 a r' :
  (forall l r a r', wf r -> live b l r -> add l r = Some (a, r') -> good r r') ->
  wf r -> sg_membershipOnly s = b -> sg_state s = securityGroupStateInit -> sg_retryOp s = None ->
  sg_quiet s -> alloc put_sg s r = Some (l, r1) -> add l r1 = Some (a, r') -> good r r'.
Proof.
  intros Hadd W Hk Hst Hop Hq H1 H2. apply alloc_sg_good in H1 as (G & Hs & _); [|done|by left|done].
  eapply good_trans; [exact G|]. eapply Hadd; [apply G| |exact H2]. exists s. rewrite Hst. done.
Qed.

Lemma create_sg_fresh b id data s :
  create_sg b id data = Some s ->
  sg_membershipOnly s = b /\ sg_state s = securityGroupStateInit /\ sg_retryOp s = None /\ sg_quiet s.
Proof. destruct b, data; intros [= <-]; done. Qed.

Lemma apply_added_good name b vpcs removedMembers ch r a r' :
  wf r -> apply_added name b vpcs removedMembers ch r = Some (a, r') -> good r r'.
Proof.
  revert removedMembers ch r. induction vpcs as [|[vpc ms] vpcs IH]; intros rm ch r W Hr; simpl in Hr.
  { minv. by apply good_refl. }
  minv; eauto.
  - apply sg_update_good in Hm0 as G; [|done]. eapply good_trans; [exact G|]. eapply IH; [apply G|exact Hr].
  - match goal with E : create_sg _ _ _ = Some ?s, H1 : alloc put_sg ?s r = Some (?l, ?r1),
      H2 : sg_add ?l ?r1 = Some (_, ?r2) |- _ =>
      destruct (create_sg_fresh _ _ _ _ E) as (? & ? & ? & ?);
      assert (good r r2) as G by (eapply (alloc_add_good b _ sg_add); eauto; intros; by eapply sg_add_good) end.
    eapply good_trans; [exact G|]. eapply IH; [apply G|exact Hr].
Qed.
Hint Resolve apply_added_good : np_good.

Lemma apply_removed_good name b vpcs r a r' : wf r -> apply_removed name b vpcs r = Some (a, r') -> good r r'.
Proof.
  intros W. apply forM_good_all; [|done]. intros vm r1 r2 W1 Hr. good_start W1. good_run; eauto.
Qed.
Hint Resolve apply_removed_good : np_good.

Lemma apply_ips_good name ev ips ips' r a r' : wf r -> apply_ips name ev ips ips' r = Some (a, r') -> good r r'.
Proof.
  unfold apply_ips. intros W Hr. minv; eauto using addr_updateIPs_good, good_refl.
  eapply (alloc_add_good true _ addr_add); try eassumption; try done. intros; by eapply addr_add_good.
Qed.
Hint Resolve apply_ips_good : np_good.

Lemma apply_empty_good name ips r a r' : wf r -> apply_empty name ips r = Some (a, r') -> good r r'.
Proof.
  unfold apply_empty. intros W Hr. minv; eauto using good_refl.
  eapply (alloc_add_good true _ addr_add); try eassumption; try done. intros; by eapply addr_add_good.
Qed.
Hint Resolve apply_empty_good : np_good.

Lemma recompute_policies_good name r a r' : wf r -> recompute_policies name r = Some (a, r') -> good r r'.
Proof.
  unfold recompute_policies. intros W Hr. minv. eapply forM_good_all; [|exact W|exact Hr].
  intros np r1 r2 W1 Hr1. exact (np_update_good np None r1 tt r2 W1 Hr1).
Qed.
Hint Resolve recompute_policies_good : np_good.

Lemma apply_members_good name ev b added removed x y r a r' :
  wf r -> apply_members name ev b added removed x y r = Some (a, r') -> good r r'.
Proof. unfold apply_members. intros W Hr. good_start W. good_run; eauto. Qed.
Hint Resolve apply_members_good : np_good.

Lemma delete_all_good ls r a r' : wf r -> forM_ ls sg_delete r = Some (a, r') -> good r r'.
Proof. intros W. apply forM_good_all; [|done]. intros; by eapply sg_delete_good. Qed.
Hint Resolve delete_all_good : np_good.

Lemma processMemberGrp_body_good env name ev b added removed r a r' :
  wf r -> processMemberGrp_body env name ev b added removed r = Some (a, r') -> good r r'.
Proof. unfold processMemberGrp_body. intros W Hr. good_start W. good_run; eauto. Qed.
Hint Resolve processMemberGrp_body_good : np_good.

Lemma create_retry_good uName r a r' :
  wf r ->
  (alloc put_pg (mkPendingGroup None false EventNone ∅ ∅) ≫= fun p =>
   queue_Add RetryQueue uName (PendingGroup p)) r = Some (a, r') -> good r r'.
Proof.
  intros W Hr. minv. apply alloc_pg_good in Hm as [G Hp]; [|done].
  eapply good_trans; [exact G|]. eapply queue_Add_good; [apply G| |exact Hr]. simpl. split; eauto.
Qed.

Lemma processMemberGrp_good env name ev b added removed r a r' :
  wf r -> processMemberGrp env name ev b added removed r = Some (a, r') -> good r r'.
Proof.
  unfold processMemberGrp. intros W Hr. good_start W.
  apply bind_inv in Hr as (bm & r1 & ? & Hr). good_step. destruct bm; [minv; done|].
  apply bind_inv in Hr as (err & r2 & ? & Hr). good_step.
  apply bind_inv in Hr as (? & r3 & Hd & Hr).
  assert (good r2 r3) as G3.
  { clear Hr. unfold mwhen at 1 in Hd. destruct (match err with None => _ | Some _ => _ end); [|by minv].
    apply bind_inv in Hd as (has & r4 & [-> ->]%queue_Has_inv & Hd).
    apply bind_inv in Hd as (? & r5 & Hq & Hd).
    assert (good r2 r5) as G5.
    { unfold mwhen in Hq. destruct (negb _); [|by minv].
      eapply create_retry_good; [|exact Hq]. eapply proj1; eassumption. }
    apply bind_inv in Hd as (? & r6 & Hu & [_ ->]%mret_inv).
    eapply good_trans; [exact G5|]. eapply queue_UpdateOnly_good; [apply G5|exact Hu]. }
  good_ext G3 r2. pose proof (good_refl _ (proj1 G3)). clear Hd G3. good_run; done.
Qed.
Hint Resolve processMemberGrp_good : np_good.

End Handlers.

#[export] Hint Extern 1 (forall n, np_Name _ = np_Name n) => done : np_good.
#[export] Hint Resolve computeRulesReady_good computeRules_good np_markDirty_good np_update_good np_delete_good
  notifyAddrGrpChanges_good processCloudResourceNPTrackers_good syncWithCloud_good processBookMark_good
  processMemberGrp_good : np_good.
