(* ===== verification/NPSystem.v ===== *)
(** * Safety of the whole system

    Running pending items and receiving the answers of the cloud keep the
    invariant, so it holds of every state the system reaches.  The theorems of
    this file are what follows from it about the calls made to the cloud. *)

From stdpp Require Import base strings list gmap.
From Stdlib Require Import ZArith Lia.
From S2P Require Import Prelude GoStrings GoNet GoCIDR SecurityGroup RuleMerge NPState NPPending NPGroups.
From S2P Require Import NPPolicy NPSync NPController NPInvariants NPSafety NPReach.

#[local] Open Scope string_scope.
#[local] Open Scope Z_scope.

Section System.
Context {IXC : CacheIndexer} {RNG : MapRange} {STR : Strictness}.

(** ** Running pending items *)

Lemma pendingGroup_RunPendingItem_good env id l r a r' :
  wf r -> pendingGroup_RunPendingItem env id l r = Some (a, r') -> good r r'.
Proof.
  unfold pendingGroup_RunPendingItem. intros W Hr. good_start W.
  apply bind_inv in Hr as (p & r0 & [Hp ->]%get_pg_inv & Hr). case_decide; [minv; done|].
  destruct (getGroupIDFromUniqueName id) as [name mo].
  apply bind_inv in Hr as (err & r1 & ? & Hr). good_step. minv; done.
Qed.
Hint Resolve pendingGroup_RunPendingItem_good : np_good.

(** A retried operation, run with the group's retry mark lifted. *)
Definition retry_op (l : loc) (b : bool) (op : securityGroupOperation) : M unit :=
  match op with
  | securityGroupOperationAdd => addImpl l b
  | securityGroupOperationUpdateMembers => updateImpl l [] [] b
  | securityGroupOperationDelete => deleteImpl l b
  | securityGroupOperationClearMembers | securityGroupOperationUpdateRules =>
      if b then panic else updateRules l
  end.

Lemma retry_op_good l b op s r a r' :
  wf r -> h_sg (heap r) !! l = Some s -> sg_membershipOnly s = b ->
  (sg_state s = securityGroupStateGarbageCollectState -> op = securityGroupOperationDelete) ->
  retry_op l b op r = Some (a, r') ->
  good r r' /\ (op = securityGroupOperationDelete \/ calm r r').
Proof.
  intros W Hs Hk Hop Hr.
  assert (op <> securityGroupOperationDelete -> sg_state s <> securityGroupStateGarbageCollectState) as Hng by auto.
  assert (has_kind b l r) as Hkind by by exists s.
  destruct op; simpl in Hr.
  - split; [by eapply addImpl_good; eauto|right; by eapply addImpl_calm].
  - split; [by eapply updateImpl_good|right; by eapply updateImpl_calm].
  - destruct b; [done|]. split; [by eapply updateRules_good|right; by eapply updateRules_calm].
  - destruct b; [done|]. split; [by eapply updateRules_good|right; by eapply updateRules_calm].
  - split; [by eapply deleteImpl_good|by left].
Qed.

Lemma runPendingItemImpl_good l b r a r' :
  wf r -> runPendingItemImpl l b r = Some (a, r') -> has_kind b l r -> good r r'.
Proof.
  unfold runPendingItemImpl. intros W Hr (s & Hs & Hk).
  assert (has_kind b l r) as Hkind by by exists s.
  apply bind_inv in Hr as (x & r0 & [Hx ->]%get_sg_inv & Hr). assert (x = s) as -> by congruence.
  destruct (sg_retryOp s) as [op|] eqn:Hop.
  - assert (sg_state s = securityGroupStateGarbageCollectState -> op = securityGroupOperationDelete) as Hgar.
    { intros Hst. destruct (wf_sgs _ W _ _ Hs Hst); congruence. }
    apply bind_inv in Hr as (? & r1 & H1 & Hr). pose proof (upd_sg_frame _ _ _ _ _ H1) as (_ & s1 & Hs1 & Hs1').
    assert (s1 = s) as -> by congruence. apply upd_retryOp_None_good in H1 as G1; [|done].
    apply bind_inv in Hr as (? & r2 & H2 & Hr).
    assert (retry_op l b op r1 = Some (x0, r2)) as H2' by (rewrite <- H2, Hk; by destruct op).
    eapply retry_op_good in H2' as (G2 & Hcalm); [|apply G1|exact Hs1'|done|done].
    apply bind_inv in Hr as (? & r3 & H3 & Hr).
    apply upd_sg_neutral in H3 as G3; [|apply G2|done]. pose proof (upd_sg_frame _ _ _ _ _ H3) as (_ & s2 & Hs2 & Hs2').
    apply bind_inv in Hr as (? & r4 & H4 & Hr). apply mret_inv in Hr as [-> ->].
    eapply good_trans; [exact G1|]. eapply good_trans; [exact G2|]. eapply good_trans; [exact G3|].
    eapply upd_retryOp_good; [apply G3|exact Hs2'| | |exact H4]; simpl.
    2: { intros Hb. eapply (not_quiet_synced l s r W Hs); [intros (_ & _ & ?); congruence|].
         eapply before_sync_mono; [|exact Hb]. transitivity r1; [apply G1|]. transitivity r2; [apply G2|apply G3]. }
    intros Hst.
    destruct Hcalm as [|C]; [done|]. destruct (C l s2 Hs2 Hst) as (s4 & Hs4 & Hst4).
    apply Hgar. assert (s4 = set_retryOp None s) as -> by congruence. exact Hst4.
  - good_start W. unfold mwhen in Hr. rewrite Hk in Hr. destruct b; good_run; eauto.
Qed.

Lemma RunPendingItem_good env id i r a r' : wf r -> RunPendingItem env id i r = Some (a, r') -> good r r'.
Proof.
  destruct i as [l|l]; simpl; intros W Hr; [|by eapply pendingGroup_RunPendingItem_good].
  minv. eapply runPendingItemImpl_good; [done|exact Hr|by exists x].
Qed.
Hint Resolve RunPendingItem_good : np_good.

Lemma RunOrDeletePendingItem_same i r a r' : RunOrDeletePendingItem i r = Some (a, r') -> r' = r.
Proof. destruct i; simpl; intros Hr; by minv. Qed.
Lemma RunOrDeletePendingItem_good i r a r' : wf r -> RunOrDeletePendingItem i r = Some (a, r') -> good r r'.
Proof. intros W ->%RunOrDeletePendingItem_same. by apply good_refl. Qed.
Lemma read_opCnt_good i r a r' : wf r -> read_opCnt i r = Some (a, r') -> good r r'.
Proof. unfold read_opCnt. intros W Hr. minv; by apply good_refl. Qed.
Hint Resolve RunOrDeletePendingItem_good read_opCnt_good : np_good.

Lemma queue_GetRetryCount_good q id r a r' : wf r -> queue_GetRetryCount q id r = Some (a, r') -> good r r'.
Proof. unfold queue_GetRetryCount. intros W Hr. good_start W. good_run; eauto. Qed.
Hint Resolve queue_GetRetryCount_good : np_good.

Lemma queue_RunUpdated_good env q id i r a r' :
  wf r -> queue_RunUpdated (RunPendingItem env) q id i r = Some (a, r') -> good r r'.
Proof.
  unfold queue_RunUpdated. intros W Hr. good_start W.
  apply bind_inv in Hr as ([runit del] & r1 & ? & Hr). good_step.
  apply bind_inv in Hr as (? & r2 & Hd & Hr). unfold mwhen at 1 in Hd.
  assert (good r1 r2) as G2 by (destruct del; [eapply queue_Remove_good'; [|exact Hd]; by eapply proj1|by minv]).
  good_ext G2 r1. pose proof (good_refl _ (proj1 G2)). clear Hd G2.
  apply bind_inv in Hr as (del' & r3 & Hd & Hr).
  assert (good r2 r3) as G3.
  { clear Hr. destruct runit; [|by minv]. good_run; eauto. }
  good_ext G3 r2. pose proof (good_refl _ (proj1 G3)). clear Hd G3.
  apply bind_inv in Hr as (n & r4 & ? & Hr). good_step.
  unfold mwhen in Hr. destruct (_ || _); [|minv; done]. good_step. done.
Qed.
Hint Resolve queue_RunUpdated_good : np_good.

Lemma queue_Update_good env q id b u r a r' :
  wf r -> queue_Update (RunPendingItem env) q id b u r = Some (a, r') -> good r r'.
Proof.
  unfold queue_Update. intros W Hr. good_start W. apply bind_inv in Hr as (o & r1 & ? & Hr). good_step.
  destruct o; [|minv; done]. unfold mwhen in Hr. destruct b; [good_step; done|minv; done].
Qed.
Hint Resolve queue_Update_good : np_good.

Lemma queue_CheckItem_good env q k r a r' :
  wf r -> queue_CheckItem (RunPendingItem env) q k r = Some (a, r') -> good r r'.
Proof.
  unfold queue_CheckItem. intros W Hr. good_start W.
  apply bind_inv in Hr as (o & r0 & [-> ->]%gets_inv & Hr). destruct (get_queue q r !! k) as [i|]; [|minv; done].
  apply bind_inv in Hr as ([runit del] & r1 & ? & Hr). good_step.
  apply bind_inv in Hr as (? & r2 & Hd & Hr). unfold mwhen at 1 in Hd.
  assert (good r1 r2) as G2 by (destruct del; [eapply queue_Remove_good'; [|exact Hd]; by eapply proj1|by minv]).
  good_ext G2 r1. pose proof (good_refl _ (proj1 G2)). clear Hd G2.
  apply bind_inv in Hr as (del' & r3 & Hd & Hr).
  assert (good r2 r3) as G3.
  { clear Hr. destruct runit; [|by minv]. apply bind_inv in Hd as (n & r4 & ? & Hd). good_step.
    apply bind_inv in Hd as (d & r5 & Hrun & Hd).
    assert (good r4 r5) as G5 by (destruct (match n with None => _ | Some _ => _ end);
      [eapply RunPendingItem_good; [|exact Hrun]; by eapply proj1|by minv]).
    good_ext G5 r4. pose proof (good_refl _ (proj1 G5)). clear Hrun G5. good_run; eauto. }
  good_ext G3 r2. pose proof (good_refl _ (proj1 G3)). clear Hd G3.
  apply bind_inv in Hr as (n & r4 & ? & Hr). good_step.
  unfold mwhen in Hr. destruct (_ || _); [|minv; done]. good_step. done.
Qed.

Lemma queue_CheckToRun_good env q r a r' :
  wf r -> queue_CheckToRun (RunPendingItem env) q r = Some (a, r') -> good r r'.
Proof.
  unfold queue_CheckToRun. intros W Hr. apply bind_inv in Hr as (keys & r0 & [-> ->]%gets_inv & Hr).
  eapply forM_good_all; [|exact W|exact Hr]. intros; by eapply queue_CheckItem_good.
Qed.
Hint Resolve queue_CheckToRun_good : np_good.

(** ** Answers of the cloud

    An answer is the answer to a call, so the first synchronisation is over. *)

Lemma good_synced r r' : good r r' -> ~ before_sync r -> ~ before_sync r'.
Proof. intros G Hq Hb. apply Hq. eapply before_sync_mono; [apply G|exact Hb]. Qed.
Hint Extern 1 (~ before_sync ?r') =>
  match goal with
  | Q : ~ before_sync r' |- _ => exact Q
  | G : good ?r r', Q : ~ before_sync ?r |- _ => exact (good_synced r r' G Q)
  end : np_good.

Lemma start_retry_good l b s op r a r' :
  wf r -> h_sg (heap r) !! l = Some s -> sg_membershipOnly s = b ->
  (sg_state s = securityGroupStateGarbageCollectState -> op = securityGroupOperationDelete) ->
  ~ before_sync r ->
  (upd_sg l (set_retryOp (Some op));;
   queue_Add RetryQueue (getGroupUniqueName (CloudResourceID_String (sg_id s)) b) (PendingSG l)) r = Some (a, r') ->
  good r r'.
Proof.
  intros W Hs Hk Hop Hq Hr. apply bind_inv in Hr as (? & r1 & H1 & Hr).
  eapply upd_retryOp_good in H1 as G; [|done|exact Hs|exact Hop|done].
  eapply good_trans; [exact G|]. eapply queue_Add_good; [apply G| |exact Hr].
  split; [|intros Hb; destruct Hq; by eapply before_sync_mono; [apply G|]].
  destruct (evolves_lookup _ _ _ _ G Hs) as (s' & Hs' & [E1 E2 _]). exists s'. rewrite E1, E2. by subst.
Qed.

Lemma notifyImpl_good env l b op status r a r' :
  wf r -> notifyImpl env l b op status r = Some (a, r') -> has_kind b l r -> ~ before_sync r -> good r r'.
Proof.
  unfold notifyImpl. intros W Hr (s & Hs & Hk) Hq. good_start W.
  apply bind_inv in Hr as (x & r0 & [Hx ->]%get_sg_inv & Hr). assert (x = s) as -> by congruence.
  apply bind_inv in Hr as (has & r0 & [-> ->]%queue_Has_inv & Hr).
  apply bind_inv in Hr as (? & r1 & Hq1 & Hr).
  assert (good r r1) as G1.
  { unfold mwhen in Hq1. destruct (_ && _) eqn:Ec in Hq1; [|by minv].
    eapply start_retry_good; [done|exact Hs|exact Hk| |done|exact Hq1].
    intros Hst. apply andb_true_iff in Ec as [_ Ec]. rewrite bool_decide_eq_true_2 in Ec by done. simpl in Ec.
    by apply bool_decide_eq_true in Ec. }
  good_ext G1 r. pose proof (good_refl _ (proj1 G1)). clear Hq1.
  apply bind_inv in Hr as (has & r2 & [-> ->]%queue_Has_inv & Hr).
  apply bind_inv in Hr as (moreOps & r3 & Hq3 & Hr).
  assert (good r1 r3) as G3.
  { clear Hr. destruct (bool_decide _); [|by minv].
    apply bind_inv in Hq3 as (? & r4 & ? & Hq3). good_step.
    apply bind_inv in Hq3 as (? & r5 & [-> ->]%queue_Has_inv & Hq3).
    apply bind_inv in Hq3 as (n & r5 & ? & Hq3). good_step. minv. done. }
  clear Hq3. eapply good_trans; [exact G1|]. eapply good_trans; [exact G3|].
  unfold mwhen in Hr. destruct (bool_decide (op = _)); [|minv; by apply good_refl, G3].
  eapply queue_Update_good; [apply G3|exact Hr].
Qed.
Hint Resolve notifyImpl_good : np_good.

Lemma record_status_good l op st r a r' :
  wf r -> record_status l op st r = Some (a, r') -> ~ before_sync r -> good r r'.
Proof.
  unfold record_status. intros W Hr Hq. minv; [|by apply good_refl].
  eapply upd_status_good; [done|exact Hr|done].
Qed.
Hint Resolve record_status_good : np_good.

Lemma update_retry_good l b op r a r' : wf r -> update_retry l b op r = Some (a, r') -> good r r'.
Proof.
  unfold update_retry. intros W Hr. apply bind_inv in Hr as (s & r0 & [Hs ->]%get_sg_inv & Hr).
  apply bind_inv in Hr as (has & r0 & [-> ->]%queue_Has_inv & Hr). unfold mwhen in Hr.
  destruct (bool_decide _); [|minv; by apply good_refl].
  apply bind_inv in Hr as (? & r1 & Hq1 & [_ ->]%mret_inv). by eapply queue_UpdateOnly_good.
Qed.
Hint Resolve update_retry_good : np_good.

Lemma set_created_good l (f : securityGroup -> securityGroup) r a r' :
  wf r -> upd_sg l f r = Some (a, r') ->
  (forall s, h_sg (heap r) !! l = Some s ->
    f s = s \/ (sg_state s = securityGroupStateInit /\ f s = set_state securityGroupStateCreated s)) ->
  ~ before_sync r -> good r r'.
Proof.
  unfold upd_sg. intros W Hr Hf Hq. apply bind_inv in Hr as (s & r0 & [Hs ->]%get_sg_inv & Hr).
  destruct (Hf s Hs) as [E|[Hst E]]; rewrite E in Hr.
  - eapply put_sg_good; [done|exact Hs|reflexivity| |done| |exact Hr]; [by eapply wf_sgs|].
    destruct (decide (sg_state s = securityGroupStateGarbageCollectState)); auto.
  - eapply put_sg_good; [done|exact Hs| | | | |exact Hr]; simpl; [|done|done|by left].
    split; simpl; [done..|rewrite Hst; simpl; lia].
Qed.

Lemma addr_notify_good env l op st r a r' :
  wf r -> addr_notify env l op st r = Some (a, r') -> has_kind true l r -> ~ before_sync r -> good r r'.
Proof.
  unfold addr_notify. intros W Hr Hk Hq. good_start W.
  apply bind_inv in Hr as (s & r0 & [Hs ->]%get_sg_inv & Hr).
  apply bind_inv in Hr as (nps & r0 & [-> ->]%gets_inv & Hr).
  apply bind_inv in Hr as (? & r1 & ? & Hr). good_step.
  apply bind_inv in Hr as (? & r2 & Hb & Hr).
  assert (good r1 r2) as G2.
  { clear Hr. destruct st; [by minv|]. apply bind_inv in Hb as (? & r3 & ? & Hb). good_step.
    destruct op; try by minv. apply bind_inv in Hb as (? & r4 & Hu & Hb).
    match goal with G : good r1 r3 |- _ =>
      eapply set_created_good in Hu as G4; [|apply G|intros; case_decide; auto|eauto with np_good] end.
    good_ext G4 r3. pose proof (good_refl _ (proj1 G4)). clear Hu.
    apply bind_inv in Hb as (? & r5 & ? & Hb). good_step.
    match goal with G : good r1 r5 |- _ => eapply good_trans; [exact G|];
      eapply forM_good_all; [|apply G|exact Hb] end. intros; by eapply notifyAddrGrpChanges_good. }
  good_ext G2 r1. pose proof (good_refl _ (proj1 G2)). clear Hb G2.
  apply bind_inv in Hr as (s' & r3 & [Hs' ->]%get_sg_inv & Hr).
  apply bind_inv in Hr as (? & r4 & Hm & Hr).
  assert (good r2 r4) as G4.
  { unfold mwhen in Hm. destruct (addr_isReady s'); [|by minv].
    eapply forM_good_all; [|by eapply proj1|exact Hm]. intros; by eapply np_markDirty_good. }
  good_ext G4 r2. pose proof (good_refl _ (proj1 G4)). clear Hm G4. good_step. done.
Qed.

Lemma forM_setDirty_good ls r a r' : wf r -> forM_ ls (tracker_setDirty true) r = Some (a, r') -> good r r'.
Proof. intros W. apply forM_good_all; [|done]. intros; by eapply tracker_setDirty_good. Qed.
Hint Resolve forM_setDirty_good : np_good.

Lemma appliedTo_notify_good env l op st r a r' :
  wf r -> appliedTo_notify env l op st r = Some (a, r') -> has_kind false l r -> ~ before_sync r -> good r r'.
Proof.
  unfold appliedTo_notify. intros W Hr Hk Hq. good_start W.
  apply bind_inv in Hr as (? & r1 & ? & Hr). good_step.
  apply bind_inv in Hr as (? & r2 & Hb & Hr).
  assert (good r1 r2) as G2.
  { clear Hr. destruct st; [by minv|]. apply bind_inv in Hb as (? & r3 & ? & Hb). good_step.
    apply bind_inv in Hb as (s & r4 & [Hs ->]%get_sg_inv & Hb).
    destruct op; [|good_run; eauto..].
    unfold mwhen in Hb. destruct (bool_decide _) eqn:Eb; [|by minv]. apply bool_decide_eq_true in Eb.
    apply bind_inv in Hb as (? & r5 & Hu & Hb).
    match goal with G : good r1 r3 |- _ =>
      eapply set_created_good in Hu as G5; [|apply G|intros; right; split; congruence|eauto with np_good] end.
    good_ext G5 r3. pose proof (good_refl _ (proj1 G5)). clear Hu. good_step. done. }
  good_ext G2 r1. pose proof (good_refl _ (proj1 G2)). clear Hb G2. good_run; eauto.
Qed.

Lemma processCloudResponse_good env st r a r' :
  wf r -> processCloudResponse env st r = Some (a, r') -> ~ before_sync r -> good r r'.
Proof.
  unfold processCloudResponse. intros W Hr Hq. apply bind_inv in Hr as (s & r0 & [Hs ->]%get_sg_inv & Hr).
  destruct (sg_membershipOnly s) eqn:Hk.
  - eapply addr_notify_good; [done|exact Hr|by exists s|done].
  - eapply appliedTo_notify_good; [done|exact Hr|by exists s|done].
Qed.
Hint Resolve processCloudResponse_good : np_good.

(** ** Events *)

Lemma process_group_good env b t obj r a r' : wf r -> process_group env b t obj r = Some (a, r') -> good r r'.
Proof.
  unfold process_group. intros W Hr. good_start W.
  destruct obj; case_decide; try (minv; done); good_step; done.
Qed.
Hint Resolve process_group_good : np_good.

Lemma processNetworkPolicy_good env t anp r a r' :
  wf r -> processNetworkPolicy env t anp r = Some (a, r') -> good r r'.
Proof.
  unfold processNetworkPolicy. intros W Hr. good_start W.
  apply bind_inv in Hr as (bm & r1 & ? & Hr). good_step. destruct bm; [minv; done|].
  destruct (isNetworkPolicySupported anp); [minv; done|].
  apply bind_inv in Hr as (o & r2 & [-> ->]%gets_inv & Hr).
  apply bind_inv in Hr as (np & r2 & Hn & Hr).
  assert (good r1 r2) as G2.
  { clear Hr. destruct (ix_GetByKey _ _); [by minv|].
    apply bind_inv in Hn as (l & r3 & Ha & Hn). apply alloc_np_good in Ha as [Ga _]; [|by eapply proj1].
    good_ext Ga r1. pose proof (good_refl _ (proj1 Ga)). good_run; done. }
  good_ext G2 r1. pose proof (good_refl _ (proj1 G2)). clear Hn G2.
  case_decide; [good_run; done|]. apply bind_inv in Hr as (n & r3 & [Hn ->]%get_np_inv & Hr).
  destruct (_ && _); [minv; done|]. apply bind_inv in Hr as (pl & r3 & [-> ->]%gets_inv & Hr).
  destruct (negb _); [minv; done|]. apply bind_inv in Hr as (? & r3 & ? & Hr). good_step. minv. done.
Qed.
Hint Resolve processNetworkPolicy_good : np_good.

Lemma tick_good env now r a r' : wf r -> tick env now r = Some (a, r') -> good r r'.
Proof.
  unfold tick. intros W Hr. good_start W. do 2 (apply bind_inv in Hr as (? & ? & ? & Hr); good_step).
  unfold mwhen in Hr. destruct (_ =? _); [good_step; done|minv; done].
Qed.

Lemma handle_good env ev r r' :
  wf r -> (forall st, ev = EvResponse st -> ~ before_sync r) -> handle env ev r = Some (tt, r') -> good r r'.
Proof.
  intros W Hq Hr. good_start W.
  destruct ev; simpl in Hr; unfold watcher_event, processAddrGrp, processAppliedToGrp in Hr.
  1-3: case_decide; [minv; done|apply bind_inv in Hr as (? & r1 & ? & Hr); good_step; minv; done].
  - eapply processCloudResponse_good; [done|exact Hr|by eapply Hq].
  - apply bind_inv in Hr as (? & r1 & Hl & Hr). minv. destruct obj; simpl in Hl.
    + by eapply processNetworkPolicy_good.
    + by eapply process_group_good.
    + minv. done.
  - by eapply tick_good.
Qed.

(** ** Reachable states *)

Lemma answer_good r pre c post :
  wf r -> calls r = (pre ++ c :: post)%list -> good r (set_calls (pre ++ post)%list r).
Proof.
  intros W Hc. wf_frame W.
  - intros c' Hc'. apply W7. rewrite Hc. set_solver.
  - intros Hb. destruct (WQ Hb) as (Q1 & _). rewrite Hc in Q1. by destruct pre.
Qed.

(** The invariant of the system: before the first synchronisation no answer
    waits. *)
Definition sys_wf (sys : System) : Prop :=
  wf (sys_r sys) /\ (before_sync (sys_r sys) -> sys_responses sys = []).

Lemma step_good s s' : sys_wf s -> step s s' -> good (sys_r s) (sys_r s').
Proof.
  intros [W Hresp] Hstep. inversion Hstep as [? ? r r' ? Hne Hr| |? r r' pre st post Hr]; subst; simpl in *.
  - eapply handle_good; [done| |exact Hr]. intros st ->. by destruct (Hne st).
  - by eapply answer_good.
  - eapply (handle_good _ (EvResponse st)); [done| |exact Hr]. intros _ _ Hb. apply Hresp in Hb. by destruct pre.
Qed.

Lemma step_wf s s' : sys_wf s -> step s s' -> sys_wf s'.
Proof.
  intros Hw Hstep. pose proof (step_good _ _ Hw Hstep) as G. split; [apply G|]. intros Hb.
  pose proof (before_sync_mono _ _ (proj2 G) Hb) as Hb'. destruct Hw as [W Hresp]. specialize (Hresp Hb').
  inversion Hstep as [|r resp pre c post ? Hc|? r r' pre st post Hr]; subst; simpl in *.
  - done.
  - destruct (wf_quiet _ W Hb') as (Q & _). rewrite Hc in Q. by destruct pre.
  - by destruct pre.
Qed.

Lemma reachable_wf sys : reachable sys -> sys_wf sys.
Proof.
  induction 1 as [plugin|s s' Hs W Hstep]; [split; [apply SetupWithManager_wf|done]|]. by eapply step_wf.
Qed.

End System.
