(* ===== verification/NPMembers.v ===== *)
(** * The members the cloud was last asked for

    Whenever the reconciler is at rest between two events, the last request it
    made for the members of a created group names the members the group has
    now, unless a request for the group has failed (the retry queue then has
    it).  The file follows the log of all requests through every handler:
    [keeps] is a predicate on computations that is closed under the operations
    of the monad, so a handler keeps the property because its parts do. *)

From stdpp Require Import base strings list gmap.
From Stdlib Require Import ZArith Lia.
From S2P Require Import Prelude GoStrings GoNet GoCIDR SecurityGroup RuleMerge NPState NPPending NPGroups.
From S2P Require Import NPPolicy NPSync NPController NPInvariants NPSafety NPReach NPSystem.

#[local] Open Scope string_scope.
#[local] Open Scope Z_scope.

Create HintDb keeps.

(** ** Requests for the members of a group *)

Definition member_request (l : loc) (c : CloudCall) : option (list CloudResource * ReportedOp) :=
  if decide (call_sg c = l)
  then match call_req c with
       | UpdateSecurityGroupMembers _ ms _ => Some (ms, call_op c)
       | _ => None
       end
  else None.

Definition last_members_request (l : loc) (log : list CloudCall) : option (list CloudResource * ReportedOp) :=
  last (omap (member_request l) log).

Lemma omap_app' {A B} (f : A -> option B) (l1 l2 : list A) :
  (omap f (l1 ++ l2) = omap f l1 ++ omap f l2)%list.
Proof. induction l1 as [|x l1 IH]; [done|]. csimpl. destruct (f x); csimpl; by rewrite IH. Qed.

Lemma last_members_request_other l log new :
  (forall c, c ∈ new -> member_request l c = None) ->
  last_members_request l (log ++ new)%list = last_members_request l log.
Proof.
  intros Hnew. unfold last_members_request. rewrite omap_app'.
  replace (omap (member_request l) new) with (@nil (list CloudResource * ReportedOp)); [by rewrite app_nil_r|].
  induction new as [|c new IH]; [done|]. csimpl. rewrite (Hnew c) by left. apply IH. intros c' Hc'. apply Hnew. by right.
Qed.

Lemma last_members_request_snoc l log id ms mo op :
  last_members_request l (log ++ [mkCall l (UpdateSecurityGroupMembers id ms mo) op])%list = Some (ms, op).
Proof.
  unfold last_members_request. rewrite omap_app'. csimpl. unfold member_request at 2. simpl.
  rewrite decide_True by done. by rewrite last_snoc.
Qed.

(** The members an event removes. *)
Definition removed_members (obj : GroupObject) : list GroupMember :=
  match obj with CompleteGroup _ _ => [] | PatchGroup _ _ removed => removed end.

Definition event_removals (ev : Event) : list GroupMember :=
  match ev with
  | EvAddrGrp _ obj | EvAppliedToGrp _ obj | EvLocal _ (ObjAppliedToGroup obj) => removed_members obj
  | _ => []
  end.

(** The API knows the entities of the members. *)
Definition entities_known (env : Env) (ms : list GroupMember) : Prop :=
  forall m k, m ∈ ms -> gm_ExternalEntity m = Some k -> env_GetExternalEntity env k <> GetNotFound.

(** ** The invariant along one handler

    [log0] are the requests made before the handler started, [n] the number of
    them that still waited for an answer then: the requests of the handler are
    appended to [calls]. *)
Section Members.
Context {IXC : CacheIndexer} {RNG : MapRange}.
Variables (log0 : list CloudCall) (n : nat).
(** Groups for which a request has failed. *)
Variable failed : loc -> Prop.
(** Every entity named in a removal was known to the API. *)
Variable exact : Prop.
(** The members with which a synchronisation found a group in the cloud. *)
Variable reported : CloudResourceID -> list CloudResource -> Prop.
Hypothesis reported_stale : forall id ms ms',
  ~ exact -> reported id ms -> ms' ⊆ ms -> reported id ms'.

Definition logged (r : Reconciler) : list CloudCall := (log0 ++ drop n (calls r))%list.

Definition up_to_date (l : loc) (s : securityGroup) (log : list CloudCall) : Prop :=
  match sg_state s with
  | securityGroupStateInit => last_members_request l log = None
  | securityGroupStateCreated =>
      match last_members_request l log with
      | Some (ms, ReportByMembers) => sg_members s ⊆ ms /\ (exact -> ms = sg_members s)
      | Some (ms, ReportOp _) => ms = []
      | None => sg_membershipOnly s = true -> isIPBlocks s = false ->
          sg_members s = [] \/ reported (sg_id s) (sg_members s)
      end
  | securityGroupStateGarbageCollectState => True
  end.

Record J (r : Reconciler) : Prop := mkJ {
  J_calls : (n <= length (calls r))%nat;
  J_below : below (h_next (heap r)) (h_sg (heap r));
  J_groups : forall l s, h_sg (heap r) !! l = Some s -> ~ failed l ->
    sg_retryOp s = None /\ up_to_date l s (logged r);
  J_queue : forall k i l, retryQueue r !! k = Some i -> ci_item i = PendingSG l -> failed l;
  J_log : forall c, c ∈ logged r -> is_Some (h_sg (heap r) !! call_sg c)
}.

Definition keeps {A} (m : M A) : Prop := forall r a r', J r -> m r = Some (a, r') -> J r'.

(** *** Changes of the state *)

Lemma J_same r r' :
  J r -> h_sg (heap r') = h_sg (heap r) -> calls r' = calls r -> (h_next (heap r) <= h_next (heap r'))%positive ->
  (forall k i l, retryQueue r' !! k = Some i -> ci_item i = PendingSG l -> failed l) -> J r'.
Proof.
  intros [J1 J2 J3 J4 J5] E1 E2 Hle Hq. split.
  - by rewrite E2.
  - rewrite E1. intros l Hl%J2. lia.
  - rewrite E1. unfold logged. rewrite E2. exact J3.
  - exact Hq.
  - rewrite E1. unfold logged. rewrite E2. exact J5.
Qed.

(** One group changes, and requests for it are made. *)
Lemma J_update l s s' new r r' :
  J r -> h_sg (heap r) !! l = Some s ->
  h_sg (heap r') = <[l := s']> (h_sg (heap r)) -> calls r' = (calls r ++ new)%list ->
  h_next (heap r') = h_next (heap r) -> retryQueue r' = retryQueue r ->
  (forall c, c ∈ new -> call_sg c = l) ->
  (~ failed l -> sg_retryOp s = None -> up_to_date l s (logged r) ->
   sg_retryOp s' = None /\ up_to_date l s' (logged r ++ new)%list) ->
  J r'.
Proof.
  intros [J1 J2 J3 J4 J5] Hl E1 E2 E3 E4 Hnew Hs'.
  assert (logged r' = logged r ++ new)%list as El.
  { unfold logged. rewrite E2, drop_app_le by done. by rewrite app_assoc. }
  assert (forall c, is_Some (h_sg (heap r) !! c) -> is_Some (h_sg (heap r') !! c)) as Hsome.
  { intros c Hc. rewrite E1. apply lookup_insert_is_Some. destruct (decide (l = c)); auto. }
  split.
  - rewrite E2, length_app. lia.
  - rewrite E3. intros k Hk. apply J2. rewrite E1 in Hk. apply lookup_insert_is_Some in Hk as [<-|[_ ?]]; eauto.
  - rewrite E1, El. intros k t Hk Hnf. destruct (decide (l = k)) as [<-|Hne].
    + rewrite lookup_insert_eq in Hk. injection Hk as <-. destruct (J3 l s Hl Hnf). auto.
    + rewrite lookup_insert_ne in Hk by done. destruct (J3 k t Hk Hnf) as [? Hu]. split; [done|].
      unfold up_to_date. rewrite last_members_request_other; [exact Hu|].
      intros c Hc. unfold member_request. rewrite decide_False; [done|]. by rewrite (Hnew c Hc).
  - by rewrite E4.
  - rewrite El. intros c [Hc|Hc]%elem_of_app; [by auto|]. rewrite (Hnew c Hc). apply Hsome. eauto.
Qed.

Lemma put_sg_J l s s' r a r' :
  J r -> h_sg (heap r) !! l = Some s ->
  (~ failed l -> sg_retryOp s = None -> up_to_date l s (logged r) ->
   sg_retryOp s' = None /\ up_to_date l s' (logged r)) ->
  put_sg l s' r = Some (a, r') -> J r'.
Proof.
  intros HJ Hl Hs' ->%modify_inv. eapply (J_update l s s' []); try done; simpl.
  - by rewrite app_nil_r.
  - intros c Hc. by apply not_elem_of_nil in Hc.
  - by rewrite app_nil_r.
Qed.

(** A change of a group after which its members are as up to date as before. *)
Definition mute (f : securityGroup -> securityGroup) : Prop := forall s,
  (sg_retryOp s = None -> sg_retryOp (f s) = None) /\
  (sg_state (f s) = securityGroupStateGarbageCollectState \/
   sg_membershipOnly (f s) = sg_membershipOnly s /\ sg_id (f s) = sg_id s /\
   sg_state (f s) = sg_state s /\ sg_members (f s) = sg_members s).

Lemma mute_up_to_date f l s log : mute f -> up_to_date l s log -> up_to_date l (f s) log.
Proof.
  intros Hf. destruct (Hf s) as [_ [E|(E1 & E2 & E3 & E4)]]; unfold up_to_date; [by rewrite E|].
  unfold isIPBlocks. by rewrite E1, E2, E3, E4.
Qed.

Lemma put_sg_mute f l s r a r' :
  mute f -> J r -> h_sg (heap r) !! l = Some s -> put_sg l (f s) r = Some (a, r') -> J r'.
Proof.
  intros Hf HJ Hl. apply (put_sg_J l s); [done|done|]. intros _ Hop Hu.
  split; [by apply Hf|by apply mute_up_to_date].
Qed.

Lemma put_sg_failed l s r a r' : failed l -> J r -> is_Some (h_sg (heap r) !! l) -> put_sg l s r = Some (a, r') -> J r'.
Proof. intros Hf HJ [t Hl]. by apply (put_sg_J l t). Qed.

(** A request that is none for members. *)
Lemma call_cloud_J c r a r' :
  J r -> is_Some (h_sg (heap r) !! call_sg c) -> member_request (call_sg c) c = None ->
  call_cloud c r = Some (a, r') -> J r'.
Proof.
  intros HJ [s Hl] Hc ->%modify_inv. eapply (J_update (call_sg c) s s [c]); try done; simpl.
  - symmetry. by apply insert_id.
  - intros c' ->%list_elem_of_singleton. done.
  - intros _ Hop Hu. split; [done|]. unfold up_to_date. rewrite last_members_request_other; [exact Hu|].
    intros c' ->%list_elem_of_singleton. done.
Qed.

(** *** Computations *)

Lemma keeps_ret {A} (x : A) : keeps (mret x).
Proof. intros r a r' HJ [_ ->]%mret_inv. done. Qed.
Lemma keeps_gets {A} (f : Reconciler -> A) : keeps (gets f).
Proof. intros r a r' HJ [_ ->]%gets_inv. done. Qed.
Lemma keeps_deref {A} (o : option A) : keeps (deref o).
Proof. intros r a r' HJ [_ ->]%deref_inv. done. Qed.
Lemma keeps_panic {A} : keeps (@panic IXC A).
Proof. by intros r a r' HJ. Qed.
Lemma keeps_bind {A B} (m : M A) (k : A -> M B) : keeps m -> (forall x, keeps (k x)) -> keeps (m ≫= k).
Proof. intros Hm Hk r b r' HJ (a & r1 & H1 & H2)%bind_inv. eapply Hk; [|exact H2]. by eapply Hm. Qed.
Lemma keeps_mwhen b m : keeps m -> keeps (mwhen b m).
Proof. intros Hm. destruct b; [exact Hm|apply keeps_ret]. Qed.
Lemma keeps_forM {A} (l : list A) f : (forall x, keeps (f x)) -> keeps (forM_ l f).
Proof. intros Hf. induction l as [|x l IH]; [apply keeps_ret|]. by apply keeps_bind. Qed.

(** A change of the state that touches neither groups nor requests. *)
Lemma keeps_modify f :
  (forall r, h_sg (heap (f r)) = h_sg (heap r) /\ calls (f r) = calls r /\
    (h_next (heap r) <= h_next (heap (f r)))%positive /\ retryQueue (f r) = retryQueue r) ->
  keeps (modify f).
Proof.
  intros Hf r a r' HJ ->%modify_inv. destruct (Hf r) as (E1 & E2 & E3 & E4).
  eapply J_same; [done..|]. rewrite E4. apply HJ.
Qed.

(** [keeps] along the structure of a computation. *)
Ltac keeps_step :=
  lazymatch goal with
  | |- keeps (mbind _ _) => apply keeps_bind; [|intros ?]
  | |- keeps (mret _) => apply keeps_ret
  | |- keeps (gets _) => apply keeps_gets
  | |- keeps (deref _) => apply keeps_deref
  | |- keeps panic => apply keeps_panic
  | |- keeps (mwhen _ _) => apply keeps_mwhen
  | |- keeps (forM_ _ _) => apply keeps_forM; intros ?
  | |- keeps (match ?x with _ => _ end) => destruct x eqn:?
  | |- _ => solve [eauto with keeps]
  end.
Ltac keeps_auto := repeat (cbv zeta; keeps_step).
Ltac keeps_change := apply keeps_modify; intros ?; split_and!; simpl; first [done|lia].

Lemma keeps_put_tr l v : keeps (put_tr l v). Proof. keeps_change. Qed.
Lemma keeps_put_np l v : keeps (put_np l v). Proof. keeps_change. Qed.
Lemma keeps_put_vmp l v : keeps (put_vmp l v). Proof. keeps_change. Qed.
Lemma keeps_put_pg l v : keeps (put_pg l v). Proof. keeps_change. Qed.
Lemma keeps_put_cnt l v : keeps (put_cnt l v). Proof. keeps_change. Qed.
Lemma keeps_with_ixs f : keeps (with_ixs f). Proof. keeps_change. Qed.
Hint Resolve keeps_put_tr keeps_put_np keeps_put_vmp keeps_put_pg keeps_put_cnt keeps_with_ixs : keeps.

Lemma keeps_get_sg l : keeps (get_sg l). Proof. unfold get_sg. keeps_auto. Qed.
Lemma keeps_get_np l : keeps (get_np l). Proof. unfold get_np. keeps_auto. Qed.
Lemma keeps_get_tr l : keeps (get_tr l). Proof. unfold get_tr. keeps_auto. Qed.
Lemma keeps_get_vmp l : keeps (get_vmp l). Proof. unfold get_vmp. keeps_auto. Qed.
Lemma keeps_get_pg l : keeps (get_pg l). Proof. unfold get_pg. keeps_auto. Qed.
Lemma keeps_get_cnt l : keeps (get_cnt l). Proof. unfold get_cnt. keeps_auto. Qed.
Hint Resolve keeps_get_sg keeps_get_np keeps_get_tr keeps_get_vmp keeps_get_pg keeps_get_cnt : keeps.

Lemma keeps_fresh : keeps fresh.
Proof.
  unfold fresh, with_heap. intros r a r' HJ Hr. minv. minv_heap. eapply J_same; [done..| |apply HJ]. simpl. lia.
Qed.
Hint Resolve keeps_fresh : keeps.

Lemma keeps_alloc {A} (put : loc -> A -> M unit) v : (forall l, keeps (put l v)) -> keeps (alloc put v).
Proof. intros Hp. unfold alloc. keeps_auto. Qed.
Hint Resolve keeps_alloc : keeps.

Lemma upd_sg_mute f l : mute f -> keeps (upd_sg l f).
Proof. unfold upd_sg. intros Hf r a r' HJ Hr. minv. by eapply put_sg_mute. Qed.

Lemma mute_status v : mute (set_status v). Proof. split; auto. Qed.
Lemma mute_deletePending v : mute (set_deletePending v). Proof. split; auto. Qed.
Lemma mute_retryInProgress v : mute (set_retryInProgress v). Proof. split; auto. Qed.
Lemma mute_hasRules v : mute (set_hasRules v). Proof. split; auto. Qed.
Lemma mute_hasMembers v : mute (set_hasMembers v). Proof. split; auto. Qed.
Lemma mute_retryOp : mute (set_retryOp None). Proof. split; auto. Qed.
Lemma mute_garbage : mute (set_state securityGroupStateGarbageCollectState). Proof. split; auto. Qed.
Lemma mute_ipBlocks (g : securityGroup -> list IPNet) : mute (fun s => set_ipBlocks (g s) s). Proof. split; auto. Qed.
Hint Resolve upd_sg_mute mute_status mute_deletePending mute_retryInProgress mute_hasRules mute_hasMembers
  mute_retryOp mute_garbage mute_ipBlocks : keeps.

(** ** Index operations and queues *)

Lemma keeps_sg_Add b l : keeps (sg_Add b l). Proof. unfold sg_Add. keeps_auto. Qed.
Lemma keeps_sg_Delete b l : keeps (sg_Delete b l). Proof. unfold sg_Delete. keeps_auto. Qed.
Lemma keeps_np_Add l : keeps (np_Add l). Proof. unfold np_Add. keeps_auto. Qed.
Lemma keeps_np_Delete l : keeps (np_Delete l). Proof. unfold np_Delete. keeps_auto. Qed.
Lemma keeps_tr_Add l : keeps (tr_Add l). Proof. unfold tr_Add. keeps_auto. Qed.
Lemma keeps_tr_Delete l : keeps (tr_Delete l). Proof. unfold tr_Delete. keeps_auto. Qed.
Lemma keeps_vmp_Update l : keeps (vmp_Update l). Proof. unfold vmp_Update. keeps_auto. Qed.
Lemma keeps_vmp_Delete l : keeps (vmp_Delete l). Proof. unfold vmp_Delete. keeps_auto. Qed.
Lemma keeps_sgs_of_group b name : keeps (sgs_of_group b name). Proof. apply keeps_gets. Qed.
Lemma keeps_nps_of_addr name : keeps (nps_of_addr name). Proof. apply keeps_gets. Qed.
Lemma keeps_nps_of_appliedTo name : keeps (nps_of_appliedTo name). Proof. apply keeps_gets. Qed.
Lemma keeps_trackers_of_appliedTo id : keeps (trackers_of_appliedTo id). Proof. apply keeps_gets. Qed.
Lemma keeps_sg_GetByKey b k : keeps (sg_GetByKey b k). Proof. apply keeps_gets. Qed.
Lemma keeps_queue_lookup q k : keeps (queue_lookup q k). Proof. apply keeps_gets. Qed.
Hint Resolve keeps_sg_Add keeps_sg_Delete keeps_np_Add keeps_np_Delete keeps_tr_Add keeps_tr_Delete keeps_vmp_Update
  keeps_vmp_Delete keeps_sgs_of_group keeps_nps_of_addr keeps_nps_of_appliedTo keeps_trackers_of_appliedTo
  keeps_sg_GetByKey keeps_queue_lookup : keeps.

Lemma keeps_queue_Has q k : keeps (queue_Has q k). Proof. unfold queue_Has. keeps_auto. Qed.
Lemma keeps_read_opCnt i : keeps (read_opCnt i). Proof. unfold read_opCnt. keeps_auto. Qed.
Lemma keeps_dec_opCnt i : keeps (dec_opCnt i). Proof. unfold dec_opCnt. keeps_auto. Qed.
Hint Resolve keeps_queue_Has keeps_read_opCnt keeps_dec_opCnt : keeps.
Lemma keeps_queue_GetRetryCount q k : keeps (queue_GetRetryCount q k).
Proof. unfold queue_GetRetryCount. keeps_auto. Qed.
Hint Resolve keeps_queue_GetRetryCount : keeps.

Lemma keeps_queue_Remove q k : keeps (queue_Remove q k).
Proof.
  intros r a r' HJ ->%modify_inv. destruct q; (eapply J_same; [done..|]); simpl; [apply HJ|].
  intros k' i l Hk. apply lookup_delete_Some in Hk as [_ Hk]. by eapply J_queue.
Qed.
Hint Resolve keeps_queue_Remove : keeps.

Lemma keeps_queue_set q k p c :
  (q = RetryQueue -> forall l, p = PendingSG l -> failed l) ->
  keeps (modify (fun r => set_queue q (<[k := mkCounting p c]> (get_queue q r)) r)).
Proof.
  intros Hp r a r' HJ ->%modify_inv. destruct q; (eapply J_same; [done..|]); simpl; [apply HJ|].
  intros k' i l Hk Hi. apply lookup_insert_Some in Hk as [[_ <-]|[_ Hk]]; [by eapply Hp|by eapply J_queue].
Qed.

Lemma keeps_queue_Add q k p : (q = RetryQueue -> forall l, p = PendingSG l -> failed l) -> keeps (queue_Add q k p).
Proof. intros Hp. unfold queue_Add. keeps_auto. by apply keeps_queue_set. Qed.

Lemma keeps_UpdatePendingItem u i :
  (forall l, i = PendingSG l -> failed l \/ (forall op, u <> UpdateOp op)) -> keeps (UpdatePendingItem u i).
Proof.
  intros Hi. destruct i as [l|l]; simpl; [|keeps_auto].
  intros r a r' HJ Hr. minv. destruct (Hi l eq_refl) as [Hf|Hu].
  - eapply put_sg_failed; [exact Hf|done|by eauto|exact Hr].
  - destruct u; try done. by destruct (Hu op).
Qed.

Lemma keeps_queue_UpdateOnly q k u :
  (q = RetryQueue \/ forall op, u <> UpdateOp op) -> keeps (queue_UpdateOnly q k u).
Proof.
  unfold queue_UpdateOnly. intros Hq r a r' HJ Hr. apply bind_inv in Hr as (o & r0 & [-> ->]%gets_inv & Hr).
  destruct (get_queue q r !! k) as [i|] eqn:Hi; [|minv; done].
  apply bind_inv in Hr as (? & r1 & H1 & Hr). minv. eapply keeps_UpdatePendingItem; [|exact HJ|exact H1].
  intros l Hl. destruct Hq as [->|Hu]; [left; by eapply J_queue|by right].
Qed.

(** ** Security groups *)

Lemma keeps_tracker_setDirty b l : keeps (tracker_setDirty b l). Proof. unfold tracker_setDirty. keeps_auto. Qed.
Lemma keeps_tracker_isDirty l : keeps (tracker_isDirty l). Proof. unfold tracker_isDirty. keeps_auto. Qed.
Hint Resolve keeps_tracker_setDirty keeps_tracker_isDirty : keeps.

Lemma keeps_getCloudResourceNPTracker rsc create : keeps (getCloudResourceNPTracker rsc create).
Proof. unfold getCloudResourceNPTracker, newCloudResourceNPTracker. keeps_auto. Qed.
Hint Resolve keeps_getCloudResourceNPTracker : keeps.

Lemma keeps_tracker_update c sg isDelete : keeps (tracker_update c sg isDelete).
Proof. unfold tracker_update. keeps_auto. Qed.
Hint Resolve keeps_tracker_update : keeps.

Lemma keeps_update_trackers sg create isDelete rscs : keeps (update_trackers sg create isDelete rscs).
Proof. unfold update_trackers. keeps_auto. Qed.
Lemma keeps_securityGroup_markDirty l create : keeps (securityGroup_markDirty l create).
Proof. unfold securityGroup_markDirty. keeps_auto. Qed.
Hint Resolve keeps_update_trackers keeps_securityGroup_markDirty : keeps.

Lemma keeps_addImpl l b : keeps (addImpl l b).
Proof.
  unfold addImpl. apply keeps_bind; [auto with keeps|intros _]. apply keeps_bind; [apply keeps_gets|intros synced].
  destruct synced; simpl; [|apply keeps_ret]. intros r a r' HJ Hr.
  apply bind_inv in Hr as (s & r0 & [Hs ->]%get_sg_inv & Hr). destruct (sg_retryOp s); [minv; done|].
  apply bind_inv in Hr as (? & r1 & H1 & Hr). apply call_cloud_J in H1; [|done|by eauto|by unfold member_request; simpl; case_decide].
  eapply upd_sg_mute; [apply mute_status|exact H1|exact Hr].
Qed.
Hint Resolve keeps_addImpl : keeps.

Lemma keeps_deleteGarbage l b : keeps (deleteGarbage l b).
Proof.
  unfold deleteGarbage. intros r a r' HJ Hr.
  apply bind_inv in Hr as (s & r0 & [Hs ->]%get_sg_inv & Hr). destruct (sg_retryOp s); [minv; done|].
  apply bind_inv in Hr as (? & r1 & H1 & Hr).
  apply keeps_queue_UpdateOnly in H1; [|by right|done].
  apply bind_inv in Hr as (? & r2 & H2 & Hr). pose proof (upd_sg_frame _ _ _ _ _ H2) as (_ & t & Ht & Ht').
  apply upd_sg_mute in H2; [|apply mute_status|done].
  apply call_cloud_J in Hr; [done|done|by eauto|by unfold member_request; simpl; case_decide].
Qed.
Hint Resolve keeps_deleteGarbage : keeps.

Lemma keeps_nps_of_group b name : keeps (nps_of_group b name).
Proof. unfold nps_of_group. keeps_auto. Qed.
Hint Resolve keeps_nps_of_group : keeps.

Lemma keeps_deleteImpl l b : keeps (deleteImpl l b).
Proof. unfold deleteImpl. keeps_auto. apply keeps_queue_Add. by intros ?. Qed.
Hint Resolve keeps_deleteImpl : keeps.

(** A group's members are recorded and, when it is created, sent. *)
Lemma keeps_updateImpl l added removed b : keeps (updateImpl l added removed b).
Proof.
  unfold updateImpl. intros r a r' HJ Hr.
  apply bind_inv in Hr as (s & r0 & [Hs ->]%get_sg_inv & Hr). case_decide as Hlen; [minv; done|].
  apply bind_inv in Hr as (? & r1 & ->%modify_inv & Hr). simpl in Hr.
  destruct (decide (sg_state s = securityGroupStateCreated)) as [Hst|Hst].
  - rewrite decide_False in Hr by tauto.
    destruct (sg_retryOp s) as [op|] eqn:Hop; [apply mret_inv in Hr as [_ ->]|apply modify_inv in Hr as ->].
    + eapply (put_sg_J l s); [done|done| |reflexivity]. congruence.
    + eapply (J_update l s _ [_]); [done|done|reflexivity..| |]; simpl.
      * intros c ->%list_elem_of_singleton. done.
      * intros _ _ _. split; [done|]. unfold up_to_date. simpl. rewrite Hst, last_members_request_snoc. done.
  - rewrite decide_True in Hr by done. apply mret_inv in Hr as [_ ->].
    eapply (put_sg_J l s); [done|done| |reflexivity]. unfold up_to_date. simpl.
    intros _ Hop Hu. split; [done|]. by destruct (sg_state s).
Qed.
Hint Resolve keeps_updateImpl : keeps.

(** What is left after stale members are removed was there before. *)
Lemma stale_members_subseteq stales ms : stale_members stales ms ⊆ ms.
Proof.
  intros c Hc. unfold stale_members in Hc. apply elem_of_go_range_values in Hc as (k & Hk).
  assert (forall (m : gmap string CloudResource),
    fold_left (fun m stale => filter (fun kv => Contains stale kv.1 = false) m) stales m ⊆ m) as Hsub.
  { clear Hk. induction stales as [|st stales IH]; intros m; simpl; [done|]. etrans; [apply IH|]. apply map_filter_subseteq. }
  pose proof (lookup_weaken _ _ _ _ Hk (Hsub _)) as Hk'. revert Hk'. clear.
  assert (forall m : gmap string CloudResource,
    fold_left (fun m c => <[cid_Name (cr_Name c) := c]> m) ms m !! k = Some c -> c ∈ ms \/ m !! k = Some c) as Hf.
  { induction ms as [|c' ms IH]; intros m; simpl; [by right|]. intros [?|Hm]%IH; [left; by right|].
    apply lookup_insert_Some in Hm as [[_ ->]|[_ ?]]; [left; left|by right]. }
  intros [?|?]%Hf; [done|]. by rewrite lookup_empty in *.
Qed.

Lemma keeps_removeStaleMembers l stales : ~ exact -> keeps (removeStaleMembers l stales).
Proof.
  unfold removeStaleMembers. intros Hne r a r' HJ Hr.
  apply bind_inv in Hr as (s & r0 & [Hs ->]%get_sg_inv & Hr). case_decide; [minv; done|].
  eapply (put_sg_J l s); [done|done| |exact Hr]. unfold up_to_date. simpl. intros _ Hop Hu. split; [done|].
  pose proof (stale_members_subseteq stales (sg_members s)) as Hsub.
  destruct (sg_state s); [done| |done].
  destruct (last_members_request l (logged r)) as [[ms []]|]; [done| |].
  - split; [|done]. etrans; [exact Hsub|apply Hu].
  - intros Hk Hip. destruct (Hu Hk Hip) as [E|Hrep]; [by rewrite E in *|]. right. by eapply reported_stale.
Qed.

Lemma keeps_addr_add l : keeps (addr_add l). Proof. unfold addr_add. keeps_auto. Qed.
Lemma keeps_addr_delete l : keeps (addr_delete l). Proof. unfold addr_delete. keeps_auto. Qed.
Lemma keeps_addr_updateIPs l added removed : keeps (addr_updateIPs l added removed).
Proof. unfold addr_updateIPs. auto with keeps. Qed.
Lemma keeps_addr_update l added removed : keeps (addr_update l added removed).
Proof. unfold addr_update. keeps_auto. Qed.
Hint Resolve keeps_addr_add keeps_addr_delete keeps_addr_updateIPs keeps_addr_update : keeps.
Lemma keeps_addr_notifyNetworkPolicyChange l : keeps (addr_notifyNetworkPolicyChange l).
Proof. unfold addr_notifyNetworkPolicyChange. keeps_auto. Qed.
Lemma keeps_appliedTo_add l : keeps (appliedTo_add l). Proof. unfold appliedTo_add. keeps_auto. Qed.
Lemma keeps_appliedTo_delete l : keeps (appliedTo_delete l). Proof. unfold appliedTo_delete. keeps_auto. Qed.
Lemma keeps_mapM_get ls : keeps (mapM_get ls).
Proof. induction ls; simpl; keeps_auto. Qed.
Hint Resolve keeps_addr_notifyNetworkPolicyChange keeps_appliedTo_add keeps_appliedTo_delete keeps_mapM_get : keeps.

(** Emptying a group that no policy uses is recorded as such in the request. *)
Lemma keeps_updateRules l : keeps (updateRules l).
Proof.
  unfold updateRules. intros r a r' HJ Hr. apply bind_inv in Hr as (s & r0 & [Hs ->]%get_sg_inv & Hr).
  destruct (appliedTo_isReady s) eqn:Hst; simpl in Hr; [|minv; done].
  unfold appliedTo_isReady in Hst. apply bool_decide_eq_true in Hst.
  destruct (sg_retryOp s) eqn:Hop; [minv; done|].
  apply bind_inv in Hr as (nps & r0 & [-> ->]%gets_inv & Hr). case_decide.
  - destruct (sg_hasMembers s); [|eapply put_sg_mute; [apply (mute_hasRules false)|done|exact Hs|exact Hr]].
    apply modify_inv in Hr as ->. eapply (J_update l s s [_]); [done|done|simpl; by rewrite insert_id|reflexivity..| |]; simpl.
    + intros c ->%list_elem_of_singleton. done.
    + intros _ _ _. split; [done|]. unfold up_to_date. by rewrite Hst, last_members_request_snoc.
  - apply bind_inv in Hr as (ns & r1 & H1 & Hr). apply mapM_get_same in H1 as ->.
    destruct (collect_rules ns) as [[ir er]|]; [|minv; done].
    apply call_cloud_J in Hr; [done|done|by eauto|by unfold member_request; simpl; case_decide].
Qed.
Hint Resolve keeps_updateRules : keeps.

Lemma keeps_appliedTo_update l added removed : keeps (appliedTo_update l added removed).
Proof. unfold appliedTo_update. keeps_auto. Qed.
Lemma keeps_appliedTo_notifyNetworkPolicyChange l : keeps (appliedTo_notifyNetworkPolicyChange l).
Proof. unfold appliedTo_notifyNetworkPolicyChange. keeps_auto. Qed.
Hint Resolve keeps_appliedTo_update keeps_appliedTo_notifyNetworkPolicyChange : keeps.
Lemma keeps_sg_add l : keeps (sg_add l). Proof. unfold sg_add. keeps_auto. Qed.
Lemma keeps_sg_delete l : keeps (sg_delete l). Proof. unfold sg_delete. keeps_auto. Qed.
Lemma keeps_sg_update l added removed : keeps (sg_update l added removed). Proof. unfold sg_update. keeps_auto. Qed.
Hint Resolve keeps_sg_add keeps_sg_delete keeps_sg_update : keeps.

(** ** Policies and the status of machines *)

Lemma keeps_group_peers sgs : keeps (group_peers sgs).
Proof. induction sgs; simpl; keeps_auto. Qed.
Hint Resolve keeps_group_peers : keeps.
Lemma keeps_address_group_peers ags : keeps (address_group_peers ags).
Proof. induction ags; simpl; keeps_auto. Qed.
Hint Resolve keeps_address_group_peers : keeps.
Lemma keeps_rules rule : keeps (rules rule). Proof. unfold rules. keeps_auto. Qed.
Lemma keeps_upd_np l f : keeps (upd_np l f). Proof. unfold upd_np. keeps_auto. Qed.
Lemma keeps_check_sgs w sgs : keeps (check_sgs w sgs).
Proof. induction sgs; simpl; keeps_auto. Qed.
Hint Resolve keeps_rules keeps_upd_np keeps_check_sgs : keeps.
Lemma keeps_check_groups w names : keeps (check_groups w names).
Proof. induction names; simpl; keeps_auto. Qed.
Hint Resolve keeps_check_groups : keeps.
Lemma keeps_computeRulesReady l w : keeps (computeRulesReady l w). Proof. unfold computeRulesReady. keeps_auto. Qed.
Lemma keeps_computeRules_loop l rs : keeps (computeRules_loop l rs).
Proof. induction rs; simpl; keeps_auto. Qed.
Hint Resolve keeps_computeRulesReady keeps_computeRules_loop : keeps.
Lemma keeps_computeRules l : keeps (computeRules l). Proof. unfold computeRules. keeps_auto. Qed.
Lemma keeps_np_markDirty l : keeps (np_markDirty l). Proof. unfold np_markDirty. keeps_auto. Qed.
Lemma keeps_notify_addr_groups names : keeps (notify_addr_groups names).
Proof. unfold notify_addr_groups. keeps_auto. Qed.
Lemma keeps_notify_appliedTo_groups names : keeps (notify_appliedTo_groups names).
Proof. unfold notify_appliedTo_groups. keeps_auto. Qed.
Hint Resolve keeps_computeRules keeps_np_markDirty keeps_notify_addr_groups keeps_notify_appliedTo_groups : keeps.
Lemma keeps_update_rules_part l anp : keeps (update_rules_part l anp).
Proof. unfold update_rules_part. keeps_auto. Qed.
Lemma keeps_update_appliedTo_part l anp : keeps (update_appliedTo_part l anp).
Proof. unfold update_appliedTo_part. keeps_auto. Qed.
Hint Resolve keeps_update_rules_part keeps_update_appliedTo_part : keeps.
Lemma keeps_np_update l anp : keeps (np_update l anp). Proof. unfold np_update. keeps_auto. Qed.
Lemma keeps_np_delete l : keeps (np_delete l). Proof. unfold np_delete. keeps_auto. Qed.
Lemma keeps_notifyAddrGrpChanges l : keeps (notifyAddrGrpChanges l).
Proof. unfold notifyAddrGrpChanges. keeps_auto. Qed.
Lemma keeps_np_getStatus l : keeps (np_getStatus l). Proof. unfold np_getStatus. keeps_auto. Qed.
Hint Resolve keeps_np_update keeps_np_delete keeps_notifyAddrGrpChanges keeps_np_getStatus : keeps.
Lemma keeps_npMap_loop es acc : keeps (npMap_loop es acc).
Proof. revert acc. induction es as [|[] es IH]; intros acc; simpl; keeps_auto. Qed.
Lemma keeps_np_status_of np asg : keeps (np_status_of np asg). Proof. unfold np_status_of. keeps_auto. Qed.
Hint Resolve keeps_npMap_loop keeps_np_status_of : keeps.
Lemma keeps_status_loop es ret : keeps (status_loop es ret).
Proof. revert ret. induction es as [|[] es IH]; intros ret; simpl; keeps_auto. Qed.
Lemma keeps_prev_loop es prev ret : keeps (prev_loop es prev ret).
Proof. revert prev ret. induction es as [|[] es IH]; intros prev ret; simpl; keeps_auto. Qed.
Hint Resolve keeps_status_loop keeps_prev_loop : keeps.
Lemma keeps_computeNPStatus c : keeps (computeNPStatus c). Proof. unfold computeNPStatus. keeps_auto. Qed.
Lemma keeps_store_vm_status vm known st found : keeps (store_vm_status vm known st found).
Proof. unfold store_vm_status. keeps_auto. Qed.
Hint Resolve keeps_computeNPStatus keeps_store_vm_status : keeps.
Lemma keeps_set_vm_status status vm : keeps (set_vm_status status vm). Proof. unfold set_vm_status. keeps_auto. Qed.
Hint Resolve keeps_set_vm_status : keeps.
Lemma keeps_set_vms_status status vms : keeps (set_vms_status status vms).
Proof. induction vms; simpl; keeps_auto. Qed.
Hint Resolve keeps_set_vms_status : keeps.
Lemma keeps_vmNPStatusSetter env tr : keeps (vmNPStatusSetter env tr).
Proof. unfold vmNPStatusSetter. keeps_auto. Qed.
Hint Resolve keeps_vmNPStatusSetter : keeps.
Lemma keeps_processTracker env tr : keeps (processTracker env tr). Proof. unfold processTracker. keeps_auto. Qed.
Hint Resolve keeps_processTracker : keeps.
Lemma keeps_processCloudResourceNPTrackers env : keeps (processCloudResourceNPTrackers env).
Proof. unfold processCloudResourceNPTrackers. keeps_auto. Qed.
Hint Resolve keeps_processCloudResourceNPTrackers : keeps.

(** ** Group events *)

(** A new group, of which the log knows nothing. *)
Lemma keeps_alloc_sg s :
  sg_retryOp s = None -> (sg_state s = securityGroupStateInit \/ sg_members s = []) -> keeps (alloc put_sg s).
Proof.
  intros Hop Hst r l r' HJ Hr. unfold alloc, fresh, with_heap in Hr. minv. minv_heap.
  destruct HJ as [J1 J2 J3 J4 J5]. pose proof (below_fresh _ _ J2) as Hf.
  assert (last_members_request (h_next (heap r)) (logged r) = None) as Hlast.
  { rewrite <- (app_nil_l (logged r)), last_members_request_other; [done|]. intros c Hc. unfold member_request.
    case_decide as E; [|done]. apply J5 in Hc as [t Ht]. rewrite E in Ht. congruence. }
  split; simpl; [done| | |done|].
  - apply below_insert; [lia|]. by apply below_succ.
  - intros l' s' Hl' Hnf. change (logged (set_heap _ _)) with (logged r).
    destruct (decide (h_next (heap r) = l')) as [<-|Hne].
    + rewrite lookup_insert_eq in Hl'. injection Hl' as <-. split; [done|]. unfold up_to_date. rewrite Hlast.
      destruct (sg_state s); [done| |done]. destruct Hst as [?| ->]; [done|]. by left.
    + rewrite lookup_insert_ne in Hl' by done. by apply J3.
  - intros c Hc. apply lookup_insert_is_Some. apply J5 in Hc. destruct (decide (h_next (heap r) = call_sg c)); auto.
Qed.

Lemma keeps_vpcs_of env ms : keeps (vpcs_of env ms). Proof. unfold vpcs_of. keeps_auto. Qed.
Hint Resolve keeps_vpcs_of : keeps.
Lemma keeps_resolve_added env ms : keeps (resolve_added env ms). Proof. unfold resolve_added. keeps_auto. Qed.
Hint Resolve keeps_resolve_added : keeps.

Lemma keeps_apply_added name b vpcs removed ch : keeps (apply_added name b vpcs removed ch).
Proof.
  revert removed ch. induction vpcs as [|[vpc ms] vpcs IH]; intros removed ch; simpl; keeps_auto.
  apply keeps_alloc_sg; destruct b; simpl in *; simplify_eq; auto.
Qed.
Lemma keeps_apply_removed name b vpcs : keeps (apply_removed name b vpcs).
Proof. unfold apply_removed. keeps_auto. Qed.
Lemma keeps_apply_ips name ev ips ips' : keeps (apply_ips name ev ips ips').
Proof. unfold apply_ips. keeps_auto. apply keeps_alloc_sg; auto. Qed.
Lemma keeps_apply_empty name ips : keeps (apply_empty name ips).
Proof. unfold apply_empty. keeps_auto. apply keeps_alloc_sg; auto. Qed.
Lemma keeps_recompute_policies name : keeps (recompute_policies name).
Proof. unfold recompute_policies. keeps_auto. Qed.
Hint Resolve keeps_apply_added keeps_apply_removed keeps_apply_ips keeps_apply_empty keeps_recompute_policies : keeps.
Lemma keeps_apply_members name ev b added removed x y : keeps (apply_members name ev b added removed x y).
Proof. unfold apply_members. keeps_auto. Qed.
Hint Resolve keeps_apply_members : keeps.

(** ** Synchronisation *)

Lemma keeps_delete_unknown c : keeps (delete_unknown c).
Proof.
  unfold delete_unknown. intros r a r' HJ Hr. apply bind_inv in Hr as (s & r0 & [Hs ->]%deref_inv & Hr).
  assert (sg_retryOp s = None /\ sg_members s = []) as [Hop Hms] by (destruct (sc_MembershipOnly c); by simplify_eq/=).
  revert r a r' HJ Hr. fold (keeps (l ← alloc put_sg s; sg_delete l)).
  apply keeps_bind; [apply keeps_alloc_sg; auto|auto with keeps].
Qed.
Hint Resolve keeps_delete_unknown : keeps.

Lemma keeps_gather contents g : keeps (gather contents g).
Proof. revert g. induction contents as [|c contents IH]; intros g; simpl; keeps_auto. Qed.
Hint Resolve keeps_gather : keeps.

Lemma keeps_sync_update l b : keeps (sync_update l b). Proof. unfold sync_update. keeps_auto. Qed.
Lemma keeps_count_rules nps items : keeps (count_rules nps items).
Proof. revert items. induction nps as [|np nps IH]; intros items; simpl; keeps_auto. Qed.
Lemma keeps_refresh_resource rsc : keeps (refresh_resource rsc).
Proof. unfold refresh_resource. keeps_auto. Qed.
Hint Resolve keeps_sync_update keeps_count_rules keeps_refresh_resource : keeps.

(** A group that is recorded as created is sent its members. *)
Lemma create_and_send l b s r a r' :
  J r -> h_sg (heap r) !! l = Some s -> sg_state s <> securityGroupStateGarbageCollectState ->
  (put_sg l (set_state securityGroupStateCreated s);; updateImpl l [] [] b) r = Some (a, r') -> J r'.
Proof.
  intros HJ Hs Hst Hr. apply bind_inv in Hr as (? & r1 & ->%modify_inv & Hr).
  unfold updateImpl in Hr. apply bind_inv in Hr as (s1 & r1 & [Hs1 ->]%get_sg_inv & Hr).
  simpl in Hs1. rewrite lookup_insert_eq in Hs1. injection Hs1 as <-. simpl in Hr. case_decide as Hlen.
  - apply mret_inv in Hr as [_ ->]. eapply (put_sg_J l s); [done|done| |reflexivity].
    intros _ Hop Hu. split; [done|]. apply nil_length_inv in Hlen. unfold up_to_date in *. simpl.
    destruct (sg_state s); [|done|done]. rewrite Hu. by left.
  - apply bind_inv in Hr as (? & r1 & ->%modify_inv & Hr).
    destruct (sg_retryOp s) as [op|] eqn:Hop; [apply mret_inv in Hr as [_ ->]|apply modify_inv in Hr as ->].
    + eapply (J_update l s _ []); [done|done|simpl; by rewrite insert_insert_eq|simpl; by rewrite app_nil_r|done|done| |].
      * intros c Hc. by apply not_elem_of_nil in Hc.
      * congruence.
    + eapply (J_update l s _ [_]); [done|done|simpl; by rewrite insert_insert_eq|reflexivity..| |]; simpl.
      * intros c ->%list_elem_of_singleton. done.
      * intros _ _ _. split; [done|]. unfold up_to_date. simpl. by rewrite last_members_request_snoc.
Qed.

Lemma syncImpl_J env l c b s r a r' :
  J r -> h_sg (heap r) !! l = Some s -> sg_state s <> securityGroupStateGarbageCollectState ->
  (forall c0, c = Some c0 -> same_members env s c0 = true -> reported (sg_id s) (sg_members s)) ->
  syncImpl env l c b r = Some (a, r') -> J r'.
Proof.
  unfold syncImpl. intros HJ Hs Hst Hrep Hr. apply bind_inv in Hr as (s1 & r1 & [Hs1 ->]%get_sg_inv & Hr).
  assert (s1 = s) as -> by congruence. destruct c as [c|].
  - destruct (same_members env s c) eqn:Hsame.
    + apply bind_inv in Hr as (? & r1 & H1 & Hr). minv. eapply (put_sg_J l s); [done|done| |exact H1].
      intros _ Hop Hu. split; [done|]. unfold up_to_date in *. simpl. destruct (sg_state s); [|done|done].
      rewrite Hu. right. by eapply Hrep.
    + apply bind_inv in Hr as (? & r1 & H1 & Hr). apply bind_inv in Hr as (? & r2 & H2 & Hr). minv.
      assert (h_sg (heap r1) !! l = Some (set_state securityGroupStateCreated s)) as Hs2.
      { apply modify_inv in H1 as ->. simpl. apply lookup_insert_eq. }
      unfold sync_update in H2. apply bind_inv in H2 as (s2 & r3 & [Hs3 ->]%get_sg_inv & H2).
      rewrite Hs2 in Hs3. injection Hs3 as <-. simpl in H2.
      eapply create_and_send; [done|done|done|]. unfold mbind, M_bind. rewrite H1. exact H2.
  - case_decide; [minv; done|]. revert Hr. apply keeps_bind; [auto with keeps|intros; apply keeps_ret|done].
Qed.

(** What a synchronisation gathered is filed under its own identifier. *)
Definition gathered_wf (contents : list SynchronizationContent) (g : Gathered) : Prop :=
  forall id c, cloudAddrSGs g !! id = Some c \/ cloudAppliedToSGs g !! id = Some c ->
    sc_Resource c = id /\ c ∈ contents.

Lemma gather_gathered all contents g r g' r' :
  gather contents g r = Some (g', r') -> contents ⊆ all -> gathered_wf all g -> gathered_wf all g'.
Proof.
  revert g r. induction contents as [|c contents IH]; intros g r Hr Hsub Hg; simpl in Hr; [minv; done|].
  apply bind_inv in Hr as (o & r0 & [-> ->]%gets_inv & Hr).
  assert (contents ⊆ all /\ c ∈ all) as [Hsub' Hc] by (split; [intros x Hx|]; apply Hsub; [by right|left]).
  destruct (ix_GetByKey _ _).
  - apply IH in Hr; [done|done|]. destruct (sc_MembershipOnly c); intros id c'; simpl.
    + intros [Hl|Hl]; [|by eauto]. apply lookup_insert_Some in Hl as [[<- <-]|[_ ?]]; eauto.
    + intros [Hl|Hl]; [by eauto|]. apply lookup_insert_Some in Hl as [[<- <-]|[_ ?]]; eauto.
  - apply bind_inv in Hr as (? & r1 & _ & Hr). by eapply IH.
Qed.

(** ** Removed members *)

Lemma add_blocks_notFound bs acc acc' : add_blocks bs acc = Some acc' -> rs_notFound acc' = rs_notFound acc.
Proof. unfold add_blocks. destruct (mapM id bs); [|done]. by intros [= <-]. Qed.

Lemma resolve_entity_notFound env e acc acc' :
  resolve_entity env e acc = Some acc' -> rs_notFound acc' = rs_notFound acc.
Proof.
  unfold resolve_entity. intros Hr. repeat (case_match; simplify_eq/=; try done). by eapply add_blocks_notFound.
Qed.

Lemma vpcs_notFound env fed ms acc res :
  entities_known env ms -> vpcsFromGroupMembers env fed ms acc = Some (inr res) ->
  rs_notFound res = rs_notFound acc.
Proof.
  revert acc. induction ms as [|m ms IH]; intros acc Hk Hr; simpl in Hr; [by simplify_eq|].
  assert (entities_known env ms) as Hk' by (intros m' k Hm'; apply Hk; by right).
  destruct (gm_ExternalEntity m) as [k|] eqn:Hm; [|by apply IH].
  destruct (env_GetExternalEntity env k) eqn:He; [|by destruct (Hk m k); [left|..]|done].
  destruct (resolve_entity env a acc) as [acc'|] eqn:Ha; [|done].
  rewrite (IH _ Hk' Hr). by eapply resolve_entity_notFound.
Qed.

Lemma keeps_resolve_removed env name ms : (exact -> entities_known env ms) -> keeps (resolve_removed env name ms).
Proof.
  intros Hk. unfold resolve_removed, vpcs_of. intros r a r' HJ Hr.
  apply bind_inv in Hr as (res & r1 & H1 & Hr). apply bind_inv in H1 as (fed & r2 & [-> ->]%gets_inv & H1).
  apply deref_inv in H1 as [H1 ->]. destruct res as [e|res]; [minv; done|].
  apply bind_inv in Hr as (? & r2 & H2 & [_ ->]%mret_inv). destruct (bool_decide _) eqn:Hb; simpl in H2; [minv; done|].
  apply bool_decide_eq_false in Hb.
  assert (~ exact) as Hne by (intros Hex; apply Hb; by rewrite (vpcs_notFound _ _ _ _ _ (Hk Hex) H1)).
  revert H2. match goal with |- ?m r = _ -> _ => assert (keeps m) as K; [|by apply K] end.
  keeps_auto; by apply keeps_removeStaleMembers.
Qed.

(** ** Pending items *)

Lemma keeps_upd_failed l f : failed l -> keeps (upd_sg l f).
Proof. unfold upd_sg. intros Hf r a r' HJ Hr. minv. eapply put_sg_failed; [done|exact HJ|by eauto|exact Hr]. Qed.

Lemma keeps_runPendingItemImpl l b : failed l -> keeps (runPendingItemImpl l b).
Proof. intros Hf. unfold runPendingItemImpl. pose proof (keeps_upd_failed l). keeps_auto. Qed.

Lemma keeps_RunOrDeletePendingItem i : keeps (RunOrDeletePendingItem i).
Proof. destruct i; simpl; keeps_auto. Qed.
Hint Resolve keeps_RunOrDeletePendingItem : keeps.

Lemma keeps_record_status l op status : keeps (record_status l op status).
Proof. unfold record_status. keeps_auto. Qed.
Lemma keeps_update_retry l b op : keeps (update_retry l b op).
Proof. unfold update_retry. keeps_auto. apply keeps_queue_UpdateOnly. by left. Qed.
Hint Resolve keeps_record_status keeps_update_retry : keeps.

Section Events.
Variable env : Env.
(** The synchronisation's findings are on record. *)
Hypothesis seen : forall c s, c ∈ env_SyncContents env -> sc_Resource c = sg_id s ->
  same_members env s c = true -> reported (sg_id s) (sg_members s).
Context {STR : Strictness}.

Lemma forM_live_J b (f : loc -> M unit) ls r a r' :
  (forall l r r', wf r -> f l r = Some (tt, r') -> live b l r -> ~ before_sync r ->
    good r r' /\ calm r r' /\ (J r -> J r')) ->
  wf r -> J r -> forM_ ls f r = Some (a, r') -> (forall l, l ∈ ls -> live b l r) -> ~ before_sync r -> J r'.
Proof.
  intros Hf. revert r. induction ls as [|l ls IH]; intros r W HJ Hr HP Hq; simpl in Hr; minv; [done|].
  destruct x. destruct (Hf _ _ _ W Hm) as (G & C & HJ'); [apply HP; left|done|].
  eapply IH; [apply G|by apply HJ'|exact Hr| |].
  - intros l' Hl'. eapply calm_live; [exact G|exact C|]. apply HP. by right.
  - intros Hb. apply Hq. by eapply before_sync_mono; [apply G|].
Qed.

Lemma addr_sync_J l c b r a r' :
  J r -> live b l r ->
  (forall c0 s, c = Some c0 -> h_sg (heap r) !! l = Some s -> c0 ∈ env_SyncContents env /\ sc_Resource c0 = sg_id s) ->
  addr_sync env l c r = Some (a, r') -> J r'.
Proof.
  unfold addr_sync. intros HJ (s & Hs & _ & Hst) Hc Hr.
  apply bind_inv in Hr as (s1 & r1 & [Hs1 ->]%get_sg_inv & Hr). destruct (sg_deletePending s1); [minv; done|].
  apply bind_inv in Hr as (? & r1 & H1 & Hr). minv. eapply syncImpl_J; [exact HJ|exact Hs|done| |exact H1].
  intros c0 -> Hsame. destruct (Hc c0 s eq_refl Hs). by eapply seen.
Qed.

Lemma appliedTo_sync_J l c b r a r' :
  J r -> live b l r ->
  (forall c0 s, c = Some c0 -> h_sg (heap r) !! l = Some s -> c0 ∈ env_SyncContents env /\ sc_Resource c0 = sg_id s) ->
  appliedTo_sync env l c r = Some (a, r') -> J r'.
Proof.
  unfold appliedTo_sync. intros HJ (s & Hs & _ & Hst) Hc Hr.
  apply bind_inv in Hr as (s1 & r1 & [Hs1 ->]%get_sg_inv & Hr). destruct (sg_deletePending s1); [minv; done|].
  apply bind_inv in Hr as (same & r1 & H1 & Hr). eapply syncImpl_J in H1; [|exact HJ|exact Hs|done|].
  - revert H1 Hr. generalize r1 a r'. clear. intros r a r' HJ Hr. revert r a r' HJ Hr.
    match goal with |- forall r a r', J r -> ?m r = Some (a, r') -> J r' => change (keeps m) end. keeps_auto.
  - intros c0 -> Hsame. destruct (Hc c0 s eq_refl Hs). by eapply seen.
Qed.

Lemma syncWithCloud_J r a r' : wf r -> J r -> syncWithCloud env r = Some (a, r') -> J r'.
Proof.
  unfold syncWithCloud. intros W HJ Hr. apply bind_inv in Hr as (cnt & r0 & [-> ->]%gets_inv & Hr).
  destruct (_ <? _); [minv; done|].
  apply bind_inv in Hr as (g & r1 & H1 & Hr).
  assert (gathered_wf (env_SyncContents env) g) as Hg.
  { eapply gather_gathered; [exact H1|done|]. intros id c [Hl|Hl]; simpl in Hl; by rewrite lookup_empty in Hl. }
  apply gather_good in H1 as G1; [|by apply wf_relax]. apply keeps_gather in H1; [|done].
  apply bind_inv in Hr as (? & r2 & H2 & Hr). assert (J r2) as HJ2.
  { revert H2. apply keeps_modify; [|done]. intros ?. split_and!; simpl; done. }
  apply modify_inv in H2 as ->.
  assert (wf (set_synced true r1)) as W2 by (by apply wf_synced, G1).
  assert (~ before_sync (set_synced true r1)) as Hq by by intros [_ ?].
  revert Hr W2 HJ2 Hq. generalize (set_synced true r1). clear r1 H1 G1. intros r2 Hr W2 HJ2 Hq.
  apply bind_inv in Hr as (addrs & r3 & [-> ->]%gets_inv & Hr).
  apply bind_inv in Hr as (? & r4 & H4 & Hr).
  (* the address groups *)
  assert (forall l r5 r6, wf r5 -> (s ← get_sg l; if isIPBlocks s then mret tt else addr_sync env l (cloudAddrSGs g !! sg_id s))
      r5 = Some (tt, r6) -> live true l r5 -> ~ before_sync r5 -> good r5 r6 /\ calm r5 r6 /\ (J r5 -> J r6)) as Hf1.
  { intros l r5 r6 W5 H5 Hl Hq5. apply bind_inv in H5 as (s & r7 & [Hs ->]%get_sg_inv & H5). destruct (isIPBlocks s).
    - minv. split_and!; [by apply good_refl|apply calm_refl|done].
    - split_and!; [by eapply addr_sync_good|by eapply addr_sync_calm|]. intros HJ5.
      eapply addr_sync_J; [done|exact Hl| |exact H5]. intros c0 s0 Hc0 Hs0.
      assert (s0 = s) as -> by congruence. destruct (Hg (sg_id s) c0) as [??]; auto. }
  assert (J r4) as HJ4 by (eapply (forM_live_J true); [exact Hf1|done|done|exact H4|intros l; by apply (sgs_list_live true)|done]).
  eapply (forM_live_good true) in H4 as [W4 E4];
    [|intros l r5 r6 W5 H5 Hl Hq5; by destruct (Hf1 _ _ _ W5 H5 Hl Hq5) as (?&?&_)|done|intros l; by apply (sgs_list_live true)|done].
  assert (~ before_sync r4) as Hq4 by (intros Hb; apply Hq; by eapply before_sync_mono).
  apply bind_inv in Hr as (apps & r7 & [-> ->]%gets_inv & Hr).
  apply bind_inv in Hr as (? & r8 & H8 & Hr).
  (* the appliedTo groups *)
  eapply (forM_live_J false) in H8 as HJ8;
    [|intros l r5 r6 W5 H5 Hl Hq5|done|done|intros l; by apply (sgs_list_live false)|done].
  2: { apply bind_inv in H5 as (s & r9 & [Hs ->]%get_sg_inv & H5).
       split_and!; [by eapply appliedTo_sync_good|by eapply appliedTo_sync_calm|]. intros HJ5.
       eapply appliedTo_sync_J; [done|exact Hl| |exact H5]. intros c0 s0 Hc0 Hs0.
       assert (s0 = s) as -> by congruence. destruct (Hg (sg_id s) c0) as [??]; auto. }
  revert Hr. apply keeps_forM; [auto with keeps|done].
Qed.

Lemma processBookMark_J ev r a r' : wf r -> J r -> processBookMark env ev r = Some (a, r') -> J r'.
Proof.
  unfold processBookMark. intros W HJ Hr. minv; try done. minv_heap.
  eapply syncWithCloud_J; [|  |eassumption].
  - apply (set_bookmarkCnt_good (bookmarkCnt r + 1) r W).
  - eapply J_same; [exact HJ|done..|apply HJ].
Qed.

Lemma processMemberGrp_J name ev b added removed r a r' :
  wf r -> J r -> (exact -> entities_known env removed) ->
  processMemberGrp env name ev b added removed r = Some (a, r') -> J r'.
Proof.
  unfold processMemberGrp. intros W HJ Hk Hr. apply bind_inv in Hr as (bm & r1 & H1 & Hr).
  apply processBookMark_J in H1 as HJ1; [|done|done]. destruct bm; [minv; done|].
  revert Hr. match goal with |- ?m r1 = _ -> _ => assert (keeps m) as K; [|by apply K] end.
  unfold processMemberGrp_body. pose proof (keeps_resolve_removed env name removed Hk).
  keeps_auto; try (by apply keeps_queue_Add); apply keeps_queue_UpdateOnly; auto.
Qed.

(** Running an item: a group that waits to be added has no members to remove. *)
Lemma RunPendingItem_J id i r a r' :
  wf r -> J r -> (forall l, i = PendingSG l -> failed l) -> RunPendingItem env id i r = Some (a, r') -> J r'.
Proof.
  intros W HJ Hi Hr. destruct i as [l|l]; simpl in Hr.
  - apply bind_inv in Hr as (s & r0 & [Hs ->]%get_sg_inv & Hr). eapply keeps_runPendingItemImpl; [by apply Hi|done|exact Hr].
  - unfold pendingGroup_RunPendingItem in Hr. apply bind_inv in Hr as (p & r0 & [Hp ->]%get_pg_inv & Hr).
    case_decide; [minv; done|]. destruct (getGroupIDFromUniqueName id) as [name mo].
    apply bind_inv in Hr as (err & r1 & H1 & Hr).
    apply processMemberGrp_J in H1 as HJ1; [|done|done|intros _ m k Hm; by apply not_elem_of_nil in Hm].
    revert Hr. apply keeps_bind; [auto with keeps|intros; keeps_auto|done].
Qed.

Lemma queue_RunUpdated_J q id i r a r' :
  wf r -> J r -> (forall l, ci_item i = PendingSG l -> failed l) ->
  queue_RunUpdated (RunPendingItem env) q id i r = Some (a, r') -> J r'.
Proof.
  unfold queue_RunUpdated. intros W HJ Hi Hr.
  apply bind_inv in Hr as ([runit del] & r1 & ->%RunOrDeletePendingItem_same & Hr).
  apply bind_inv in Hr as (? & r1 & Hd & Hr).
  assert (J r1) as HJ1 by (revert Hd; apply keeps_mwhen; [auto with keeps|done]).
  assert (wf r1) as W1 by (unfold mwhen in Hd; destruct del; [by eapply queue_Remove_good'|by minv]).
  apply bind_inv in Hr as (del' & r2 & Hd' & Hr). assert (J r2) as HJ2.
  { destruct runit; [|minv; done]. apply bind_inv in Hd' as (d & r3 & H3 & Hd').
    apply RunPendingItem_J in H3; [|done|done|done]. revert Hd'. apply keeps_bind; [auto with keeps|intros; apply keeps_ret|done]. }
  revert Hr. apply keeps_bind; [auto with keeps|intros; keeps_auto|done].
Qed.

Lemma queue_Update_J q id b u r a r' :
  wf r -> J r -> (q = RetryQueue \/ forall op, u <> UpdateOp op) ->
  queue_Update (RunPendingItem env) q id b u r = Some (a, r') -> J r'.
Proof.
  unfold queue_Update. intros W HJ Hq Hr. apply bind_inv in Hr as (o & r1 & H1 & Hr).
  assert (wf r1) as W1 by by eapply queue_UpdateOnly_good.
  apply keeps_queue_UpdateOnly in H1 as HJ1; [|done|done].
  destruct o as [i|]; [|minv; done]. unfold mwhen in Hr. destruct b; [|minv; done].
  eapply queue_RunUpdated_J; [done|done| |exact Hr]. intros l Hl.
  unfold queue_UpdateOnly in H1. apply bind_inv in H1 as (o & r2 & [-> ->]%gets_inv & H1).
  destruct (get_queue q r !! id) as [i'|] eqn:Hi; [|minv; done].
  apply bind_inv in H1 as (? & r3 & _ & H1). apply mret_inv in H1 as [[= ->] _]. destruct q; simpl in Hi.
  - destruct (wf_pending _ W _ _ Hi) as (_ & l' & p & Hp & _). congruence.
  - exact (J_queue _ HJ _ _ _ Hi Hl).
Qed.

Lemma queue_CheckItem_J k r a r' :
  wf r -> J r -> queue_CheckItem (RunPendingItem env) RetryQueue k r = Some (a, r') -> J r'.
Proof.
  unfold queue_CheckItem. intros W HJ Hr.
  apply bind_inv in Hr as (o & r0 & [-> ->]%gets_inv & Hr). simpl in Hr.
  destruct (retryQueue r !! k) as [i|] eqn:Hi; [|minv; done].
  apply bind_inv in Hr as ([runit del] & r1 & ->%RunOrDeletePendingItem_same & Hr).
  apply bind_inv in Hr as (? & r1 & Hd & Hr).
  assert (J r1) as HJ1 by (revert Hd; apply keeps_mwhen; [auto with keeps|done]).
  assert (wf r1) as W1 by (unfold mwhen in Hd; destruct del; [by eapply queue_Remove_good'|by minv]).
  apply bind_inv in Hr as (del' & r2 & Hd' & Hr). assert (J r2) as HJ2.
  { clear Hr. destruct runit; [|minv; done]. apply bind_inv in Hd' as (c & r3 & H3 & Hd').
    assert (r3 = r1) as -> by (unfold read_opCnt in H3; by minv). apply bind_inv in Hd' as (d & r4 & H4 & Hd').
    assert (J r4) as HJ4.
    { destruct (match c with None => _ | Some _ => _ end); [|minv; done].
      eapply RunPendingItem_J; [done|done| |exact H4]. intros l Hl. exact (J_queue _ HJ _ _ _ Hi Hl). }
    revert Hd'. apply keeps_bind; [auto with keeps|intros; apply keeps_ret|done]. }
  revert Hr. apply keeps_bind; [auto with keeps|intros; keeps_auto|done].
Qed.

Lemma queue_CheckToRun_J r a r' :
  wf r -> J r -> queue_CheckToRun (RunPendingItem env) RetryQueue r = Some (a, r') -> J r'.
Proof.
  unfold queue_CheckToRun. intros W HJ Hr. apply bind_inv in Hr as (keys & r0 & [-> ->]%gets_inv & Hr).
  revert Hr. generalize (map fst (go_range (get_queue RetryQueue r))). intros keys. revert r W HJ.
  induction keys as [|k keys IH]; intros r W HJ Hr; simpl in Hr; [minv; done|].
  apply bind_inv in Hr as (? & r1 & H1 & Hr). eapply IH; [|  |exact Hr].
  - by eapply queue_CheckItem_good.
  - by eapply queue_CheckItem_J.
Qed.

(** ** Answers of the cloud *)

Lemma notifyImpl_J l b op status r a r' :
  wf r -> J r -> has_kind b l r -> ~ before_sync r -> (status <> None -> failed l) ->
  notifyImpl env l b op status r = Some (a, r') -> J r'.
Proof.
  unfold notifyImpl. intros W HJ (s & Hs & Hk) Hq Hf Hr.
  apply bind_inv in Hr as (x & r0 & [Hx ->]%get_sg_inv & Hr). assert (x = s) as -> by congruence.
  apply bind_inv in Hr as (has & r0 & [-> ->]%queue_Has_inv & Hr).
  apply bind_inv in Hr as (? & r1 & Hq1 & Hr).
  assert (wf r1 /\ J r1) as [W1 HJ1].
  { unfold mwhen in Hq1. destruct (_ && _) eqn:Ec in Hq1; [|by minv].
    apply andb_true_iff in Ec as [[Ec1 _]%andb_true_iff Ec]. split.
    - eapply start_retry_good; [done|exact Hs|exact Hk| |done|exact Hq1].
      intros Hst. rewrite bool_decide_eq_true_2 in Ec by done. simpl in Ec. by apply bool_decide_eq_true in Ec.
    - assert (failed l) as Hfl by (apply Hf; by destruct status).
      revert Hq1. apply keeps_bind; [by apply keeps_upd_failed|intros _|done].
      apply keeps_queue_Add. by intros _ l' [= <-]. }
  clear Hq1. apply bind_inv in Hr as (has & r2 & [-> ->]%queue_Has_inv & Hr).
  apply bind_inv in Hr as (moreOps & r3 & Hq3 & Hr).
  assert (wf r3 /\ J r3) as [W3 HJ3].
  { clear Hr. destruct (bool_decide _); [|by minv].
    apply bind_inv in Hq3 as (? & r4 & H4 & Hq3). assert (wf r4) as W4 by by eapply queue_Update_good.
    apply queue_Update_J in H4; [|done|done|by left].
    apply bind_inv in Hq3 as (? & r5 & [-> ->]%queue_Has_inv & Hq3).
    apply bind_inv in Hq3 as (c & r5 & H5 & Hq3). apply mret_inv in Hq3 as [_ ->].
    split; [by eapply queue_GetRetryCount_good|revert H5; apply keeps_queue_GetRetryCount; exact H4]. }
  unfold mwhen in Hr. destruct (bool_decide (op = _)); [|minv; done].
  eapply queue_Update_J; [done|done| |exact Hr]. by right.
Qed.

(** The group is recorded as created when its creation is answered. *)
Lemma addr_created l r a r' :
  J r ->
  (upd_sg l (fun s => if decide (sg_state s = securityGroupStateInit)
                      then set_state securityGroupStateCreated s else s);; addr_update l [] []) r = Some (a, r') ->
  J r'.
Proof.
  intros HJ Hr. apply bind_inv in Hr as (? & r1 & Hu & Hr). pose proof (upd_sg_frame _ _ _ _ _ Hu) as (_ & s & Hs & Hs').
  case_decide as Hst.
  - unfold addr_update in Hr. apply bind_inv in Hr as (s1 & r2 & [Hs1 ->]%get_sg_inv & Hr).
    rewrite Hs' in Hs1. injection Hs1 as <-.
    assert (put_sg l (set_state securityGroupStateCreated s) r = Some (x, r1)) as Hp.
    { unfold upd_sg in Hu. apply bind_inv in Hu as (s1 & r2 & [Hs1 ->]%get_sg_inv & Hu).
      assert (s1 = s) as -> by congruence. by rewrite decide_True in Hu. }
    destruct (isIPBlocks _) eqn:Hip.
    + apply mret_inv in Hr as [_ ->]. eapply (put_sg_J l s); [done|done| |exact Hp].
      intros _ Hop Hl. split; [done|]. unfold up_to_date in *. simpl. rewrite Hst in Hl. rewrite Hl.
      intros _ Hip'. change (isIPBlocks s = true) in Hip. change (isIPBlocks s = false) in Hip'. congruence.
    + eapply create_and_send; [done|exact Hs|by rewrite Hst|]. unfold mbind, M_bind. rewrite Hp. exact Hr.
  - assert (J r1) as HJ1; [|by eapply keeps_addr_update]. unfold upd_sg in Hu.
    apply bind_inv in Hu as (s1 & r2 & [Hs1 ->]%get_sg_inv & Hu). assert (s1 = s) as -> by congruence.
    rewrite decide_False in Hu by done. eapply (put_sg_J l s); [done|done| |exact Hu]. auto.
Qed.

Lemma addr_notify_J l op status r a r' :
  wf r -> J r -> has_kind true l r -> ~ before_sync r -> (status <> None -> failed l) ->
  addr_notify env l op status r = Some (a, r') -> J r'.
Proof.
  unfold addr_notify. intros W HJ Hk Hq Hf Hr.
  apply bind_inv in Hr as (s & r0 & [Hs ->]%get_sg_inv & Hr).
  apply bind_inv in Hr as (nps & r0 & [-> ->]%gets_inv & Hr).
  apply bind_inv in Hr as (? & r1 & H1 & Hr). pose proof (record_status_good _ _ _ _ _ _ W H1 Hq) as G1.
  apply keeps_record_status in H1 as HJ1; [|done]. clear H1 HJ.
  apply bind_inv in Hr as (? & r2 & Hb & Hr).
  assert (good r1 r2 /\ J r2) as [G2 HJ2].
  { clear Hr. destruct status; [minv; split; [by apply good_refl, G1|done]|].
    apply bind_inv in Hb as (? & r3 & H3 & Hb). apply update_retry_good in H3 as G3; [|apply G1].
    apply keeps_update_retry in H3 as HJ3; [|done].
    destruct op; try (apply mret_inv in Hb as [_ ->]; split; [exact G3|done]).
    assert (~ before_sync r3) as Hq3 by (eapply good_synced; [exact G3|eapply good_synced; [exact G1|done]]).
    apply bind_inv in Hb as (? & r4 & Hu & Hb). apply bind_inv in Hb as (? & r5 & H5 & Hb).
    assert (J r5) as HJ5 by (eapply addr_created; [exact HJ3|]; unfold mbind, M_bind; rewrite Hu; exact H5).
    eapply set_created_good in Hu as G4; [|apply G3|intros; case_decide; auto|done].
    apply addr_update_good in H5 as G5; [|apply G4|].
    2: { eapply good_has_kind; [exact G4|]. eapply good_has_kind; [exact G3|]. by eapply good_has_kind. }
    assert (good r1 r5) as G15 by (eapply good_trans; [exact G3|]; by eapply good_trans).
    split; [|revert Hb; apply keeps_forM; [auto with keeps|done]].
    eapply good_trans; [exact G15|]. eapply forM_good_all; [|apply G15|exact Hb]. intros; by eapply notifyAddrGrpChanges_good. }
  apply bind_inv in Hr as (s' & r3 & [Hs' ->]%get_sg_inv & Hr).
  apply bind_inv in Hr as (? & r4 & Hm & Hr).
  assert (good r2 r4) as G4.
  { unfold mwhen in Hm. destruct (addr_isReady s'); [|minv; by apply good_refl, G2].
    eapply forM_good_all; [|apply G2|exact Hm]. intros; by eapply np_markDirty_good. }
  assert (J r4) as HJ4 by (revert Hm; apply keeps_mwhen; [apply keeps_forM; auto with keeps|done]).
  assert (good r r4) as G by (eapply good_trans; [exact G1|]; by eapply good_trans).
  eapply notifyImpl_J; [apply G|done|by eapply good_has_kind|by eapply good_synced|done|exact Hr].
Qed.

Lemma appliedTo_notify_J l op status r a r' :
  wf r -> J r -> has_kind false l r -> ~ before_sync r -> (status <> None -> failed l) ->
  appliedTo_notify env l op status r = Some (a, r') -> J r'.
Proof.
  unfold appliedTo_notify. intros W HJ Hk Hq Hf Hr.
  apply bind_inv in Hr as (? & r1 & H1 & Hr). pose proof (record_status_good _ _ _ _ _ _ W H1 Hq) as G1.
  apply keeps_record_status in H1 as HJ1; [|done]. clear H1 HJ.
  assert (has_kind false l r1) as Hk1 by by eapply good_has_kind.
  assert (~ before_sync r1) as Hq1 by by eapply good_synced.
  apply bind_inv in Hr as (? & r2 & Hb & Hr).
  assert (good r1 r2 /\ J r2) as [G2 HJ2].
  { clear Hr. destruct status; [minv; split; [by apply good_refl, G1|done]|].
    apply bind_inv in Hb as (? & r3 & H3 & Hb). apply update_retry_good in H3 as G3; [|apply G1].
    apply keeps_update_retry in H3 as HJ3; [|done]. clear H3.
    assert (has_kind false l r3) as (s0 & Hs0 & Hk0) by by eapply good_has_kind.
    apply bind_inv in Hb as (s & r4 & [Hs ->]%get_sg_inv & Hb). assert (s0 = s) as -> by congruence.
    assert (~ before_sync r3) as Hq3 by by eapply good_synced.
    assert (has_kind false l r3) as Hk3 by by exists s.
    destruct op.
    - unfold mwhen in Hb. destruct (bool_decide _) eqn:Eb; [|by minv]. apply bool_decide_eq_true in Eb.
      apply bind_inv in Hb as (? & r5 & Hu & Hb).
      assert (J r5) as HJ5.
      { unfold upd_sg in Hu. apply bind_inv in Hu as (s1 & r6 & [Hs1 ->]%get_sg_inv & Hu).
        assert (s1 = s) as -> by congruence. eapply (put_sg_J l s); [done|done| |exact Hu].
        intros _ Hop Hl. split; [done|]. unfold up_to_date in *. simpl. rewrite Eb in Hl. rewrite Hl. congruence. }
      eapply set_created_good in Hu as G5; [|apply G3|intros; right; split; congruence|done].
      split; [|by eapply keeps_updateRules].
      eapply good_trans; [exact G3|]. eapply good_trans; [exact G5|].
      eapply updateRules_good; [apply G5|exact Hb|by eapply good_has_kind].
    - split; [|eapply upd_sg_mute; [apply (mute_hasMembers true)|exact HJ3|exact Hb]].
      eapply good_trans; [exact G3|]. eapply upd_sg_neutral; [apply G3|apply neutral_set_hasMembers|exact Hb].
    - split; [|revert Hb; apply keeps_bind; [auto with keeps|intros; keeps_auto|done]].
      apply bind_inv in Hb as (? & r5 & Hu & Hb).
      eapply upd_sg_neutral in Hu as G5; [|apply G3|apply neutral_set_hasMembers].
      eapply good_trans; [exact G3|]. eapply good_trans; [exact G5|]. unfold mwhen in Hb.
      destruct (sg_hasRules s); [|minv; by apply good_refl, G5].
      eapply updateRules_good; [apply G5|exact Hb|by eapply good_has_kind].
    - split; [|revert Hb; apply keeps_bind; [auto with keeps|intros; keeps_auto|done]].
      apply bind_inv in Hb as (? & r5 & Hu & Hb).
      eapply upd_sg_neutral in Hu as G5; [|apply G3|apply neutral_set_hasRules].
      eapply good_trans; [exact G3|]. eapply good_trans; [exact G5|]. unfold mwhen in Hb.
      destruct (sg_hasMembers s); simpl in Hb; [minv; by apply good_refl, G5|].
      eapply appliedTo_update_good; [apply G5|exact Hb|by eapply good_has_kind].
    - apply mret_inv in Hb as [_ ->]. done. }
  apply bind_inv in Hr as (s' & r3 & [Hs' ->]%get_sg_inv & Hr).
  apply bind_inv in Hr as (trs & r3 & [-> ->]%gets_inv & Hr).
  apply bind_inv in Hr as (? & r4 & Hm & Hr). apply forM_setDirty_good in Hm as G4; [|apply G2].
  assert (J r4) as HJ4 by (revert Hm; apply keeps_forM; [auto with keeps|done]).
  assert (good r1 r4) as G by by eapply good_trans.
  eapply notifyImpl_J; [apply G|done|by eapply good_has_kind|by eapply good_synced|done|exact Hr].
Qed.

(** ** Events *)

Lemma processCloudResponse_J st r a r' :
  wf r -> J r -> ~ before_sync r -> (st_err st <> None -> failed (st_sg st)) ->
  processCloudResponse env st r = Some (a, r') -> J r'.
Proof.
  unfold processCloudResponse. intros W HJ Hq Hf Hr. apply bind_inv in Hr as (s & r0 & [Hs ->]%get_sg_inv & Hr).
  destruct (sg_membershipOnly s) eqn:Hk.
  - eapply addr_notify_J; [done|done|by exists s|done|done|exact Hr].
  - eapply appliedTo_notify_J; [done|done|by exists s|done|done|exact Hr].
Qed.

Lemma process_group_J b t obj r a r' :
  wf r -> J r -> (exact -> entities_known env (removed_members obj)) ->
  process_group env b t obj r = Some (a, r') -> J r'.
Proof.
  unfold process_group. intros W HJ Hk Hr. destruct obj; case_decide; try (minv; done);
    (eapply processMemberGrp_J; [done|done| |exact Hr]); [|done].
  intros _ m k Hm. by apply not_elem_of_nil in Hm.
Qed.

Lemma processNetworkPolicy_J t anp r a r' : wf r -> J r -> processNetworkPolicy env t anp r = Some (a, r') -> J r'.
Proof.
  unfold processNetworkPolicy. intros W HJ Hr. apply bind_inv in Hr as (bm & r1 & H1 & Hr).
  apply processBookMark_J in H1 as HJ1; [|done|done]. destruct bm; [minv; done|].
  revert Hr. match goal with |- ?m r1 = _ -> _ => assert (keeps m) as K; [|by apply K] end. keeps_auto.
Qed.

Lemma tick_J now r a r' : wf r -> J r -> tick env now r = Some (a, r') -> J r'.
Proof.
  unfold tick. intros W HJ Hr. apply bind_inv in Hr as (? & r1 & H1 & Hr).
  assert (wf r1) as W1 by by eapply processCloudResourceNPTrackers_good.
  apply keeps_processCloudResourceNPTrackers in H1; [|done].
  apply bind_inv in Hr as (? & r2 & H2 & Hr). assert (wf r2) as W2 by by eapply queue_CheckToRun_good.
  apply queue_CheckToRun_J in H2; [|done|done]. unfold mwhen in Hr. destruct (_ =? _); [|minv; done].
  by eapply syncWithCloud_J.
Qed.

Lemma handle_J ev r r' :
  wf r -> (forall st, ev = EvResponse st -> ~ before_sync r /\ (st_err st <> None -> failed (st_sg st))) ->
  (exact -> entities_known env (event_removals ev)) -> J r -> handle env ev r = Some (tt, r') -> J r'.
Proof.
  intros W Hst Hk HJ Hr.
  destruct ev; simpl in Hr, Hk; unfold watcher_event, processAddrGrp, processAppliedToGrp in Hr.
  1-3: case_decide; [minv; done|]; apply bind_inv in Hr as (? & r1 & H1 & Hr); apply mret_inv in Hr as [_ ->].
  - by eapply process_group_J.
  - by eapply process_group_J.
  - by eapply processNetworkPolicy_J.
  - destruct (Hst st eq_refl). by eapply processCloudResponse_J.
  - apply bind_inv in Hr as (? & r1 & Hl & Hr). apply mret_inv in Hr as [_ ->]. destruct obj; simpl in Hl, Hk.
    + by eapply processNetworkPolicy_J.
    + by eapply process_group_J.
    + minv. done.
  - by eapply tick_J.
Qed.

End Events.

End Members.

