(* ===== verification/NPRules.v ===== *)
(** * What the rules of a policy admit

    The rules [computeRules] derives from an Antrea policy and the rules
    [updateRules] sends for a group, stated in terms of the traffic they
    admit. *)

From stdpp Require Import base strings list gmap.
From Stdlib Require Import ZArith Lia.
From S2P Require Import Prelude GoStrings GoNet SecurityGroup RuleMerge NPState NPPending NPGroups.
From S2P Require Import NPPolicy NPInvariants.

#[local] Open Scope string_scope.
#[local] Open Scope Z_scope.

(** ** Services *)

Definition services_allow (services : option (list Service)) (proto port : Z) : Prop :=
  match services with
  | None => True
  | Some ss => exists s, s ∈ ss /\ field_admits (service_protocol s) proto /\ field_admits (svc_Port s) port
  end.

Lemma ingress_per_service_admits services ips sgs proto port p :
  (exists ru, ru ∈ ingress_per_service services ips sgs /\ ingress_admits ru proto port p) <->
  services_allow services proto port /\ peer_admits ips sgs p.
Proof.
  destruct services as [ss|]; simpl; split.
  - intros (ru & (s & -> & Hs)%list_elem_of_fmap & H1 & H2 & H3). eauto 8.
  - intros [(s & Hs & H1 & H2) H3]. eexists. split; [apply list_elem_of_fmap; eauto|]. done.
  - by intros (ru & ->%list_elem_of_singleton & _ & _ & H).
  - intros [_ H]. eexists. split; [by apply list_elem_of_singleton|]. done.
Qed.

Lemma egress_per_service_admits services ips sgs proto port p :
  (exists ru, ru ∈ egress_per_service services ips sgs /\ egress_admits ru proto port p) <->
  services_allow services proto port /\ peer_admits ips sgs p.
Proof.
  destruct services as [ss|]; simpl; split.
  - intros (ru & (s & -> & Hs)%list_elem_of_fmap & H1 & H2 & H3). eauto 8.
  - intros [(s & Hs & H1 & H2) H3]. eexists. split; [apply list_elem_of_fmap; eauto|]. done.
  - by intros (ru & ->%list_elem_of_singleton & _ & _ & H).
  - intros [_ H]. eexists. split; [by apply list_elem_of_singleton|]. done.
Qed.

Section Rules.
Context {IXC : CacheIndexer} {RNG : MapRange}.

(** ** The groups an address group stands for *)

(** [l] is a group of the address group [ag], filed in the indexer. *)
Definition names_group (r : Reconciler) (ag : string) (l : loc) (s : securityGroup) : Prop :=
  (exists k, ix_contents (addrSGIndexer (ixs r)) !! k = Some l) /\
  h_sg (heap r) !! l = Some s /\ cid_Name (sg_id s) = ag.

Definition known (r : Reconciler) (ag : string) : Prop := exists l s, names_group r ag l s.

(** A peer of the policy names an address or a security group. *)
Definition peer_names (r : Reconciler) (peer : NetworkPolicyPeer) (p : Peer) : Prop :=
  match p with
  | PeerIP ip =>
      (exists b, b ∈ peer_IPBlocks peer /\ IPNet_Contains (block_of b) ip = true) \/
      (exists ag l s n, ag ∈ peer_AddressGroups peer /\ names_group r ag l s /\ n ∈ sg_ipBlocks s /\
        IPNet_Contains n ip = true)
  | PeerSG id =>
      exists ag l s, ag ∈ peer_AddressGroups peer /\ names_group r ag l s /\ sg_id s = id /\ cid_Vpc id <> ""
  end.

Definition rule_peer (dir : Direction) (rule : NetworkPolicyRule) : NetworkPolicyPeer :=
  match dir with DirectionIn => rule_From rule | DirectionOut => rule_To rule end.

Definition rule_allows (r : Reconciler) (dir : Direction) (rule : NetworkPolicyRule) (proto port : Z) (p : Peer) : Prop :=
  rule_Direction rule = dir /\ services_allow (rule_Services rule) proto port /\
  peer_names r (rule_peer dir rule) p.

Lemma elem_of_ByIndex f v ix l :
  l ∈ ix_ByIndex f v ix <-> v ∈ f l /\ exists k, ix_contents ix !! k = Some l.
Proof.
  rewrite ix_byindex, list_elem_of_filter, list_elem_of_fmap. split.
  - intros (Hv & [k l'] & -> & Hk). apply elem_of_map_to_list in Hk. eauto.
  - intros (Hv & k & Hk). split; [done|]. exists (k, l). by rewrite elem_of_map_to_list.
Qed.

Lemma elem_of_sgs_of_group r ag l :
  l ∈ ix_ByIndex (sg_group (heap r)) ag (addrSGIndexer (ixs r)) <-> exists s, names_group r ag l s.
Proof.
  rewrite elem_of_ByIndex. unfold sg_group, names_group. split.
  - destruct (h_sg (heap r) !! l) as [s|]; [|by intros [?%not_elem_of_nil _]].
    intros [->%list_elem_of_singleton ?]. eauto.
  - intros (s & ? & -> & <-). split; [by apply list_elem_of_singleton|done].
Qed.

Lemma get_sg_run r l s : h_sg (heap r) !! l = Some s -> get_sg l r = Some (s, r).
Proof. unfold get_sg, mbind, M_bind, gets, deref. by intros ->. Qed.

Lemma get_np_run r l n : h_np (heap r) !! l = Some n -> get_np l r = Some (n, r).
Proof. unfold get_np, mbind, M_bind, gets, deref. by intros ->. Qed.

Lemma bind_run {A B} (m : M A) (k : A -> M B) r a r1 :
  m r = Some (a, r1) -> (m ≫= k) r = k a r1.
Proof. unfold mbind, M_bind. by intros ->. Qed.

Lemma group_peers_spec r ls :
  (forall l, l ∈ ls -> is_Some (h_sg (heap r) !! l)) ->
  exists ips ids, group_peers ls r = Some ((ips, ids), r) /\
  (forall n, n ∈ ips <-> exists l s, l ∈ ls /\ h_sg (heap r) !! l = Some s /\ n ∈ sg_ipBlocks s) /\
  (forall id, id ∈ ids <-> exists l s, l ∈ ls /\ h_sg (heap r) !! l = Some s /\ sg_id s = id /\ cid_Vpc id <> "").
Proof.
  induction ls as [|l ls IH]; intros Hls.
  - exists [], []. split; [done|]. split; intros; split; try (by intros ?%not_elem_of_nil);
      intros (? & ? & ?%not_elem_of_nil & _); done.
  - destruct (Hls l) as [s Hs]; [left|]. destruct IH as (ips & ids & Hrun & Hips & Hids); [by intros; apply Hls; right|].
    eexists _, _. split; [simpl; rewrite (bind_run _ _ _ _ _ (get_sg_run _ _ _ Hs)), (bind_run _ _ _ _ _ Hrun); reflexivity|].
    split.
    + intros n. rewrite elem_of_app, Hips. setoid_rewrite elem_of_cons. naive_solver.
    + intros id. setoid_rewrite elem_of_cons. case_decide; [|rewrite elem_of_cons]; rewrite Hids; naive_solver.
Qed.

Lemma address_group_peers_spec r ags :
  exists o, address_group_peers ags r = Some (o, r) /\
  match o with
  | None => exists ag, ag ∈ ags /\ ~ known r ag
  | Some (ips, ids) =>
      (forall ag, ag ∈ ags -> known r ag) /\
      (forall n, n ∈ ips <-> exists ag l s, ag ∈ ags /\ names_group r ag l s /\ n ∈ sg_ipBlocks s) /\
      (forall id, id ∈ ids <-> exists ag l s, ag ∈ ags /\ names_group r ag l s /\ sg_id s = id /\ cid_Vpc id <> "")
  end.
Proof.
  induction ags as [|ag ags (o & Hrun & IH)].
  - eexists. split; [done|]. split; [by intros ? ?%not_elem_of_nil|].
    split; intros; split; try (by intros ?%not_elem_of_nil); intros (? & ? & ? & ?%not_elem_of_nil & _); done.
  - simpl. rewrite (bind_run _ _ r _ r eq_refl). pose proof (elem_of_sgs_of_group r ag) as He.
    simpl. set (ls := ix_ByIndex _ _ _) in *. destruct (decide (length ls = 0%nat)) as [E|E].
    { eexists. split; [done|]. exists ag. split; [left|]. intros (l & s & Hl).
      apply nil_length_inv in E. rewrite E in He. by eapply not_elem_of_nil, He; eauto. }
    destruct (group_peers_spec r ls) as (ips & ids & Hg & Hips & Hids).
    { intros l (s & _ & Hs & _)%He. eauto. }
    rewrite (bind_run _ _ _ _ _ Hg), (bind_run _ _ _ _ _ Hrun).
    destruct o as [[ips' ids']|].
    + destruct IH as (Hk & Hi & Hd). eexists. split; [done|]. simpl. split; [|split].
      * intros ag' [->|]%elem_of_cons; [|by apply Hk]. destruct ls as [|l ls']; [done|].
        destruct (proj1 (He l)) as [s Hs]; [left|]. by exists l, s.
      * intros n. rewrite elem_of_app, Hips, Hi. setoid_rewrite elem_of_cons. setoid_rewrite He.
        unfold names_group. naive_solver.
      * intros id. rewrite elem_of_app, Hids, Hd. setoid_rewrite elem_of_cons. setoid_rewrite He.
        unfold names_group. naive_solver.
    + destruct IH as (ag' & ? & ?). eexists. split; [done|]. exists ag'. split; [by right|done].
Qed.

Lemma peer_admits_names r peer ips ids p :
  (forall n, n ∈ ips <-> exists ag l s, ag ∈ peer_AddressGroups peer /\ names_group r ag l s /\ n ∈ sg_ipBlocks s) ->
  (forall id, id ∈ ids <-> exists ag l s, ag ∈ peer_AddressGroups peer /\ names_group r ag l s /\ sg_id s = id /\ cid_Vpc id <> "") ->
  peer_admits (map block_of (peer_IPBlocks peer) ++ ips)%list ids p <-> peer_names r peer p.
Proof.
  intros Hips Hids. destruct p as [ip|id]; simpl; [|apply Hids].
  setoid_rewrite elem_of_app. setoid_rewrite list_elem_of_fmap. setoid_rewrite Hips. split.
  - intros (n & [(b & -> & Hb)|(ag & l & s & ? & ? & ?)] & Hc); [left; eauto|right; eauto 10].
  - intros [(b & Hb & Hc)|(ag & l & s & n & ? & ? & ? & Hc)]; eauto 12.
Qed.

Lemma peer_admits_nil p : ~ peer_admits [] [] p.
Proof. destruct p; simpl; [by intros (? & ?%not_elem_of_nil & _)|apply not_elem_of_nil]. Qed.

(** The rules of one rule of the policy. *)
Lemma rules_spec r rule :
  exists ing eg ready, rules rule r = Some ((ing, eg, ready), r) /\
  if ready : bool then
    (forall proto port p,
      (exists ru, ru ∈ ing /\ ingress_admits ru proto port p) <-> rule_allows r DirectionIn rule proto port p) /\
    (forall proto port p,
      (exists ru, ru ∈ eg /\ egress_admits ru proto port p) <-> rule_allows r DirectionOut rule proto port p)
  else exists ag, ag ∈ np_addr_groups [rule] /\ ~ known r ag.
Proof.
  assert (forall (P : IngressRule -> Prop), ~ exists ru, ru ∈ ([] : list IngressRule) /\ P ru) as Hni
    by (by intros P (? & ?%not_elem_of_nil & _)).
  assert (forall (P : EgressRule -> Prop), ~ exists ru, ru ∈ ([] : list EgressRule) /\ P ru) as Hne
    by (by intros P (? & ?%not_elem_of_nil & _)).
  unfold rules, rule_allows. destruct (rule_Direction rule) eqn:Hdir; simpl;
  match goal with |- context [address_group_peers (peer_AddressGroups ?peer)] =>
    destruct (address_group_peers_spec r (peer_AddressGroups peer)) as (o & Hrun & Ho) end;
  rewrite (bind_run _ _ _ _ _ Hrun); clear Hrun;
  (destruct o as [[ips ids]|];
  [destruct Ho as (_ & Hi & Hd); pose proof (fun p => peer_admits_names r _ ips ids p Hi Hd) as Hp;
   case_decide as E; [destruct E as [-> E]; rewrite E in Hp|]; eexists _, _, true; (split; [reflexivity|])
  |destruct Ho as (ag & ? & ?); eexists _, _, false; split; [done|]; exists ag; split; [|done];
   rewrite app_nil_r, elem_of_app; auto]).
  all: split; intros proto port p; rewrite ?ingress_per_service_admits, ?egress_per_service_admits, ?Hp.
  all: split; [intros HL|intros (HE & HS & HN)]; first
    [ discriminate HE | by exfalso; eapply Hni, HL | by exfalso; eapply Hne, HL
    | by destruct HL | by split | by exfalso; eapply peer_admits_nil, Hp ].
Qed.

(** ** [computeRules] *)

Definition with_np (l : loc) (n : networkPolicy) (r : Reconciler) : Reconciler :=
  set_heap (hset_np (<[l := n]> (h_np (heap r))) (heap r)) r.

Lemma with_np_twice l n m r : with_np l n (with_np l m r) = with_np l n r.
Proof. unfold with_np, set_heap, hset_np. simpl. by rewrite insert_insert_eq. Qed.

Lemma with_np_lookup l n r : h_np (heap (with_np l n r)) !! l = Some n.
Proof. apply lookup_insert_eq. Qed.

Lemma upd_np_run l f r n : h_np (heap r) !! l = Some n -> upd_np l f r = Some (tt, with_np l (f n) r).
Proof. intros Hn. unfold upd_np. by rewrite (bind_run _ _ _ _ _ (get_np_run _ _ _ Hn)). Qed.

Definition admits_rules (r : Reconciler) (rs : list NetworkPolicyRule) (ing : list IngressRule) (eg : list EgressRule) : Prop :=
  forall proto port p,
  ((exists ru, ru ∈ ing /\ ingress_admits ru proto port p) <->
   exists rule, rule ∈ rs /\ rule_allows r DirectionIn rule proto port p) /\
  ((exists ru, ru ∈ eg /\ egress_admits ru proto port p) <->
   exists rule, rule ∈ rs /\ rule_allows r DirectionOut rule proto port p).

Lemma admits_rules_nil r : admits_rules r [] [] [].
Proof. intros proto port p. split; split; intros (? & ?%not_elem_of_nil & _); done. Qed.

Lemma admits_rules_app r rs1 rs2 i1 i2 e1 e2 :
  admits_rules r rs1 i1 e1 -> admits_rules r rs2 i2 e2 -> admits_rules r (rs1 ++ rs2) (i1 ++ i2) (e1 ++ e2).
Proof.
  intros H1 H2 proto port p. destruct (H1 proto port p) as [A1 B1], (H2 proto port p) as [A2 B2].
  setoid_rewrite elem_of_app. split; [rename A1 into C1, A2 into C2|rename B1 into C1, B2 into C2];
  clear - C1 C2; (split; [intros (ru & [?|?] & ?)|intros (rule & [?|?] & ?)]);
  (destruct (proj1 C1) as (? & ? & ?); [by eauto|by eauto 6]) ||
  (destruct (proj1 C2) as (? & ? & ?); [by eauto|by eauto 6]) ||
  (destruct (proj2 C1) as (? & ? & ?); [by eauto|by eauto 6]) ||
  (destruct (proj2 C2) as (? & ? & ?); [by eauto|by eauto 6]).
Qed.

Lemma computeRules_loop_spec l rs : forall r n,
  exists ok n', computeRules_loop l rs (with_np l n r) = Some (ok, with_np l n' r) /\
  np_Rules n' = np_Rules n /\
  if ok : bool then
    np_rulesReady n' = np_rulesReady n /\
    exists ing eg, np_ingressRules n' = (np_ingressRules n ++ ing)%list /\
      np_egressRules n' = (np_egressRules n ++ eg)%list /\ admits_rules r rs ing eg
  else np_rulesReady n' = false /\ np_ingressRules n' = [] /\ np_egressRules n' = [] /\
    exists ag, ag ∈ np_addr_groups rs /\ ~ known r ag.
Proof.
  induction rs as [|rule rs IH]; intros r n.
  - exists true, n. split; [done|]. split; [done|]. split; [done|]. exists [], [].
    rewrite !app_nil_r. auto using admits_rules_nil.
  - destruct (rules_spec (with_np l n r) rule) as (ing & eg & ready & Hrun & Hready).
    cbn [computeRules_loop]. rewrite (bind_run _ _ _ _ _ Hrun). destruct ready; cbn [negb].
    + rewrite (bind_run _ _ _ _ _ (upd_np_run _ _ _ _ (with_np_lookup l n r))), with_np_twice.
      destruct (IH r (np_set_rules (np_ingressRules n ++ ing) (np_egressRules n ++ eg) (np_rulesReady n) n))
        as (ok & n' & Hr & HR & Hok).
      exists ok, n'. split; [done|]. split; [done|]. destruct ok.
      * destruct Hok as (? & ing' & eg' & Hi & He & Ha). split; [done|]. exists (ing ++ ing')%list, (eg ++ eg')%list.
        rewrite !app_assoc. split; [done|]. split; [done|]. apply (admits_rules_app r [rule]); [|done].
        intros proto port p. destruct Hready as [HI HE].
        rewrite (HI proto port p), (HE proto port p). setoid_rewrite list_elem_of_singleton.
        split; (split; [by eauto|by intros (? & -> & ?)]).
      * destruct Hok as (? & ? & ? & ag & ? & ?). repeat (split; [done|]). exists ag. split; [|done].
        by apply elem_of_app; right.
    + rewrite (bind_run _ _ _ _ _ (upd_np_run _ _ _ _ (with_np_lookup l n r))), with_np_twice.
      exists false. eexists. split; [reflexivity|]. repeat (split; [done|]).
      destruct Hready as (ag & Hag & ?). exists ag. split; [|done]. simpl in *. rewrite app_nil_r in Hag.
      by apply elem_of_app; left.
Qed.

(** ** Readiness *)

Definition group_ready (r : Reconciler) (ag : string) : Prop :=
  known r ag /\ forall l s, names_group r ag l s -> addr_isReady s = true.

Lemma check_sgs_spec r ls :
  (forall l, l ∈ ls -> is_Some (h_sg (heap r) !! l)) ->
  exists o, check_sgs false ls r = Some (o, r) /\
  match o with
  | None => forall l s, l ∈ ls -> h_sg (heap r) !! l = Some s -> addr_isReady s = true
  | Some _ => exists l s, l ∈ ls /\ h_sg (heap r) !! l = Some s /\ addr_isReady s = false
  end.
Proof.
  induction ls as [|l ls IH]; intros Hls.
  - exists None. split; [done|]. by intros ? ? ?%not_elem_of_nil.
  - destruct (Hls l) as [s Hs]; [left|]. simpl. rewrite (bind_run _ _ _ _ _ (get_sg_run _ _ _ Hs)).
    destruct (addr_isReady s) eqn:E; simpl.
    + destruct IH as (o & Hr & Ho); [by intros; apply Hls; right|]. exists o. split; [done|]. destruct o.
      * destruct Ho as (l' & s' & ? & ? & ?). exists l', s'. split; [by right|done].
      * intros l' s' [->|?]%elem_of_cons ?; [congruence|eauto].
    + eexists. split; [done|]. exists l, s. split; [left|done].
Qed.

Lemma check_groups_spec r names :
  exists o, check_groups false names r = Some (o, r) /\
  (o = None <-> forall ag, ag ∈ names -> group_ready r ag).
Proof.
  induction names as [|ag names (o & Hrun & IH)].
  - exists None. split; [done|]. split; [|done]. by intros _ ? ?%not_elem_of_nil.
  - simpl. rewrite (bind_run _ _ r _ r eq_refl). pose proof (elem_of_sgs_of_group r ag) as He.
    simpl. set (ls := ix_ByIndex _ _ _) in *. destruct (decide (length ls = 0%nat)) as [E|E].
    { eexists. split; [done|]. split; [done|]. intros Ha. destruct (Ha ag) as [(l & s & Hl) _]; [left|].
      apply nil_length_inv in E. rewrite E in He. exfalso. eapply not_elem_of_nil, He; eauto. }
    destruct (check_sgs_spec r ls) as (o' & Hr & Ho'). { intros l (s & _ & Hs & _)%He. eauto. }
    rewrite (bind_run _ _ _ _ _ Hr). destruct o' as [e|].
    + eexists. split; [done|]. split; [done|]. intros Ha. destruct (Ha ag) as [_ Hall]; [left|].
      destruct Ho' as (l & s & (s' & Hl)%He & Hs & Hf). pose proof (Hall l s') as Ht.
      destruct Hl as (? & ? & ?). simplify_eq. rewrite Ht in Hf; [done|]. by split_and!.
    + exists o. split; [done|]. rewrite IH. split.
      * intros Ha ag' [->|]%elem_of_cons; [|by apply Ha]. split.
        -- destruct ls as [|l ls']; [done|]. destruct (proj1 (He l)) as [s Hs]; [left|]. by exists l, s.
        -- intros l s Hl. apply (Ho' l); [apply He; eauto|apply Hl].
      * intros Ha ag' ?. apply Ha. by right.
Qed.

Lemma name_set_lookup names (m : gmap string unit) k :
  fold_left (fun m s => <[s := tt]> m) names m !! k =
  if decide (k ∈ names) then Some tt else m !! k.
Proof.
  induction names as [|x names IH] using rev_ind; [by rewrite decide_False by apply not_elem_of_nil|].
  rewrite fold_left_app. simpl. destruct (decide (k = x)) as [->|Hk].
  - rewrite lookup_insert_eq, decide_True; [done|]. apply elem_of_app. right. by apply list_elem_of_singleton.
  - rewrite lookup_insert_ne, IH by done. apply decide_ext. rewrite elem_of_app, list_elem_of_singleton. tauto.
Qed.

Lemma elem_of_addrGrpNames rs ag : ag ∈ addrGrpNames rs <-> ag ∈ np_addr_groups rs.
Proof.
  unfold addrGrpNames. rewrite list_elem_of_fmap. split.
  - intros ([ag' []] & -> & Hag%elem_of_go_range). simpl in *. rewrite name_set_lookup in Hag. by case_decide.
  - intros Hag. exists (ag, tt). split; [done|]. apply elem_of_go_range. by rewrite name_set_lookup, decide_True.
Qed.

Lemma with_np_same l n r : h_np (heap r) !! l = Some n -> with_np l n r = r.
Proof.
  intros Hn. unfold with_np. rewrite insert_id by done. destruct r as [h ? ? ? ? ? ? ? ?]. by destruct h.
Qed.

(** [computeRulesReady] of a policy that is not ready yet. *)
Lemma computeRulesReady_run r l n :
  h_np (heap r) !! l = Some n -> np_rulesReady n = false ->
  exists e ok, computeRulesReady l false r =
    Some (e, with_np l (np_set_rules (np_ingressRules n) (np_egressRules n) ok n) r) /\
  (ok = true <-> forall ag, ag ∈ np_addr_groups (np_Rules n) -> group_ready r ag).
Proof.
  intros Hn Hf. unfold computeRulesReady. rewrite (bind_run _ _ _ _ _ (get_np_run _ _ _ Hn)), Hf. simpl.
  destruct (check_groups_spec r (addrGrpNames (np_Rules n))) as (o & Hc & Ho).
  rewrite (bind_run _ _ _ _ _ Hc). setoid_rewrite elem_of_addrGrpNames in Ho. destruct o as [e|].
  - exists e, false. split; [|split; [done|by intros ?%Ho]]. rewrite with_np_same; [done|]. rewrite Hn. destruct n. simpl in *. by subst.
  - exists None, true. split; [done|]. split; [intros _; by apply Ho|done].
Qed.

(** [computeRules] returns, and what it leaves in the policy. *)
Lemma computeRules_run r l n :
  h_np (heap r) !! l = Some n ->
  exists ok n', computeRules l r = Some (ok, with_np l n' r) /\ np_rulesReady n' = ok /\
  (ok = true <-> forall ag, ag ∈ np_addr_groups (np_Rules n) -> group_ready r ag) /\
  (ok = true -> admits_rules r (np_Rules n) (np_ingressRules n') (np_egressRules n')).
Proof.
  intros Hn. unfold computeRules. rewrite (bind_run _ _ _ _ _ (upd_np_run _ _ _ _ Hn)).
  rewrite (bind_run _ _ _ _ _ (get_np_run _ _ _ (with_np_lookup _ _ _))).
  set (n0 := np_set_rules [] [] false n).
  destruct (computeRules_loop_spec l (np_Rules n0) r n0) as (ok & n' & Hrun & HR & Hok).
  rewrite (bind_run _ _ _ _ _ Hrun). destruct ok; cbn [negb].
  - destruct Hok as (Hf & ing & eg & Hi & He & Ha).
    destruct (computeRulesReady_run _ l n' (with_np_lookup l n' r) Hf) as (e & ok & Hc & Hiff).
    rewrite (bind_run _ _ _ _ _ Hc), with_np_twice.
    rewrite (bind_run _ _ _ _ _ (get_np_run _ _ _ (with_np_lookup _ _ _))).
    eexists ok, _. split; [reflexivity|]. split; [done|]. rewrite HR in Hiff. split; [exact Hiff|].
    simpl. rewrite Hi, He. by intros _.
  - destruct Hok as (Hf & Hi & He & ag & Hag & Hk). exists false, n'. split; [done|]. split; [done|].
    split; [|done]. split; [done|]. intros Hg. by destruct (Hg ag Hag) as [? _].
Qed.


(** ** [updateRules] *)

Lemma mapM_get_run r ls ns :
  Forall2 (fun l n => h_np (heap r) !! l = Some n) ls ns -> mapM_get ls r = Some (ns, r).
Proof.
  induction 1 as [|l n ls ns Hl _ IH]; [done|]. simpl.
  by rewrite (bind_run _ _ _ _ _ (get_np_run _ _ _ Hl)), (bind_run _ _ _ _ _ IH).
Qed.

Lemma collect_rules_spec ns :
  match collect_rules ns with
  | Some (irules, erules) =>
      Forall (fun n => np_rulesReady n = true) ns /\
      irules = flat_map np_ingressRules ns /\ erules = flat_map np_egressRules ns
  | None => Exists (fun n => np_rulesReady n = false) ns
  end.
Proof.
  induction ns as [|n ns IH]; simpl; [done|]. destruct (np_rulesReady n) eqn:E; simpl; [|by constructor].
  destruct (collect_rules ns) as [[irules erules]|]; [|by right].
  destruct IH as (? & -> & ->). split; [by constructor|done].
Qed.

Lemma elem_of_flat_map {A B} (f : A -> list B) l y : y ∈ flat_map f l <-> exists x, x ∈ l /\ y ∈ f x.
Proof.
  rewrite list_elem_of_In, in_flat_map. setoid_rewrite <- list_elem_of_In. done.
Qed.

(** The policies applied to a group. *)
Definition policies_of (r : Reconciler) (name : string) : list loc :=
  ix_ByIndex (np_by_appliedTo (heap r)) name (networkPolicyIndexer (ixs r)).

(** For a created appliedTo group with policies and no retry under way,
    [updateRules] returns.  If the rules of all its policies are ready it sends
    exactly one request, for this group, whose rules admit exactly the traffic
    that the rules of some policy admit; if those of one policy are not ready,
    it sends nothing.  It changes nothing else. *)
Theorem updateRules_sends r l s ns :
  h_sg (heap r) !! l = Some s -> sg_state s = securityGroupStateCreated -> sg_retryOp s = None ->
  Forall2 (fun l n => h_np (heap r) !! l = Some n) (policies_of r (cid_Name (sg_id s))) ns -> ns <> [] ->
  Forall (fun n => Forall ingress_wf (np_ingressRules n) /\ Forall egress_wf (np_egressRules n)) ns ->
  (Forall (fun n => np_rulesReady n = true) ns ->
    exists ing eg, updateRules l r = Some (tt, set_calls (calls r ++
      [mkCall l (UpdateSecurityGroupRules (sg_id s) ing eg) (ReportOp securityGroupOperationUpdateRules)]) r) /\
    forall proto port p,
      ((exists ru, ru ∈ ing /\ ingress_admits ru proto port p) <->
       exists n ru, n ∈ ns /\ ru ∈ np_ingressRules n /\ ingress_admits ru proto port p) /\
      ((exists ru, ru ∈ eg /\ egress_admits ru proto port p) <->
       exists n ru, n ∈ ns /\ ru ∈ np_egressRules n /\ egress_admits ru proto port p)) /\
  (Exists (fun n => np_rulesReady n = false) ns -> updateRules l r = Some (tt, r)).
Proof.
  intros Hs Hst Hop Hns Hne Hwf.
  assert (updateRules l r = match collect_rules ns with
    | None => Some (tt, r)
    | Some (irules, erules) => Some (tt, set_calls (calls r ++
      [mkCall l (UpdateSecurityGroupRules (sg_id s) (deduplicateIngressRules irules)
        (deduplicateEgressRules erules)) (ReportOp securityGroupOperationUpdateRules)]) r)
    end) as Hrun.
  { unfold updateRules, appliedTo_isReady. rewrite (bind_run _ _ _ _ _ (get_sg_run _ _ _ Hs)), Hst, Hop. simpl.
    rewrite (bind_run _ _ r (policies_of r (cid_Name (sg_id s))) r eq_refl).
    rewrite decide_False by (by rewrite (Forall2_length _ _ _ Hns), length_zero_iff_nil).
    rewrite (bind_run _ _ _ _ _ (mapM_get_run _ _ _ Hns)). by destruct (collect_rules ns) as [[]|]. }
  rewrite Hrun. pose proof (collect_rules_spec ns) as Hc. destruct (collect_rules ns) as [[irules erules]|].
  - destruct Hc as (Hall & -> & ->). split; [|intros (n & Hn & Hf)%Exists_exists; by rewrite list.Forall_forall in Hall;
      rewrite (Hall n Hn) in Hf].
    intros _. eexists _, _. split; [reflexivity|]. intros proto port p.
    rewrite dedup_ingress_admits, dedup_egress_admits.
    + setoid_rewrite elem_of_flat_map.
      split; (split; [intros (ru & (n & ? & ?) & ?)|intros (n & ru & ? & ? & ?)]; eauto 8).
    + apply list.Forall_forall. intros ru (n & Hn & Hru)%elem_of_flat_map.
      destruct (proj1 (list.Forall_forall _ _) Hwf n Hn) as [_ H]. exact (proj1 (list.Forall_forall _ _) H ru Hru).
    + apply list.Forall_forall. intros ru (n & Hn & Hru)%elem_of_flat_map.
      destruct (proj1 (list.Forall_forall _ _) Hwf n Hn) as [H _]. exact (proj1 (list.Forall_forall _ _) H ru Hru).
  - split; [|done]. intros Hall. apply Exists_exists in Hc as (n & Hn & Hf). rewrite list.Forall_forall in Hall.
    by rewrite (Hall n Hn) in Hf.
Qed.

End Rules.
