(* ===== verification/NPRetry.v ===== *)
(** * Retries

    How often an item of the retry queue is run, and what a pending group
    remembers of the events it holds back. *)

From stdpp Require Import base strings list gmap.
From Stdlib Require Import ZArith Lia.
From S2P Require Import Prelude GoStrings GoNet SecurityGroup RuleMerge NPState NPPending NPInvariants NPRules.

#[local] Open Scope string_scope.
#[local] Open Scope Z_scope.

Section Retry.
Context {IXC : CacheIndexer} {RNG : MapRange}.

(** An item whose run fails every time; each run leaves the mark [c]. *)
Definition failing (c : CloudCall) (id : string) (i : PendingItem) : M bool :=
  call_cloud c;; mret false.

Fixpoint rounds (c : CloudCall) (k : string) (m : nat) : M unit :=
  match m with
  | O => mret tt
  | S m => queue_CheckItem (failing c) RetryQueue k;; rounds c k m
  end.

(** One round for an item that can always be run, with [n] tries left. *)
Lemma check_item_run c k r l p cl n :
  retryQueue r !! k = Some (mkCounting (PendingGroup l) (Some cl)) ->
  h_pg (heap r) !! l = Some p -> pg_refCnt p = None -> h_cnt (heap r) !! cl = Some n ->
  exists r', queue_CheckItem (failing c) RetryQueue k r = Some (tt, r') /\
  calls r' = (if 0 <? n then calls r ++ [c] else calls r)%list /\
  h_pg (heap r') = h_pg (heap r) /\ h_cnt (heap r') = <[cl := n - 1]> (h_cnt (heap r)) /\
  retryQueue r' = if n <=? 0 then delete k (retryQueue r) else retryQueue r.
Proof.
  intros Hq Hp Href Hc.
  unfold queue_CheckItem, queue_lookup, RunOrDeletePendingItem, read_opCnt, dec_opCnt, get_pg, get_cnt.
  unfold mbind, M_bind, gets, deref, mret, M_ret. cbn [get_queue]. rewrite Hq. cbn [ci_item ci_opCnt].
  rewrite Hp. unfold pendingGroup_RunOrDeletePendingItem. rewrite Href. simpl. rewrite Hc.
  destruct (0 <? n) eqn:En; simpl; rewrite ?Hc; simpl; rewrite lookup_insert_eq; simpl;
    destruct (n - 1 <? 0) eqn:E1, (n <=? 0) eqn:E2; try lia; eexists; (split; [reflexivity|done]).
Qed.

Lemma check_item_gone c k r : retryQueue r !! k = None -> queue_CheckItem (failing c) RetryQueue k r = Some (tt, r).
Proof.
  intros Hq. unfold queue_CheckItem, queue_lookup, mbind, M_bind, gets. cbn [get_queue]. by rewrite Hq.
Qed.

Lemma rounds_gone c k r m : retryQueue r !! k = None -> rounds c k m r = Some (tt, r).
Proof.
  intros Hq. induction m as [|m IH]; [done|]. simpl. by rewrite (bind_run _ _ _ _ _ (check_item_gone c k r Hq)).
Qed.


End Retry.

(** ** The members a pending group holds back *)

Lemma drop_members_added ms : forall a rm a' rm',
  drop_members ms (a, rm) = Some (a', rm') ->
  forall k, a' !! k = if decide (Some k ∈ map member_key ms) then None else a !! k.
Proof.
  induction ms as [|m ms IH]; intros a rm a' rm'; cbn [drop_members map].
  - intros [= -> ->] k. case_decide as Hn; [by apply not_elem_of_nil in Hn|done].
  - destruct (member_key m) as [key|] eqn:Hk; [|done].
    assert (forall a1 : members_map, (forall k, a1 !! k = if decide (k = key) then None else a !! k) ->
      (forall k, a' !! k = if decide (Some k ∈ map member_key ms) then None else a1 !! k) ->
      forall k, a' !! k = if decide (Some k ∈ Some key :: map member_key ms) then None else a !! k) as Hstep.
    { intros a1 H1 H2 k. rewrite H2, H1. destruct (decide (k = key)) as [->|Hne].
      - rewrite (decide_True _ _ (P := Some key ∈ Some key :: _)) by left. by case_decide.
      - erewrite decide_ext; [reflexivity|]. rewrite elem_of_cons. naive_solver. }
    destruct (a !! key) as [x|] eqn:Ha; intros Hd.
    + eapply Hstep; [|by eapply IH]. intros k. case_decide; subst; [apply lookup_delete_eq|by apply lookup_delete_ne].
    + eapply Hstep; [|by eapply IH]. intros k. case_decide; subst; done.
Qed.

Lemma take_members_added ms : forall a rm a' rm',
  take_members ms (a, rm) = Some (a', rm') ->
  forall k, is_Some (a' !! k) <-> Some k ∈ map member_key ms \/ is_Some (a !! k).
Proof.
  induction ms as [|m ms IH]; intros a rm a' rm'; simpl.
  - intros [= -> ->] k. split; [by right|by intros [?%not_elem_of_nil|]].
  - destruct (member_key m) as [key|] eqn:Hk; [|done]. intros Hd k. rewrite (IH _ _ _ _ Hd k), elem_of_cons.
    unfold members_map in *.
    destruct (decide (k = key)) as [->|Hne]; [rewrite lookup_insert_eq|rewrite lookup_insert_ne by done]; naive_solver.
Qed.

Lemma drop_members_total ms acc : (forall m, m ∈ ms -> is_Some (gm_ExternalEntity m)) -> is_Some (drop_members ms acc).
Proof.
  revert acc. induction ms as [|m ms IH]; intros [a rm] Hms; simpl; [done|].
  destruct (Hms m) as [e He]; [left|]. unfold member_key. rewrite He. simpl.
  destruct (a !! _); apply IH; intros; apply Hms; by right.
Qed.

Lemma take_members_total ms acc : (forall m, m ∈ ms -> is_Some (gm_ExternalEntity m)) -> is_Some (take_members ms acc).
Proof.
  revert acc. induction ms as [|m ms IH]; intros [a rm] Hms; simpl; [done|].
  destruct (Hms m) as [e He]; [left|]. unfold member_key. rewrite He. simpl.
  apply IH; intros; apply Hms; by right.
Qed.

(** A pending group that receives an added or modified event, whose members
    all have an external entity, keeps exactly the members it had, without the
    removed ones, and with the added ones; its counter and its run flag do not
    change.  A deletion empties it. *)
Theorem pendingGroup_membership p event added removed :
  event = Added \/ event = Modified \/ event = Deleted ->
  (forall m, m ∈ added \/ m ∈ removed -> is_Some (gm_ExternalEntity m)) ->
  exists p', pendingGroup_UpdatePendingItem (UpdateEvent event added removed) p = Some p' /\
  pg_refCnt p' = pg_refCnt p /\ pg_runOnClear p' = pg_runOnClear p /\
  forall k, is_Some (pg_addedMembers p' !! k) <->
    event <> Deleted /\
    (Some k ∈ map member_key added \/ is_Some (pg_addedMembers p !! k) /\ Some k ∉ map member_key removed).
Proof.
  intros Hev Hms. set (p1 := match pg_event p with
    | EventNone => mkPendingGroup (pg_refCnt p) (pg_runOnClear p) event (pg_addedMembers p) (pg_removedMembers p)
    | _ => p end).
  assert (pg_refCnt p1 = pg_refCnt p /\ pg_runOnClear p1 = pg_runOnClear p /\
    pg_addedMembers p1 = pg_addedMembers p) as (Hr & Ho & Ha) by (unfold p1; by destruct (pg_event p)).
  unfold pendingGroup_UpdatePendingItem. fold p1.
  destruct (drop_members_total removed (pg_addedMembers p1, pg_removedMembers p1)) as [[a1 r1] H1]; [by auto|].
  destruct (take_members_total added (a1, r1)) as [[a2 r2] H2]; [by auto|]. rewrite H1, H2.
  pose proof (drop_members_added _ _ _ _ _ H1) as Hd. pose proof (take_members_added _ _ _ _ _ H2) as Ht.
  assert (forall k, is_Some (a2 !! k) <-> Some k ∈ map member_key added \/
    is_Some (pg_addedMembers p !! k) /\ Some k ∉ map member_key removed) as Hk.
  { intros k. rewrite Ht, Hd, Ha. case_decide; [|tauto]. split; [intros [?|[? ?]]; [by left|done]|intros [?|[? ?]]; [by left|done]]. }
  destruct Hev as [->|[->| ->]]; eexists; (split; [reflexivity|]); simpl; repeat (split; [done|]); intros k.
  - rewrite Hk. naive_solver.
  - rewrite Hk. naive_solver.
  - rewrite lookup_empty. split; [by intros [? ?]|naive_solver].
Qed.
