(* ===== verification/NPTheorems.v ===== *)
(** * What the reconciler guarantees

    The properties of the NetworkPolicy reconciler: what holds in every state
    the system reaches, what a rule update sends to the cloud, when the rules
    of a policy are ready, how often an item is retried; and runs that show
    where the code does not do what it means to. *)

From stdpp Require Import base strings list gmap relations.
From Stdlib Require Import ZArith Lia.
From S2P Require Import Prelude GoStrings GoNet GoCIDR SecurityGroup RuleMerge NPState NPPending NPGroups.
From S2P Require Import NPPolicy NPSync NPController NPInvariants NPSafety NPReach NPSystem NPRules NPRetry.

#[local] Open Scope string_scope.
#[local] Open Scope Z_scope.

(** ** Every reachable state *)

Section Reachable.
Context {IXC : CacheIndexer} {RNG : MapRange}.
#[local] Instance always_strict : Strictness := true.

(** C21: Before the controller has synchronised with the cloud for the first
    time, however events are interleaved, it has sent no request to the cloud,
    no answer is under way, and no group is recorded as created, deleted or
    retried. *)
Theorem no_request_before_sync sys :
  reachable sys -> syncedWithCloud (sys_r sys) = false ->
  calls (sys_r sys) = [] /\ sys_responses sys = [] /\
  (forall l s, h_sg (heap (sys_r sys)) !! l = Some s ->
    sg_state s = securityGroupStateInit /\ sg_retryOp s = None).
Proof.
  intros [W Hresp]%reachable_wf Hs. assert (before_sync (sys_r sys)) as Hb by done.
  destruct (wf_quiet _ W Hb) as (Hc & Hq & _). split; [done|]. split; [auto|].
  intros l s Hl. by destruct (Hq l s Hl) as (? & _ & ?).
Qed.

(** C9: Every request that waits for an answer was made for a group with the
    identifier and of the kind it names; members and rules are only updated for
    a group that has been created, rules only for an appliedTo group, and only
    a group on its way out is deleted. *)
Theorem requests_match_groups sys c :
  reachable sys -> c ∈ calls (sys_r sys) ->
  exists s, h_sg (heap (sys_r sys)) !! call_sg c = Some s /\
  match call_req c with
  | CreateSecurityGroup id mo => id = sg_id s /\ mo = sg_membershipOnly s
  | DeleteSecurityGroup id mo =>
      id = sg_id s /\ mo = sg_membershipOnly s /\ sg_state s = securityGroupStateGarbageCollectState
  | UpdateSecurityGroupMembers id _ mo =>
      id = sg_id s /\ mo = sg_membershipOnly s /\ sg_state s <> securityGroupStateInit
  | UpdateSecurityGroupRules id _ _ =>
      id = sg_id s /\ sg_membershipOnly s = false /\ sg_state s <> securityGroupStateInit
  end.
Proof.
  intros [W _]%reachable_wf Hc. destruct (wf_calls _ W c Hc) as (s & Hs & Hok).
  exists s. split; [done|]. unfold call_ok in Hok. destruct (call_req c); tauto.
Qed.

Lemma steps_evolve s s' : reachable s -> rtc step s s' -> evolves (sys_r s) (sys_r s').
Proof.
  intros Hr Hsteps. induction Hsteps as [s|s t s' Hst _ IH]; [reflexivity|].
  transitivity (sys_r t).
  - by destruct (step_good _ _ (reachable_wf _ Hr) Hst) as [_ ?].
  - apply IH. by eapply reach_step.
Qed.

(** C22: Whatever happens, a group keeps its identifier and its kind, and its
    state only moves forward: initial, created, garbage. *)
Theorem group_life_cycle s s' l g :
  reachable s -> rtc step s s' -> h_sg (heap (sys_r s)) !! l = Some g ->
  exists g', h_sg (heap (sys_r s')) !! l = Some g' /\ sg_id g' = sg_id g /\
    sg_membershipOnly g' = sg_membershipOnly g /\ state_rank (sg_state g) <= state_rank (sg_state g').
Proof.
  intros Hr Hsteps Hg. destruct (steps_evolve _ _ Hr Hsteps) as [He _].
  destruct (He l g Hg) as (g' & Hg' & []). eauto 6.
Qed.

(** In every reachable state the indexer of each kind files groups of that
    kind under their own identifier, and never one that is being deleted; the
    groups a tracker refers to are appliedTo groups, under their identifiers;
    and a retried group is filed under its unique name with a counter of at
    most [operationCount]. *)
Theorem indexes_consistent sys :
  reachable sys ->
  (forall b k l, ix_contents (sgIx b (ixs (sys_r sys))) !! k = Some l ->
    exists s, h_sg (heap (sys_r sys)) !! l = Some s /\ sg_membershipOnly s = b /\
      CloudResourceID_String (sg_id s) = k /\ sg_state s <> securityGroupStateGarbageCollectState) /\
  (forall c t k l, h_tr (heap (sys_r sys)) !! c = Some t -> tr_appliedToSGs t !! k = Some l ->
    exists s, h_sg (heap (sys_r sys)) !! l = Some s /\ sg_membershipOnly s = false /\
      CloudResourceID_String (sg_id s) = k) /\
  (forall k l c, retryQueue (sys_r sys) !! k = Some (mkCounting (PendingSG l) (Some c)) ->
    exists s n, h_sg (heap (sys_r sys)) !! l = Some s /\ h_cnt (heap (sys_r sys)) !! c = Some n /\
      k = getGroupUniqueName (CloudResourceID_String (sg_id s)) (sg_membershipOnly s) /\ n <= operationCount).
Proof.
  intros [W _]%reachable_wf. split; [|split].
  - intros b k l Hk. exact (wf_sgix _ W b k l Hk).
  - intros c t k l Hc Hk. exact (proj1 (wf_trs _ W c t Hc) k l Hk).
  - intros k l c Hk. destruct (wf_retry _ W k _ Hk) as ((s & Hs & ->) & c' & n & Hc & Hn & Hle).
    simpl in Hc. simplify_eq. eauto 8.
Qed.

End Reachable.

(** ** Runs

    A run of the system chosen step by step, so that a reachable state is
    computed. *)
Section Runs.
Context {IXC : CacheIndexer} {RNG : MapRange}.

Inductive Action :=
  | Receive (env : Env) (ev : Event)
  | Answer (i : nat) (err : option GoError)
  | Deliver (env : Env) (i : nat).

Definition is_response (ev : Event) : bool := match ev with EvResponse _ => true | _ => false end.

Definition perform (a : Action) (s : System) : option System :=
  match a with
  | Receive env ev =>
      if is_response ev then None
      else match handle env ev (sys_r s) with
           | Some (_, r) => Some (mkSystem r (sys_responses s))
           | None => None
           end
  | Answer i err =>
      match calls (sys_r s) !! i with
      | Some c => Some (mkSystem (set_calls (take i (calls (sys_r s)) ++ drop (S i) (calls (sys_r s)))%list (sys_r s))
                   (sys_responses s ++ [mkStatus (call_sg c) (reported_op (sys_r s) c) err])%list)
      | None => None
      end
  | Deliver env i =>
      match sys_responses s !! i with
      | Some st =>
          match handle env (EvResponse st) (sys_r s) with
          | Some (_, r) => Some (mkSystem r (take i (sys_responses s) ++ drop (S i) (sys_responses s))%list)
          | None => None
          end
      | None => None
      end
  end.

Fixpoint perform_all (acts : list Action) (s : System) : option System :=
  match acts with
  | [] => Some s
  | a :: acts => perform a s ≫= perform_all acts
  end.

Lemma perform_step a s s' : perform a s = Some s' -> step s s'.
Proof.
  destruct s as [r resp], a as [env ev|i err|env i]; cbn [perform sys_r sys_responses].
  - destruct (is_response ev) eqn:E; [done|]. destruct (handle env ev r) as [[[] r']|] eqn:Hh; [|done].
    intros [= <-]. eapply step_event; [|done]. by intros st ->.
  - destruct (calls r !! i) as [c|] eqn:Hc; [|done]. intros [= <-]. apply step_answer.
    symmetry. by apply take_drop_middle.
  - destruct (resp !! i) as [st|] eqn:Hc; [|done].
    destruct (handle env (EvResponse st) r) as [[[] r']|] eqn:Hh; [|done]. intros [= <-].
    pose proof (step_deliver env r r' (take i resp) st (drop (S i) resp) Hh) as Hs.
    by rewrite take_drop_middle in Hs.
Qed.

Lemma perform_all_steps acts s s' : perform_all acts s = Some s' -> rtc step s s'.
Proof.
  revert s. induction acts as [|a acts IH]; intros s; simpl; [intros [= ->]; reflexivity|].
  intros (s1 & H1 & H2)%bind_Some. eapply rtc_l; [by eapply perform_step|auto].
Qed.

Lemma reachable_rtc s s' : reachable s -> rtc step s s' -> reachable s'.
Proof. intros Hr. induction 1; [done|]. eauto using reach_step. Qed.

Definition start : System := mkSystem (SetupWithManager true) [].

(** The state a run ends in. *)
Definition reached (acts : list Action) : System := default start (perform_all acts start).
Definition runs (acts : list Action) : bool := bool_decide (is_Some (perform_all acts start)).

Lemma reached_reachable acts : reachable (reached acts).
Proof.
  unfold reached. destruct (perform_all acts start) as [s|] eqn:E; simpl; [|apply reach_init].
  eapply reachable_rtc; [apply (reach_init true)|by eapply perform_all_steps].
Qed.

Lemma perform_all_app a1 a2 s : perform_all (a1 ++ a2) s = perform_all a1 s ≫= perform_all a2.
Proof. revert s. induction a1 as [|a a1 IH]; intros s; simpl; [done|]. destruct (perform a s); simpl; auto. Qed.

Lemma reached_steps a1 a2 : runs (a1 ++ a2) = true -> rtc step (reached a1) (reached (a1 ++ a2)).
Proof.
  unfold runs, reached. rewrite bool_decide_eq_true, perform_all_app.
  destruct (perform_all a1 start) as [s|]; simpl; [|by intros [? ?]].
  intros [s' Hs']. rewrite Hs'. by eapply perform_all_steps.
Qed.

End Runs.

(** ** Sample runs *)

#[local] Existing Instance map_indexer.
#[local] Existing Instance map_to_list_range.

Definition nn (name : string) : NamespacedName := mkNamespacedName "ns" name.

(** Every external entity is owned by a virtual machine of the same name. *)
Definition entity (k : NamespacedName) : ExternalEntity :=
  mkExternalEntity k {[ExternalEntityLabelKeyKind := virtualMachineLabelKind]}
    [mkOwner VirtualMachineCRDKind (nn_Name k)] [].
Definition machine (k : NamespacedName) : VirtualMachine :=
  mkVirtualMachine k (<[AnnotationCloudAssignedIDKey := "id-" +:+ nn_Name k]>
    {[AnnotationCloudAssignedVPCIDKey := "vpc1"]}) [].
Definition env0 : Env :=
  mkEnv (fun k => GetOk (entity k)) (fun k => GetOk (machine k)) (fun _ => inr []) (fun _ => inr []) [].
(** The same with a client that fails to read external entities. *)
Definition env_down : Env :=
  mkEnv (fun _ => GetError (ErrorString "timeout")) (fun k => GetOk (machine k)) (fun _ => inr []) (fun _ => inr []) [].

Definition member (name : string) : GroupMember := mkGroupMember (Some (nn name)).
Definition tcp80 : Service := mkService (Some ProtocolTCP) (Some 80).
Definition policy : AntreaPolicy :=
  mkAntreaPolicy (nn "np") [mkRule DirectionIn (mkPeer ["ag"] []) (mkPeer [] []) (Some [tcp80]) (Some RuleActionAllow)] ["at"]
    (Some (mkSourceRef AntreaNetworkPolicy "ns" "np")).

Definition add_ag (ms : list GroupMember) : Action := Receive env0 (EvAddrGrp Added (CompleteGroup "ag" ms)).
Definition add_at (ms : list GroupMember) : Action := Receive env0 (EvAppliedToGrp Added (CompleteGroup "at" ms)).
Definition bookmarks : list Action :=
  [Receive env0 (EvAddrGrp Bookmark (CompleteGroup "" []));
   Receive env0 (EvAppliedToGrp Bookmark (CompleteGroup "" []));
   Receive env0 (EvNetworkPolicy Bookmark policy)].
Definition ok : list Action := [Answer 0 None; Deliver env0 0].
Definition failed : list Action := [Answer 0 (Some (ErrorString "throttled")); Deliver env0 0].
(** Address and appliedTo group and policy before the first synchronisation. *)
Definition early : list Action :=
  [add_ag [member "vm1"]; add_at [member "vm2"]; Receive env0 (EvNetworkPolicy Added policy)].
(** The same after it, the requests not answered yet. *)
Definition late : list Action := (bookmarks ++ early)%list.

Lemma no_request_before_sync_witness :
  calls (sys_r (reached early)) = [] /\ sys_responses (reached early) = [] /\
  (forall l s, h_sg (heap (sys_r (reached early))) !! l = Some s ->
    sg_state s = securityGroupStateInit /\ sg_retryOp s = None).
Proof.
  apply (no_request_before_sync (reached early)); [apply reached_reachable|vm_compute; reflexivity].
Defined.

Lemma requests_match_groups_witness :
  exists s, h_sg (heap (sys_r (reached late))) !! 1%positive = Some s /\
    mkCloudResourceID "ag" "vpc1" = sg_id s /\ true = sg_membershipOnly s.
Proof.
  apply (requests_match_groups (reached late)
    (mkCall 1%positive (CreateSecurityGroup (mkCloudResourceID "ag" "vpc1") true) (ReportOp securityGroupOperationAdd)));
    [apply reached_reachable|vm_compute; left].
Defined.

Lemma group_life_cycle_witness :
  exists g', h_sg (heap (sys_r (reached (late ++ ok)))) !! 1%positive = Some g' /\
    sg_id g' = mkCloudResourceID "ag" "vpc1" /\ sg_membershipOnly g' = true /\ 0 <= state_rank (sg_state g').
Proof.
  refine (group_life_cycle (reached late) (reached (late ++ ok)) 1%positive
    (mkSG true [mkCloudResource CloudResourceTypeVM (mkCloudResourceID "id-vm1" "vpc1")] (mkCloudResourceID "ag" "vpc1")
      securityGroupStateInit false (Some InProgress) None false [] false false) _ _ _);
    [apply reached_reachable|apply (reached_steps late ok); vm_compute; reflexivity|vm_compute; reflexivity].
Defined.

Lemma indexes_consistent_witness :
  exists s, h_sg (heap (sys_r (reached late))) !! 1%positive = Some s /\ sg_membershipOnly s = true /\
    CloudResourceID_String (sg_id s) = "ag/vpc1" /\ sg_state s <> securityGroupStateGarbageCollectState.
Proof.
  refine (proj1 (indexes_consistent (reached late) _) true "ag/vpc1" 1%positive _);
    [apply reached_reachable|vm_compute; reflexivity].
Defined.

(** Both groups created: the rules of the policy are sent. *)
Definition applied : list Action := (late ++ ok ++ ok)%list.
Definition the_policy : networkPolicy :=
  mkNP (nn "np") (anp_Rules policy) ["at"]
    [mkIngressRule (Some 80) [] [mkCloudResourceID "ag" "vpc1"] (Some 6)] [] true.
Definition the_group : securityGroup :=
  mkSG false [mkCloudResource CloudResourceTypeVM (mkCloudResourceID "id-vm2" "vpc1")] (mkCloudResourceID "at" "vpc1")
    securityGroupStateCreated false None None false [] false false.


Lemma updateRules_sends_witness :
  exists ing eg, updateRules 2%positive (sys_r (reached applied)) =
    Some (tt, set_calls (calls (sys_r (reached applied)) ++
      [mkCall 2%positive (UpdateSecurityGroupRules (mkCloudResourceID "at" "vpc1") ing eg)
         (ReportOp securityGroupOperationUpdateRules)]) (sys_r (reached applied))).
Proof.
  assert (policies_of (sys_r (reached applied)) "at" = [4%positive]) as Hp by (vm_compute; reflexivity).
  assert (h_np (heap (sys_r (reached applied))) !! 4%positive = Some the_policy) as Hn by (vm_compute; reflexivity).
  assert (h_sg (heap (sys_r (reached applied))) !! 2%positive = Some the_group) as Hs by (vm_compute; reflexivity).
  revert Hp Hn Hs. generalize (sys_r (reached applied)). intros r Hp Hn Hs.
  destruct (proj1 (updateRules_sends r 2%positive the_group [the_policy] Hs eq_refl eq_refl
    ltac:(change (cid_Name (sg_id the_group)) with "at"; rewrite Hp; constructor; [exact Hn|constructor])
    ltac:(discriminate)
    ltac:(apply Forall_singleton; split; [apply Forall_singleton; repeat constructor; discriminate|constructor]))
    ltac:(apply Forall_singleton; reflexivity)) as (ing & eg & H & _).
  exists ing, eg. exact H.
Defined.

(** A group whose members could not be read waits in the retry queue. *)
Definition waiting : list Action :=
  (bookmarks ++ [Receive env_down (EvAddrGrp Added (CompleteGroup "ag" [member "vm1"]))])%list.

Definition mark : CloudCall :=
  mkCall 1%positive (DeleteSecurityGroup (mkCloudResourceID "ag" "vpc1") true) (ReportOp securityGroupOperationDelete).


Lemma pendingGroup_membership_witness :
  exists p', pendingGroup_UpdatePendingItem (UpdateEvent Modified [member "vm2"] [member "vm1"])
      (mkPendingGroup (Some 0) false Added {["ns/vm1" := member "vm1"]} ∅) = Some p' /\
    is_Some (pg_addedMembers p' !! "ns/vm2").
Proof.
  destruct (pendingGroup_membership (mkPendingGroup (Some 0) false Added {["ns/vm1" := member "vm1"]} ∅)
    Modified [member "vm2"] [member "vm1"]) as (p' & H1 & _ & _ & H2).
  - right. left. reflexivity.
  - intros m [->%list_elem_of_singleton| ->%list_elem_of_singleton]; eexists; reflexivity.
  - exists p'. split; [exact H1|]. apply H2. split; [discriminate|]. left. left.
Defined.

(** ** Where the code does not do what it means to *)

Definition patch_ag (env : Env) (added removed : list GroupMember) : Action :=
  Receive env (EvAddrGrp Modified (PatchGroup "ag" added removed)).
Definition del_ag : Action := Receive env0 (EvAddrGrp Deleted (CompleteGroup "ag" [])).
Definition tick_once : Action := Receive env0 (EvTick 1).

(** When the cloud fails to clear the members of an address group, the
    retry of that request crashes the controller: [runPendingItemImpl] takes
    the group for an appliedTo group. *)
Theorem retry_of_clear_members_panics :
  exists s, reachable s /\ sys_responses s = [] /\ handle env0 (EvTick 1) (sys_r s) = None.
Proof.
  exists (reached (bookmarks ++ [add_ag [member "vm1"]] ++ ok ++ ok ++ [patch_ag env0 [] [member "vm1"]] ++ failed)).
  split; [apply reached_reachable|]. split; vm_compute; reflexivity.
Qed.

(** The members of the address group [ag] that the controller knows. *)
Definition ag_members (s : System) : option (list string) :=
  match ix_GetByKey "ag/vpc1" (addrSGIndexer (ixs (sys_r s))) with
  | Some l => (fun g => map (fun m => cid_Name (cr_Name m)) (sg_members g)) <$> h_sg (heap (sys_r s)) !! l
  | None => None
  end.
Definition is_pending (s : System) : bool := bool_decide (is_Some (pendingDeleteGroups (sys_r s) !! "mm_ag")).
Definition outstanding (s : System) : nat * nat := (length (calls (sys_r s)), length (sys_responses s)).

(** An address group that is deleted before the cloud was asked to create
    it, here before the first synchronisation, stays listed as pending delete
    with no deletion under way, so the same group added again is ignored, also
    once the controller has synchronised. *)
Theorem early_deletion_blocks_group :
  let acts := ([add_ag [member "vm1"]; del_ag; add_ag [member "vm1"]] ++ bookmarks)%list in
  runs acts = true /\ is_pending (reached acts) = true /\ outstanding (reached acts) = (0%nat, 0%nat) /\
  syncedWithCloud (sys_r (reached acts)) = true /\ ag_members (reached acts) = None.
Proof. repeat split; vm_compute; reflexivity. Qed.

(** A member removed from an address group while its external entity cannot
    be read stays in the group: the retry of the event succeeds without removing
    it, and the queue forgets it. *)
Theorem failed_removal_is_forgotten :
  let acts := (bookmarks ++ [add_ag [member "vm1"; member "vm2"]] ++ ok ++ ok ++
    [patch_ag env_down [] [member "vm2"]])%list in
  runs (acts ++ [tick_once]) = true /\
  size (retryQueue (sys_r (reached acts))) = 1%nat /\
  size (retryQueue (sys_r (reached (acts ++ [tick_once])))) = 0%nat /\
  outstanding (reached (acts ++ [tick_once])) = (0%nat, 0%nat) /\
  ag_members (reached (acts ++ [tick_once])) = Some ["id-vm1"; "id-vm2"].
Proof. repeat split; vm_compute; reflexivity. Qed.

(** An empty address group that is added again while its predecessor is
    being deleted is lost: once the deletion completes there is neither a group
    nor anything that waits to create it, whereas with a member it is created. *)
Theorem readded_empty_group_is_lost :
  let acts ms := (bookmarks ++ [add_ag [member "vm1"]] ++ ok ++ ok ++ [del_ag; add_ag ms] ++ ok)%list in
  runs (acts []) = true /\ is_pending (reached (acts [])) = false /\
  outstanding (reached (acts [])) = (0%nat, 0%nat) /\
  size (ix_contents (addrSGIndexer (ixs (sys_r (reached (acts [])))))) = 0%nat /\
  ag_members (reached (acts [member "vm1"])) = Some ["id-vm1"].
Proof. repeat split; vm_compute; reflexivity. Qed.
