(* ===== verification/NPDelivery.v ===== *)
(** * From a policy event to the rules of its groups

    A policy the reconciler did not know, received when its address groups are
    ready, makes it ask the cloud for the rules of every group the policy is
    applied to, and these rules admit exactly what the policies of the group
    allow.  The file follows the event through [processNetworkPolicy],
    [computeRules], [notifyNetworkPolicyChange] and [updateRules]. *)

From stdpp Require Import base strings list gmap.
From Stdlib Require Import ZArith Lia.
From S2P Require Import Prelude GoStrings GoNet GoCIDR SecurityGroup RuleMerge NPState NPPending NPGroups.
From S2P Require Import NPPolicy NPSync NPController NPInvariants NPSystem NPRules NPTheorems.

#[local] Open Scope string_scope.
#[local] Open Scope Z_scope.

(** ** Rules a cloud can be given

    Protocols are numbers, blocks are canonical IPv4 blocks, a port comes with the
    protocol TCP or UDP, and there is a peer. *)
Definition fields_ok (port proto : option Z) (ips : list IPNet) (sgs : list CloudResourceID) : Prop :=
  port <> Some 0 /\ (forall v, proto = Some v -> 0 < v) /\ Forall block_v4 ips /\ Forall slash_free sgs /\
  (ips <> [] \/ sgs <> []) /\ (port <> None -> proto = Some 6 \/ proto = Some 17).

Lemma positive_nonzero (proto : option Z) : (forall v, proto = Some v -> 0 < v) -> proto <> Some 0.
Proof. intros H E. specialize (H 0 E). lia. Qed.

Definition ingress_sound (r : IngressRule) : Prop :=
  fields_ok (ir_FromPort r) (ir_Protocol r) (ir_FromSrcIP r) (ir_FromSecurityGroups r).
Definition egress_sound (r : EgressRule) : Prop :=
  fields_ok (er_ToPort r) (er_Protocol r) (er_ToDstIP r) (er_ToSecurityGroups r).

Lemma CIDRMask_32_ok k : 0 <= k <= 32 ->
  forallb is_byte (CIDRMask k 32) = true /\ is_Some (simpleMaskLength (CIDRMask k 32)).
Proof.
  intros Hk. assert (k ∈ seqZ 0 33) as Hin by (apply elem_of_seqZ; lia). apply list_elem_of_In in Hin. clear Hk.
  repeat (destruct Hin as [<-|Hin]; [split; [reflexivity|eexists; vm_compute; reflexivity]|]). destruct Hin.
Qed.

Lemma block_v4_ok n : block_v4 n -> ipv4_ok n = true.
Proof.
  intros (a & b & c & d & k & -> & Hb & Hk & _). destruct (CIDRMask_32_ok k Hk) as [Hm [m Hs]].
  unfold ipv4_ok. cbn [in_IP in_Mask To4]. unfold To4. rewrite decide_True by done.
  rewrite Hb, Hm, Hs, (CIDRMask_32_length k Hk). done.
Qed.

Lemma fields_ok_wf port proto ips sgs : fields_ok port proto ips sgs -> fields_wf port proto ips sgs.
Proof.
  intros (H1 & H2 & H3 & H4 & _). split_and!; [done|by apply positive_nonzero| |done].
  eapply Forall_impl; [exact H3|exact block_v4_ok].
Qed.

(** *** Merging rules *)

Section Merged.
Context {RNG : MapRange} {R : Type}.
Context (port proto : R -> option Z) (ips : R -> list IPNet) (sgs : R -> list CloudResourceID).

Lemma deduplicateIP_ok l : Forall block_v4 l -> Forall block_v4 (deduplicateIP l) /\ (l <> [] -> deduplicateIP l <> []).
Proof.
  intros Hl. assert (all_ipv4 l) as Hok by (eapply Forall_impl; [exact Hl|exact block_v4_ok]).
  destruct (deduplicateIP_covers l Hok) as [Hsub Hcov]. rewrite list.Forall_forall in Hl. split.
  - apply list.Forall_forall. auto.
  - destruct l as [|x l]; [done|]. intros _ Hnil. assert (x ∈ x :: l) as Hx by left.
    destruct (proj1 (Hcov (in_IP x))) as (y & Hy & _).
    { exists x. split; [done|]. apply IPNet_Contains_self, block_v4_ok, Hl, Hx. }
    rewrite Hnil in Hy. by apply not_elem_of_nil in Hy.
Qed.

Lemma merged_ok rs k :
  Forall (fun r => fields_ok (port r) (proto r) (ips r) (sgs r)) rs -> k ∈ map (rule_key port proto) rs ->
  fields_ok (field_ptr k.1) (field_ptr k.2)
    (deduplicateIP (flat_map ips (filter (fun r => rule_key port proto r = k) rs)))
    (deduplicateSG (flat_map sgs (filter (fun r => rule_key port proto r = k) rs))).
Proof.
  rewrite list.Forall_forall. intros Hrs (r & -> & Hr)%list_elem_of_fmap.
  set (fs := filter _ rs). assert (r ∈ fs) as Hrf by by apply list_elem_of_filter.
  assert (forall r', r' ∈ fs -> r' ∈ rs) as Hfs by by intros r' [_ ?]%list_elem_of_filter.
  destruct (Hrs r Hr) as (H1 & H2 & _ & _ & Hne & H6). unfold rule_key. simpl. rewrite !field_ptr_key by auto using positive_nonzero.
  assert (Forall block_v4 (flat_map ips fs)) as Hips.
  { apply list.Forall_forall. intros n Hn%list_elem_of_In. apply in_flat_map in Hn as (r' & Hr' & Hn).
    apply list_elem_of_In, Hfs, Hrs in Hr' as (_ & _ & Hb & _). rewrite list.Forall_forall in Hb. by apply Hb, list_elem_of_In. }
  assert (Forall slash_free (flat_map sgs fs)) as Hsgs.
  { apply list.Forall_forall. intros n Hn%list_elem_of_In. apply in_flat_map in Hn as (r' & Hr' & Hn).
    apply list_elem_of_In, Hfs, Hrs in Hr' as (_ & _ & _ & Hb & _). rewrite list.Forall_forall in Hb. by apply Hb, list_elem_of_In. }
  destruct (deduplicateIP_ok _ Hips) as [Hd Hdn]. pose proof (fun x => elem_of_deduplicateSG _ x Hsgs) as He.
  split_and!; [done..| | |done].
  - apply list.Forall_forall. intros x Hx%He. rewrite list.Forall_forall in Hsgs. auto.
  - destruct Hne as [Hne|Hne].
    + left. apply Hdn. destruct (ips r) as [|n l] eqn:E; [done|]. intros Hnil.
      apply (in_nil (a := n)). rewrite <- Hnil. apply in_flat_map. exists r. rewrite E.
      split; [by apply list_elem_of_In|by left].
    + right. destruct (sgs r) as [|n l] eqn:E; [done|]. intros Hnil. apply (not_elem_of_nil n). rewrite <- Hnil.
      apply He, list_elem_of_In, in_flat_map. exists r. rewrite E. split; [by apply list_elem_of_In|by left].
Qed.

End Merged.

Lemma deduplicateIngressRules_sound `{MapRange} rs : Forall ingress_sound rs -> Forall ingress_sound (deduplicateIngressRules rs).
Proof.
  intros Hrs. apply list.Forall_forall. intros r (k & Hk & ->)%deduplicateIngressRules_shape.
  exact (merged_ok _ _ ir_FromSrcIP ir_FromSecurityGroups rs k Hrs Hk).
Qed.

Lemma deduplicateEgressRules_sound `{MapRange} rs : Forall egress_sound rs -> Forall egress_sound (deduplicateEgressRules rs).
Proof.
  intros Hrs. apply list.Forall_forall. intros r (k & Hk & ->)%deduplicateEgressRules_shape.
  exact (merged_ok _ _ er_ToDstIP er_ToSecurityGroups rs k Hrs Hk).
Qed.

(** ** The rules of a policy *)

Section Computed.
Context {IXC : CacheIndexer} {RNG : MapRange}.

(** What a rule of a policy has to be for its rules to be given to a cloud. *)
Record rule_sane (r : Reconciler) (rule : NetworkPolicyRule) : Prop := mk_rule_sane {
  sane_services : forall ss s, rule_Services rule = Some ss -> s ∈ ss ->
    svc_Port s <> Some 0 /\ (svc_Port s <> None -> service_protocol s = Some 6 \/ service_protocol s = Some 17);
  sane_blocks : forall dir b, b ∈ peer_IPBlocks (rule_peer dir rule) -> block_v4 (block_of b);
  sane_groups : forall dir ag l s, ag ∈ peer_AddressGroups (rule_peer dir rule) -> names_group r ag l s ->
    Forall block_v4 (sg_ipBlocks s) /\ slash_free (sg_id s)
}.

Lemma service_protocol_positive s v : service_protocol s = Some v -> 0 < v.
Proof. unfold service_protocol. destruct (svc_Protocol s) as [[]|]; simpl; try done; intros [= <-]; lia. Qed.

Lemma per_service_ok r rule ips sgs :
  rule_sane r rule -> Forall block_v4 ips -> Forall slash_free sgs -> ~ (sgs = [] /\ ips = []) ->
  Forall ingress_sound (ingress_per_service (rule_Services rule) ips sgs) /\
  Forall egress_sound (egress_per_service (rule_Services rule) ips sgs).
Proof.
  intros Hs Hips Hsgs Hne. assert (ips <> [] \/ sgs <> []) as Hne'.
  { destruct ips; [|by left]. destruct sgs; [|by right]. by destruct Hne. }
  pose proof (sane_services r rule Hs) as Hserv. unfold ingress_sound, egress_sound, fields_ok.
  destruct (rule_Services rule) as [ss|]; simpl; [|by split; apply Forall_singleton].
  split; apply list.Forall_forall; intros ru (s & -> & Hin)%list_elem_of_fmap; simpl;
    destruct (Hserv ss s eq_refl Hin); pose proof (service_protocol_positive s); done.
Qed.

(** The peers of a sane rule. *)
Lemma peers_ok r rule dir o r' :
  rule_sane r rule -> address_group_peers (peer_AddressGroups (rule_peer dir rule)) r = Some (o, r') ->
  match o with
  | None => True
  | Some (ips, sgs) =>
      Forall block_v4 (map block_of (peer_IPBlocks (rule_peer dir rule)) ++ ips)%list /\ Forall slash_free sgs
  end.
Proof.
  intros Hs Hr. destruct (address_group_peers_spec r (peer_AddressGroups (rule_peer dir rule))) as (o' & Hrun & Ho).
  rewrite Hrun in Hr. simplify_eq. destruct o as [[ips sgs]|]; [|done]. destruct Ho as (_ & Hips & Hids). split.
  - apply Forall_app. split; apply list.Forall_forall.
    + intros n (b & -> & Hb)%list_elem_of_fmap. by eapply sane_blocks.
    + intros n (ag & l & s & Hag & Hl & Hn)%Hips. destruct (sane_groups _ _ Hs dir ag l s Hag Hl) as [Hb _].
      rewrite list.Forall_forall in Hb. auto.
  - apply list.Forall_forall. intros id (ag & l & s & Hag & Hl & <- & _)%Hids.
    by destruct (sane_groups _ _ Hs dir ag l s Hag Hl).
Qed.

Lemma rules_ok r rule ing eg ready r' :
  rule_sane r rule -> rules rule r = Some ((ing, eg, ready), r') -> Forall ingress_sound ing /\ Forall egress_sound eg.
Proof.
  intros Hs. unfold rules. destruct (rule_Direction rule) eqn:Hd;
  [set (dir := DirectionIn) in *; change (rule_From rule) with (rule_peer dir rule)
  |set (dir := DirectionOut) in *; change (rule_To rule) with (rule_peer dir rule)].
  all: destruct (address_group_peers_spec r (peer_AddressGroups (rule_peer dir rule))) as (o & Hrun & _).
  all: rewrite (bind_run _ _ _ _ _ Hrun); apply (peers_ok _ _ _ _ _ Hs) in Hrun.
  all: destruct o as [[ips sgs]|]; [|intros [= <- <- _ _]; by split].
  all: destruct Hrun as [Hips Hsgs]; case_decide as Hn; [intros [= <- <- _ _]; by split|].
  all: destruct (per_service_ok r rule _ _ Hs Hips Hsgs Hn) as [Hi He].
  all: intros [= <- <- _ _]; by split.
Qed.

(** What computing the rules of a policy leaves of it. *)
Definition same_policy (n n' : networkPolicy) : Prop :=
  np_Name n' = np_Name n /\ np_Rules n' = np_Rules n /\ np_AppliedToGroups n' = np_AppliedToGroups n.

Definition policy_ok (n : networkPolicy) : Prop :=
  Forall ingress_sound (np_ingressRules n) /\ Forall egress_sound (np_egressRules n).

Lemma names_group_with_np r l n ag l' s : names_group (with_np l n r) ag l' s <-> names_group r ag l' s.
Proof. done. Qed.

Lemma rule_sane_with_np r l n rule : rule_sane r rule -> rule_sane (with_np l n r) rule.
Proof. intros [H1 H2 H3]. by split. Qed.

Lemma computeRules_loop_ok l rs r : forall n ok r',
  (forall rule, rule ∈ rs -> rule_sane r rule) -> policy_ok n ->
  computeRules_loop l rs (with_np l n r) = Some (ok, r') ->
  exists n', r' = with_np l n' r /\ same_policy n n' /\ policy_ok n'.
Proof.
  induction rs as [|rule rs IH]; intros n ok r' Hs Hn.
  - intros [= <- <-]. exists n. done.
  - destruct (rules_spec (with_np l n r) rule) as (ing & eg & ready & Hrun & _). cbn [computeRules_loop].
    rewrite (bind_run _ _ _ _ _ Hrun). apply rules_ok in Hrun as [Hi He]; [|apply rule_sane_with_np, Hs; left].
    destruct ready; cbn [negb]; rewrite (bind_run _ _ _ _ _ (upd_np_run _ _ _ _ (with_np_lookup l n r))), with_np_twice.
    + intros (n' & -> & (? & ? & ?) & Hn')%IH; [|by intros; apply Hs; right|].
      * exists n'. done.
      * destruct Hn as [? ?]. split; by apply Forall_app.
    + intros [= <- <-]. eexists. split; [done|]. by repeat split.
Qed.

Lemma computeRules_ok l r n ok r' :
  h_np (heap r) !! l = Some n -> (forall rule, rule ∈ np_Rules n -> rule_sane r rule) ->
  computeRules l r = Some (ok, r') ->
  exists n', r' = with_np l n' r /\ same_policy n n' /\ policy_ok n'.
Proof.
  intros Hn Hs. unfold computeRules. rewrite (bind_run _ _ _ _ _ (upd_np_run _ _ _ _ Hn)).
  rewrite (bind_run _ _ _ _ _ (get_np_run _ _ _ (with_np_lookup _ _ _))).
  set (n0 := np_set_rules [] [] false n).
  destruct (computeRules_loop_spec l (np_Rules n0) r n0) as (ok1 & n1 & Hrun & _ & Hready).
  rewrite (bind_run _ _ _ _ _ Hrun). apply computeRules_loop_ok in Hrun as (n' & E & Hsame & Hok); [|done|by repeat split].
  assert (n' = n1) as -> by (apply (f_equal (fun r => h_np (heap r) !! l)) in E; rewrite !with_np_lookup in E; congruence).
  destruct ok1; cbn [negb]; [|intros [= _ <-]; by exists n1]. destruct Hready as [Hf _].
  destruct (computeRulesReady_run _ l n1 (with_np_lookup l n1 r) Hf) as (e & ok2 & Hc & _).
  rewrite (bind_run _ _ _ _ _ Hc), with_np_twice. rewrite (bind_run _ _ _ _ _ (get_np_run _ _ _ (with_np_lookup _ _ _))).
  intros [= _ <-]. eexists. split; [done|]. done.
Qed.

End Computed.

(** ** The requests of a notification *)

Section Requests.
Context {IXC : CacheIndexer} {RNG : MapRange}.

(** The policies of a group and the appliedTo groups of a name. *)
Definition loaded (r : Reconciler) (name : string) : list networkPolicy :=
  omap (fun np => h_np (heap r) !! np) (policies_of r name).
Definition applied_groups (r : Reconciler) (name : string) : list loc :=
  ix_ByIndex (sg_group (heap r)) name (appliedToSGIndexer (ixs r)).

(** What [updateRules] asks for, for a group that has policies. *)
Definition rules_request (r : Reconciler) (l : loc) : list CloudCall :=
  match h_sg (heap r) !! l with
  | None => []
  | Some s =>
      if appliedTo_isReady s && bool_decide (sg_retryOp s = None) then
        match collect_rules (loaded r (cid_Name (sg_id s))) with
        | None => []
        | Some (irules, erules) =>
            [mkCall l (UpdateSecurityGroupRules (sg_id s) (deduplicateIngressRules irules) (deduplicateEgressRules erules))
               (ReportOp securityGroupOperationUpdateRules)]
        end
      else []
  end.

Definition notify_request (r : Reconciler) (l : loc) : list CloudCall :=
  match h_sg (heap r) !! l with
  | None => []
  | Some s => if sg_deletePending s then [] else rules_request r l
  end.

(** Every filed policy is there. *)
Definition policies_there (r : Reconciler) : Prop :=
  forall k np, ix_contents (networkPolicyIndexer (ixs r)) !! k = Some np -> is_Some (h_np (heap r) !! np).
Definition groups_there (r : Reconciler) : Prop :=
  forall k l, ix_contents (appliedToSGIndexer (ixs r)) !! k = Some l -> is_Some (h_sg (heap r) !! l).

Lemma loaded_spec r name : policies_there r ->
  Forall2 (fun l n => h_np (heap r) !! l = Some n) (policies_of r name) (loaded r name).
Proof.
  intros Ht. unfold loaded. assert (forall np, np ∈ policies_of r name -> is_Some (h_np (heap r) !! np)) as Hsome.
  { intros np (_ & k & Hk)%elem_of_ByIndex. by eapply Ht. }
  revert Hsome. generalize (policies_of r name). intros l Hsome. induction l as [|np l IH]; [constructor|].
  destruct (Hsome np) as [n Hn]; [left|]. cbn. rewrite Hn. constructor; [done|]. apply IH. intros. apply Hsome. by right.
Qed.

Lemma set_calls_nil (r : Reconciler) : set_calls (calls r ++ []) r = r.
Proof. rewrite app_nil_r. by destruct r. Qed.

Lemma updateRules_request r l s :
  policies_there r -> h_sg (heap r) !! l = Some s -> policies_of r (cid_Name (sg_id s)) <> [] ->
  updateRules l r = Some (tt, set_calls (calls r ++ rules_request r l) r).
Proof.
  intros Ht Hs Hne. unfold updateRules, rules_request. rewrite (bind_run _ _ _ _ _ (get_sg_run _ _ _ Hs)), Hs.
  destruct (appliedTo_isReady s); simpl; [|by rewrite set_calls_nil].
  destruct (sg_retryOp s); simpl; [by rewrite set_calls_nil|].
  rewrite (bind_run _ _ r (policies_of r (cid_Name (sg_id s))) r eq_refl).
  rewrite decide_False by by rewrite length_zero_iff_nil.
  rewrite (bind_run _ _ _ _ _ (mapM_get_run _ _ _ (loaded_spec r _ Ht))).
  by destruct (collect_rules _) as [[]|]; [|rewrite set_calls_nil].
Qed.

(** A loop of steps that make requests only. *)
Lemma forM_requests {A} (f : A -> M unit) (req : A -> list CloudCall) xs r :
  (forall x cs, x ∈ xs -> f x (set_calls cs r) = Some (tt, set_calls (cs ++ req x) r)) ->
  forall cs, forM_ xs f (set_calls cs r) = Some (tt, set_calls (cs ++ flat_map req xs) r).
Proof.
  induction xs as [|x xs IH]; intros Hf cs; simpl; [by rewrite app_nil_r|].
  rewrite (bind_run _ _ _ _ _ (Hf x cs ltac:(left))), IH by (intros; apply Hf; by right). by rewrite app_assoc.
Qed.

Lemma notify_request_run r l s cs :
  policies_there r -> h_sg (heap r) !! l = Some s -> policies_of r (cid_Name (sg_id s)) <> [] ->
  appliedTo_notifyNetworkPolicyChange l (set_calls cs r) = Some (tt, set_calls (cs ++ notify_request r l) r).
Proof.
  intros Ht Hs Hne. unfold appliedTo_notifyNetworkPolicyChange, notify_request. rewrite Hs.
  rewrite (bind_run _ _ (set_calls cs r) s (set_calls cs r)) by by apply get_sg_run.
  rewrite (bind_run _ _ (set_calls cs r) (policies_of r (cid_Name (sg_id s))) (set_calls cs r) eq_refl).
  rewrite bool_decide_eq_false_2 by by rewrite length_zero_iff_nil. simpl.
  destruct (sg_deletePending s); simpl; [by rewrite app_nil_r|].
  by rewrite (updateRules_request (set_calls cs r) l s Ht Hs Hne).
Qed.

(** Notifying the groups of names that a filed policy is applied to. *)
Lemma notify_requests r names cs :
  policies_there r -> groups_there r -> (forall name, name ∈ names -> policies_of r name <> []) ->
  notify_appliedTo_groups names (set_calls cs r) =
    Some (tt, set_calls (cs ++ flat_map (fun name => flat_map (notify_request r) (applied_groups r name)) names) r).
Proof.
  intros Ht Hg Hne. unfold notify_appliedTo_groups. apply forM_requests. intros name cs' Hname.
  rewrite (bind_run _ _ (set_calls cs' r) (applied_groups r name) (set_calls cs' r) eq_refl). apply forM_requests.
  intros l cs'' (Hl & k & Hk)%elem_of_ByIndex. destruct (Hg k l Hk) as [s Hs].
  eapply notify_request_run; [done..|]. unfold sg_group in Hl. rewrite Hs in Hl. apply list_elem_of_singleton in Hl as <-. auto.
Qed.

(** A recomputed policy whose address groups are ready. *)
Lemma np_update_requests r l n :
  policies_there r -> groups_there r -> h_np (heap r) !! l = Some n ->
  (exists k, ix_contents (networkPolicyIndexer (ixs r)) !! k = Some l) ->
  (forall ag, ag ∈ np_addr_groups (np_Rules n) -> group_ready r ag) ->
  (forall rule, rule ∈ np_Rules n -> rule_sane r rule) ->
  exists n' new, np_update l None r = Some (tt, set_calls (calls r ++ new) (with_np l n' r)) /\
  same_policy n n' /\ policy_ok n' /\ np_rulesReady n' = true /\
  admits_rules r (np_Rules n) (np_ingressRules n') (np_egressRules n') /\
  new = flat_map (fun name => flat_map (notify_request (with_np l n' r)) (applied_groups r name)) (np_AppliedToGroups n).
Proof.
  intros Ht Hg Hn Hk Hready Hs. destruct (computeRules_run r l n Hn) as (ok & n' & Hrun & Hok & Hiff & Hadm).
  destruct (computeRules_ok l r n ok _ Hn Hs Hrun) as (n1 & E & Hsame & Hpok).
  assert (n1 = n') as -> by (apply (f_equal (fun r => h_np (heap r) !! l)) in E; rewrite !with_np_lookup in E; congruence).
  assert (ok = true) as -> by by apply Hiff. exists n'. eexists. split; [|by split_and!; auto].
  unfold np_update. rewrite (bind_run _ _ _ _ _ Hrun). simpl.
  rewrite (bind_run _ _ _ _ _ (get_np_run _ _ _ (with_np_lookup l n' r))). destruct Hsame as (_ & _ & HA). rewrite HA.
  assert (policies_there (with_np l n' r)) as Ht'.
  { intros k np Hnp. simpl. destruct (decide (np = l)) as [->|]; [by rewrite lookup_insert_eq|].
    rewrite lookup_insert_ne by done. by eapply Ht. }
  pose proof (notify_requests (with_np l n' r) (np_AppliedToGroups n) (calls r) Ht' Hg) as Hrec.
  assert (set_calls (calls r) (with_np l n' r) = with_np l n' r) as E' by by destruct r. rewrite E' in Hrec. apply Hrec.
  intros name Hname Hnil. apply (not_elem_of_nil l). rewrite <- Hnil. apply elem_of_ByIndex. split; [|exact Hk].
  unfold np_by_appliedTo. simpl. rewrite lookup_insert_eq, HA. done.
Qed.

End Requests.

(** ** A new policy *)

Section Delivery.
Context {IXC : CacheIndexer} {RNG : MapRange}.

(** The rules stored in a policy are those its Antrea policy states now. *)
Definition current (r : Reconciler) (n : networkPolicy) : Prop :=
  np_rulesReady n = true /\ policy_ok n /\ admits_rules r (np_Rules n) (np_ingressRules n) (np_egressRules n).

(** Some rule of some policy of the group allows the traffic. *)
Definition group_allows (r : Reconciler) (name : string) (dir : Direction) (proto port : Z) (p : Peer) : Prop :=
  exists np n rule, np ∈ policies_of r name /\ h_np (heap r) !! np = Some n /\ rule ∈ np_Rules n /\
    rule_allows r dir rule proto port p.

(** Rules that admit exactly what the policies of a group allow. *)
Definition rules_exact (r : Reconciler) (name : string) (ing : list IngressRule) (eg : list EgressRule) : Prop :=
  Forall ingress_sound ing /\ Forall egress_sound eg /\
  forall proto port p,
    ((exists ru, ru ∈ ing /\ ingress_admits ru proto port p) <-> group_allows r name DirectionIn proto port p) /\
    ((exists ru, ru ∈ eg /\ egress_admits ru proto port p) <-> group_allows r name DirectionOut proto port p).

(** The request for the rules of a group whose policies are all current. *)
Lemma rules_request_exact r l s :
  policies_there r -> h_sg (heap r) !! l = Some s -> sg_state s = securityGroupStateCreated -> sg_retryOp s = None ->
  (forall np n, np ∈ policies_of r (cid_Name (sg_id s)) -> h_np (heap r) !! np = Some n -> current r n) ->
  exists ing eg, rules_request r l =
    [mkCall l (UpdateSecurityGroupRules (sg_id s) ing eg) (ReportOp securityGroupOperationUpdateRules)] /\
  rules_exact r (cid_Name (sg_id s)) ing eg.
Proof.
  intros Ht Hs Hst Hop Hcur. unfold rules_request, appliedTo_isReady. rewrite Hs, Hst, Hop. simpl.
  pose proof (loaded_spec r (cid_Name (sg_id s)) Ht) as Hl. set (ns := loaded r (cid_Name (sg_id s))) in *.
  assert (forall n, n ∈ ns <-> exists np, np ∈ policies_of r (cid_Name (sg_id s)) /\ h_np (heap r) !! np = Some n) as Hns
    by (intros n; apply list_elem_of_omap).
  assert (forall n, n ∈ ns -> current r n) as Hc by (intros n (np & Hnp & Hn)%Hns; by eapply Hcur).
  pose proof (collect_rules_spec ns) as Hcol. destruct (collect_rules ns) as [[irules erules]|]; cycle 1.
  { apply Exists_exists in Hcol as (n & Hn & Hf). destruct (Hc n Hn) as [Hr _]. congruence. }
  destruct Hcol as (_ & -> & ->).
  assert (Forall ingress_sound (flat_map np_ingressRules ns)) as Hi.
  { apply list.Forall_forall. intros ru (n & Hn & Hru)%elem_of_flat_map. destruct (Hc n Hn) as (_ & [Hi _] & _).
    rewrite list.Forall_forall in Hi. auto. }
  assert (Forall egress_sound (flat_map np_egressRules ns)) as He.
  { apply list.Forall_forall. intros ru (n & Hn & Hru)%elem_of_flat_map. destruct (Hc n Hn) as (_ & [_ He] & _).
    rewrite list.Forall_forall in He. auto. }
  eexists _, _. split; [reflexivity|]. split; [by apply deduplicateIngressRules_sound|]. split; [by apply deduplicateEgressRules_sound|].
  intros proto port p. rewrite dedup_ingress_admits, dedup_egress_admits;
    [|eapply Forall_impl; [eassumption|intros; by apply fields_ok_wf]..].
  setoid_rewrite elem_of_flat_map. unfold group_allows. split; (split;
    [intros (ru & (n & Hn & Hru) & Ha); destruct (Hc n Hn) as (_ & _ & Hadm); destruct (Hadm proto port p) as [Ai Ae];
     destruct ((proj1 Ai) ltac:(eauto)) as (rule & ? & ?) || destruct ((proj1 Ae) ltac:(eauto)) as (rule & ? & ?);
     apply Hns in Hn as (np & ? & ?); eauto 10
    |intros (np & n & rule & Hnp & Hn & Hrule & Ha); assert (n ∈ ns) as Hin by (apply Hns; eauto);
     destruct (Hc n Hin) as (_ & _ & Hadm); destruct (Hadm proto port p) as [Ai Ae];
     destruct ((proj2 Ai) ltac:(eauto)) as (ru & ? & ?) || destruct ((proj2 Ae) ltac:(eauto)) as (ru & ? & ?);
     eauto 10]).
Qed.

(** The reconciler after a new policy was filed. *)
Definition with_policy (n : networkPolicy) (r : Reconciler) : Reconciler :=
  let l := h_next (heap r) in
  set_ixs (set_npIx (ix_Add (np_key n) l (networkPolicyIndexer (ixs r))) (ixs r))
    (set_heap (hset_np (<[l := n]> (h_np (heap r))) (hset_next (Pos.succ l) (heap r))) r).

Definition new_policy (anp : AntreaPolicy) : networkPolicy :=
  mkNP (original_name anp) (anp_Rules anp) (anp_AppliedToGroups anp) [] [] false.

(** A supported policy that is not known is filed and computed. *)
Lemma new_policy_run env anp r :
  isNetworkPolicySupported anp = None -> cloudPlugin r = true ->
  ix_contents (networkPolicyIndexer (ixs r)) !! NamespacedName_String (original_name anp) = None ->
  handle env (EvNetworkPolicy Added anp) r =
    match np_update (h_next (heap r)) None (with_policy (new_policy anp) r) with
    | Some (_, r') => Some (tt, r')
    | None => None
    end.
Proof.
  intros Hsup Hplug Hnew. cbn [handle]. unfold watcher_event. rewrite decide_False by done.
  assert (alloc put_np (new_policy anp) r = Some (h_next (heap r),
    set_heap (hset_np (<[h_next (heap r) := new_policy anp]> (h_np (heap r))) (hset_next (Pos.succ (h_next (heap r))) (heap r))) r))
    as Halloc by done.
  set (r1 := set_heap _ r) in Halloc. assert (h_np (heap r1) !! h_next (heap r) = Some (new_policy anp)) as Hr1
    by apply lookup_insert_eq.
  assert (np_Add (h_next (heap r)) r1 = Some (tt, with_policy (new_policy anp) r)) as Hadd.
  { unfold np_Add. by rewrite (bind_run _ _ _ _ _ (get_np_run _ _ _ Hr1)). }
  assert (processNetworkPolicy env Added anp r =
    match np_update (h_next (heap r)) None (with_policy (new_policy anp) r) with
    | Some (_, r') => Some (None, r')
    | None => None
    end) as Hp.
  { unfold processNetworkPolicy. rewrite (bind_run _ _ r false r eq_refl), Hsup.
    rewrite (bind_run _ _ r None r) by (unfold gets; by rewrite ix_get, Hnew). cbv beta iota zeta.
    rewrite (bind_run _ _ r (h_next (heap r)) (with_policy (new_policy anp) r))
      by (fold (new_policy anp); by rewrite (bind_run _ _ _ _ _ Halloc), (bind_run _ _ _ _ _ Hadd)).
    rewrite decide_False by done.
    rewrite (bind_run _ _ _ (new_policy anp) (with_policy (new_policy anp) r)) by by apply get_np_run.
    cbn [negb andb]. rewrite (bind_run _ _ _ true (with_policy (new_policy anp) r)) by (unfold gets; simpl; by rewrite Hplug).
    cbn [negb]. unfold mbind at 1, M_bind at 1. by destruct (np_update _ _ _) as [[[] r']|]. }
  unfold mbind, M_bind. rewrite Hp. by destruct (np_update _ _ _) as [[[] r']|].
Qed.

Lemma with_policy_there `{Strictness} r n : wf r -> policies_there (with_policy n r) /\ groups_there (with_policy n r).
Proof.
  intros W. split.
  - intros k np. simpl. rewrite ix_add. destruct (decide (np = h_next (heap r))) as [->|Hne]; [by rewrite lookup_insert_eq|].
    rewrite (lookup_insert_ne (h_np (heap r))) by done. intros [[_ ?]|[_ Hk]]%lookup_insert_Some; [congruence|].
    destruct (wf_npix _ W k np Hk) as (a & Ha & _). eauto.
  - intros k l Hk. destruct (wf_sgix _ W false k l Hk) as (s & Hs & _). eauto.
Qed.

(** The policies of a group afterwards are those from before and the new one. *)
Lemma with_policy_policies r n n' name np :
  np ∈ policies_of (with_np (h_next (heap r)) n' (with_policy n r)) name ->
  np = h_next (heap r) \/
  np <> h_next (heap r) /\ np ∈ policies_of r name /\
  h_np (heap (with_np (h_next (heap r)) n' (with_policy n r))) !! np = h_np (heap r) !! np.
Proof.
  intros (Hname & k & Hk)%elem_of_ByIndex. destruct (decide (np = h_next (heap r))) as [->|Hne]; [by left|right].
  assert (h_np (heap (with_np (h_next (heap r)) n' (with_policy n r))) !! np = h_np (heap r) !! np) as E.
  { simpl. by rewrite !lookup_insert_ne. }
  split; [done|]. split; [|done]. apply elem_of_ByIndex. unfold np_by_appliedTo in *. rewrite E in Hname. split; [done|].
  simpl in Hk. rewrite ix_add in Hk. apply lookup_insert_Some in Hk as [[_ ?]|[_ Hk]]; [congruence|eauto].
Qed.

(** A supported policy that is not known, when the address groups it names are
    ready. *)
Record arrives (anp : AntreaPolicy) (r : Reconciler) : Prop := mk_arrives {
  arr_supported : isNetworkPolicySupported anp = None;
  arr_plugin : cloudPlugin r = true;
  arr_new : ix_contents (networkPolicyIndexer (ixs r)) !! NamespacedName_String (original_name anp) = None;
  arr_ready : forall ag, ag ∈ np_addr_groups (anp_Rules anp) -> group_ready r ag;
  arr_sane : forall rule, rule ∈ anp_Rules anp -> rule_sane r rule
}.

(** An appliedTo group of the policy that is created, not about to be deleted and
    has no retry under way, and whose policies so far are current. *)
Record target (anp : AntreaPolicy) (r : Reconciler) (l : loc) (s : securityGroup) : Prop := mk_target {
  tgt_filed : exists k, ix_contents (appliedToSGIndexer (ixs r)) !! k = Some l;
  tgt_group : h_sg (heap r) !! l = Some s;
  tgt_named : cid_Name (sg_id s) ∈ anp_AppliedToGroups anp;
  tgt_created : sg_state s = securityGroupStateCreated;
  tgt_kept : sg_deletePending s = false;
  tgt_idle : sg_retryOp s = None;
  tgt_current : forall np n, np ∈ policies_of r (cid_Name (sg_id s)) -> h_np (heap r) !! np = Some n -> current r n
}.

(** A policy with the rules of [anp] is among the policies of the group. *)
Definition policy_filed (anp : AntreaPolicy) (r : Reconciler) (name : string) : Prop :=
  exists np n, np ∈ policies_of r name /\ h_np (heap r) !! np = Some n /\ np_Rules n = anp_Rules anp.

Lemma new_policy_request env anp sys l s :
  reachable sys -> let r := sys_r sys in
  arrives anp r -> target anp r l s ->
  exists r' new ing eg,
  handle env (EvNetworkPolicy Added anp) r = Some (tt, r') /\ calls r' = (calls r ++ new)%list /\
  mkCall l (UpdateSecurityGroupRules (sg_id s) ing eg) (ReportOp securityGroupOperationUpdateRules) ∈ new /\
  policy_filed anp r' (cid_Name (sg_id s)) /\ rules_exact r' (cid_Name (sg_id s)) ing eg.
Proof.
  intros [W _]%(reachable_wf (STR := true)) r [Hsup Hplug Hnew Hready Hsane] [Hl Hs Hname Hst Hdp Hop Hcur].
  set (r1 := with_policy (new_policy anp) r). destruct (with_policy_there (H := true) r (new_policy anp) W) as [Ht Hg].
  destruct (np_update_requests r1 (h_next (heap r)) (new_policy anp) Ht Hg) as (n' & new & Hrun & Hsame & Hok & Hr & Hadm & Enew);
    [apply lookup_insert_eq|exists (np_key (new_policy anp)); simpl; rewrite ix_add; apply lookup_insert_eq|exact Hready
    |intros rule Hrule; by destruct (Hsane rule Hrule)|].
  set (r2 := with_np (h_next (heap r)) n' r1) in *. destruct Hsame as (Hn1 & Hn2 & Hn3).
  assert (h_np (heap r2) !! h_next (heap r) = Some n') as Hn' by apply lookup_insert_eq.
  assert (policies_there r2) as Ht2.
  { intros k np Hk. destruct (decide (np = h_next (heap r))) as [->|]; [by rewrite Hn'|]. simpl. rewrite lookup_insert_ne by done. by eapply Ht. }
  assert (exists ing eg, rules_request r2 l =
    [mkCall l (UpdateSecurityGroupRules (sg_id s) ing eg) (ReportOp securityGroupOperationUpdateRules)] /\
    rules_exact r2 (cid_Name (sg_id s)) ing eg) as (ing & eg & Hreq & Hex).
  { apply rules_request_exact; [done..|]. intros np n [->|(Hne & Hnp & E)]%with_policy_policies Hn.
    - rewrite Hn' in Hn. simplify_eq. split_and!; [done..|]. rewrite Hn2. exact Hadm.
    - fold r1 r2 in E. rewrite E in Hn. exact (Hcur np n Hnp Hn). }
  exists (set_calls (calls r ++ new) r2), new, ing, eg. rewrite (new_policy_run env anp r Hsup Hplug Hnew). fold r1. rewrite Hrun.
  split; [done|]. split; [done|]. split.
  { rewrite Enew. apply elem_of_flat_map. exists (cid_Name (sg_id s)). split; [done|]. apply elem_of_flat_map. exists l. split.
    - apply elem_of_ByIndex. split; [|exact Hl]. unfold sg_group. change (h_sg (heap r1)) with (h_sg (heap r)).
      rewrite Hs. by apply list_elem_of_singleton.
    - unfold notify_request. change (h_sg (heap r2)) with (h_sg (heap r)). rewrite Hs, Hdp. fold r2. rewrite Hreq. left. }
  split; [|exact Hex].
  exists (h_next (heap r)), n'. split; [|by split]. apply elem_of_ByIndex. split.
  - unfold np_by_appliedTo. change (heap (set_calls (calls r ++ new) r2)) with (heap r2). by rewrite Hn', Hn3.
  - exists (np_key (new_policy anp)). simpl. rewrite ix_add. apply lookup_insert_eq.
Qed.


End Delivery.

(** ** A sample

    An address group and an appliedTo group, both created, when the policy comes. *)

#[local] Existing Instance map_indexer.
#[local] Existing Instance map_to_list_range.

Definition grouped : list Action := (bookmarks ++ [add_ag [member "vm1"]; add_at [member "vm2"]] ++ ok ++ ok)%list.
Definition address_group : securityGroup :=
  mkSG true [mkCloudResource CloudResourceTypeVM (mkCloudResourceID "id-vm1" "vpc1")] (mkCloudResourceID "ag" "vpc1")
    securityGroupStateCreated false None None false [] false false.

(** A group that the index has alone under its name. *)
Lemma names_group_alone `{CacheIndexer} r ag l0 s0 l s :
  ix_ByIndex (sg_group (heap r)) ag (addrSGIndexer (ixs r)) = [l0] -> h_sg (heap r) !! l0 = Some s0 ->
  names_group r ag l s -> s = s0.
Proof.
  intros E Hs0 Hl. assert (l ∈ ix_ByIndex (sg_group (heap r)) ag (addrSGIndexer (ixs r))) as Hin
    by (apply elem_of_sgs_of_group; eauto).
  rewrite E in Hin. apply list_elem_of_singleton in Hin as ->. destruct Hl as (_ & Hs & _). congruence.
Qed.

(** A policy that allows TCP port 80 from one address group. *)
Definition one_rule_policy (ag applied : string) : AntreaPolicy :=
  mkAntreaPolicy (nn "np") [mkRule DirectionIn (mkPeer [ag] []) (mkPeer [] []) (Some [tcp80]) (Some RuleActionAllow)] [applied]
    (Some (mkSourceRef AntreaNetworkPolicy "ns" "np")).

Lemma one_rule_sane `{CacheIndexer} ag applied r l0 s0 rule :
  ix_ByIndex (sg_group (heap r)) ag (addrSGIndexer (ixs r)) = [l0] -> h_sg (heap r) !! l0 = Some s0 ->
  sg_ipBlocks s0 = [] -> slash_free (sg_id s0) -> rule ∈ anp_Rules (one_rule_policy ag applied) -> rule_sane r rule.
Proof.
  intros E Hs0 Hips Hsf ->%list_elem_of_singleton. split.
  - intros ss s [= <-] ->%list_elem_of_singleton. split; [done|]. intros _. by left.
  - intros [] b Hb; by apply not_elem_of_nil in Hb.
  - intros [] ag' l s Hag Hl; [|by apply not_elem_of_nil in Hag].
    apply list_elem_of_singleton in Hag as ->. rewrite (names_group_alone r ag l0 s0 l s E Hs0 Hl), Hips. by split.
Qed.

Lemma one_rule_arrives `{CacheIndexer} ag applied r l0 s0 k :
  cloudPlugin r = true -> ix_contents (networkPolicyIndexer (ixs r)) !! "ns/np" = None ->
  ix_ByIndex (sg_group (heap r)) ag (addrSGIndexer (ixs r)) = [l0] -> h_sg (heap r) !! l0 = Some s0 ->
  ix_contents (addrSGIndexer (ixs r)) !! k = Some l0 -> cid_Name (sg_id s0) = ag ->
  addr_isReady s0 = true -> sg_ipBlocks s0 = [] -> slash_free (sg_id s0) -> arrives (one_rule_policy ag applied) r.
Proof.
  intros Hp Hnew E Hs0 Hk Hn Hready Hips Hsf. split; [done..| |by intros; eapply (one_rule_sane ag applied)].
  intros ag' ->%list_elem_of_singleton. split; [exists l0, s0; split_and!; eauto|].
  intros l s Hl. by rewrite (names_group_alone r ag l0 s0 l s E Hs0 Hl).
Qed.

Lemma policy_arrives : arrives policy (sys_r (reached grouped)).
Proof. apply (one_rule_arrives "ag" "at" _ 1%positive address_group "ag/vpc1"); vm_compute; reflexivity. Qed.

Lemma policy_target : target policy (sys_r (reached grouped)) 2%positive the_group.
Proof.
  split; [exists "at/vpc1"; vm_compute; reflexivity|vm_compute; reflexivity|left|reflexivity..|].
  intros np n Hnp. assert (policies_of (sys_r (reached grouped)) (cid_Name (sg_id the_group)) = []) as E by (vm_compute; reflexivity).
  rewrite E in Hnp. destruct (not_elem_of_nil _ Hnp).
Qed.

