(* ===== verification/NPReady.v ===== *)
(** * Groups that become ready

    The usual order of events: a policy comes while its groups are still being
    created.  When the last of its groups has been created, the answer of the cloud
    makes the reconciler ask for the rules: for an appliedTo group when it is the
    last ([created_group_gets_rules]), for every appliedTo group of the policies
    that waited when an address group is ([ready_group_sends_rules]). *)

From stdpp Require Import base strings list gmap.
From Stdlib Require Import ZArith Lia.
From S2P Require Import Prelude GoStrings GoNet GoCIDR SecurityGroup RuleMerge NPState NPPending NPGroups.
From S2P Require Import NPPolicy NPSync NPController NPInvariants NPSystem NPRules NPTheorems NPDelivery.

#[local] Open Scope string_scope.
#[local] Open Scope Z_scope.

Section Ready.
Context {IXC : CacheIndexer} {RNG : MapRange}.

(** ** What policies see of the groups

    Only identifiers and address blocks: neither state nor members. *)
Definition seen (s : securityGroup) : CloudResourceID * list IPNet := (sg_id s, sg_ipBlocks s).

Definition same_view (r r' : Reconciler) : Prop :=
  addrSGIndexer (ixs r') = addrSGIndexer (ixs r) /\
  forall l, seen <$> h_sg (heap r') !! l = seen <$> h_sg (heap r) !! l.

Lemma same_view_sym r r' : same_view r r' -> same_view r' r.
Proof. intros [H1 H2]. by split. Qed.

Lemma names_group_view r r' ag l s :
  same_view r r' -> names_group r ag l s -> exists s', names_group r' ag l s' /\ seen s' = seen s.
Proof.
  intros [Hix Hv] (Hk & Hs & Hn). specialize (Hv l). rewrite Hs in Hv. apply fmap_Some in Hv as (s' & Hs' & E).
  exists s'. split; [|done]. split; [by rewrite Hix|]. split; [done|]. unfold seen in E. simpl in E. congruence.
Qed.

Lemma peer_names_view r r' peer p : same_view r r' -> peer_names r peer p -> peer_names r' peer p.
Proof.
  intros Hv. destruct p as [ip|id]; simpl.
  - intros [?|(ag & l & s & n & ? & Hl & ? & ?)]; [by left|right].
    destruct (names_group_view _ _ _ _ _ Hv Hl) as (s' & Hl' & [= _ E]). exists ag, l, s', n. rewrite E. done.
  - intros (ag & l & s & ? & Hl & ? & ?). destruct (names_group_view _ _ _ _ _ Hv Hl) as (s' & Hl' & [= E _]).
    exists ag, l, s'. rewrite E. done.
Qed.

Lemma rule_allows_view r r' dir rule proto port p :
  same_view r r' -> rule_allows r dir rule proto port p <-> rule_allows r' dir rule proto port p.
Proof.
  intros Hv. unfold rule_allows. split; intros (? & ? & ?); split_and!; try done; eapply peer_names_view; eauto using same_view_sym.
Qed.

Lemma admits_rules_view r r' rs ing eg : same_view r r' -> admits_rules r rs ing eg -> admits_rules r' rs ing eg.
Proof.
  intros Hv Ha proto port p. destruct (Ha proto port p) as [Hi He].
  setoid_rewrite <- (rule_allows_view r r' _ _ _ _ _ Hv). done.
Qed.

Lemma current_view r r' n : same_view r r' -> current r n -> current r' n.
Proof. intros Hv (? & ? & ?). split_and!; eauto using admits_rules_view. Qed.

(** Writing a group without changing what is seen of it. *)
Definition with_sg (l : loc) (s : securityGroup) (r : Reconciler) : Reconciler :=
  set_heap (hset_sg (<[l := s]> (h_sg (heap r))) (heap r)) r.

Lemma with_sg_view l s s' r : h_sg (heap r) !! l = Some s -> seen s' = seen s -> same_view r (with_sg l s' r).
Proof.
  intros Hs E. split; [done|]. intros l'. simpl. destruct (decide (l' = l)) as [->|];
    [by rewrite lookup_insert_eq, Hs; simpl; rewrite E|by rewrite lookup_insert_ne].
Qed.

Lemma upd_sg_run l f r s : h_sg (heap r) !! l = Some s -> upd_sg l f r = Some (tt, with_sg l (f s) r).
Proof. intros Hs. unfold upd_sg. by rewrite (bind_run _ _ _ _ _ (get_sg_run _ _ _ Hs)). Qed.

Lemma with_sg_lookup l s r : h_sg (heap (with_sg l s r)) !! l = Some s.
Proof. apply lookup_insert_eq. Qed.

Lemma with_sg_twice l s s' r : with_sg l s (with_sg l s' r) = with_sg l s r.
Proof. unfold with_sg, set_heap, hset_sg. simpl. by rewrite insert_insert_eq. Qed.

(** ** Marking trackers dirty *)

Definition with_trs (trs : gmap loc cloudResourceNPTracker) (r : Reconciler) : Reconciler :=
  set_heap (hset_tr trs (heap r)) r.

(** Everything the indexes file is there. *)
Record filed (r : Reconciler) : Prop := mk_filed {
  filed_policies : policies_there r;
  filed_groups : groups_there r;
  filed_trackers : forall k t, ix_contents (cloudResourceNPTrackerIndexer (ixs r)) !! k = Some t -> is_Some (h_tr (heap r) !! t)
}.

Lemma wf_filed `{Strictness} r : wf r -> filed r.
Proof.
  intros W. split.
  - intros k np Hk. destruct (wf_npix _ W k np Hk) as (a & Ha & _). eauto.
  - intros k l Hk. destruct (wf_sgix _ W false k l Hk) as (a & Ha & _). eauto.
  - intros k t Hk. destruct (wf_trix _ W k t Hk) as (a & Ha & _). eauto.
Qed.

(** A computation that returns, having changed trackers only. *)
Definition dirties (m : M unit) (r : Reconciler) : Prop :=
  exists trs, m r = Some (tt, with_trs trs r) /\ forall t, is_Some (h_tr (heap r) !! t) -> is_Some (trs !! t).

Lemma dirties_ret r : dirties (mret tt) r.
Proof. exists (h_tr (heap r)). split; [|done]. unfold with_trs. destruct r as [[] ? ? ? ? ? ? ? ?]. done. Qed.

Lemma filed_with_trs trs r :
  filed r -> (forall t, is_Some (h_tr (heap r) !! t) -> is_Some (trs !! t)) -> filed (with_trs trs r).
Proof. intros [H1 H2 H3] Ht. split; [done..|]. intros k t Hk. apply Ht. by eapply H3. Qed.

Lemma filed_with_sg l s r : filed r -> filed (with_sg l s r).
Proof. intros [H1 H2 H3]. split; [done| |done]. intros k l' Hk. apply lookup_insert_is_Some'. right. by eapply H2. Qed.

Lemma filed_set_calls cs r : filed r -> filed (set_calls cs r).
Proof. by intros [H1 H2 H3]. Qed.

Lemma dirties_forM {A} (f : A -> M unit) xs r :
  filed r ->
  (forall x trs, x ∈ xs -> (forall t, is_Some (h_tr (heap r) !! t) -> is_Some (trs !! t)) -> dirties (f x) (with_trs trs r)) ->
  dirties (forM_ xs f) r.
Proof.
  revert r. induction xs as [|x xs IH]; intros r Hf Hx; [apply dirties_ret|].
  assert (with_trs (h_tr (heap r)) r = r) as E by (unfold with_trs; by destruct r as [[] ? ? ? ? ? ? ? ?]).
  destruct (Hx x (h_tr (heap r)) ltac:(left) ltac:(done)) as (trs & Hr & Ht). rewrite E in Hr, Ht.
  destruct (IH (with_trs trs r)) as (trs' & Hr' & Ht'); [by apply filed_with_trs|intros y trs' Hy Hy'; apply Hx; [by right|auto]|].
  exists trs'. simpl. rewrite (bind_run _ _ _ _ _ Hr). split; [exact Hr'|]. intros t Hsome. apply Ht', Ht, Hsome.
Qed.

Lemma dirties_setDirty b t r : is_Some (h_tr (heap r) !! t) -> dirties (tracker_setDirty b t) r.
Proof.
  intros [tr Htr]. unfold tracker_setDirty. eexists. split.
  - unfold get_tr, mbind at 1, M_bind at 1, gets. unfold mbind at 1, M_bind at 1. rewrite Htr. reflexivity.
  - intros t' Ht'. apply lookup_insert_is_Some'. by right.
Qed.

(** ** A group created without trouble *)

(** The answer to the creation of a group that no retry is under way for. *)
Record creation (r : Reconciler) (l : loc) (s : securityGroup) : Prop := mk_creation {
  cr_group : h_sg (heap r) !! l = Some s;
  cr_init : sg_state s = securityGroupStateInit;
  cr_idle : sg_retryOp s = None;
  cr_quiet : retryQueue r !! getGroupUniqueName (CloudResourceID_String (sg_id s)) (sg_membershipOnly s) = None
}.

Definition created (s : securityGroup) : securityGroup := set_state securityGroupStateCreated (set_status None s).

Lemma queue_Has_run q id r : queue_Has q id r = Some (match get_queue q r !! id with Some _ => true | None => false end, r).
Proof. done. Qed.

Lemma record_status_run r l s op :
  h_sg (heap r) !! l = Some s -> sg_state s = securityGroupStateInit ->
  record_status l op None r = Some (tt, with_sg l (set_status None s) r).
Proof.
  intros Hs Hst. unfold record_status. rewrite (bind_run _ _ _ _ _ (get_sg_run _ _ _ Hs)), Hst. simpl. by apply upd_sg_run.
Qed.

Lemma update_retry_run r l s op :
  h_sg (heap r) !! l = Some s ->
  retryQueue r !! getGroupUniqueName (CloudResourceID_String (sg_id s)) (sg_membershipOnly s) = None ->
  update_retry l (sg_membershipOnly s) op r = Some (tt, r).
Proof.
  intros Hs Hq. unfold update_retry. rewrite (bind_run _ _ _ _ _ (get_sg_run _ _ _ Hs)). cbv zeta.
  rewrite (bind_run _ _ _ _ _ (queue_Has_run _ _ _)). simpl. by rewrite Hq.
Qed.

Lemma notifyImpl_run env r l s :
  h_sg (heap r) !! l = Some s ->
  retryQueue r !! getGroupUniqueName (CloudResourceID_String (sg_id s)) (sg_membershipOnly s) = None ->
  notifyImpl env l (sg_membershipOnly s) securityGroupOperationAdd None r = Some (tt, r).
Proof.
  intros Hs Hq. unfold notifyImpl. rewrite (bind_run _ _ _ _ _ (get_sg_run _ _ _ Hs)). cbv zeta.
  rewrite (bind_run _ _ _ _ _ (queue_Has_run _ _ _)). cbn [andb mwhen].
  rewrite (bind_run _ _ r tt r eq_refl). rewrite (bind_run _ _ _ _ _ (queue_Has_run _ _ _)). simpl. by rewrite Hq.
Qed.


(** ** Policies that wait for an address group *)

(** A policy, its rules found ready. *)
Definition raised (n n' : networkPolicy) : Prop :=
  n' = n \/ n' = np_set_rules (np_ingressRules n) (np_egressRules n) true n.

#[local] Instance raised_refl : Reflexive raised.
Proof. by left. Qed.
#[local] Instance raised_trans : Transitive raised.
Proof. intros a b c [->| ->] [->| ->]; unfold raised; auto. Qed.

Lemma raised_core n n' : raised n n' ->
  same_policy n n' /\ np_ingressRules n' = np_ingressRules n /\ np_egressRules n' = np_egressRules n /\
  (np_rulesReady n = true -> np_rulesReady n' = true).
Proof. by intros [->| ->]. Qed.

Definition with_nps (m : gmap loc networkPolicy) (r : Reconciler) : Reconciler := set_heap (hset_np m (heap r)) r.
Definition raises (r : Reconciler) (m : gmap loc networkPolicy) : Prop :=
  forall np, option_Forall2 raised (h_np (heap r) !! np) (m !! np).

Lemma raises_refl r : raises r (h_np (heap r)).
Proof. intros np. destruct (h_np (heap r) !! np); constructor. reflexivity. Qed.

Lemma raises_insert r np n n' : h_np (heap r) !! np = Some n -> raised n n' -> raises r (<[np := n']> (h_np (heap r))).
Proof.
  intros Hn Hr np'. destruct (decide (np' = np)) as [->|]; [rewrite Hn, lookup_insert_eq; by constructor|].
  rewrite lookup_insert_ne by done. apply raises_refl.
Qed.

Lemma raises_trans r m m' : raises r m -> raises (with_nps m r) m' -> raises r m'.
Proof.
  intros H1 H2 np. specialize (H1 np). specialize (H2 np). simpl in H2.
  destruct H1; inversion H2; subst; constructor. by etrans.
Qed.

(** The policies of a group, and what they allow, are not touched. *)
Lemma policies_raised r m name np : raises r m -> np ∈ policies_of (with_nps m r) name <-> np ∈ policies_of r name.
Proof.
  intros Hm. unfold policies_of. rewrite !elem_of_ByIndex. unfold np_by_appliedTo. simpl. specialize (Hm np).
  destruct Hm as [n n' (Hc & _)%raised_core|]; [|done]. destruct Hc as (_ & _ & ->). done.
Qed.

Lemma group_allows_raised r m cs name dir proto port p :
  raises r m -> group_allows (set_calls cs (with_nps m r)) name dir proto port p <-> group_allows r name dir proto port p.
Proof.
  intros Hm. unfold group_allows. split; intros (np & n & rule & Hnp & Hn & Hrule & Ha).
  - pose proof (Hm np) as Hr. simpl in Hn. rewrite Hn in Hr. inversion Hr as [n0 n1 (Hc & _)%raised_core E1 E2|]; subst.
    exists np, n0, rule. split; [by apply (policies_raised r m)|]. split; [done|]. destruct Hc as (_ & Hr' & _). by rewrite <- Hr'.
  - pose proof (Hm np) as Hr. rewrite Hn in Hr. inversion Hr as [n0 n1 (Hc & _)%raised_core E1 E2|]; subst.
    exists np, n1, rule. split; [by apply (policies_raised r m)|]. split; [done|]. destruct Hc as (_ & -> & _). done.
Qed.

Lemma rules_exact_raised r m cs name ing eg :
  raises r m -> rules_exact r name ing eg -> rules_exact (set_calls cs (with_nps m r)) name ing eg.
Proof.
  intros Hm (? & ? & Hex). split_and!; [done..|]. intros proto port p.
  rewrite !(group_allows_raised r m cs name _ proto port p Hm). apply Hex.
Qed.

Lemma filed_with_nps m r : filed r -> raises r m -> filed (with_nps m r).
Proof.
  intros [H1 H2 H3] Hm. split; [|done..]. intros k np Hk. destruct (H1 k np Hk) as [n Hn]. specialize (Hm np). rewrite Hn in Hm.
  inversion Hm; subst. by eexists.
Qed.

(** One policy that is told of a change of its address groups. *)
Lemma notifyAddrGrpChanges_run r np n :
  filed r -> h_np (heap r) !! np = Some n -> (exists k, ix_contents (networkPolicyIndexer (ixs r)) !! k = Some np) ->
  exists n' new, notifyAddrGrpChanges np r = Some (tt, set_calls (calls r ++ new) (with_np np n' r)) /\ raised n n' /\
  ((forall ag, ag ∈ np_addr_groups (np_Rules n) -> group_ready r ag) -> np_rulesReady n' = true) /\
  (n' <> n -> forall name l c, name ∈ np_AppliedToGroups n -> l ∈ applied_groups r name ->
     c ∈ rules_request (with_np np n' r) l -> c ∈ new).
Proof.
  intros Hf Hn Hk. unfold notifyAddrGrpChanges. rewrite (bind_run _ _ _ _ _ (get_np_run _ _ _ Hn)).
  assert (set_calls (calls r ++ []) (with_np np n r) = r) as E0 by by rewrite (with_np_same _ _ _ Hn), set_calls_nil.
  destruct (np_rulesReady n) eqn:Hr; [exists n, []; by rewrite E0|].
  destruct (computeRulesReady_run r np n Hn Hr) as (e & ok & Hc & Hok). rewrite (bind_run _ _ _ _ _ Hc).
  set (n' := np_set_rules _ _ ok n) in *. rewrite (bind_run _ _ _ _ _ (get_np_run _ _ _ (with_np_lookup np n' r))).
  destruct ok; cbn [negb np_rulesReady n' np_set_rules]; cycle 1.
  { assert (n' = n) as E by (unfold n'; destruct n; simpl in *; by subst). rewrite E.
    exists n, []. rewrite E0, (with_np_same _ _ _ Hn). split_and!; [done..|by intros ?%Hok|done]. }
  assert (filed (with_np np n' r)) as Hf' by (apply filed_with_nps; [done|eapply raises_insert; [done|by right]]).
  assert (forall name, name ∈ np_AppliedToGroups n -> policies_of (with_np np n' r) name <> []) as Hne.
  { intros name Hname Hnil. apply (not_elem_of_nil np). rewrite <- Hnil. apply elem_of_ByIndex. split; [|exact Hk].
    unfold np_by_appliedTo. by rewrite with_np_lookup. }
  exists n', (flat_map (fun name => flat_map (rules_request (with_np np n' r)) (applied_groups r name)) (np_AppliedToGroups n)).
  split_and!; [|by right|done|].
  - assert (with_np np n' r = set_calls (calls r) (with_np np n' r)) as E1 by by destruct r. rewrite E1 at 1.
    apply (forM_requests _ (fun name => flat_map (rules_request (with_np np n' r)) (applied_groups r name))).
    intros name cs Hname. rewrite (bind_run _ _ (set_calls cs (with_np np n' r)) (applied_groups r name) _ eq_refl).
    apply forM_requests. intros l cs' (Hl & k & Hkl)%elem_of_ByIndex. destruct (filed_groups _ Hf k l Hkl) as [s Hs].
    unfold sg_group in Hl. rewrite Hs in Hl. apply list_elem_of_singleton in Hl as Hl.
    rewrite (updateRules_request (set_calls cs' (with_np np n' r)) l s); [done|apply Hf'|exact Hs|].
    rewrite <- Hl. by apply Hne.
  - intros _ name l c Hname Hl Hc'. apply elem_of_flat_map. exists name. split; [done|]. apply elem_of_flat_map. eauto.
Qed.

(** The rules stored in a policy, ready or not, are those of its Antrea policy. *)
Definition computed (r : Reconciler) (n : networkPolicy) : Prop :=
  policy_ok n /\ admits_rules r (np_Rules n) (np_ingressRules n) (np_egressRules n).

(** An appliedTo group that takes rules, whose policies have been computed. *)
Record takes_rules (r : Reconciler) (l : loc) (s : securityGroup) : Prop := mk_takes {
  tk_filed : exists k, ix_contents (appliedToSGIndexer (ixs r)) !! k = Some l;
  tk_group : h_sg (heap r) !! l = Some s;
  tk_created : sg_state s = securityGroupStateCreated;
  tk_idle : sg_retryOp s = None;
  tk_computed : forall np n, np ∈ policies_of r (cid_Name (sg_id s)) -> h_np (heap r) !! np = Some n -> computed r n
}.

Lemma takes_rules_raised r m cs l s : raises r m -> takes_rules r l s -> takes_rules (set_calls cs (with_nps m r)) l s.
Proof.
  intros Hm [H1 H2 H3 H4 H5]. split; [done..|]. intros np n Hnp Hn. simpl in Hn.
  apply (policies_raised r m) in Hnp; [|done]. pose proof (Hm np) as Hr. rewrite Hn in Hr.
  inversion Hr as [n0 n1 (Hc & Hi & He & _)%raised_core E1 E2|]; subst. destruct (H5 np n0) as [[Hoi Hoe] Ha]; [done..|].
  destruct Hc as (_ & Hru & _). unfold computed, policy_ok. rewrite Hi, He, Hru. done.
Qed.

(** Some policy of the group waits. *)
Definition waiting (r : Reconciler) (name : string) : Prop :=
  exists np n, np ∈ policies_of r name /\ h_np (heap r) !! np = Some n /\ np_rulesReady n = false.

Lemma waiting_dec r name : policies_there r ->
  waiting r name \/ forall np n, np ∈ policies_of r name -> h_np (heap r) !! np = Some n -> np_rulesReady n = true.
Proof.
  intros Ht. assert (forall l : list loc, (exists np n, np ∈ l /\ h_np (heap r) !! np = Some n /\ np_rulesReady n = false) \/
    forall np n, np ∈ l -> h_np (heap r) !! np = Some n -> np_rulesReady n = true) as Hd.
  { induction l as [|np l IH]; [right; by intros ? ? ?%not_elem_of_nil|].
    destruct (h_np (heap r) !! np) as [n|] eqn:Hn; [destruct (np_rulesReady n) eqn:E|].
    2: { left. exists np, n. split; [left|done]. }
    all: destruct IH as [(np' & n' & ? & ? & ?)|IH]; [left; exists np', n'; split; [by right|done]|].
    all: right; intros np' n' [->|?]%elem_of_cons Hn'; [congruence|eauto]. }
  apply Hd.
Qed.

(** Rules that admit exactly what the policies of a group allow have been asked
    for. *)
Definition asked (r : Reconciler) (l : loc) (s : securityGroup) (new : list CloudCall) : Prop :=
  exists ing eg, mkCall l (UpdateSecurityGroupRules (sg_id s) ing eg) (ReportOp securityGroupOperationUpdateRules) ∈ new /\
    rules_exact r (cid_Name (sg_id s)) ing eg.

Lemma asked_raised r m cs l s new new' :
  raises r m -> new ⊆ new' -> asked r l s new -> asked (set_calls cs (with_nps m r)) l s new'.
Proof. intros Hm Hsub (ing & eg & Hin & Hex). exists ing, eg. split; [by apply Hsub|]. by apply rules_exact_raised. Qed.

(** A policy that becomes ready: the group still waits, or its rules are asked for. *)
Lemma raised_asks r np n n' new l s :
  filed r -> h_np (heap r) !! np = Some n -> raised n n' ->
  (n' <> n -> forall name l c, name ∈ np_AppliedToGroups n -> l ∈ applied_groups r name ->
     c ∈ rules_request (with_np np n' r) l -> c ∈ new) ->
  takes_rules r l s -> waiting r (cid_Name (sg_id s)) ->
  waiting (with_np np n' r) (cid_Name (sg_id s)) \/ asked (with_np np n' r) l s new.
Proof.
  intros Hf Hn Hr Hnew Ht (np0 & n0 & Hnp0 & Hn0 & Hw). pose proof (raises_insert r np n n' Hn Hr) as Hm.
  change (with_np np n' r) with (with_nps (<[np := n']> (h_np (heap r))) r) in *.
  destruct (waiting_dec (with_nps (<[np := n']> (h_np (heap r))) r) (cid_Name (sg_id s))) as [?|Hall];
    [apply filed_with_nps; done|by left|right].
  assert (np0 = np) as ->.
  { destruct (decide (np0 = np)) as [?|Hne]; [done|]. exfalso. specialize (Hall np0 n0). simpl in Hall.
    rewrite lookup_insert_ne in Hall by done. rewrite Hall in Hw; [done|by apply policies_raised|done]. }
  rewrite Hn in Hn0. injection Hn0 as <-.
  assert (n' <> n) as Hne.
  { intros ->. specialize (Hall np n). simpl in Hall. rewrite lookup_insert_eq in Hall.
    rewrite Hall in Hw; [done|by apply policies_raised|done]. }
  pose proof (takes_rules_raised r _ (calls r) l s Hm Ht) as [[k Hk] Hs Hst Hop Hcomp].
  destruct (rules_request_exact (with_nps (<[np := n']> (h_np (heap r))) r) l s) as (ing & eg & Hreq & Hex);
    [by apply filed_with_nps|exact Hs|done|done| |].
  { intros np1 n1 Hnp1 Hn1. destruct (Hcomp np1 n1 Hnp1 Hn1). split_and!; [by eapply Hall|done..]. }
  exists ing, eg. split; [|done]. apply (Hnew Hne (cid_Name (sg_id s)) l).
  - apply elem_of_ByIndex in Hnp0 as [Hname _]. unfold np_by_appliedTo in Hname. by rewrite Hn in Hname.
  - apply elem_of_ByIndex. split; [|by exists k]. unfold sg_group. simpl in Hs. rewrite Hs. by apply list_elem_of_singleton.
  - change (with_np np n' r) with (with_nps (<[np := n']> (h_np (heap r))) r). rewrite Hreq. left.
Qed.

(** All the policies that name an address group are told. *)
Lemma notify_loop xs : forall r,
  filed r -> (forall np, np ∈ xs -> exists k, ix_contents (networkPolicyIndexer (ixs r)) !! k = Some np) ->
  exists m new, forM_ xs notifyAddrGrpChanges r = Some (tt, set_calls (calls r ++ new) (with_nps m r)) /\ raises r m /\
  (forall np n, np ∈ xs -> m !! np = Some n -> (forall ag, ag ∈ np_addr_groups (np_Rules n) -> group_ready r ag) ->
     np_rulesReady n = true) /\
  forall l s, takes_rules r l s -> waiting r (cid_Name (sg_id s)) ->
    waiting (with_nps m r) (cid_Name (sg_id s)) \/ asked (with_nps m r) l s new.
Proof.
  induction xs as [|x xs IH]; intros r Hf Hxs.
  - exists (h_np (heap r)), []. assert (with_nps (h_np (heap r)) r = r) as E by by destruct r as [[] ? ? ? ? ? ? ? ?].
    rewrite E, set_calls_nil. split_and!; [done|apply raises_refl|by intros ? ? ?%not_elem_of_nil|by left].
  - destruct (Hxs x ltac:(left)) as [k Hk]. destruct (filed_policies _ Hf k x Hk) as [n Hn].
    destruct (notifyAddrGrpChanges_run r x n Hf Hn ltac:(eauto)) as (n' & new & Hrun & Hr & Hready & Hask).
    pose proof (raises_insert r x n n' Hn Hr) as Hm1. set (m1 := <[x := n']> (h_np (heap r))) in *.
    set (r1 := set_calls (calls r ++ new) (with_nps m1 r)).
    destruct (IH r1) as (m2 & new2 & Hrun2 & Hm2 & Hready2 & Hask2).
    { apply filed_set_calls, filed_with_nps; done. }
    { intros np Hnp. apply Hxs. by right. }
    exists m2, (new ++ new2)%list. cbn [forM_]. rewrite (bind_run _ _ r tt r1 Hrun), Hrun2.
    assert (raises r m2) as Hm by exact (raises_trans r m1 m2 Hm1 Hm2).
    split_and!; [by simpl; rewrite app_assoc|done| |].
    + intros np n2 [->|Hnp]%elem_of_cons Hn2 Hg; [|by eapply Hready2].
      pose proof (Hm2 x) as Hx. simpl in Hx. unfold m1 in Hx. rewrite lookup_insert_eq, Hn2 in Hx.
      inversion Hx as [a b (Hc & _ & _ & Hup)%raised_core E1 E2|]; subst. apply Hup, Hready.
      destruct Hc as (_ & Hru & _), (raised_core _ _ Hr) as ((_ & Hru' & _) & _). rewrite <- Hru', <- Hru. exact Hg.
    + intros l s Ht Hw. destruct (raised_asks r x n n' new l s Hf Hn Hr Hask Ht Hw) as [Hw1|Ha1].
      * destruct (Hask2 l s) as [?|(ing & eg & ? & ?)]; [by apply takes_rules_raised|exact Hw1|by left|].
        right. exists ing, eg. split; [apply elem_of_app; by right|done].
      * right. apply (asked_raised (with_nps m1 r) m2 (calls r) l s new (new ++ new2)%list) in Ha1; [exact Ha1|exact Hm2|].
        intros c Hc. apply elem_of_app. by left.
Qed.

(** Marking the trackers of the groups of a policy. *)
Lemma dirties_bind {A} (m : M A) (k : A -> M unit) r x : m r = Some (x, r) -> dirties (k x) r -> dirties (x ← m; k x) r.
Proof. intros Hm (trs & Hk & Ht). exists trs. by rewrite (bind_run _ _ _ _ _ Hm). Qed.

Lemma securityGroup_markDirty_dirties r l : filed r -> is_Some (h_sg (heap r) !! l) -> dirties (securityGroup_markDirty l false) r.
Proof.
  intros Hf [s Hs]. eapply dirties_bind; [by apply get_sg_run|]. apply dirties_forM; [done|].
  intros rsc trs _ Ht. pose proof (filed_with_trs trs _ Hf Ht) as Hf1. set (r1 := with_trs trs r) in *.
  unfold getCloudResourceNPTracker.
  destruct (ix_GetByKey (CloudResource_String rsc) (cloudResourceNPTrackerIndexer (ixs r1))) as [t|] eqn:E.
  - apply (dirties_bind _ _ r1 (Some t)); [by rewrite (bind_run _ _ r1 (Some t) r1) by (unfold gets; by rewrite E)|].
    apply dirties_setDirty. rewrite ix_get in E. by eapply (filed_trackers r1).
  - apply (dirties_bind _ _ r1 None); [by rewrite (bind_run _ _ r1 None r1) by (unfold gets; by rewrite E)|]. apply dirties_ret.
Qed.

Lemma np_markDirty_dirties r np : filed r -> is_Some (h_np (heap r) !! np) -> dirties (np_markDirty np) r.
Proof.
  intros Hf [n Hn]. eapply dirties_bind; [by apply get_np_run|].
  apply dirties_forM; [done|]. intros key trs _ Ht. pose proof (filed_with_trs trs r Hf Ht) as Hf1.
  eapply dirties_bind; [reflexivity|]. apply dirties_forM; [done|].
  intros asg trs1 (_ & k & Hk)%elem_of_ByIndex Ht1. apply securityGroup_markDirty_dirties.
  - by apply filed_with_trs.
  - exact (filed_groups _ Hf k asg Hk).
Qed.

Lemma addr_update_run r l s :
  h_sg (heap r) !! l = Some s -> sg_state s = securityGroupStateCreated -> sg_retryOp s = None ->
  exists ms new, addr_update l [] [] r = Some (tt, set_calls (calls r ++ new) (with_sg l (set_members ms s) r)).
Proof.
  intros Hs Hst Hop. unfold addr_update, updateImpl. rewrite (bind_run _ _ _ _ _ (get_sg_run _ _ _ Hs)).
  assert (set_calls (calls r ++ []) (with_sg l (set_members (sg_members s) s) r) = r) as E.
  { rewrite app_nil_r. unfold with_sg. rewrite insert_id by (rewrite Hs; by destruct s). by destruct r as [[] ? ? ? ? ? ? ? ?]. }
  destruct (isIPBlocks s); [by exists (sg_members s), []; rewrite E|].
  rewrite (bind_run _ _ _ _ _ (get_sg_run _ _ _ Hs)). case_decide; [by exists (sg_members s), []; rewrite E|].
  cbv zeta. rewrite (bind_run _ _ r tt (with_sg l (set_members (mergeCloudResources (sg_members s) [] []) s) r) eq_refl).
  cbn [sg_state sg_retryOp set_members]. rewrite decide_False by (intros Hne; by destruct (Hne Hst)). rewrite Hop. eexists _, _. reflexivity.
Qed.

(** A policy that is ready, or only waits for the group [l]. *)
Definition waits_for (r : Reconciler) (l : loc) (ag : string) (n : networkPolicy) : Prop :=
  ag ∈ np_addr_groups (np_Rules n) /\
  forall ag', ag' ∈ np_addr_groups (np_Rules n) ->
    known r ag' /\ forall l' s', names_group r ag' l' s' -> l' = l \/ addr_isReady s' = true.

(** The groups are ready once [l] is. *)
Lemma waits_for_ready r l s s' ag n ag' :
  h_sg (heap r) !! l = Some s -> seen s' = seen s -> addr_isReady s' = true -> waits_for r l ag n ->
  ag' ∈ np_addr_groups (np_Rules n) -> group_ready (with_sg l s' r) ag'.
Proof.
  intros Hs E Hr [_ Hw] Hag. destruct (Hw ag' Hag) as [(l0 & s0 & Hl0) Hall].
  pose proof (with_sg_view l s s' r Hs E) as Hv. split.
  - destruct (names_group_view _ _ _ _ _ Hv Hl0) as (s1 & ? & _). by exists l0, s1.
  - intros l1 s1 Hl1. destruct (names_group_view _ _ _ _ _ (same_view_sym _ _ Hv) Hl1) as (s2 & Hl2 & _).
    destruct Hl1 as (_ & Hs1 & _). simpl in Hs1. destruct (decide (l1 = l)) as [->|Hne].
    + rewrite lookup_insert_eq in Hs1. by injection Hs1 as <-.
    + rewrite lookup_insert_ne in Hs1 by done. destruct (Hall l1 s2 Hl2) as [?|Hready]; [done|].
      destruct Hl2 as (_ & Hs2 & _). congruence.
Qed.

(** The answer to the creation of an address group, up to the notification of the
    policies. *)
Lemma bind_assoc_run {A} (m : M A) (k : A -> M unit) (f : M unit) r : ((x ← m; k x);; f) r = (x ← m; k x;; f) r.
Proof. unfold mbind, M_bind. by destruct (m r) as [[??]|]. Qed.

Lemma addr_created_run r l s (k f : M unit) :
  creation r l s -> sg_membershipOnly s = true -> exists ms new,
  (record_status l securityGroupOperationAdd None;;
   (update_retry l true securityGroupOperationAdd;;
    upd_sg l (fun s => if decide (sg_state s = securityGroupStateInit) then set_state securityGroupStateCreated s else s);;
    addr_update l [] [];; k);; f) r =
  (k;; f) (set_calls (calls r ++ new) (with_sg l (set_members ms (created s)) r)).
Proof.
  intros [Hs Hst Hop Hq] Hkind. rewrite (bind_run _ _ _ _ _ (record_status_run r l s _ Hs Hst)).
  set (r1 := with_sg l (set_status None s) r). assert (h_sg (heap r1) !! l = Some (set_status None s)) as Hs1 by apply with_sg_lookup.
  assert (update_retry l true securityGroupOperationAdd r1 = Some (tt, r1)) as Hu
    by (rewrite <- Hkind; by apply (update_retry_run r1 l (set_status None s))).
  destruct (addr_update_run (with_sg l (created s) r) l (created s)) as (ms & new & E); [apply with_sg_lookup|done|exact Hop|].
  exists ms, new. rewrite bind_assoc_run, (bind_run _ _ _ _ _ Hu), bind_assoc_run, (bind_run _ _ _ _ _ (upd_sg_run _ _ _ _ Hs1)).
  rewrite decide_True by exact Hst. unfold r1. rewrite with_sg_twice, bind_assoc_run, (bind_run _ _ _ _ _ E). simpl.
  by rewrite with_sg_twice.
Qed.

(** Writing another group leaves a group that takes rules alone. *)
Lemma takes_rules_with_sg r l s s' cs l2 s2 :
  h_sg (heap r) !! l = Some s -> seen s' = seen s -> sg_state s = securityGroupStateInit ->
  takes_rules r l2 s2 -> takes_rules (set_calls cs (with_sg l s' r)) l2 s2.
Proof.
  intros Hs E Hst [H1 H2 H3 H4 H5]. split; [done| |done|done|].
  - simpl. rewrite lookup_insert_ne; [done|]. intros ->. rewrite Hs in H2. injection H2 as ->. congruence.
  - intros np n Hnp Hn. destruct (H5 np n Hnp Hn) as [Hok Ha]. split; [done|].
    exact (admits_rules_view r (with_sg l s' r) _ _ _ (with_sg_view l s s' r Hs E) Ha).
Qed.

(** The policies of a group that were ready, or waited for an address group only,
    are ready once those that name the address group have been told. *)
Lemma none_waits r m l s s' cs name :
  h_sg (heap r) !! l = Some s -> seen s' = seen s -> addr_isReady s' = true ->
  (forall np n, np ∈ policies_of r name -> h_np (heap r) !! np = Some n ->
     np_rulesReady n = true \/ waits_for r l (cid_Name (sg_id s)) n) ->
  raises r m ->
  (forall np n, np ∈ ix_ByIndex (np_by_addr (heap r)) (cid_Name (sg_id s)) (networkPolicyIndexer (ixs r)) -> m !! np = Some n ->
     (forall ag, ag ∈ np_addr_groups (np_Rules n) -> group_ready (set_calls cs (with_sg l s' r)) ag) -> np_rulesReady n = true) ->
  ~ waiting (with_nps m r) name.
Proof.
  intros Hs E Hready Hall Hm Hloop (np & n' & Hnp & Hn' & Hw). simpl in Hn'. apply (policies_raised r m) in Hnp; [|done].
  pose proof (Hm np) as Hr. rewrite Hn' in Hr. inversion Hr as [n n1 (Hc & _ & _ & Hup)%raised_core E1 E2|]; subst.
  symmetry in E1. destruct (Hall np n Hnp E1) as [Hn|Hwf]; [rewrite (Hup Hn) in Hw; done|].
  rewrite (Hloop np n') in Hw; [done| |done|].
  - apply elem_of_ByIndex in Hnp as [_ Hk]. apply elem_of_ByIndex. split; [|done]. unfold np_by_addr. rewrite E1. apply Hwf.
  - destruct Hc as (_ & -> & _). intros ag Hag. exact (waits_for_ready r l s s' _ n ag Hs E Hready Hwf Hag).
Qed.


End Ready.

(** ** A sample

    The policy comes while both its groups are being created; then the address group
    is created first, or the appliedTo group. *)

#[local] Existing Instance map_indexer.
#[local] Existing Instance map_to_list_range.

Definition address_first : list Action := (late ++ ok)%list.
Definition applied_first : list Action := (late ++ [Answer 1 None; Deliver env0 0])%list.

Definition pending_group : securityGroup := set_status (Some InProgress) (set_state securityGroupStateInit the_group).
Definition pending_address : securityGroup := set_status (Some InProgress) (set_state securityGroupStateInit address_group).
Definition waiting_policy : networkPolicy := np_set_rules (np_ingressRules the_policy) [] false the_policy.

(** The rules of the sample policy, ready or not, are those of its Antrea policy. *)
Lemma sample_computed r s0 n :
  ix_ByIndex (sg_group (heap r)) "ag" (addrSGIndexer (ixs r)) = [1%positive] -> h_sg (heap r) !! 1%positive = Some s0 ->
  sg_ipBlocks s0 = [] -> slash_free (sg_id s0) ->
  fst <$> rules (mkRule DirectionIn (mkPeer ["ag"] []) (mkPeer [] []) (Some [tcp80]) (Some RuleActionAllow)) r =
    Some (np_ingressRules the_policy, [], true) ->
  np_Rules n = anp_Rules policy -> np_ingressRules n = np_ingressRules the_policy -> np_egressRules n = [] -> computed r n.
Proof.
  intros E Hs0 Hips Hsf Hr Hru Hi He. set (rule := mkRule _ _ _ _ _) in *.
  destruct (rules_spec r rule) as (ing & eg & ready & Hrun & Hspec). rewrite Hrun in Hr. simpl in Hr. injection Hr as -> -> ->.
  split.
  - unfold policy_ok. rewrite Hi, He. apply (rules_ok r rule _ _ true r); [|exact Hrun].
    eapply (one_rule_sane "ag" "at"); [exact E|exact Hs0|done|done|left].
  - rewrite Hru, Hi, He. destruct Hspec as [Hin Hout]. intros proto port p. rewrite Hin, Hout.
    split; (split; [intros Ha; exists rule; split; [left|exact Ha]|by intros (? & ->%list_elem_of_singleton & Ha)]).
Qed.


