(* ===== verification/NPChange.v ===== *)
(** * A policy that changes

    The other branch of [networkPolicy.update]: a policy the reconciler knows comes
    again with other rules.  It is taken out of the index and filed again, its rules
    are computed, and the groups it is applied to are told; their rules are those
    of the changed policy. *)

From stdpp Require Import base strings list gmap.
From Stdlib Require Import ZArith Lia.
From S2P Require Import Prelude GoStrings GoNet GoCIDR SecurityGroup RuleMerge NPState NPPending NPGroups.
From S2P Require Import NPPolicy NPSync NPController NPInvariants NPSystem NPRules NPTheorems NPDelivery NPReady.

#[local] Open Scope string_scope.
#[local] Open Scope Z_scope.

Section Change.
Context {IXC : CacheIndexer} {RNG : MapRange}.

(** The reconciler with a policy filed again, its rules those of [anp]. *)
Definition with_rules_of (anp : AntreaPolicy) (n : networkPolicy) : networkPolicy :=
  mkNP (np_Name n) (anp_Rules anp) (np_AppliedToGroups n) (np_ingressRules n) (np_egressRules n) (np_rulesReady n).
Definition refiled (anp : AntreaPolicy) (np : loc) (n : networkPolicy) (r : Reconciler) : Reconciler :=
  let r := with_np np (with_rules_of anp n) r in
  set_ixs (set_npIx (ix_Add (np_key n) np (ix_Delete (np_key n) (networkPolicyIndexer (ixs r)))) (ixs r)) r.

Lemma refiled_contents anp np n r :
  ix_contents (networkPolicyIndexer (ixs r)) !! np_key n = Some np ->
  ix_contents (networkPolicyIndexer (ixs (refiled anp np n r))) = ix_contents (networkPolicyIndexer (ixs r)).
Proof. intros Hk. simpl. rewrite ix_add, ix_delete, insert_delete_eq. by apply insert_id. Qed.

(** A known policy that comes with other rules for the same groups, when the address
    groups it names now are ready and those it names no longer are kept. *)
Record changes (anp : AntreaPolicy) (r : Reconciler) (np : loc) (n : networkPolicy) : Prop := mk_changes {
  chg_supported : isNetworkPolicySupported anp = None;
  chg_plugin : cloudPlugin r = true;
  chg_known : ix_contents (networkPolicyIndexer (ixs r)) !! NamespacedName_String (original_name anp) = Some np;
  chg_policy : h_np (heap r) !! np = Some n;
  chg_rules : anp_Rules anp <> np_Rules n;
  chg_groups : anp_AppliedToGroups anp = np_AppliedToGroups n;
  chg_ready : forall ag, ag ∈ np_addr_groups (anp_Rules anp) -> group_ready r ag;
  chg_sane : forall rule, rule ∈ anp_Rules anp -> rule_sane r rule;
  chg_kept : forall ag l s, ag ∈ (diffAddressGrp (np_Rules n) (anp_Rules anp)).2 -> names_group r ag l s -> sg_deletePending s = false
}.

(** The part of the update that computes the rules. *)
Lemma update_rules_part_run anp r np n :
  changes anp r np n -> np_key n = NamespacedName_String (original_name anp) ->
  exists n', update_rules_part np anp r =
    Some (((diffAddressGrp (np_Rules n) (anp_Rules anp)).2, np_AppliedToGroups n), with_np np n' (refiled anp np n r)) /\
  same_policy (with_rules_of anp n) n' /\ current r n'.
Proof.
  intros [_ _ Hk Hn Hne Hgr Hready Hsane _] Hkey. unfold update_rules_part.
  rewrite (bind_run _ _ _ _ _ (get_np_run _ _ _ Hn)), decide_False by done.
  set (ra := set_ixs (set_npIx (ix_Delete (np_key n) (networkPolicyIndexer (ixs r))) (ixs r)) r).
  rewrite (bind_run _ _ r tt ra) by (unfold np_Delete; by rewrite (bind_run _ _ _ _ _ (get_np_run _ _ _ Hn))).
  cbv zeta. rewrite (bind_run _ _ ra tt (with_np np (with_rules_of anp n) ra)) by by apply upd_np_run.
  set (rb := refiled anp np n r). assert (h_np (heap rb) !! np = Some (with_rules_of anp n)) as Hb by apply with_np_lookup.
  rewrite (bind_run _ _ (with_np np (with_rules_of anp n) ra) tt rb)
    by (unfold np_Add; by rewrite (bind_run _ _ _ _ _ (get_np_run _ _ _ (with_np_lookup _ _ _)))).
  destruct (computeRules_run rb np (with_rules_of anp n) Hb) as (ok & n' & Hrun & Hok & Hiff & Hadm).
  assert (forall rule, rule ∈ anp_Rules anp -> rule_sane rb rule) as Hsane' by (intros rule Hrule; by destruct (Hsane rule Hrule)).
  destruct (computeRules_ok np rb (with_rules_of anp n) ok _ Hb Hsane' Hrun) as (n1 & E & Hsame & Hpok).
  assert (n1 = n') as -> by (apply (f_equal (fun r => h_np (heap r) !! np)) in E; rewrite !with_np_lookup in E; congruence).
  assert (ok = true) as -> by by apply Hiff. exists n'. rewrite (bind_run _ _ _ _ _ Hrun).
  rewrite (bind_run _ _ _ _ _ (get_np_run _ _ _ (with_np_lookup np n' rb))). pose proof Hsame as (_ & Hr & ->).
  split; [done|]. split; [done|]. split; [done|]. split; [done|]. rewrite Hr. exact (Hadm eq_refl).
Qed.

(** Telling address groups that are kept changes nothing. *)
Lemma notify_addr_groups_kept r names :
  (forall ag l s, ag ∈ names -> names_group r ag l s -> sg_deletePending s = false) ->
  notify_addr_groups names r = Some (tt, r).
Proof.
  intros Hk. unfold notify_addr_groups. induction names as [|ag names IH]; [done|]. cbn [forM_].
  rewrite (bind_run _ _ r tt r); [apply IH; intros; eapply Hk; [by right|done]|].
  rewrite (bind_run _ _ r (ix_ByIndex (sg_group (heap r)) ag (addrSGIndexer (ixs r))) r eq_refl).
  assert (forall l, l ∈ ix_ByIndex (sg_group (heap r)) ag (addrSGIndexer (ixs r)) -> exists s, names_group r ag l s) as Hl
    by (intros l; apply elem_of_sgs_of_group).
  revert Hl. generalize (ix_ByIndex (sg_group (heap r)) ag (addrSGIndexer (ixs r))). intros ls Hl.
  induction ls as [|l ls IHl]; [done|]. destruct (Hl l ltac:(left)) as [s Hs]. cbn [forM_].
  rewrite (bind_run _ _ r tt r); [apply IHl; intros; apply Hl; by right|]. unfold addr_notifyNetworkPolicyChange.
  rewrite (bind_run _ _ r s r) by (apply get_sg_run, Hs). rewrite (Hk ag l s); [done|left|done].
Qed.

Lemma changes_with_trs anp r np n trs : changes anp r np n -> changes anp (with_trs trs r) np n.
Proof.
  intros [H1 H2 H3 H4 H5 H6 H7 H8 H9]. split; [done..|exact H7| |exact H9]. intros rule Hrule. by destruct (H8 rule Hrule).
Qed.

(** The reconciler when the policy has been computed. *)
Definition recomputed (anp : AntreaPolicy) (np : loc) (n n' : networkPolicy) (trs : gmap loc cloudResourceNPTracker)
    (r : Reconciler) : Reconciler := with_np np n' (refiled anp np n (with_trs trs r)).

Lemma recomputed_filed anp np n n' trs r :
  filed (with_trs trs r) -> ix_contents (networkPolicyIndexer (ixs r)) !! np_key n = Some np -> filed (recomputed anp np n n' trs r).
Proof.
  intros [H1 H2 H3] Hk. split; [|done|done]. intros k np' Hk'.
  change (ix_contents (networkPolicyIndexer (ixs (refiled anp np n (with_trs trs r)))) !! k = Some np') in Hk'.
  rewrite refiled_contents in Hk' by done. simpl. apply lookup_insert_is_Some'. right. apply lookup_insert_is_Some'. right. by eapply H1.
Qed.

(** The policies of a group are the same ones afterwards. *)
Lemma recomputed_policies anp np n n' trs r name np' :
  h_np (heap r) !! np = Some n -> ix_contents (networkPolicyIndexer (ixs r)) !! np_key n = Some np ->
  same_policy (with_rules_of anp n) n' -> np' ∈ policies_of (recomputed anp np n n' trs r) name <-> np' ∈ policies_of r name.
Proof.
  intros Hn Hk (_ & _ & HA). unfold policies_of. rewrite !elem_of_ByIndex.
  change (ix_contents (networkPolicyIndexer (ixs (recomputed anp np n n' trs r))))
    with (ix_contents (networkPolicyIndexer (ixs (refiled anp np n (with_trs trs r))))).
  rewrite refiled_contents by done. unfold np_by_appliedTo. apply and_iff_compat_r.
  destruct (decide (np' = np)) as [->|Hne]; simpl; [by rewrite lookup_insert_eq, Hn, HA|by rewrite !lookup_insert_ne].
Qed.

Lemma np_update_changed anp r np n :
  filed r -> changes anp r np n -> np_key n = NamespacedName_String (original_name anp) ->
  exists trs n' trs', let rc := recomputed anp np n n' trs r in
  let new := flat_map (fun name => flat_map (notify_request rc) (applied_groups r name)) (np_AppliedToGroups n) in
  np_update np (Some anp) r = Some (tt, with_trs trs' (set_calls (calls r ++ new) rc)) /\
  same_policy (with_rules_of anp n) n' /\ current r n' /\ filed rc.
Proof.
  intros Hf Hc Hkey. pose proof (chg_policy _ _ _ _ Hc) as Hn. pose proof (chg_known _ _ _ _ Hc) as Hk. rewrite <- Hkey in Hk.
  destruct (np_markDirty_dirties r np Hf ltac:(eauto)) as (trs & Hd & Ht).
  pose proof (filed_with_trs trs r Hf Ht) as Hf0. apply (changes_with_trs anp r np n trs) in Hc.
  destruct (update_rules_part_run anp (with_trs trs r) np n Hc Hkey) as (n' & Hrun & Hsame & Hcur).
  set (rc := recomputed anp np n n' trs r). assert (filed rc) as Hfc by by apply recomputed_filed.
  set (new := flat_map (fun name => flat_map (notify_request rc) (applied_groups r name)) (np_AppliedToGroups n)).
  destruct (np_markDirty_dirties (set_calls (calls r ++ new) rc) np) as (trs' & Hd' & _);
    [by apply filed_set_calls|eexists; apply with_np_lookup|].
  exists trs, n', trs'. split; [|done]. unfold np_update. rewrite (bind_run _ _ _ _ _ Hd), (bind_run _ _ _ _ _ Hrun). fold rc.
  cbv beta iota. assert (h_np (heap rc) !! np = Some n') as Hn' by apply with_np_lookup.
  rewrite (bind_run _ _ rc ([], []) rc); cycle 1.
  { unfold update_appliedTo_part. rewrite (bind_run _ _ _ _ _ (get_np_run _ _ _ Hn')).
    rewrite decide_True; [done|]. destruct Hsame as (_ & _ & ->). apply (chg_groups _ _ _ _ Hc). }
  cbv beta iota. rewrite (bind_run _ _ rc tt rc) by (apply notify_addr_groups_kept, (chg_kept _ _ _ _ Hc)).
  rewrite !app_nil_r. pose proof (notify_requests rc (np_AppliedToGroups n) (calls r)) as Hnr.
  assert (set_calls (calls r) rc = rc) as E by by destruct r. rewrite E in Hnr.
  rewrite (bind_run _ _ rc tt (set_calls (calls r ++ new) rc)); [exact Hd'|]. apply Hnr; [apply Hfc|apply Hfc|].
  intros name Hname Hnil. apply (not_elem_of_nil np). rewrite <- Hnil. apply recomputed_policies; [done..|].
  apply elem_of_ByIndex. unfold np_by_appliedTo. rewrite Hn. eauto.
Qed.

Lemma changed_policy_run env t anp r np n r' :
  t = Added \/ t = Modified -> changes anp r np n -> np_update np (Some anp) r = Some (tt, r') ->
  handle env (EvNetworkPolicy t anp) r = Some (tt, r').
Proof.
  intros Ht [Hsup Hplug Hk Hn Hne _ _ _ _] Hrun. cbn [handle]. unfold watcher_event.
  rewrite decide_False by (by destruct Ht as [->| ->]). rewrite (bind_run _ _ r None r'); [done|]. unfold processNetworkPolicy.
  rewrite (bind_run _ _ r false r) by (destruct Ht as [->| ->]; reflexivity). rewrite Hsup. cbv zeta.
  rewrite (bind_run _ _ r (Some np) r) by (unfold gets; by rewrite ix_get, Hk). cbv beta iota.
  rewrite (bind_run _ _ r np r eq_refl). rewrite decide_False by (by destruct Ht as [->| ->]).
  rewrite (bind_run _ _ _ _ _ (get_np_run _ _ _ Hn)). rewrite (bool_decide_eq_false_2 (anp_Rules anp = np_Rules n)) by done.
  cbn [negb andb]. rewrite (bind_run _ _ r true r) by (unfold gets; by rewrite Hplug). cbn [negb].
  by rewrite (bind_run _ _ _ _ _ Hrun).
Qed.

(** An appliedTo group of the policy that is created, not about to be deleted and
    has no retry under way, and whose other policies are current. *)
Record affected (r : Reconciler) (np : loc) (n : networkPolicy) (l : loc) (s : securityGroup) : Prop := mk_affected {
  aff_filed : exists k, ix_contents (appliedToSGIndexer (ixs r)) !! k = Some l;
  aff_group : h_sg (heap r) !! l = Some s;
  aff_named : cid_Name (sg_id s) ∈ np_AppliedToGroups n;
  aff_created : sg_state s = securityGroupStateCreated;
  aff_kept : sg_deletePending s = false;
  aff_idle : sg_retryOp s = None;
  aff_current : forall np' n', np' <> np -> np' ∈ policies_of r (cid_Name (sg_id s)) -> h_np (heap r) !! np' = Some n' -> current r n'
}.


End Change.

(** ** A sample

    The policy of the sample run comes again for port 443. *)

#[local] Existing Instance map_indexer.
#[local] Existing Instance map_to_list_range.

Definition stricter : AntreaPolicy :=
  mkAntreaPolicy (nn "np") [mkRule DirectionIn (mkPeer ["ag"] []) (mkPeer [] []) (Some [mkService (Some ProtocolTCP) (Some 443)])
    (Some RuleActionAllow)] ["at"] (Some (mkSourceRef AntreaNetworkPolicy "ns" "np")).

Lemma sample_changes r :
  cloudPlugin r = true -> ix_contents (networkPolicyIndexer (ixs r)) !! "ns/np" = Some 4%positive ->
  h_np (heap r) !! 4%positive = Some the_policy -> ix_ByIndex (sg_group (heap r)) "ag" (addrSGIndexer (ixs r)) = [1%positive] ->
  h_sg (heap r) !! 1%positive = Some address_group -> ix_contents (addrSGIndexer (ixs r)) !! "ag/vpc1" = Some 1%positive ->
  changes stricter r 4%positive the_policy.
Proof.
  intros Hp Hk Hn E Hs Ha. split; [done|done|exact Hk|exact Hn|discriminate|done| | |].
  - intros ag' ->%list_elem_of_singleton. split; [exists 1%positive, address_group; split_and!; [by exists "ag/vpc1"|exact Hs|done]|].
    intros l s Hl. by rewrite (names_group_alone r "ag" 1%positive address_group l s E Hs Hl).
  - intros rule ->%list_elem_of_singleton. split.
    + intros ss s [= <-] ->%list_elem_of_singleton. split; [done|]. intros _. by left.
    + intros [] b Hb; by apply not_elem_of_nil in Hb.
    + intros [] ag' l s Hag Hl; [|by apply not_elem_of_nil in Hag].
      apply list_elem_of_singleton in Hag as ->. rewrite (names_group_alone r "ag" 1%positive address_group l s E Hs Hl). by split.
  - intros ag l s Hag. by apply not_elem_of_nil in Hag.
Qed.

