(* ===== verification/NPRemoval.v ===== *)
(** * A policy that is deleted

    The groups of a deleted policy are told: the rules of those that have other
    policies become what these allow, and the members of a group that has lost its
    last policy are taken out of it. *)

From stdpp Require Import base strings list gmap.
From Stdlib Require Import ZArith Lia.
From S2P Require Import Prelude GoStrings GoNet GoCIDR SecurityGroup RuleMerge NPState NPPending NPGroups.
From S2P Require Import NPPolicy NPSync NPController NPInvariants NPSystem NPRules NPTheorems NPDelivery NPReady NPChange.

#[local] Open Scope string_scope.
#[local] Open Scope Z_scope.

Section Removal.
Context {IXC : CacheIndexer} {RNG : MapRange}.

(** The request that takes all the members out of a group. *)
Definition clear_request (l : loc) (s : securityGroup) : CloudCall :=
  mkCall l (UpdateSecurityGroupMembers (sg_id s) [] false) (ReportOp securityGroupOperationClearMembers).

(** What is asked for when a group is told that its policies have changed. *)
Definition removal_request (r : Reconciler) (l : loc) : list CloudCall :=
  match h_sg (heap r) !! l with
  | None => []
  | Some s =>
      if decide (policies_of r (cid_Name (sg_id s)) = []) then
        if appliedTo_isReady s && bool_decide (sg_retryOp s = None) then [clear_request l s] else []
      else notify_request r l
  end.

(** A group that has policies, or has members in the cloud and is kept. *)
Definition withdrawable (r : Reconciler) (s : securityGroup) : Prop :=
  policies_of r (cid_Name (sg_id s)) <> [] \/ sg_deletePending s = false /\ sg_hasMembers s = true.

Lemma removal_request_run r l s cs :
  policies_there r -> h_sg (heap r) !! l = Some s -> withdrawable r s ->
  appliedTo_notifyNetworkPolicyChange l (set_calls cs r) = Some (tt, set_calls (cs ++ removal_request r l) r).
Proof.
  intros Ht Hs Hw. unfold removal_request. rewrite Hs.
  destruct (decide (policies_of r (cid_Name (sg_id s)) = [])) as [Hnil|Hne]; [|by eapply notify_request_run].
  destruct Hw as [?|[Hdp Hm]]; [done|]. assert (h_sg (heap (set_calls cs r)) !! l = Some s) as Hs' by done.
  assert (nps_of_appliedTo (cid_Name (sg_id s)) (set_calls cs r) = Some ([], set_calls cs r)) as Hnps
    by (unfold nps_of_appliedTo, gets; change (ix_ByIndex _ _ _) with (policies_of r (cid_Name (sg_id s))); by rewrite Hnil).
  unfold appliedTo_notifyNetworkPolicyChange, updateRules. rewrite (bind_run _ _ _ _ _ (get_sg_run _ _ _ Hs')), (bind_run _ _ _ _ _ Hnps).
  rewrite Hdp. cbn [negb andb]. rewrite andb_false_r, (bind_run _ _ _ _ _ (get_sg_run _ _ _ Hs')).
  destruct (appliedTo_isReady s); cbn [negb andb]; [|by rewrite app_nil_r].
  destruct (sg_retryOp s); [by rewrite app_nil_r|]. rewrite (bind_run _ _ _ _ _ Hnps), decide_True by done. by rewrite Hm.
Qed.

(** The reconciler when a policy has been taken out of the index. *)
Definition unfiled (n : networkPolicy) (trs : gmap loc cloudResourceNPTracker) (r : Reconciler) : Reconciler :=
  set_ixs (set_npIx (ix_Delete (np_key n) (networkPolicyIndexer (ixs r))) (ixs r)) (with_trs trs r).

Lemma unfiled_filed n trs r : filed (with_trs trs r) -> filed (unfiled n trs r).
Proof. intros [H1 H2 H3]. split; [|done|done]. intros k np. simpl. rewrite ix_delete. intros [_ Hk]%lookup_delete_Some. by eapply H1. Qed.

Lemma unfiled_policies r np n trs name np' :
  keyed_wf np_key (h_np (heap r)) (ix_contents (networkPolicyIndexer (ixs r))) -> h_np (heap r) !! np = Some n ->
  ix_contents (networkPolicyIndexer (ixs r)) !! np_key n = Some np ->
  np' ∈ policies_of (unfiled n trs r) name <-> np' ∈ policies_of r name /\ np' <> np.
Proof.
  intros Hwf Hn Hnp. unfold policies_of. rewrite !elem_of_ByIndex. simpl. rewrite ix_delete. split.
  - intros (Hname & k & (Hne & Hk)%lookup_delete_Some). split; [eauto|]. intros ->. destruct (Hwf k np Hk) as (a & Ha & <-). congruence.
  - intros [(Hname & k & Hk) Hne]. split; [done|]. exists k. apply lookup_delete_Some. split; [|done]. intros <-. congruence.
Qed.

(** A known policy, no address group of which is about to be deleted, and whose
    appliedTo groups have other policies or members to take out. *)
Record withdraws (anp : AntreaPolicy) (r : Reconciler) (np : loc) (n : networkPolicy) : Prop := mk_withdraws {
  wd_supported : isNetworkPolicySupported anp = None;
  wd_known : ix_contents (networkPolicyIndexer (ixs r)) !! NamespacedName_String (original_name anp) = Some np;
  wd_policy : h_np (heap r) !! np = Some n;
  wd_address : forall ag l s, ag ∈ np_addr_groups (np_Rules n) -> names_group r ag l s -> sg_deletePending s = false;
  wd_applied : forall name l s, name ∈ np_AppliedToGroups n -> l ∈ applied_groups r name -> h_sg (heap r) !! l = Some s ->
    (exists np', np' ∈ policies_of r (cid_Name (sg_id s)) /\ np' <> np) \/ sg_deletePending s = false /\ sg_hasMembers s = true
}.

Lemma np_delete_run r np n anp :
  filed r -> keyed_wf np_key (h_np (heap r)) (ix_contents (networkPolicyIndexer (ixs r))) ->
  withdraws anp r np n -> np_key n = NamespacedName_String (original_name anp) ->
  exists trs, let rc := unfiled n trs r in
  np_delete np r = Some (tt, set_calls (calls r ++
    flat_map (fun name => flat_map (removal_request rc) (applied_groups r name)) (np_AppliedToGroups n)) rc) /\ filed rc.
Proof.
  intros Hf Hwf [_ Hk Hn Hag Hat] Hkey. rewrite <- Hkey in Hk.
  destruct (np_markDirty_dirties r np Hf ltac:(eauto)) as (trs & Hd & Ht). exists trs. set (rc := unfiled n trs r).
  assert (filed rc) as Hfc by by apply unfiled_filed, filed_with_trs. split; [|done].
  assert (h_np (heap (with_trs trs r)) !! np = Some n) as Hn1 by done. unfold np_delete.
  rewrite (bind_run _ _ _ _ _ Hd), (bind_run _ _ _ _ _ (get_np_run _ _ _ Hn1)).
  rewrite (bind_run _ _ (with_trs trs r) tt rc) by (unfold np_Delete; by rewrite (bind_run _ _ _ _ _ (get_np_run _ _ _ Hn1))).
  assert (set_calls (calls r) rc = rc) as E by by destruct r. rewrite <- E at 1.
  set (new := flat_map (fun name => flat_map (removal_request rc) (applied_groups r name)) (np_AppliedToGroups n)).
  rewrite (bind_run _ _ (set_calls (calls r) rc) tt (set_calls (calls r ++ new) rc)).
  - apply notify_addr_groups_kept. intros ag l s Hin Hl. by eapply Hag.
  - apply (forM_requests _ (fun name => flat_map (removal_request rc) (applied_groups r name))). intros name cs Hname.
    rewrite (bind_run _ _ (set_calls cs rc) (applied_groups r name) (set_calls cs rc) eq_refl). apply forM_requests.
    intros l cs' Hl. pose proof Hl as (_ & k & Hkl)%elem_of_ByIndex. destruct (filed_groups _ Hf k l Hkl) as [s Hs].
    eapply removal_request_run; [apply Hfc|exact Hs|]. destruct (Hat name l s Hname Hl Hs) as [(np' & Hnp')|?]; [left|by right].
    apply (unfiled_policies r np n trs) in Hnp'; [|done..]. fold rc in Hnp'. intros Hnil. rewrite Hnil in Hnp'. by apply not_elem_of_nil in Hnp'.
Qed.

Lemma removed_policy_run env anp r np n r' :
  withdraws anp r np n -> np_delete np r = Some (tt, r') -> handle env (EvNetworkPolicy Deleted anp) r = Some (tt, r').
Proof.
  intros [Hsup Hk _ _ _] Hrun. cbn [handle]. unfold watcher_event. rewrite decide_False by done.
  rewrite (bind_run _ _ r None r'); [done|]. unfold processNetworkPolicy. rewrite (bind_run _ _ r false r eq_refl), Hsup. cbv zeta.
  rewrite (bind_run _ _ r (Some np) r) by (unfold gets; by rewrite ix_get, Hk). cbv beta iota.
  rewrite (bind_run _ _ r np r eq_refl), decide_True by done. by rewrite (bind_run _ _ _ _ _ Hrun).
Qed.


End Removal.

(** ** A sample

    The policy of the sample run is deleted when the members of its group are in the
    cloud: it is the last policy of the group. *)

#[local] Existing Instance map_indexer.
#[local] Existing Instance map_to_list_range.

Definition enforced : list Action := (applied ++ ok ++ ok ++ ok)%list.
Definition enforced_group : securityGroup := set_hasRules true (set_hasMembers true the_group).

