(* ===== verification/NPHistory.v ===== *)
(** * What the cloud was last asked for, over a whole run

    The runs of the system with their history: the requests made so far and the
    events handled so far.  [NPMembers] follows one handler; here the property is
    carried over runs, and stated. *)

From stdpp Require Import base strings list gmap relations.
From Stdlib Require Import ZArith Lia.
From S2P Require Import Prelude GoStrings GoNet GoCIDR SecurityGroup RuleMerge NPState NPPending NPGroups.
From S2P Require Import NPPolicy NPSync NPController NPInvariants NPSafety NPReach NPSystem NPMembers NPRules NPTheorems.

#[local] Open Scope string_scope.
#[local] Open Scope Z_scope.

Abbreviation history := (list (Env * Event)).

(** A request for the group was answered with a failure. *)
Definition request_failed (evs : history) (l : loc) : Prop :=
  exists env st, (env, EvResponse st) ∈ evs /\ st_sg st = l /\ st_err st <> None.

(** Whenever members were removed, the API knew their entities. *)
Definition removals_known (evs : history) : Prop :=
  forall env ev, (env, ev) ∈ evs -> entities_known env (event_removals ev).

Section History.
Context {IXC : CacheIndexer} {RNG : MapRange}.
#[local] Instance full_invariant : Strictness := true.

(** A synchronisation found the group in the cloud, with these members. *)
Definition reported_members (evs : history) (id : CloudResourceID) (ms : list CloudResource) : Prop :=
  exists env ev c s, (env, ev) ∈ evs /\ c ∈ env_SyncContents env /\ sc_Resource c = id /\
    same_members env s c = true /\ ms ⊆ sg_members s /\ (removals_known evs -> ms = sg_members s).

(** ** Runs with their history: the requests made and the events handled *)

Inductive traced : System -> list CloudCall -> history -> Prop :=
  | traced_init plugin : traced (mkSystem (SetupWithManager plugin) []) [] []
  | traced_event env ev r r' resp log evs :
      traced (mkSystem r resp) log evs ->
      (forall st, ev <> EvResponse st) ->
      handle env ev r = Some (tt, r') ->
      traced (mkSystem r' resp) (log ++ drop (length (calls r)) (calls r'))%list (evs ++ [(env, ev)])%list
  | traced_answer r resp pre c post err log evs :
      traced (mkSystem r resp) log evs ->
      calls r = (pre ++ c :: post)%list ->
      traced (mkSystem (set_calls (pre ++ post)%list r)
                (resp ++ [mkStatus (call_sg c) (reported_op r c) err])%list) log evs
  | traced_deliver env r r' pre st post log evs :
      traced (mkSystem r (pre ++ st :: post)%list) log evs ->
      handle env (EvResponse st) r = Some (tt, r') ->
      traced (mkSystem r' (pre ++ post)%list) (log ++ drop (length (calls r)) (calls r'))%list
        (evs ++ [(env, EvResponse st)])%list.

(** Every run has a history, and only runs have one. *)
Lemma traced_reachable sys log evs : traced sys log evs -> reachable sys.
Proof.
  induction 1 as [|env ev r r' resp log evs _ IH Hne Hr|r resp pre c post err log evs _ IH Hc|env r r' pre st post log evs _ IH Hr].
  - apply reach_init.
  - eapply reach_step; [exact IH|by eapply step_event].
  - eapply reach_step; [exact IH|by apply step_answer].
  - eapply reach_step; [exact IH|by eapply step_deliver].
Qed.

Lemma reachable_traced sys : reachable sys -> exists log evs, traced sys log evs.
Proof.
  induction 1 as [plugin|s s' _ (log & evs & IH) Hst]; [by do 2 eexists; apply traced_init|].
  destruct Hst; do 2 eexists.
  - by eapply traced_event.
  - by eapply traced_answer.
  - by eapply traced_deliver.
Qed.

(** ** The property over runs *)

(** What is known of a run so far carries over to a longer history. *)
Lemma request_failed_app evs es l : request_failed evs l -> request_failed (evs ++ es)%list l.
Proof. intros (env & st & Hin & ?). exists env, st. split; [|done]. apply elem_of_app. by left. Qed.

Lemma removals_known_app evs es : removals_known (evs ++ es)%list -> removals_known evs.
Proof. intros Hk env ev Hin. apply Hk, elem_of_app. by left. Qed.

Lemma reported_members_app evs es id ms : reported_members evs id ms -> reported_members (evs ++ es)%list id ms.
Proof.
  intros (env & ev & c & s & Hin & Hc & Hid & Hs & Hsub & Hex). exists env, ev, c, s. split_and!; try done.
  - apply elem_of_app. by left.
  - intros Hk. by eapply Hex, removals_known_app.
Qed.

Lemma reported_members_stale evs id ms ms' :
  ~ removals_known evs -> reported_members evs id ms -> ms' ⊆ ms -> reported_members evs id ms'.
Proof.
  intros Hne (env & ev & c & s & Hin & Hc & Hid & Hs & Hsub & _) Hms. exists env, ev, c, s.
  split_and!; try done. by etrans.
Qed.

(** [J] of a run, read off its history. *)
Definition members_inv (log : list CloudCall) (n : nat) (evs : history) : Reconciler -> Prop :=
  J log n (request_failed evs) (removals_known evs) (reported_members evs).

Lemma members_inv_app log n evs es r : members_inv log n evs r -> members_inv log n (evs ++ es)%list r.
Proof.
  intros [J1 J2 J3 J4 J5]. split; [done|done| | |done].
  - intros l s Hl Hnf. destruct (J3 l s Hl) as [Hop Hu]; [intros Hf; by eapply Hnf, request_failed_app|].
    split; [done|]. unfold up_to_date in *. destruct (sg_state s); [done| |done].
    destruct (last_members_request l _) as [[ms []]|]; [done| |].
    + split; [apply Hu|]. intros Hk%removals_known_app. by apply Hu.
    + intros Hk Hip. destruct (Hu Hk Hip); [by left|right]. by apply reported_members_app.
  - intros k i l Hi Hl. eapply request_failed_app, J4; eauto.
Qed.

(** The waiting requests of a state do not matter, only the log. *)
Lemma members_inv_rebase log n evs r cs :
  members_inv log n evs r ->
  members_inv (log ++ drop n (calls r))%list (length cs) evs (set_calls cs r).
Proof.
  intros [J1 J2 J3 J4 J5].
  assert (logged (log ++ drop n (calls r))%list (length cs) (set_calls cs r) = logged log n r) as El.
  { unfold logged. simpl. by rewrite drop_all, app_nil_r. }
  split; simpl; rewrite ?El; [lia|done..].
Qed.

Lemma members_inv_logged log evs r n :
  members_inv log n evs r -> members_inv (log ++ drop n (calls r))%list (length (calls r)) evs r.
Proof.
  intros HJ. pose proof (members_inv_rebase log n evs r (calls r) HJ) as HJ'.
  by replace (set_calls (calls r) r) with r in HJ' by (by destruct r).
Qed.

Lemma handle_members_inv env ev r r' log evs :
  wf r -> (forall st, ev = EvResponse st -> ~ before_sync r) ->
  members_inv log (length (calls r)) evs r -> handle env ev r = Some (tt, r') ->
  members_inv (log ++ drop (length (calls r)) (calls r'))%list (length (calls r')) (evs ++ [(env, ev)])%list r'.
Proof.
  intros W Hst HJ Hr. apply members_inv_logged.
  assert ((env, ev) ∈ (evs ++ [(env, ev)])%list) as Hlast by (apply elem_of_app; right; left).
  eapply handle_J; [| |exact W| | |by apply members_inv_app|exact Hr].
  - intros *. apply reported_members_stale.
  - intros c s Hc Hid Hs. rewrite <- Hid. exists env, ev, c, s. by split_and!.
  - intros st ->. split; [by eapply Hst|]. intros He. exists env, st. done.
  - intros Hk. by apply (Hk env ev).
Qed.

Lemma traced_members_inv sys log evs :
  traced sys log evs -> members_inv log (length (calls (sys_r sys))) evs (sys_r sys).
Proof.
  induction 1 as [plugin|env ev r r' resp log evs Ht IH Hne Hr|r resp pre c post err log evs Ht IH Hc|env r r' pre st post log evs Ht IH Hr];
    simpl in *.
  - split; simpl; [lia|intros l [s Hs]; by rewrite lookup_empty in Hs|intros l s Hs; by rewrite lookup_empty in Hs
      |intros k i l Hi; by rewrite lookup_empty in Hi|intros c Hc; by apply not_elem_of_nil in Hc].
  - destruct (reachable_wf _ (traced_reachable _ _ _ Ht)) as [W _].
    eapply handle_members_inv; [exact W| |exact IH|exact Hr]. intros st ->. by destruct (Hne st).
  - pose proof (members_inv_rebase _ _ _ _ (pre ++ post)%list IH) as HJ. by rewrite drop_all, app_nil_r in HJ.
  - destruct (reachable_wf _ (traced_reachable _ _ _ Ht)) as [W Hq].
    eapply (handle_members_inv env (EvResponse st)); [exact W| |exact IH|exact Hr]. intros _ _ Hb. apply Hq in Hb. by destruct pre.
Qed.

(** Every request of the history is about the group it was made for. *)
Lemma traced_log_ok sys log evs :
  traced sys log evs -> calls_wf (h_sg (heap (sys_r sys))) log.
Proof.
  assert (forall env ev r r' log0, wf r -> (forall st, ev = EvResponse st -> ~ before_sync r) ->
    calls_wf (h_sg (heap r)) log0 -> handle env ev r = Some (tt, r') ->
    calls_wf (h_sg (heap r')) (log0 ++ drop (length (calls r)) (calls r'))%list) as Hstep.
  { intros env ev r r' log0 W Hq Hlog Hr. pose proof (handle_good _ _ _ _ W Hq Hr) as [W' [He _]].
    intros c [Hc|Hc]%elem_of_app; [by eapply calls_wf_mono|]. apply (wf_calls _ W').
    rewrite <- (take_drop (length (calls r))). apply elem_of_app. by right. }
  induction 1 as [plugin|env ev r r' resp log evs Ht IH Hne Hr|r resp pre c post err log evs Ht IH Hc|env r r' pre st post log evs Ht IH Hr];
    simpl in *.
  - intros c Hc. by apply not_elem_of_nil in Hc.
  - destruct (reachable_wf _ (traced_reachable _ _ _ Ht)) as [W _].
    eapply Hstep; [exact W| |exact IH|exact Hr]. intros st ->. by destruct (Hne st).
  - done.
  - destruct (reachable_wf _ (traced_reachable _ _ _ Ht)) as [W Hq].
    eapply (Hstep env (EvResponse st)); [exact W| |exact IH|exact Hr]. intros _ _ Hb. apply Hq in Hb. by destruct pre.
Qed.

Lemma last_members_request_call l log ms op :
  last_members_request l log = Some (ms, op) ->
  exists c id mo, c ∈ log /\ call_sg c = l /\ call_req c = UpdateSecurityGroupMembers id ms mo /\ call_op c = op.
Proof.
  unfold last_members_request. intros Hl.
  assert ((ms, op) ∈ omap (member_request l) log) as Hin.
  { apply last_Some in Hl as [l' ->]. apply elem_of_app. right. left. }
  apply list_elem_of_omap in Hin as (c & Hc & Hm). unfold member_request in Hm. case_decide; [|done].
  destruct (call_req c) eqn:Hreq; simplify_eq. eauto 8.
Qed.

(** The last request for the members of a group, read off the invariant. *)
Lemma last_members_current sys log evs l s :
  traced sys log evs ->
  h_sg (heap (sys_r sys)) !! l = Some s ->
  sg_state s = securityGroupStateCreated ->
  ~ request_failed evs l ->
  match last_members_request l log with
  | Some (ms, ReportByMembers) => sg_members s ⊆ ms /\ (removals_known evs -> ms = sg_members s)
  | Some (ms, ReportOp _) => ms = [] /\ sg_membershipOnly s = false
  | None => sg_membershipOnly s = false \/ isIPBlocks s = true \/ sg_members s = [] \/
      reported_members evs (sg_id s) (sg_members s)
  end.
Proof.
  intros Ht Hs Hst Hnf. destruct (J_groups _ _ _ _ _ _ (traced_members_inv _ _ _ Ht) l s Hs Hnf) as [_ Hu].
  unfold up_to_date, logged in Hu. rewrite drop_all, app_nil_r, Hst in Hu.
  destruct (last_members_request l log) as [[ms op]|] eqn:Hl.
  - destruct op as [op|]; [|exact Hu]. split; [exact Hu|].
    destruct (last_members_request_call _ _ _ _ Hl) as (c & id & mo & Hc & <- & Hreq & Hop).
    destruct (traced_log_ok _ _ _ Ht c Hc) as (s' & Hs' & Hok). assert (s' = s) as -> by congruence.
    unfold call_ok in Hok. rewrite Hreq in Hok. destruct Hok as (_ & <- & _ & [E|[_ E]]); congruence.
  - destruct (sg_membershipOnly s), (isIPBlocks s); auto.
Qed.


End History.

(** ** Runs with their history, computed *)

Section Computed.
Context {IXC : CacheIndexer} {RNG : MapRange}.

Definition new_calls (s s' : System) : list CloudCall := drop (length (calls (sys_r s))) (calls (sys_r s')).

Definition record (a : Action) (s s' : System) (h : list CloudCall * history) : list CloudCall * history :=
  match a with
  | Receive env ev => ((h.1 ++ new_calls s s')%list, (h.2 ++ [(env, ev)])%list)
  | Answer _ _ => h
  | Deliver env i =>
      match sys_responses s !! i with
      | Some st => ((h.1 ++ new_calls s s')%list, (h.2 ++ [(env, EvResponse st)])%list)
      | None => h
      end
  end.

Fixpoint trace (acts : list Action) (s : System) (h : list CloudCall * history) : option (list CloudCall * history) :=
  match acts with
  | [] => Some h
  | a :: acts => s' ← perform a s; trace acts s' (record a s s' h)
  end.

Lemma record_traced a s s' h : traced s h.1 h.2 -> perform a s = Some s' -> traced s' (record a s s' h).1 (record a s s' h).2.
Proof.
  destruct s as [r resp], h as [log evs], a as [env ev|i err|env i]; cbn [perform record sys_r sys_responses fst snd].
  - destruct (is_response ev) eqn:E; [done|]. destruct (handle env ev r) as [[[] r']|] eqn:Hh; [|done].
    intros Ht [= <-]. eapply traced_event; [done| |done]. by intros st ->.
  - destruct (calls r !! i) as [c|] eqn:Hc; [|done]. intros Ht [= <-]. apply traced_answer; [done|].
    symmetry. by apply take_drop_middle.
  - destruct (resp !! i) as [st|] eqn:Hc; [|done].
    destruct (handle env (EvResponse st) r) as [[[] r']|] eqn:Hh; [|done]. intros Ht [= <-].
    apply (traced_deliver env r r' (take i resp) st (drop (S i) resp)); [|done]. by rewrite take_drop_middle.
Qed.

Lemma trace_traced acts s h s' h' :
  traced s h.1 h.2 -> perform_all acts s = Some s' -> trace acts s h = Some h' -> traced s' h'.1 h'.2.
Proof.
  revert s h. induction acts as [|a acts IH]; intros s h Ht; simpl; [by intros [= <-] [= <-]|].
  destruct (perform a s) as [s1|] eqn:Ha; simpl; [|done]. apply IH. by apply record_traced.
Qed.

(** The history of a run from the start. *)
Definition history_of (acts : list Action) : list CloudCall * history := default ([], []) (trace acts start ([], [])).

Lemma perform_all_trace acts s h : is_Some (perform_all acts s) -> is_Some (trace acts s h).
Proof.
  revert s h. induction acts as [|a acts IH]; intros s h; simpl; [eauto|].
  destruct (perform a s) as [s1|]; simpl; [apply IH|by intros [? ?]].
Qed.

Lemma reached_traced acts : runs acts = true -> traced (reached acts) (history_of acts).1 (history_of acts).2.
Proof.
  unfold runs, reached, history_of. rewrite bool_decide_eq_true. intros Hs.
  destruct (perform_all_trace acts start ([], []) Hs) as [h Hh]. destruct Hs as [s Hs]. rewrite Hs, Hh. simpl.
  eapply trace_traced; [|exact Hs|exact Hh]. apply (traced_init true).
Qed.

(** The events of a run for which the API knows the removed members. *)
Definition knowing (a : Action) : Prop :=
  match a with Receive env ev => entities_known env (event_removals ev) | _ => True end.

Lemma history_of_known acts : Forall knowing acts -> removals_known (history_of acts).2.
Proof.
  intros Hk. unfold history_of. destruct (trace acts start ([], [])) as [h|] eqn:Ht; simpl;
    [|intros env ev Hin; by apply not_elem_of_nil in Hin].
  assert (forall s h0 h1, removals_known h0.2 -> trace acts s h0 = Some h1 -> removals_known h1.2) as Hind.
  { clear Ht h. induction Hk as [|a acts Ha _ IH]; intros s h0 h1 H0; simpl; [by intros [= <-]|].
    destruct (perform a s) as [s'|] eqn:Hp; simpl; [|done]. apply IH. destruct a as [env ev| |env i]; simpl; [|done|].
    - intros env' ev' [Hin|[= -> ->]%list_elem_of_singleton]%elem_of_app; [by apply H0|done].
    - destruct (sys_responses s !! i) as [st|]; [|done]. simpl.
      intros env' ev' [Hin|[= -> ->]%list_elem_of_singleton]%elem_of_app; [by apply H0|].
      intros m k Hm. by apply not_elem_of_nil in Hm. }
  eapply Hind; [|exact Ht]. intros env ev Hin. by apply not_elem_of_nil in Hin.
Qed.

End Computed.

(** No answer of a history is a failure. *)
Definition no_failure (evs : history) : bool :=
  forallb (fun e => match e.2 with EvResponse st => bool_decide (st_err st = None) | _ => true end) evs.

Lemma no_failure_spec evs l : no_failure evs = true -> ~ request_failed evs l.
Proof.
  unfold no_failure. rewrite forallb_forall. intros Hf (env & st & Hin & _ & He).
  apply list_elem_of_In in Hin. apply Hf in Hin. simpl in Hin. by apply bool_decide_eq_true in Hin.
Qed.

(** ** Sample runs *)

#[local] Existing Instance map_indexer.
#[local] Existing Instance map_to_list_range.

Definition vm_resource (name : string) : CloudResource :=
  mkCloudResource CloudResourceTypeVM (mkCloudResourceID ("id-" +:+ name) "vpc1").
(** An address group whose second member comes after the group is created. *)
Definition grown : list Action := (bookmarks ++ [add_ag [member "vm1"]] ++ ok ++ [patch_ag env0 [member "vm2"] []])%list.
Definition grown_group : securityGroup :=
  mkSG true [vm_resource "vm1"; vm_resource "vm2"] (mkCloudResourceID "ag" "vpc1") securityGroupStateCreated
    false None None false [] false false.

Lemma env0_known ms : entities_known env0 ms.
Proof. by intros m k _ _. Qed.

Lemma grown_known : removals_known (history_of grown).2.
Proof. apply history_of_known. repeat constructor; apply env0_known. Qed.


(** ** Where the code does not do what it means to *)

(** The members of a group are emptied while a failed update of them waits to be
    retried, and a member is added afterwards. *)
Definition emptied : list Action :=
  (bookmarks ++ [add_ag [member "vm1"]] ++ ok ++ failed ++
   [patch_ag env0 [] [member "vm1"]; tick_once; patch_ag env0 [member "vm2"] []])%list.

(** The reconciler after that run, evaluated. *)
Definition emptied_state : Reconciler := Eval vm_compute in sys_r (reached emptied).


(** A synchronisation that finds members in the cloud for an address group that
    has none here asks for nothing: the members stay in the cloud's group. *)
Theorem sync_never_empties env l s c (r : Reconciler) :
  h_sg (heap r) !! l = Some s -> sg_members s = [] ->
  exists r', addr_sync env l (Some c) r = Some (tt, r') /\ calls r' = calls r /\ retryQueue r' = retryQueue r.
Proof.
  intros Hs Hms. unfold addr_sync. rewrite (bind_run _ _ _ _ _ (get_sg_run _ _ _ Hs)).
  destruct (sg_deletePending s); [by eexists|].
  assert (exists b r', syncImpl env l (Some c) true r = Some (b, r') /\ calls r' = calls r /\ retryQueue r' = retryQueue r)
    as (b & r' & Hr & Hc).
  { unfold syncImpl. rewrite (bind_run _ _ _ _ _ (get_sg_run _ _ _ Hs)). rewrite (bind_run _ _ _ _ _ eq_refl).
    destruct (same_members env s c); [by do 2 eexists|].
    set (r1 := set_heap _ r). assert (h_sg (heap r1) !! l = Some (set_state securityGroupStateCreated s)) as Hs1
      by apply lookup_insert_eq.
    assert (sync_update l true r1 = Some (tt, r1)) as Hu.
    { unfold sync_update, updateImpl. rewrite (bind_run _ _ _ _ _ (get_sg_run _ _ _ Hs1)). simpl.
      rewrite (bind_run _ _ _ _ _ (get_sg_run _ _ _ Hs1)). simpl. by rewrite Hms. }
    exists false, r1. by rewrite (bind_run _ _ _ _ _ Hu). }
  exists r'. split; [|done]. by rewrite (bind_run _ _ _ _ _ Hr).
Qed.
