(* ===== verification/NPWatch.v ===== *)
(** * The watches of the reconciler

    Model of [resetWatchers] and of the cases of [Start] for the three watches of
    [networkpolicy_controller.go]: a watch that is closed or reports an error makes
    the reconciler open all three anew, until it has them; other events are
    handled.  The Antrea API is a parameter. *)

From stdpp Require Import base strings list gmap.
From Stdlib Require Import ZArith Lia.
From S2P Require Import Prelude GoStrings SecurityGroup NPState NPPending NPGroups NPController NPTheorems.

#[local] Open Scope string_scope.

Inductive WatchKind := AddressGroups | AppliedToGroups | NetworkPolicies.

(** [Watch] of the client: a watcher or an error (with a nil watcher). *)
Class WatchAPI := {
  WatchState : Type;
  Watcher : Type;
  Watch : WatchKind -> WatchState -> (GoError + Watcher) * WatchState
}.

Section Watches.
Context {WA : WatchAPI}.

Record Watchers := mkWatchers {
  addrGroupWatcher : option Watcher;
  appliedToGroupWatcher : option Watcher;
  networkPolicyWatcher : option Watcher
}.

Definition set_watcher (k : WatchKind) (w : option Watcher) (ws : Watchers) : Watchers :=
  match k with
  | AddressGroups => mkWatchers w (appliedToGroupWatcher ws) (networkPolicyWatcher ws)
  | AppliedToGroups => mkWatchers (addrGroupWatcher ws) w (networkPolicyWatcher ws)
  | NetworkPolicies => mkWatchers (addrGroupWatcher ws) (appliedToGroupWatcher ws) w
  end.

(** [r.watcher, err = client.Watch(...)]: the watcher is assigned in any case;
    true without error. *)
Definition open_watch (k : WatchKind) (ws : Watchers) (s : WatchState) : bool * Watchers * WatchState :=
  match Watch k s with
  | (inl _, s) => (false, set_watcher k None ws, s)
  | (inr w, s) => (true, set_watcher k (Some w) ws, s)
  end.

(** [resetWatchers]: an error starts the attempt over.  [None] when it has not
    succeeded after [fuel] attempts. *)
Fixpoint resetWatchers (fuel : nat) (ws : Watchers) (s : WatchState) : option (Watchers * WatchState) :=
  match fuel with
  | O => None
  | S fuel =>
      let '(ok, ws, s) := open_watch AddressGroups ws s in
      if negb ok then resetWatchers fuel ws s
      else
        let '(ok, ws, s) := open_watch AppliedToGroups ws s in
        if negb ok then resetWatchers fuel ws s
        else
          let '(ok, ws, s) := open_watch NetworkPolicies ws s in
          if negb ok then resetWatchers fuel ws s else Some (ws, s)
  end.

(** Whatever the watchers were before, the ones it returns with are open, each for
    its own resource, from three requests in a row. *)
Theorem resetWatchers_opens fuel ws s ws' s' :
  resetWatchers fuel ws s = Some (ws', s') ->
  exists a b c s0 s1 s2, ws' = mkWatchers (Some a) (Some b) (Some c) /\
    Watch AddressGroups s0 = (inr a, s1) /\ Watch AppliedToGroups s1 = (inr b, s2) /\ Watch NetworkPolicies s2 = (inr c, s').
Proof.
  revert ws s. induction fuel as [|fuel IH]; intros ws s; simpl; [done|]. unfold open_watch.
  destruct (Watch AddressGroups s) as [[e1|a] s1] eqn:H1; simpl; [apply IH|].
  destruct (Watch AppliedToGroups s1) as [[e2|b] s2] eqn:H2; simpl; [apply IH|].
  destruct (Watch NetworkPolicies s2) as [[e3|c] s3] eqn:H3; simpl; [apply IH|].
  intros [= <- <-]. exists a, b, c, s, s1, s2. done.
Qed.

(** The cases of the loop of [Start] for a watch: [None] is a closed channel. *)
Section Round.
Context {IXC : CacheIndexer} {RNG : MapRange}.

Definition event_type (ev : Event) : EventType :=
  match ev with
  | EvAddrGrp t _ | EvAppliedToGrp t _ | EvNetworkPolicy t _ | EvLocal t _ => t
  | EvResponse _ | EvTick _ => EventNone
  end.

Definition watch_round (fuel : nat) (env : Env) (received : option Event) (ws : Watchers) (s : WatchState) (r : Reconciler) :
    option (Watchers * WatchState * Reconciler) :=
  match received with
  | None => '(ws, s) ← resetWatchers fuel ws s; Some (ws, s, r)
  | Some ev =>
      if decide (event_type ev = EventError) then '(ws, s) ← resetWatchers fuel ws s; Some (ws, s, r)
      else '(_, r) ← handle env ev r; Some (ws, s, r)
  end.

(** Losing a watch changes nothing of what the reconciler knows: it is the state
    in which the events of the new watches, which start with everything that
    exists, are handled. *)
Lemma watch_round_reset fuel env received ws s r ws' s' r' :
  watch_round fuel env received ws s r = Some (ws', s', r') ->
  (received = None \/ exists ev, received = Some ev /\ event_type ev = EventError) ->
  r' = r /\ is_Some (addrGroupWatcher ws') /\ is_Some (appliedToGroupWatcher ws') /\ is_Some (networkPolicyWatcher ws').
Proof.
  intros Hr Hl. assert (resetWatchers fuel ws s = Some (ws', s') /\ r' = r) as [Hw ->].
  { destruct Hl as [->|(ev & -> & Ht)]; simpl in Hr; [|rewrite decide_True in Hr by done];
      destruct (resetWatchers fuel ws s) as [[ws1 s1]|]; simpl in Hr; by simplify_eq. }
  apply resetWatchers_opens in Hw as (a & b & c & s0 & s1 & s2 & -> & _). eauto.
Qed.

End Round.
End Watches.

(** ** Where the code does not do what it means to *)

#[local] Existing Instance map_indexer.
#[local] Existing Instance map_to_list_range.

