(* ===== verification/AwsModel.v ===== *)
(** * The AWS plug-in: data, EC2 interface, effects

    The records of the EC2 API that [src/pkg/cloud-provider/cloudapi/aws] reads
    and writes, the EC2 calls it makes ([awsEC2Wrapper]), and the monad its
    methods run in.  EC2 itself is not part of the program: it is a class of
    operations over a cloud whose state the model does not look into. *)

From stdpp Require Import base strings list gmap.
From Stdlib Require Import ZArith.
From S2P Require Import Prelude GoStrings GoNet SecurityGroup.

#[local] Open Scope string_scope.
#[local] Open Scope Z_scope.

(** ** EC2 records

    Fields EC2 always fills in are not pointers here. *)

(** [ec2.Filter]. *)
Record Filter := mkFilter { f_Name : string; f_Values : list string }.

(** [ec2.IpPermission]; an [ec2.IpRange] is its [CidrIp], an
    [ec2.UserIdGroupPair] its [GroupId]. *)
Record IpPermission := mkIpPermission {
  ipp_FromPort : option Z;
  ipp_ToPort : option Z;
  ipp_IpProtocol : string;
  ipp_IpRanges : list string;
  ipp_UserIdGroupPairs : list string
}.

(** [ec2.SecurityGroup]. *)
Record Ec2SecurityGroup := mkEc2SG {
  esg_GroupId : string;
  esg_GroupName : string;
  esg_VpcId : string;
  esg_IpPermissions : list IpPermission;
  esg_IpPermissionsEgress : list IpPermission
}.

(** [ec2.GroupIdentifier], [ec2.NetworkInterface]; [nic_Attachment] is the
    attachment, with the instance it names. *)
Record GroupIdentifier := mkGroupIdentifier { gi_GroupId : string; gi_GroupName : string }.
Record NetworkInterface := mkNic {
  nic_Id : string;
  nic_VpcId : string;
  nic_Groups : list GroupIdentifier;
  nic_Attachment : option (option string)
}.

#[export] Instance Filter_eq_dec : EqDecision Filter.
Proof. solve_decision. Defined.
#[export] Instance IpPermission_eq_dec : EqDecision IpPermission.
Proof. solve_decision. Defined.
#[export] Instance GroupIdentifier_eq_dec : EqDecision GroupIdentifier.
Proof. solve_decision. Defined.
#[export] Instance NetworkInterface_eq_dec : EqDecision NetworkInterface.
Proof. solve_decision. Defined.
#[export] Instance Ec2SecurityGroup_eq_dec : EqDecision Ec2SecurityGroup.
Proof. solve_decision. Defined.

(** ** The EC2 API ([awsEC2Wrapper]) *)

(** The message of an error. *)
Definition error := string.

Class EC2 := {
  Cloud : Type;
  describeSecurityGroups : list Filter -> Cloud -> (error + list Ec2SecurityGroup) * Cloud;
  pagedDescribeNetworkInterfaces : list Filter -> Cloud -> (error + list NetworkInterface) * Cloud;
  (** description, name, VPC; the identifier of the new group *)
  createSecurityGroup : string -> string -> string -> Cloud -> (error + string) * Cloud;
  deleteSecurityGroup : string -> Cloud -> (error + unit) * Cloud;
  revokeSecurityGroupIngress : string -> list IpPermission -> Cloud -> (error + unit) * Cloud;
  revokeSecurityGroupEgress : string -> list IpPermission -> Cloud -> (error + unit) * Cloud;
  authorizeSecurityGroupIngress : string -> list IpPermission -> Cloud -> (error + unit) * Cloud;
  authorizeSecurityGroupEgress : string -> list IpPermission -> Cloud -> (error + unit) * Cloud;
  (** groups, interface *)
  modifyNetworkInterfaceAttribute : list string -> string -> Cloud -> (error + unit) * Cloud;
  (** how often [backoff.Retry] runs an operation that keeps failing before its
      time is over; it runs it at least once *)
  retry_limit : nat
}.

(** ** State and effects *)

(** The part of [ec2ServiceConfig] the security code reads: the snapshot of the
    inventory, with the VPCs of the account and their peers. *)
Record ec2ResourcesCacheSnapshot := mkSnapshot {
  snap_vpcIDs : gset string;
  snap_vpcPeers : gmap string (list string)
}.
Record ec2ServiceConfig := mkEc2Service {
  ec2_accountName : string;
  ec2_snapshot : option ec2ResourcesCacheSnapshot
}.

(** An account of [cloudCommon]; [acc_ec2] is what [GetServiceConfigByName]
    returns for the EC2 service. *)
Record Account := mkAccount { acc_name : string; acc_ec2 : error + ec2ServiceConfig }.

Section Effects.
Context {E : EC2}.

(** The cloud, and the package variable [vpcIDToDefaultSecurityGroup]. *)
Record AwsState := mkAwsState { aws_cloud : Cloud; vpcIDToDefaultSecurityGroup : gmap string string }.

(** A method returns an error or a value, or panics ([None]). *)
Definition AM (A : Type) : Type := AwsState -> option ((error + A) * AwsState).

#[export] Instance AM_ret : MRet AM := fun A a s => Some (inr a, s).
#[export] Instance AM_bind : MBind AM := fun A B k m s =>
  match m s with
  | None => None
  | Some (inl e, s') => Some (inl e, s')
  | Some (inr a, s') => k a s'
  end.

Definition fail {A} (e : error) : AM A := fun s => Some (inl e, s).
Definition apanic {A} : AM A := fun _ => None.
Definition aderef {A} (o : option A) : AM A := match o with Some a => mret a | None => apanic end.

(** A call of the API. *)
Definition api {A} (f : Cloud -> (error + A) * Cloud) : AM A := fun s =>
  let '(r, c) := f (aws_cloud s) in Some (r, mkAwsState c (vpcIDToDefaultSecurityGroup s)).

(** Runs a method for its effect and reports its error as a value. *)
Definition attempt {A} (m : AM A) : AM (error + A) := fun s =>
  match m s with
  | None => None
  | Some (r, s') => Some (inr r, s')
  end.

End Effects.
