(* ===== verification/AwsConverters.v ===== *)
(** * The AWS plug-in: rules and filters

    [aws_converters.go]: the rules of the controller as EC2 permissions and
    back; the filters of [aws_filter_helpers.go] the security code uses. *)

From stdpp Require Import base strings list gmap sorting.
From Stdlib Require Import ZArith Lia.
From S2P Require Import Prelude GoStrings GoNet GoCIDR SecurityGroup AwsModel.

#[local] Open Scope string_scope.
#[local] Open Scope Z_scope.

Definition awsAnyProtocolValue : string := "-1".
Definition tcpUDPPortStart : Z := 0.
Definition tcpUDPPortEnd : Z := 65535.

(** ** From rules to permissions *)

Definition convertToIPPermissionProtocol (protocol : option Z) : string :=
  match protocol with None => awsAnyProtocolValue | Some p => Itoa p end.

Definition convertToIPPermissionPort (port protocol : option Z) : option Z * option Z :=
  match port with
  | None =>
      match protocol with
      | Some p => if (p =? 6) || (p =? 17) then (Some tcpUDPPortStart, Some tcpUDPPortEnd) else (None, None)
      | None => (None, None)
      end
  | Some p => (Some p, Some p)
  end.

Definition convertToEc2IpRanges (ips : list IPNet) (ruleHasGroups : bool) : list string :=
  if (bool_decide (ips = [])) && negb ruleHasGroups then ["0.0.0.0/0"]
  else map IPNet_String ips.

(** ** From permissions to rules *)

Definition convertFromIPRange (ipRanges : list string) : list IPNet := omap ParseCIDR ipRanges.

Definition convertFromSecurityGroupPair (cloudGroups : list string)
    (managedSGs unmanagedSGs : gmap string Ec2SecurityGroup) : list CloudResourceID :=
  map (fun groupId =>
    let '(sgName, vpcID) :=
      match managedSGs !! groupId with
      | Some sg => let '(name, _, _) := IsNepheControllerCreatedSG (esg_GroupName sg) in (name, esg_VpcId sg)
      | None => ("", "")
      end in
    match unmanagedSGs !! groupId with
    | Some sg => mkCloudResourceID (esg_GroupName sg) (esg_VpcId sg)
    | None => mkCloudResourceID sgName vpcID
    end) cloudGroups.

Definition convertFromIPPermissionPort (startPort endPort : option Z) : option Z :=
  match startPort, endPort with
  | None, _ => None
  | Some s, None => Some s
  | Some s, Some e => if s =? -1 then None else if s =? e then Some s else None
  end.

(** A name the table does not hold gives Go's zero value. *)
Definition convertFromIPPermissionProtocol (proto : string) : option Z :=
  if decide (proto = awsAnyProtocolValue) then None
  else Some (default 0 (ProtocolNameNumMap !! ToLower proto)).

Definition convertFromIPPermissionToIngressRule (ipPermissions : list IpPermission)
    (managedSGs unmanagedSGs : gmap string Ec2SecurityGroup) : list IngressRule :=
  map (fun p => mkIngressRule
    (convertFromIPPermissionPort (ipp_FromPort p) (ipp_ToPort p))
    (convertFromIPRange (ipp_IpRanges p))
    (convertFromSecurityGroupPair (ipp_UserIdGroupPairs p) managedSGs unmanagedSGs)
    (convertFromIPPermissionProtocol (ipp_IpProtocol p))) ipPermissions.

Definition convertFromIPPermissionToEgressRule (ipPermissions : list IpPermission)
    (managedSGs unmanagedSGs : gmap string Ec2SecurityGroup) : list EgressRule :=
  map (fun p => mkEgressRule
    (convertFromIPPermissionPort (ipp_FromPort p) (ipp_ToPort p))
    (convertFromIPRange (ipp_IpRanges p))
    (convertFromSecurityGroupPair (ipp_UserIdGroupPairs p) managedSGs unmanagedSGs)
    (convertFromIPPermissionProtocol (ipp_IpProtocol p))) ipPermissions.

(** ** Filters *)

Definition awsFilterKeyVPCID : string := "vpc-id".
Definition awsFilterKeyGroupName : string := "group-name".

(** [sort.Slice] by [strings.Compare]. *)
Definition sort_strings (l : list string) : list string := merge_sort String.le l.

Section Filters.
Context {RNG : MapRange}.

(** The elements of a Go set, a map to empty structs. *)
Definition set_range (s : gset string) : list string := map fst (go_range (gset_to_gmap tt s)).

Definition buildAwsEc2FilterForSecurityGroupNameMatches (vpcIDs : list string) (cloudSGNamesSet : gset string) : list Filter :=
  [mkFilter awsFilterKeyVPCID vpcIDs; mkFilter awsFilterKeyGroupName (set_range cloudSGNamesSet)].

Definition buildAwsEc2FilterForVpcIDOnlyMatches (vpcIDs : gset string) : list Filter :=
  if decide (vpcIDs = ∅) then [] else [mkFilter awsFilterKeyVPCID (sort_strings (set_range vpcIDs))].

Lemma elem_of_set_range s x : x ∈ set_range s <-> x ∈ s.
Proof.
  unfold set_range. rewrite list_elem_of_fmap. split.
  - intros ([k []] & -> & H%elem_of_go_range). by apply lookup_gset_to_gmap_Some in H as [? _].
  - intros Hx. exists (x, tt). split; [done|]. apply elem_of_go_range. by apply lookup_gset_to_gmap_Some.
Qed.

Lemma set_range_empty : set_range ∅ = [].
Proof. unfold set_range. rewrite gset_to_gmap_empty. by rewrite (proj2 (go_range_empty ∅)). Qed.

End Filters.
