(* ===== verification/AwsSecurity.v ===== *)
(** * The AWS plug-in: security groups

    Model of [aws_security.go]: how a security group of the controller, its
    members and its rules are realised as an EC2 security group, and the view
    of the cloud the plug-in reports back.

    The goroutines of [processNetworkInterfaceModifyConcurrently] change one
    network interface each and the caller waits for all of them: they are run
    one after the other, in the order the map is iterated. *)

From stdpp Require Import base strings list gmap.
From Stdlib Require Import ZArith Lia.
From S2P Require Import Prelude GoStrings GoNet GoCIDR SecurityGroup AwsModel AwsConverters.

#[local] Open Scope string_scope.
#[local] Open Scope Z_scope.

Definition awsVpcDefaultSecurityGroupName : string := "default".

(** The names of the groups of a rule update, and of the group itself. *)
Definition buildEc2CloudSgNamesFromRules (id : CloudResourceID) (ingressRules : list IngressRule)
    (egressRules : list EgressRule) : gset string :=
  let names rs := fold_left (fun acc i => {[GetCloudName i true]} ∪ acc) rs in
  let acc := fold_left (fun acc r => names (ir_FromSecurityGroups r) acc) ingressRules (∅ : gset string) in
  let acc := fold_left (fun acc r => names (er_ToSecurityGroups r) acc) egressRules acc in
  {[GetCloudName id false]} ∪ acc.

(** The groups of one network interface, as [updateSecurityGroupMembers] sorts
    them: is the processed group attached, how many appliedTo groups are, the
    groups of the controller and the other ones. *)
Record NicGroups := mkNicGroups {
  ng_isGroupSgAttached : bool;
  ng_numAppliedTo : Z;
  ng_nephe : gset string;
  ng_other : gset string
}.

Definition sort_group (groupCloudSgName : string) (acc : NicGroups) (group : GroupIdentifier) : NicGroups :=
  let cloudSgName := ToLower (gi_GroupName group) in
  let '(_, isAG, isAT) := IsNepheControllerCreatedSG cloudSgName in
  if negb isAT && negb isAG then
    mkNicGroups (ng_isGroupSgAttached acc) (ng_numAppliedTo acc) (ng_nephe acc) ({[gi_GroupId group]} ∪ ng_other acc)
  else
    mkNicGroups (ng_isGroupSgAttached acc || bool_decide (cloudSgName = groupCloudSgName))
      (if isAT : bool then ng_numAppliedTo acc + 1 else ng_numAppliedTo acc)
      ({[gi_GroupId group]} ∪ ng_nephe acc) (ng_other acc).

Definition sort_groups (groupCloudSgName : string) (groups : list GroupIdentifier) : NicGroups :=
  fold_left (sort_group groupCloudSgName) groups (mkNicGroups false 0 ∅ ∅).

Definition buildEc2SgsToAttachForCaseMemberOnlySgWithNoATSgAttached (nephe other : gset string)
    (vpcDefaultSgID : string) : gset string :=
  let all := nephe ∪ other in
  if decide (other = ∅) then {[vpcDefaultSgID]} ∪ all else all.

(** The groups a network interface is to have, when they change. *)
Definition groups_to_attach (ng : NicGroups) (groupCloudSgID vpcDefaultSgID : string) (isMember membershipOnly : bool) :
    option (gset string) :=
  if ng_isGroupSgAttached ng then
    if negb isMember then
      let nephe := ng_nephe ng ∖ {[groupCloudSgID]} in
      let attach := if negb membershipOnly && (ng_numAppliedTo ng =? 1) then {[vpcDefaultSgID]} ∪ nephe else nephe in
      Some (if membershipOnly && (ng_numAppliedTo ng =? 0)
            then buildEc2SgsToAttachForCaseMemberOnlySgWithNoATSgAttached attach (ng_other ng) vpcDefaultSgID
            else attach)
    else None
  else if isMember then
    let nephe := {[groupCloudSgID]} ∪ ng_nephe ng in
    Some (if membershipOnly && (ng_numAppliedTo ng =? 0)
          then buildEc2SgsToAttachForCaseMemberOnlySgWithNoATSgAttached nephe (ng_other ng) vpcDefaultSgID
          else nephe)
  else None.

(** An interface is a member by its instance or by its own identifier. *)
Definition nic_is_member (members : list CloudResource) (instance : string) (nic : NetworkInterface) : bool :=
  let '(vms, nics) := FindResourcesBasedOnKind members in
  bool_decide (instance ∈ vms) || bool_decide (nic_Id nic ∈ nics).

(** Loop over the network interfaces: those to modify, with their new groups. *)
Definition interfaces_to_modify (groupCloudSgID groupCloudSgName vpcDefaultSgID : string) (members : list CloudResource)
    (membershipOnly : bool) (nics : list NetworkInterface) : gmap string (gset string) :=
  fold_left (fun acc nic =>
    match nic_Attachment nic with
    | Some (Some instance) =>
        match groups_to_attach (sort_groups groupCloudSgName (nic_Groups nic)) groupCloudSgID vpcDefaultSgID
                (nic_is_member members instance nic) membershipOnly with
        | Some sgs => <[nic_Id nic := sgs]> acc
        | None => acc
        end
    | _ => acc
    end) nics ∅.

(** ** The view of the cloud *)

Definition getCloudSecurityGroupsByType (sgs : list Ec2SecurityGroup) :
    gmap string Ec2SecurityGroup * gmap string Ec2SecurityGroup :=
  fold_left (fun acc sg =>
    let '(managed, unmanaged) := acc in
    let '(_, isAG, isAT) := IsNepheControllerCreatedSG (esg_GroupName sg) in
    if isAG || isAT then (<[esg_GroupId sg := sg]> managed, unmanaged)
    else (managed, <[esg_GroupId sg := sg]> unmanaged)) sgs (∅, ∅).

Definition nic_resource (nic : NetworkInterface) : CloudResource :=
  mkCloudResource CloudResourceTypeNIC (mkCloudResourceID (nic_Id nic) (nic_VpcId nic)).

Definition getMemberNicCloudResourcesAttachedToOtherSGs (members : list CloudResource)
    (memberNicsAttachedToOtherSGs : gset string) : list CloudResource :=
  omap (fun m => if decide (cid_Name (cr_Name m) ∈ memberNicsAttachedToOtherSGs)
                 then Some (mkCloudResource CloudResourceTypeNIC (mkCloudResourceID (cid_Name (cr_Name m)) (cid_Vpc (cr_Name m))))
                 else None) members.

(** The members of every managed group, and the interfaces that are in a
    managed and in another group. *)
Definition collect_members (managed : gmap string Ec2SecurityGroup) (nics : list NetworkInterface) :
    gmap string (list CloudResource) * gset string :=
  fold_left (fun acc nic =>
    let '(members, withOther) := acc in
    let is_managed g := bool_decide (is_Some (managed !! gi_GroupId g)) in
    let members := fold_left (fun m g =>
      if is_managed g then <[gi_GroupId g := (default [] (m !! gi_GroupId g) ++ [nic_resource nic])%list]> m else m)
      (nic_Groups nic) members in
    let isAttachedToOtherSG := existsb (fun g => negb (is_managed g)) (nic_Groups nic) in
    let isAttachedToNepheControllerSG := existsb is_managed (nic_Groups nic) in
    (members, if isAttachedToNepheControllerSG && isAttachedToOtherSG then {[nic_Id nic]} ∪ withOther else withOther))
    nics (∅, ∅).

Definition sync_content (managed unmanaged : gmap string Ec2SecurityGroup) (members : gmap string (list CloudResource))
    (withOther : gset string) (sgID : string) (sg : Ec2SecurityGroup) : SynchronizationContent :=
  let '(name, isAG, _) := IsNepheControllerCreatedSG (esg_GroupName sg) in
  mkSynchronizationContent (mkCloudResourceID name (esg_VpcId sg)) isAG
    (default [] (members !! sgID))
    (match members !! sgID with
     | Some ms => getMemberNicCloudResourcesAttachedToOtherSGs ms withOther
     | None => []
     end)
    (convertFromIPPermissionToIngressRule (esg_IpPermissions sg) managed unmanaged)
    (convertFromIPPermissionToEgressRule (esg_IpPermissionsEgress sg) managed unmanaged).

Section Aws.
Context {E : EC2} {RNG : MapRange}.

Definition getCachedVpcIDs (cfg : ec2ServiceConfig) : gset string :=
  match ec2_snapshot cfg with None => ∅ | Some s => snap_vpcIDs s end.

Definition getVpcPeers (cfg : ec2ServiceConfig) (vpcID : string) : list string :=
  match ec2_snapshot cfg with
  | None => []
  | Some s => default [] (snap_vpcPeers s !! vpcID)
  end.

(** [getVpcAccount]: the EC2 service of the first account with the VPC. *)
Fixpoint getVpcAccount (accounts : list Account) (vpcID : string) : option Account :=
  match accounts with
  | [] => None
  | acc :: accounts =>
      match acc_ec2 acc with
      | inl _ => getVpcAccount accounts vpcID
      | inr cfg =>
          if decide (ToLower vpcID ∈ getCachedVpcIDs cfg) then Some acc else getVpcAccount accounts vpcID
      end
  end.

(** ** Groups by name *)

(** Groups by their lower-cased name; of two with one name the last. *)
Definition by_name (sgs : list Ec2SecurityGroup) : gmap string Ec2SecurityGroup :=
  fold_left (fun m sg => <[ToLower (esg_GroupName sg) := sg]> m) sgs ∅.

Definition getCloudSecurityGroupsWithNameFromCloud (vpcIDs : list string) (cloudSGNamesSet : gset string) :
    AM (gmap string Ec2SecurityGroup) :=
  sgs ← api (describeSecurityGroups (buildAwsEc2FilterForSecurityGroupNameMatches vpcIDs cloudSGNamesSet));
  mret (by_name sgs).

(** [backoff.Retry] of the look-up, [n] more times. *)
Fixpoint retry_lookup (n : nat) (cloudSGName vpcID : string) : AM (gmap string Ec2SecurityGroup) :=
  r ← attempt (getCloudSecurityGroupsWithNameFromCloud [vpcID] {[cloudSGName]});
  let again e := match n with O => fail e | S n => retry_lookup n cloudSGName vpcID end in
  match r with
  | inl e => again e
  | inr out =>
      if decide (size out = 0%nat)
      then again ("failed to find created cloud-security-group name " +:+ cloudSGName)
      else mret out
  end.

Definition waitForCloudSecurityGroupCreation (cloudSGName vpcID : string) : AM (gmap string Ec2SecurityGroup) :=
  retry_lookup retry_limit cloudSGName vpcID.

Definition createCloudSecurityGroup (cloudSGName vpcID : string) : AM unit :=
  groupId ← api (createSecurityGroup "Managed by nephe controller" cloudSGName vpcID);
  r ← attempt (waitForCloudSecurityGroupCreation cloudSGName vpcID);
  match r with
  | inl e => attempt (api (deleteSecurityGroup groupId));; fail e
  | inr out =>
      cloudSGObj ← aderef (out !! cloudSGName);
      api (revokeSecurityGroupEgress groupId (esg_IpPermissionsEgress cloudSGObj))
  end.

Fixpoint create_all (names : list string) (vpcID : string) : AM unit :=
  match names with
  | [] => mret tt
  | n :: names => createCloudSecurityGroup n vpcID;; create_all names vpcID
  end.

Definition createOrGetSecurityGroups (vpcID : string) (cloudSgNames : gset string) : AM (gmap string Ec2SecurityGroup) :=
  found ← getCloudSecurityGroupsWithNameFromCloud [vpcID] cloudSgNames;
  let toCreate := filter (fun n => (found : gmap string Ec2SecurityGroup) !! n = None) cloudSgNames in
  create_all (set_range toCreate) vpcID;;
  if decide (size toCreate = 0%nat) then mret found
  else getCloudSecurityGroupsWithNameFromCloud [vpcID] cloudSgNames.

(** ** Rules *)

(** [buildEc2UserIDGroupPairs]: an unknown group is a nil pointer. *)
Fixpoint buildEc2UserIDGroupPairs (ids : list CloudResourceID) (cloudSGNameToObj : gmap string Ec2SecurityGroup) :
    AM (list string) :=
  match ids with
  | [] => mret []
  | i :: ids =>
      group ← aderef (cloudSGNameToObj !! GetCloudName i true);
      rest ← buildEc2UserIDGroupPairs ids cloudSGNameToObj;
      mret (esg_GroupId group :: rest)
  end.

Definition build_permission (ips : list IPNet) (sgs : list CloudResourceID) (port proto : option Z)
    (objs : gmap string Ec2SecurityGroup) : AM IpPermission :=
  idGroupPairs ← buildEc2UserIDGroupPairs sgs objs;
  let '(startPort, endPort) := convertToIPPermissionPort port proto in
  mret (mkIpPermission startPort endPort (convertToIPPermissionProtocol proto)
    (convertToEc2IpRanges ips (negb (bool_decide (sgs = [])))) idGroupPairs).

Fixpoint build_permissions {R} (build : R -> AM IpPermission) (rules : list R) : AM (list IpPermission) :=
  match rules with
  | [] => mret []
  | r :: rules => p ← build r; ps ← build_permissions build rules; mret (p :: ps)
  end.

Definition realizeIngressIPPermissions (sg : Ec2SecurityGroup) (rules : list IngressRule)
    (objs : gmap string Ec2SecurityGroup) : AM unit :=
  (if decide (esg_IpPermissions sg = []) then mret tt
   else api (revokeSecurityGroupIngress (esg_GroupId sg) (esg_IpPermissions sg)));;
  if decide (rules = []) then mret tt
  else
    ps ← build_permissions (fun r => build_permission (ir_FromSrcIP r) (ir_FromSecurityGroups r)
           (ir_FromPort r) (ir_Protocol r) objs) rules;
    api (authorizeSecurityGroupIngress (esg_GroupId sg) ps).

Definition realizeEgressIPPermissions (sg : Ec2SecurityGroup) (rules : list EgressRule)
    (objs : gmap string Ec2SecurityGroup) : AM unit :=
  (if decide (esg_IpPermissionsEgress sg = []) then mret tt
   else api (revokeSecurityGroupEgress (esg_GroupId sg) (esg_IpPermissionsEgress sg)));;
  if decide (rules = []) then mret tt
  else
    ps ← build_permissions (fun r => build_permission (er_ToDstIP r) (er_ToSecurityGroups r)
           (er_ToPort r) (er_Protocol r) objs) rules;
    api (authorizeSecurityGroupEgress (esg_GroupId sg) ps).

(** ** Members *)

Definition read_default (vpcID : string) : AM (option string) :=
  fun s => Some (inr (vpcIDToDefaultSecurityGroup s !! vpcID), s).
Definition store_default (vpcID sgID : string) : AM unit :=
  fun s => Some (inr tt, mkAwsState (aws_cloud s) (<[vpcID := sgID]> (vpcIDToDefaultSecurityGroup s))).

Definition getVpcDefaultSecurityGroupID (vpcID : string) : AM string :=
  known ← read_default vpcID;
  match known with
  | Some sgID => mret sgID
  | None =>
      out ← getCloudSecurityGroupsWithNameFromCloud [vpcID] {[awsVpcDefaultSecurityGroupName]};
      defaultSGObj ← aderef ((out : gmap string Ec2SecurityGroup) !! awsVpcDefaultSecurityGroupName);
      store_default vpcID (esg_GroupId defaultSGObj);;
      mret (esg_GroupId defaultSGObj)
  end.

Definition updateNetworkInterfaceSecurityGroups (interfaceID vpcID : string) (sgIDSet : gset string) : AM unit :=
  sgIDs ← (if decide (sgIDSet = ∅) then sg ← getVpcDefaultSecurityGroupID vpcID; mret [sg]
           else mret (set_range sgIDSet));
  api (modifyNetworkInterfaceAttribute sgIDs interfaceID).

Definition getNetworkInterfacesOfVpc (vpcIDs : gset string) : AM (list NetworkInterface) :=
  api (pagedDescribeNetworkInterfaces (buildAwsEc2FilterForVpcIDOnlyMatches vpcIDs)).

Definition getSecurityGroupsOfVpc (vpcIDs : gset string) : AM (list Ec2SecurityGroup) :=
  api (describeSecurityGroups (buildAwsEc2FilterForVpcIDOnlyMatches vpcIDs)).

(** Every interface is tried; the errors are joined, as by [multierr.Append]. *)
Fixpoint modify_interfaces (todo : list (string * gset string)) (vpcID : string) : AM (list error) :=
  match todo with
  | [] => mret []
  | (interfaceID, sgIDSet) :: todo =>
      r ← attempt (updateNetworkInterfaceSecurityGroups interfaceID vpcID sgIDSet);
      es ← modify_interfaces todo vpcID;
      mret (match r with inl e => e :: es | inr _ => es end)
  end.

Definition processNetworkInterfaceModifyConcurrently (todo : gmap string (gset string)) (vpcID : string) : AM unit :=
  es ← modify_interfaces (go_range todo) vpcID;
  match es with
  | [] => mret tt
  | e :: es => fail (fold_left (fun m e => m +:+ "; " +:+ e) es e)
  end.

Definition updateSecurityGroupMembers (groupCloudSgID groupCloudSgName vpcID : string)
    (members : list CloudResource) (membershipOnly : bool) : AM unit :=
  nics ← getNetworkInterfacesOfVpc {[vpcID]};
  vpcDefaultSgID ← getVpcDefaultSecurityGroupID vpcID;
  processNetworkInterfaceModifyConcurrently
    (interfaces_to_modify groupCloudSgID groupCloudSgName vpcDefaultSgID members membershipOnly nics) vpcID.

(** ** The methods of the plug-in *)

Definition account_error (vpcID : string) : error :=
  "aws account not found managing virtual private cloud [" +:+ vpcID +:+ "]".

(** The EC2 service that manages a VPC. *)
Definition vpc_service (accounts : list Account) (vpcID : string) : AM ec2ServiceConfig :=
  match getVpcAccount accounts vpcID with
  | None => fail (account_error vpcID)
  | Some acc => match acc_ec2 acc with inl e => fail e | inr cfg => mret cfg end
  end.

Definition CreateSecurityGroup (accounts : list Account) (id : CloudResourceID) (membershipOnly : bool) : AM string :=
  vpc_service accounts (cid_Vpc id);;
  let cloudSgName := GetCloudName id membershipOnly in
  resp ← createOrGetSecurityGroups (cid_Vpc id) {[cloudSgName]};
  sg ← aderef ((resp : gmap string Ec2SecurityGroup) !! cloudSgName);
  mret (esg_GroupId sg).

Definition UpdateSecurityGroupRules (accounts : list Account) (id : CloudResourceID) (ingressRules : list IngressRule)
    (egressRules : list EgressRule) : AM unit :=
  cfg ← vpc_service accounts (cid_Vpc id);
  let cloudSgNames := buildEc2CloudSgNamesFromRules id ingressRules egressRules in
  objs ← getCloudSecurityGroupsWithNameFromCloud (cid_Vpc id :: getVpcPeers cfg (cid_Vpc id)) cloudSgNames;
  if decide (size (objs : gmap string Ec2SecurityGroup) = size cloudSgNames) then
    sg ← aderef (objs !! GetCloudName id false);
    realizeIngressIPPermissions sg ingressRules objs;;
    realizeEgressIPPermissions sg egressRules objs
  else fail "failed to find security groups".

Definition UpdateSecurityGroupMembers (accounts : list Account) (id : CloudResourceID) (members : list CloudResource)
    (membershipOnly : bool) : AM unit :=
  vpc_service accounts (cid_Vpc id);;
  let name := GetCloudName id membershipOnly in
  out ← getCloudSecurityGroupsWithNameFromCloud [cid_Vpc id] {[name]};
  if decide (size (out : gmap string Ec2SecurityGroup) = 1%nat) then
    sg ← aderef (out !! name);
    updateSecurityGroupMembers (esg_GroupId sg) name (cid_Vpc id) members membershipOnly
  else fail ("failed to find cloud sg (" +:+ cid_Name id +:+ ") corresponding to address group (" +:+ name +:+ ")").

Definition DeleteSecurityGroup (accounts : list Account) (id : CloudResourceID) (membershipOnly : bool) : AM unit :=
  vpc_service accounts (cid_Vpc id);;
  let name := GetCloudName id membershipOnly in
  out ← getCloudSecurityGroupsWithNameFromCloud [cid_Vpc id] {[name]};
  if decide (size (out : gmap string Ec2SecurityGroup) = 0%nat) then mret tt
  else
    sg ← aderef (out !! name);
    updateSecurityGroupMembers (esg_GroupId sg) name (cid_Vpc id) [] membershipOnly;;
    api (deleteSecurityGroup (esg_GroupId sg)).

(** Errors leave the view empty. *)
Definition getNepheControllerManagedSecurityGroupsCloudView (cfg : ec2ServiceConfig) : AM (list SynchronizationContent) :=
  let vpcIDs := getCachedVpcIDs cfg in
  if decide (vpcIDs = ∅) then mret []
  else
    r ← attempt (nics ← getNetworkInterfacesOfVpc vpcIDs;
                 sgs ← getSecurityGroupsOfVpc vpcIDs;
                 mret (nics, sgs));
    match r with
    | inl _ => mret []
    | inr (nics, sgs) =>
        let '(managed, unmanaged) := getCloudSecurityGroupsByType sgs in
        let '(members, withOther) := collect_members managed nics in
        mret (map (fun p => sync_content managed unmanaged members withOther p.1 p.2) (go_range managed))
    end.

(** [GetEnforcedSecurity]: the views of the accounts, one after another;
    [initialized] tells which inventories are initialised in time. *)
Fixpoint GetEnforcedSecurity (initialized : string -> bool) (accounts : list Account) : AM (list SynchronizationContent) :=
  match accounts with
  | [] => mret []
  | acc :: accounts =>
      view ← match acc_ec2 acc with
             | inl _ => mret []
             | inr cfg =>
                 if initialized (ec2_accountName cfg) then getNepheControllerManagedSecurityGroupsCloudView cfg
                 else mret []
             end;
      rest ← GetEnforcedSecurity initialized accounts;
      mret (view ++ rest)%list
  end.

End Aws.
