(* ===== verification/AwsTheorems.v ===== *)
(** * The AWS plug-in: theorems

    What the plug-in makes of the rules and members it is given. *)

From stdpp Require Import base strings list gmap.
From Stdlib Require Import ZArith Lia.
From S2P Require Import Prelude GoStrings GoNet GoCIDR SecurityGroup AwsModel AwsConverters AwsSecurity.

#[local] Open Scope string_scope.
#[local] Open Scope Z_scope.

(** ** The groups of a network interface *)

(** Group identifiers of the controller (of either kind), of appliedTo groups,
    and of others. *)
Definition is_nephe (g : GroupIdentifier) : bool :=
  let '(_, isAG, isAT) := IsNepheControllerCreatedSG (ToLower (gi_GroupName g)) in isAG || isAT.
Definition is_appliedTo (g : GroupIdentifier) : bool :=
  let '(_, _, isAT) := IsNepheControllerCreatedSG (ToLower (gi_GroupName g)) in isAT.

Definition count_appliedTo (groups : list GroupIdentifier) : Z :=
  Z.of_nat (length (filter (fun g => is_appliedTo g = true) groups)).

Lemma sort_groups_snoc name groups g :
  sort_groups name (groups ++ [g])%list = sort_group name (sort_groups name groups) g.
Proof. unfold sort_groups. by rewrite fold_left_app. Qed.

Lemma exists_snoc {A} (P : A -> Prop) l x :
  (exists y, y ∈ (l ++ [x])%list /\ P y) <-> (exists y, y ∈ l /\ P y) \/ P x.
Proof.
  split.
  - intros (y & [?| ->%list_elem_of_singleton]%elem_of_app & ?); eauto.
  - intros [(y & ? & ?)|?]; [exists y|exists x]; (split; [|done]); apply elem_of_app; [by left|right].
    by apply list_elem_of_singleton.
Qed.

Lemma sort_groups_spec name groups :
  let ng := sort_groups name groups in
  (ng_isGroupSgAttached ng = true <->
    exists g, g ∈ groups /\ (is_nephe g = true /\ ToLower (gi_GroupName g) = name)) /\
  ng_numAppliedTo ng = count_appliedTo groups /\
  (forall i, i ∈ ng_nephe ng <-> exists g, g ∈ groups /\ (is_nephe g = true /\ gi_GroupId g = i)) /\
  (forall i, i ∈ ng_other ng <-> exists g, g ∈ groups /\ (is_nephe g = false /\ gi_GroupId g = i)).
Proof.
  induction groups as [|g groups (H1 & H2 & H3 & H4)] using rev_ind; [by split_and!; set_solver|].
  cbv zeta. rewrite sort_groups_snoc. unfold count_appliedTo in *.
  rewrite filter_app, length_app, filter_cons, filter_nil.
  setoid_rewrite exists_snoc. unfold sort_group.
  destruct (IsNepheControllerCreatedSG (ToLower (gi_GroupName g))) as [[nm isAG] isAT] eqn:Hg.
  assert (is_nephe g = isAG || isAT) as Hn by (unfold is_nephe; by rewrite Hg).
  assert (is_appliedTo g = isAT) as Ha by (unfold is_appliedTo; by rewrite Hg).
  rewrite Hn, Ha. split_and!; [| |intros i; rewrite <- ?H3|intros i; rewrite <- ?H4];
    [rewrite <- H1| |..]; clear H1 H3 H4; destruct isAT, isAG; simpl; rewrite ?orb_true_iff, ?bool_decide_eq_true;
    rewrite ?elem_of_union, ?elem_of_singleton; clear -H2; try (intuition congruence); try lia.
Qed.

Definition attached (groups : list GroupIdentifier) (i : string) : Prop := i ∈ map gi_GroupId groups.

(** Names and identifiers of the groups of an interface agree on which one is
    the processed group. *)
Definition group_named (name gid : string) (groups : list GroupIdentifier) : Prop :=
  forall g, g ∈ groups -> ToLower (gi_GroupName g) = name <-> gi_GroupId g = gid.

Lemma GetCloudName_kind id mo g :
  ToLower (gi_GroupName g) = GetCloudName id mo -> is_nephe g = true /\ is_appliedTo g = negb mo.
Proof.
  intros Hg. unfold is_nephe, is_appliedTo. rewrite Hg. unfold GetCloudName.
  destruct mo; rewrite ?IsNephe_AG, ?IsNephe_AT; done.
Qed.

Lemma attached_group id mo gid groups :
  group_named (GetCloudName id mo) gid groups ->
  attached groups gid <-> ng_isGroupSgAttached (sort_groups (GetCloudName id mo) groups) = true.
Proof.
  intros Hn. destruct (sort_groups_spec (GetCloudName id mo) groups) as (H1 & _). rewrite H1.
  unfold attached. rewrite list_elem_of_fmap. split.
  - intros (g & -> & Hg). exists g. split; [done|]. assert (ToLower (gi_GroupName g) = GetCloudName id mo) as E by (by apply Hn).
    split; [by eapply GetCloudName_kind|done].
  - intros (g & Hg & _ & E). exists g. split; [|done]. symmetry. by apply Hn.
Qed.

Lemma two_appliedTo gid groups :
  NoDup (map gi_GroupId groups) -> 2 <= count_appliedTo groups ->
  exists g, g ∈ groups /\ is_appliedTo g = true /\ gi_GroupId g <> gid.
Proof.
  intros Hnd Hc. unfold count_appliedTo in Hc. set (l := filter _ groups) in *.
  assert (NoDup (map gi_GroupId l)) as Hl by (eapply sublist_NoDup; [done|]; exact (fmap_sublist gi_GroupId _ _ (sublist_filter _ _))).
  assert (forall g, g ∈ l -> is_appliedTo g = true /\ g ∈ groups) as He by (by intros g [? ?]%list_elem_of_filter).
  destruct l as [|g1 [|g2 l]]; simpl in Hc; [lia|lia|].
  destruct (decide (gi_GroupId g1 = gid)) as [E|E].
  - exists g2. destruct (He g2) as [? ?]; [right; left|]. split_and!; [done|done|]. intros E2.
    simpl in Hl. apply NoDup_cons in Hl as [Hl _]. apply Hl. rewrite E, <- E2. left.
  - exists g1. destruct (He g1) as [? ?]; [left|]. done.
Qed.

Lemma appliedTo_counted g groups : g ∈ groups -> is_appliedTo g = true -> 1 <= count_appliedTo groups.
Proof.
  intros Hg Ha. unfold count_appliedTo. assert (g ∈ filter (fun g => is_appliedTo g = true) groups) as Hf
    by (by apply list_elem_of_filter). destruct (filter _ groups); [by apply not_elem_of_nil in Hf|simpl; lia].
Qed.

Lemma counted_appliedTo groups :
  count_appliedTo groups <> 0 -> exists g, g ∈ groups /\ is_appliedTo g = true.
Proof.
  unfold count_appliedTo. destruct (filter _ groups) as [|g l] eqn:E; [done|]. intros _.
  assert (g ∈ g :: l) as Hg by left. rewrite <- E in Hg. apply list_elem_of_filter in Hg as [? ?]. by exists g.
Qed.

Lemma appliedTo_nephe g : is_appliedTo g = true -> is_nephe g = true.
Proof. unfold is_appliedTo, is_nephe. destruct (IsNepheControllerCreatedSG _) as [[? []] []]; done. Qed.

(** The groups an interface is left with. *)
Definition attach_ok (groups : list GroupIdentifier) (gid dflt : string) (isMember : bool) (o : option (gset string)) : Prop :=
  match o with
  | None => attached groups gid <-> isMember = true
  | Some sgs =>
      (gid ∈ sgs <-> isMember = true) /\ sgs <> ∅ /\
      (forall g, g ∈ groups -> is_nephe g = true -> gi_GroupId g <> gid -> gi_GroupId g ∈ sgs) /\
      (forall i, i ∈ sgs -> i = gid \/ i = dflt \/ attached groups i)
  end.

Lemma groups_to_attach_ok id mo gid dflt isMember groups :
  group_named (GetCloudName id mo) gid groups -> NoDup (map gi_GroupId groups) -> dflt <> gid ->
  attach_ok groups gid dflt isMember
    (groups_to_attach (sort_groups (GetCloudName id mo) groups) gid dflt isMember mo).
Proof.
  intros Hname Hnd Hd. pose proof (attached_group id mo gid groups Hname) as Hatt.
  destruct (sort_groups_spec (GetCloudName id mo) groups) as (_ & Hcnt & Hnephe & Hother).
  set (ng := sort_groups _ _) in *. unfold groups_to_attach, buildEc2SgsToAttachForCaseMemberOnlySgWithNoATSgAttached.
  assert (gid ∉ ng_other ng) as Ho.
  { intros (g & Hg & Hn & E)%Hother. destruct (GetCloudName_kind id mo g) as [? _]; [by apply Hname|congruence]. }
  assert (forall i, i ∈ ng_nephe ng \/ i ∈ ng_other ng -> attached groups i) as Hin.
  { intros i Hi. unfold attached. apply list_elem_of_fmap. rewrite Hnephe, Hother in Hi. naive_solver. }
  assert (forall g, g ∈ groups -> is_nephe g = true -> gi_GroupId g ∈ ng_nephe ng) as Hkeep.
  { intros g ? ?. apply Hnephe. eauto. }
  clear Hnephe Hother.
  destruct (ng_isGroupSgAttached ng) eqn:Eatt.
  - destruct isMember; simpl; [by rewrite Hatt|].
    assert (exists g, g ∈ groups /\ is_appliedTo g = negb mo /\ gi_GroupId g = gid) as (g0 & Hg0 & Hk0 & Hi0).
    { pose proof (proj2 Hatt eq_refl) as Hg0. apply list_elem_of_fmap in Hg0 as (g & E & Hg). exists g. split; [done|]. split; [|by symmetry].
      apply (GetCloudName_kind id). by apply Hname. }
    assert (forall sgs, (forall i, i ∈ sgs -> i = dflt \/ attached groups i) -> gid ∉ sgs ->
      (forall i, i ∈ ng_nephe ng -> i <> gid -> i ∈ sgs) -> sgs <> ∅ ->
      attach_ok groups gid dflt false (Some sgs)) as Hok.
    { intros sgs H1 H2 H3 H4. split; [by split|]. split; [done|]. split; [auto|]. intros i Hi. right. auto. }
    destruct mo; simpl in *.
    + destruct (ng_numAppliedTo ng =? 0) eqn:En; simpl.
      * apply Hok; case_decide as Eo; set_solver.
      * apply Hok; [set_solver|set_solver|set_solver|]. destruct (counted_appliedTo groups) as (g & Hg & Ha); [lia|].
        assert (gi_GroupId g <> gid) as Hne.
        { intros E. destruct (GetCloudName_kind id true g) as [_ H]; [by apply Hname|]. simpl in H. congruence. }
        assert (gi_GroupId g ∈ ng_nephe ng) by auto using appliedTo_nephe. set_solver.
    + destruct (ng_numAppliedTo ng =? 1) eqn:En; simpl.
      * apply Hok; set_solver.
      * apply Hok; [set_solver|set_solver|set_solver|]. pose proof (appliedTo_counted g0 groups Hg0 Hk0).
        destruct (two_appliedTo gid groups) as (g & Hg & Ha & Hne); [done|lia|].
        assert (gi_GroupId g ∈ ng_nephe ng) by auto using appliedTo_nephe. set_solver.
  - destruct isMember; simpl; [|by rewrite Hatt].
    assert (forall sgs, (forall i, i ∈ sgs -> i = gid \/ i = dflt \/ attached groups i) -> gid ∈ sgs ->
      (forall i, i ∈ ng_nephe ng -> i ∈ sgs) -> attach_ok groups gid dflt true (Some sgs)) as Hok.
    { intros sgs H1 H2 H3. split; [done|]. split; [set_solver|]. split; auto. }
    destruct (mo && (ng_numAppliedTo ng =? 0)); [case_decide|]; apply Hok; set_solver.
Qed.
