(* ===== verification/AwsLaws.v ===== *)
(** * The AWS plug-in against EC2

    The documented behaviour of the EC2 calls as laws over a cloud that holds
    security groups and network interfaces, a cloud that satisfies them, and
    what the plug-in achieves in any cloud that does. *)

From stdpp Require Import base strings list gmap sorting.
From Stdlib Require Import ZArith Lia.
From S2P Require Import Prelude GoStrings GoNet GoCIDR SecurityGroup AwsModel AwsConverters AwsSecurity AwsTheorems.

#[local] Open Scope string_scope.
#[local] Open Scope Z_scope.

(** ** Laws *)

(** A filter compares one attribute with a list of values; the filters of a
    request are joined by and. *)
Definition sg_matches (fs : list Filter) (sg : Ec2SecurityGroup) : Prop :=
  forall f, f ∈ fs ->
  (f_Name f = awsFilterKeyVPCID -> esg_VpcId sg ∈ f_Values f) /\
  (f_Name f = awsFilterKeyGroupName -> esg_GroupName sg ∈ f_Values f).

Definition nic_matches (fs : list Filter) (nic : NetworkInterface) : Prop :=
  forall f, f ∈ fs -> f_Name f = awsFilterKeyVPCID -> nic_VpcId nic ∈ f_Values f.

#[export] Instance sg_matches_dec fs sg : Decision (sg_matches fs sg).
Proof.
  refine (cast_if (decide (Forall (fun f =>
    (f_Name f = awsFilterKeyVPCID -> esg_VpcId sg ∈ f_Values f) /\
    (f_Name f = awsFilterKeyGroupName -> esg_GroupName sg ∈ f_Values f)) fs))); unfold sg_matches; by rewrite <- list.Forall_forall.
Defined.
#[export] Instance nic_matches_dec fs n : Decision (nic_matches fs n).
Proof.
  refine (cast_if (decide (Forall (fun f => f_Name f = awsFilterKeyVPCID -> nic_VpcId n ∈ f_Values f) fs)));
    unfold nic_matches; by rewrite <- list.Forall_forall.
Defined.

(** An interface after its groups were set. *)
Definition groups_set (interfaceID : string) (sgIDs : list string) (n n' : NetworkInterface) : Prop :=
  nic_Id n' = nic_Id n /\ nic_VpcId n' = nic_VpcId n /\ nic_Attachment n' = nic_Attachment n /\
  if decide (nic_Id n = interfaceID) then forall i, attached (nic_Groups n') i <-> i ∈ sgIDs else n' = n.

(** A group whose permissions were changed. *)
Definition permissions_set (groupId : string) (ingress egress : list IpPermission -> list IpPermission)
    (sgs sgs' : list Ec2SecurityGroup) : Prop :=
  sgs' = map (fun sg => if decide (esg_GroupId sg = groupId)
    then mkEc2SG (esg_GroupId sg) (esg_GroupName sg) (esg_VpcId sg)
           (ingress (esg_IpPermissions sg)) (egress (esg_IpPermissionsEgress sg))
    else sg) sgs.

Class EC2Laws (E : EC2) := {
  sgs_of : Cloud -> list Ec2SecurityGroup;
  nics_of : Cloud -> list NetworkInterface;
  describe_sgs_law : forall fs c r c', describeSecurityGroups fs c = (r, c') ->
    sgs_of c' = sgs_of c /\ nics_of c' = nics_of c /\
    forall l, r = inr l -> l ≡ₚ filter (sg_matches fs) (sgs_of c);
  describe_nics_law : forall fs c r c', pagedDescribeNetworkInterfaces fs c = (r, c') ->
    sgs_of c' = sgs_of c /\ nics_of c' = nics_of c /\
    forall l, r = inr l -> l ≡ₚ filter (nic_matches fs) (nics_of c);
  modify_law : forall sgIDs i c c', modifyNetworkInterfaceAttribute sgIDs i c = (inr tt, c') ->
    sgs_of c' = sgs_of c /\ Forall2 (groups_set i sgIDs) (nics_of c) (nics_of c');
  delete_law : forall g c c', deleteSecurityGroup g c = (inr tt, c') ->
    nics_of c' = nics_of c /\ sgs_of c' = filter (fun sg => esg_GroupId sg <> g) (sgs_of c);
  revoke_ingress_law : forall g ps c c', revokeSecurityGroupIngress g ps c = (inr tt, c') ->
    nics_of c' = nics_of c /\
    permissions_set g (filter (fun p => p ∉ ps)) id (sgs_of c) (sgs_of c');
  revoke_egress_law : forall g ps c c', revokeSecurityGroupEgress g ps c = (inr tt, c') ->
    nics_of c' = nics_of c /\
    permissions_set g id (filter (fun p => p ∉ ps)) (sgs_of c) (sgs_of c');
  authorize_ingress_law : forall g ps c c', authorizeSecurityGroupIngress g ps c = (inr tt, c') ->
    nics_of c' = nics_of c /\
    permissions_set g (fun old => old ++ ps)%list id (sgs_of c) (sgs_of c');
  authorize_egress_law : forall g ps c c', authorizeSecurityGroupEgress g ps c = (inr tt, c') ->
    nics_of c' = nics_of c /\
    permissions_set g id (fun old => old ++ ps)%list (sgs_of c) (sgs_of c')
}.

(** ** A cloud that satisfies the laws *)

Record SimCloud := mkSim { sim_sgs : list Ec2SecurityGroup; sim_nics : list NetworkInterface; sim_next : N }.

Definition sim_set_perms (g : string) (ingress egress : list IpPermission -> list IpPermission) (c : SimCloud) : SimCloud :=
  mkSim (map (fun sg => if decide (esg_GroupId sg = g)
    then mkEc2SG (esg_GroupId sg) (esg_GroupName sg) (esg_VpcId sg)
           (ingress (esg_IpPermissions sg)) (egress (esg_IpPermissionsEgress sg))
    else sg) (sim_sgs c)) (sim_nics c) (sim_next c).

(** The name of a group, for the interfaces that list it. *)
Definition sim_identifier (c : SimCloud) (gid : string) : GroupIdentifier :=
  mkGroupIdentifier gid (match find (fun sg => bool_decide (esg_GroupId sg = gid)) (sim_sgs c) with
                         | Some sg => esg_GroupName sg | None => "" end).

Definition any_permission : IpPermission := mkIpPermission None None "-1" ["0.0.0.0/0"] [].

Definition SimEC2 : EC2 := {|
  Cloud := SimCloud;
  describeSecurityGroups fs c := (inr (filter (sg_matches fs) (sim_sgs c)), c);
  pagedDescribeNetworkInterfaces fs c := (inr (filter (nic_matches fs) (sim_nics c)), c);
  createSecurityGroup _ name vpc c :=
    let gid := "sg-" +:+ pretty (sim_next c) in
    (inr gid, mkSim (sim_sgs c ++ [mkEc2SG gid name vpc [] [any_permission]]) (sim_nics c) (N.succ (sim_next c)));
  deleteSecurityGroup g c :=
    if decide (Exists (fun n => g ∈ map gi_GroupId (nic_Groups n)) (sim_nics c)) then (inl "DependencyViolation", c)
    else (inr tt, mkSim (filter (fun sg => esg_GroupId sg <> g) (sim_sgs c)) (sim_nics c) (sim_next c));
  revokeSecurityGroupIngress g ps c := (inr tt, sim_set_perms g (filter (fun p => p ∉ ps)) id c);
  revokeSecurityGroupEgress g ps c := (inr tt, sim_set_perms g id (filter (fun p => p ∉ ps)) c);
  authorizeSecurityGroupIngress g ps c := (inr tt, sim_set_perms g (fun old => old ++ ps)%list id c);
  authorizeSecurityGroupEgress g ps c := (inr tt, sim_set_perms g id (fun old => old ++ ps)%list c);
  modifyNetworkInterfaceAttribute gids i c :=
    (inr tt, mkSim (sim_sgs c) (map (fun n => if decide (nic_Id n = i)
       then mkNic (nic_Id n) (nic_VpcId n) (map (sim_identifier c) gids) (nic_Attachment n) else n) (sim_nics c))
       (sim_next c));
  retry_limit := 3
|}.

#[refine, export] Instance SimLaws : EC2Laws SimEC2 := {|
  sgs_of c := sim_sgs (c : @Cloud SimEC2);
  nics_of c := sim_nics (c : @Cloud SimEC2)
|}.
Proof.
  - intros fs c r c' [= <- <-]. split; [done|]. split; [done|]. by intros l [= <-].
  - intros fs c r c' [= <- <-]. split; [done|]. split; [done|]. by intros l [= <-].
  - intros gids i c c' [= <-]. split; [done|]. simpl.
    induction (sim_nics c) as [|n ns IH]; simpl; constructor; [|done].
    unfold groups_set. destruct (decide (nic_Id n = i)); simpl; split_and!; try done.
    intros j. unfold attached. simpl. rewrite map_map. simpl. by rewrite map_id.
  - intros g c c'. simpl. case_decide; by intros [= <-].
  - by intros g ps c c' [= <-].
  - by intros g ps c c' [= <-].
  - by intros g ps c c' [= <-].
  - by intros g ps c c' [= <-].
Defined.

(** ** Running the plug-in's methods *)

Section Runs.
Context {E : EC2} {RNG : MapRange}.

Lemma abind_inv {A B} (m : AM A) (k : A -> AM B) s b s2 :
  (m ≫= k) s = Some (inr b, s2) -> exists a s1, m s = Some (inr a, s1) /\ k a s1 = Some (inr b, s2).
Proof. unfold mbind, AM_bind. destruct (m s) as [[[e|a] s1]|]; [done|eauto|done]. Qed.

Lemma amret_inv {A} (a b : A) (s s' : AwsState) : (mret a : AM A) s = Some (inr b, s') -> b = a /\ s' = s.
Proof. by intros [= <- <-]. Qed.

Lemma aderef_inv {A} (o : option A) s a s' : aderef o s = Some (inr a, s') -> o = Some a /\ s' = s.
Proof. destruct o; [intros [= <- <-]; done|done]. Qed.

Lemma attempt_inv {A} (m : AM A) s r s' : attempt m s = Some (inr r, s') -> m s = Some (r, s').
Proof. unfold attempt. destruct (m s) as [[r0 s0]|]; [by intros [= <- <-]|done]. Qed.

Lemma api_inv {A} (f : Cloud -> (error + A) * Cloud) s r s' :
  api f s = Some (r, s') ->
  f (aws_cloud s) = (r, aws_cloud s') /\ vpcIDToDefaultSecurityGroup s' = vpcIDToDefaultSecurityGroup s.
Proof. unfold api. destruct (f (aws_cloud s)) as [r0 c]. intros [= <- <-]. done. Qed.

Context {L : EC2Laws E}.

Definition sgs (s : AwsState) : list Ec2SecurityGroup := sgs_of (aws_cloud s).
Definition nics (s : AwsState) : list NetworkInterface := nics_of (aws_cloud s).

Lemma by_name_lookup l k sg :
  by_name l !! k = Some sg -> sg ∈ l /\ ToLower (esg_GroupName sg) = k.
Proof.
  unfold by_name. rewrite (fold_insert_lookup (fun sg => ToLower (esg_GroupName sg))).
  destruct (last_with _ k l) as [x|] eqn:Hl; [|by rewrite lookup_empty]. intros [= ->].
  by apply last_with_key in Hl as [? ?].
Qed.

(** Looking groups up by name changes nothing and finds groups of the VPCs. *)
Lemma lookup_by_name_inv vpcIDs names s out s' :
  getCloudSecurityGroupsWithNameFromCloud vpcIDs names s = Some (inr out, s') ->
  sgs s' = sgs s /\ nics s' = nics s /\ vpcIDToDefaultSecurityGroup s' = vpcIDToDefaultSecurityGroup s /\
  forall k sg, out !! k = Some sg ->
    sg ∈ sgs s /\ ToLower (esg_GroupName sg) = k /\ esg_VpcId sg ∈ vpcIDs /\ esg_GroupName sg ∈ names.
Proof.
  intros Hr. apply abind_inv in Hr as (l & s1 & H1 & [-> ->]%amret_inv). apply api_inv in H1 as [H1 Hd].
  destruct (describe_sgs_law _ _ _ _ H1) as (Hs & Hn & Hl). split; [done|]. split; [done|]. split; [done|].
  intros k sg [Hsg Hk]%by_name_lookup. rewrite (Hl _ eq_refl) in Hsg. apply list_elem_of_filter in Hsg as [Hm Hin]. split; [done|]. split; [done|].
  split.
  - apply (Hm (mkFilter awsFilterKeyVPCID vpcIDs)); [left|done].
  - apply elem_of_set_range. apply (Hm (mkFilter awsFilterKeyGroupName (set_range names))); [right; left|done].
Qed.

Lemma by_name_None l k : by_name l !! k = None -> forall sg, sg ∈ l -> ToLower (esg_GroupName sg) <> k.
Proof.
  unfold by_name. rewrite (fold_insert_lookup (fun sg => ToLower (esg_GroupName sg))).
  destruct (last_with _ k l) as [x|] eqn:Hl; [done|]. intros _ sg Hsg Hk. apply last_with_None in Hl.
  apply Hl, list_elem_of_fmap. eauto.
Qed.

Lemma lookup_by_name_complete vpcIDs names s out s' k sg :
  getCloudSecurityGroupsWithNameFromCloud vpcIDs names s = Some (inr out, s') -> out !! k = None ->
  sg ∈ sgs s -> esg_VpcId sg ∈ vpcIDs -> esg_GroupName sg ∈ names -> ToLower (esg_GroupName sg) <> k.
Proof.
  intros Hr Hk Hsg Hv Hn. apply abind_inv in Hr as (l & s1 & H1 & [-> ->]%amret_inv). apply api_inv in H1 as [H1 _].
  destruct (describe_sgs_law _ _ _ _ H1) as (_ & _ & Hl). apply (by_name_None l); [done|].
  rewrite (Hl _ eq_refl). apply list_elem_of_filter. split; [|done].
  intros f Hf. unfold buildAwsEc2FilterForSecurityGroupNameMatches in Hf.
  apply elem_of_cons in Hf as [->|[->|?%not_elem_of_nil]%elem_of_cons]; [| |done]; simpl; (split; [|]); try done.
  intros _. by apply elem_of_set_range.
Qed.

(** The VPC has a group with the cloud name of [id]. *)
Definition group_exists (s : AwsState) (id : CloudResourceID) (mo : bool) : Prop :=
  exists sg, sg ∈ sgs s /\ esg_VpcId sg = cid_Vpc id /\ esg_GroupName sg = GetCloudName id mo.

Lemma no_group_found s id mo out s' :
  getCloudSecurityGroupsWithNameFromCloud [cid_Vpc id] {[GetCloudName id mo]} s = Some (inr out, s') ->
  out !! GetCloudName id mo = None -> ~ group_exists s id mo.
Proof.
  intros Hr Hk (sg & Hsg & Hv & Hn). eapply (lookup_by_name_complete _ _ _ _ _ _ sg Hr Hk); [done|..].
  - rewrite Hv. left.
  - rewrite Hn. set_solver.
  - rewrite Hn. apply ToLower_GetCloudName.
Qed.

(** The default group of a VPC: from the cache, or the cloud's group of that
    name. *)
Definition default_of (s : AwsState) (vpcID d : string) : Prop :=
  vpcIDToDefaultSecurityGroup s !! vpcID = Some d \/
  exists sg, sg ∈ sgs s /\ esg_VpcId sg = vpcID /\ esg_GroupName sg = awsVpcDefaultSecurityGroupName /\ esg_GroupId sg = d.

Lemma getVpcDefault_inv vpcID s d s' :
  getVpcDefaultSecurityGroupID vpcID s = Some (inr d, s') ->
  sgs s' = sgs s /\ nics s' = nics s /\ default_of s vpcID d.
Proof.
  intros Hr. apply abind_inv in Hr as (known & s1 & [= <- <-] & Hr).
  destruct (vpcIDToDefaultSecurityGroup s !! vpcID) as [d0|] eqn:Hd.
  - apply amret_inv in Hr as [-> ->]. split; [done|]. split; [done|]. by left.
  - apply abind_inv in Hr as (out & s2 & Hout & Hr). apply lookup_by_name_inv in Hout as (Hs & Hn & Hv & Hout).
    apply abind_inv in Hr as (sg & s3 & [Hsg ->]%aderef_inv & Hr).
    apply abind_inv in Hr as ([] & s4 & [= <-] & [-> ->]%amret_inv). split; [done|]. split; [done|].
    destruct (Hout _ _ Hsg) as (? & _ & ?%list_elem_of_singleton & ?%elem_of_singleton). right. by exists sg.
Qed.

(** ** Setting the groups of the interfaces *)

Definition updated (todo : list (string * gset string)) (n n' : NetworkInterface) : Prop :=
  nic_Id n' = nic_Id n /\ nic_VpcId n' = nic_VpcId n /\ nic_Attachment n' = nic_Attachment n /\
  (forall gs, (nic_Id n, gs) ∈ todo -> forall i, attached (nic_Groups n') i <-> i ∈ gs) /\
  ((forall gs, (nic_Id n, gs) ∉ todo) -> n' = n).

Lemma updateNetworkInterface_inv i vpcID gs s s' :
  gs <> ∅ -> updateNetworkInterfaceSecurityGroups i vpcID gs s = Some (inr tt, s') ->
  sgs s' = sgs s /\ Forall2 (groups_set i (set_range gs)) (nics s) (nics s').
Proof.
  intros Hne Hr. unfold updateNetworkInterfaceSecurityGroups in Hr. rewrite decide_False in Hr by done.
  apply abind_inv in Hr as (l & s1 & [-> ->]%amret_inv & [Hr _]%api_inv). by apply modify_law in Hr.
Qed.

Lemma updated_cons i gs todo n n1 n' :
  i ∉ todo.*1 -> groups_set i (set_range gs) n n1 -> updated todo n1 n' -> updated ((i, gs) :: todo) n n'.
Proof.
  intros Hi (E1 & E2 & E3 & Hg) (F1 & F2 & F3 & Hin & Hout). rewrite E1 in *.
  split; [done|]. split; [congruence|]. split; [congruence|]. case_decide as Hd.
  - assert (forall gs', (nic_Id n, gs') ∉ todo) as Hno.
    { intros gs' Hx. apply Hi. rewrite <- Hd. apply list_elem_of_fmap. by exists (nic_Id n, gs'). }
    rewrite (Hout Hno). split; [|intros Hx; exfalso; eapply (Hx gs); rewrite Hd; left].
    intros gs' [[= _ ->]|Hx]%elem_of_cons; [|by destruct (Hno gs')]. intros j. by rewrite Hg, elem_of_set_range.
  - subst n1. split.
    + intros gs' [[= ? _]|Hx]%elem_of_cons; [done|eauto].
    + intros Hx. apply Hout. intros gs' Hy. apply (Hx gs'). by right.
Qed.

Lemma updated_nil n : updated [] n n.
Proof. split_and!; try done. by intros gs ?%not_elem_of_nil. Qed.

Lemma modify_interfaces_inv todo vpcID : forall s s',
  NoDup todo.*1 -> (forall p, p ∈ todo -> p.2 <> ∅) ->
  modify_interfaces todo vpcID s = Some (inr [], s') ->
  sgs s' = sgs s /\ Forall2 (updated todo) (nics s) (nics s').
Proof.
  induction todo as [|[i gs] todo IH]; intros s s' Hnd Hne Hr.
  - apply amret_inv in Hr as [_ ->]. split; [done|]. apply Forall_Forall2_diag, Forall_true. apply updated_nil.
  - simpl in Hr, Hnd. apply NoDup_cons in Hnd as [Hi Hnd].
    apply abind_inv in Hr as (r & s1 & H1%attempt_inv & Hr). apply abind_inv in Hr as (es & s2 & H2 & Hr).
    apply amret_inv in Hr as [Hes ->]. destruct r as [e|[]]; [done|]. subst es.
    apply updateNetworkInterface_inv in H1 as [Hs1 Hn1]; [|apply (Hne (i, gs)); left].
    destruct (IH s1 s2 Hnd) as [Hs2 Hn2]; [by intros; apply Hne; right|done|].
    split; [congruence|]. eapply Forall2_trans; [|done|done]. intros n n1 n'. by apply updated_cons.
Qed.

Lemma processNetworkInterfaceModify_inv todo vpcID s s' :
  (forall i gs, todo !! i = Some gs -> gs <> ∅) ->
  processNetworkInterfaceModifyConcurrently todo vpcID s = Some (inr tt, s') ->
  sgs s' = sgs s /\ Forall2 (updated (go_range todo)) (nics s) (nics s').
Proof.
  intros Hne Hr. apply abind_inv in Hr as (es & s1 & H1 & Hr). destruct es; [|done].
  apply amret_inv in Hr as [_ ->]. apply modify_interfaces_inv in H1; [done| |].
  - apply NoDup_go_range_keys.
  - intros [i gs] Hp%elem_of_go_range. by eapply Hne.
Qed.

(** ** Members *)

(** The change of one interface. *)
Definition nic_change (gid name dflt : string) (members : list CloudResource) (mo : bool) (n : NetworkInterface) :
    option (gset string) :=
  match nic_Attachment n with
  | Some (Some instance) =>
      groups_to_attach (sort_groups name (nic_Groups n)) gid dflt (nic_is_member members instance n) mo
  | _ => None
  end.

Lemma interfaces_to_modify_snoc gid name dflt members mo l n :
  interfaces_to_modify gid name dflt members mo (l ++ [n])%list =
  match nic_change gid name dflt members mo n with
  | Some gs => <[nic_Id n := gs]> (interfaces_to_modify gid name dflt members mo l)
  | None => interfaces_to_modify gid name dflt members mo l
  end.
Proof.
  unfold interfaces_to_modify, nic_change. rewrite fold_left_app. simpl.
  by destruct (nic_Attachment n) as [[inst|]|].
Qed.

Lemma interfaces_to_modify_lookup gid name dflt members mo l :
  NoDup (map nic_Id l) -> forall i gs,
  interfaces_to_modify gid name dflt members mo l !! i = Some gs <->
  exists n, n ∈ l /\ (nic_Id n = i /\ nic_change gid name dflt members mo n = Some gs).
Proof.
  induction l as [|n l IH] using rev_ind; intros Hnd i gs.
  - split; [done|]. by intros (? & ?%not_elem_of_nil & _).
  - rewrite map_app in Hnd. apply NoDup_app in Hnd as (Hnd & Hx & _). specialize (IH Hnd).
    rewrite interfaces_to_modify_snoc, exists_snoc, <- IH.
    assert (forall gs', interfaces_to_modify gid name dflt members mo l !! nic_Id n <> Some gs') as Hno.
    { intros gs' (n' & Hn' & Ei & _)%IH. apply (Hx (nic_Id n)); [|left].
      rewrite <- Ei. apply list_elem_of_fmap. eauto. }
    destruct (nic_change gid name dflt members mo n) as [gs0|]; [|naive_solver].
    destruct (decide (i = nic_Id n)) as [->|Hne]; [rewrite lookup_insert_eq|rewrite lookup_insert_ne by done]; naive_solver.
Qed.

Lemma Forall2_impl_in {A B} (P Q : A -> B -> Prop) l k :
  Forall2 P l k -> (forall x y, x ∈ l -> P x y -> Q x y) -> Forall2 Q l k.
Proof.
  induction 1 as [|x y l k Hp _ IH]; intros Hpq; constructor; [apply Hpq; [left|done]|].
  apply IH. intros x' y' ?. apply Hpq. by right.
Qed.

(** What must hold of a cloud for the groups of its interfaces to make sense:
    identifiers are unique, and in the VPC exactly the group [gid] has the name
    the plug-in looks for. *)
Record cloud_ok (s : AwsState) (id : CloudResourceID) (mo : bool) (gid : string) : Prop := mk_cloud_ok {
  ok_nics : NoDup (map nic_Id (nics s));
  ok_groups : forall n, n ∈ nics s -> nic_VpcId n = cid_Vpc id -> NoDup (map gi_GroupId (nic_Groups n));
  ok_named : forall n, n ∈ nics s -> nic_VpcId n = cid_Vpc id -> group_named (GetCloudName id mo) gid (nic_Groups n);
  ok_group : forall sg, sg ∈ sgs s -> esg_VpcId sg = cid_Vpc id -> esg_GroupName sg = GetCloudName id mo -> esg_GroupId sg = gid;
  ok_default : forall d, default_of s (cid_Vpc id) d -> d <> gid
}.

Lemma attach_ok_kept n gid dflt b o n' :
  attach_ok (nic_Groups n) gid dflt b o ->
  (match o with Some gs => forall i, attached (nic_Groups n') i <-> i ∈ gs | None => n' = n end) ->
  (attached (nic_Groups n') gid <-> b = true) /\
  (forall g, g ∈ nic_Groups n -> is_nephe g = true -> gi_GroupId g <> gid -> attached (nic_Groups n') (gi_GroupId g)) /\
  (nic_Groups n <> [] -> nic_Groups n' <> []).
Proof.
  destruct o as [gs|]; simpl; [|intros Hok ->].
  - intros (H1 & H2 & H3 & _) Ha. split; [by rewrite Ha|]. split; [intros; rewrite Ha; auto|].
    intros _ Hnil. apply set_choose_L in H2 as [i Hi]. apply Ha in Hi. rewrite Hnil in Hi. by apply not_elem_of_nil in Hi.
  - split; [done|]. split; [|done]. intros g Hg _ _. apply list_elem_of_fmap. eauto.
Qed.

(** An interface before and after the members of the group [gid] were set. *)
Definition member_after (id : CloudResourceID) (gid : string) (members : list CloudResource) (n n' : NetworkInterface) : Prop :=
  nic_Id n' = nic_Id n /\ nic_VpcId n' = nic_VpcId n /\ nic_Attachment n' = nic_Attachment n /\
  match nic_Attachment n with
  | Some (Some instance) =>
      if decide (nic_VpcId n = cid_Vpc id) then
        (attached (nic_Groups n') gid <-> nic_is_member members instance n = true) /\
        (forall g, g ∈ nic_Groups n -> is_nephe g = true -> gi_GroupId g <> gid -> attached (nic_Groups n') (gi_GroupId g)) /\
        (nic_Groups n <> [] -> nic_Groups n' <> [])
      else n' = n
  | _ => n' = n
  end.

Lemma updateSecurityGroupMembers_run s id mo gid members s' :
  cloud_ok s id mo gid ->
  updateSecurityGroupMembers gid (GetCloudName id mo) (cid_Vpc id) members mo s = Some (inr tt, s') ->
  sgs s' = sgs s /\
  Forall2 (member_after id gid members) (nics s) (nics s').
Proof.
  intros Hok Hr. apply abind_inv in Hr as (l & s1 & [H1 Hd1]%api_inv & Hr).
  destruct (describe_nics_law _ _ _ _ H1) as (Hs1 & Hn1 & Hl). specialize (Hl _ eq_refl).
  apply abind_inv in Hr as (dflt & s2 & (Hs2 & Hn2 & Hd)%getVpcDefault_inv & Hr).
  assert (dflt <> gid) as Hdg. { apply (ok_default _ _ _ _ Hok). unfold default_of, sgs in *. by rewrite Hd1, Hs1 in Hd. }
  assert (forall n, n ∈ l <-> n ∈ nics s /\ nic_VpcId n = cid_Vpc id) as Hl'.
  { intros n. rewrite Hl, list_elem_of_filter. unfold nic_matches, buildAwsEc2FilterForVpcIDOnlyMatches.
    rewrite decide_False by set_solver. setoid_rewrite list_elem_of_singleton. split.
    - intros [Hm ?]. split; [done|]. specialize (Hm _ eq_refl eq_refl). simpl in Hm.
      unfold sort_strings in Hm. rewrite merge_sort_Permutation in Hm. apply elem_of_set_range in Hm. set_solver.
    - intros [? Hv]. split; [|done]. intros f -> _. simpl. unfold sort_strings.
      rewrite merge_sort_Permutation. apply elem_of_set_range. set_solver. }
  set (todo := interfaces_to_modify _ _ _ _ _ _) in Hr.
  assert (NoDup (map nic_Id l)) as Hnd.
  { rewrite Hl. eapply sublist_NoDup; [apply (ok_nics _ _ _ _ Hok)|]. exact (fmap_sublist nic_Id _ _ (sublist_filter _ _)). }
  pose proof (interfaces_to_modify_lookup gid (GetCloudName id mo) dflt members mo l Hnd) as Htodo. fold todo in Htodo.
  assert (forall n inst, n ∈ l -> nic_Attachment n = Some (Some inst) ->
    attach_ok (nic_Groups n) gid dflt (nic_is_member members inst n)
      (nic_change gid (GetCloudName id mo) dflt members mo n)) as Hatt.
  { intros n inst [Hn Hv]%Hl' Ha. unfold nic_change. rewrite Ha.
    apply groups_to_attach_ok; [by eapply ok_named|by eapply ok_groups|done]. }
  apply processNetworkInterfaceModify_inv in Hr as [Hs3 Hn3].
  2: { intros i gs (n & Hn & _ & Hc)%Htodo. pose proof (Hatt n) as Ho. unfold nic_change in Hc.
       destruct (nic_Attachment n) as [[inst|]|] eqn:Ha; try done. specialize (Ho inst Hn eq_refl).
       unfold nic_change in Ho. rewrite Ha, Hc in Ho. by destruct Ho as (_ & ? & _). }
  split; [unfold sgs in *; congruence|]. unfold nics in *. rewrite Hn2, Hn1 in Hn3.
  eapply Forall2_impl_in; [exact Hn3|]. intros n n' Hn (E1 & E2 & E3 & Hin & Hout). split_and!; [done..|].
  assert (match nic_change gid (GetCloudName id mo) dflt members mo n with
    | Some gs => n ∈ l -> forall i, attached (nic_Groups n') i <-> i ∈ gs | None => n' = n end) as Hc.
  { destruct (nic_change gid (GetCloudName id mo) dflt members mo n) as [gs|] eqn:Ec.
    - intros Hnl. apply Hin, elem_of_go_range, Htodo. eauto.
    - apply Hout. intros gs (n0 & Hn0 & Ei & Ec0)%elem_of_go_range%Htodo.
      apply Hl' in Hn0 as [Hn0 _]. rewrite (NoDup_key_inj nic_Id _ n0 n (ok_nics _ _ _ _ Hok) Hn0 Hn Ei) in Ec0.
      congruence. }
  assert (n ∉ l -> n' = n) as Hnl.
  { intros Hno. apply Hout. intros gs (n0 & Hn0 & Ei & _)%elem_of_go_range%Htodo. apply Hno.
    pose proof (proj1 (Hl' n0) Hn0) as [Hn0' _].
    by rewrite <- (NoDup_key_inj nic_Id _ n0 n (ok_nics _ _ _ _ Hok) Hn0' Hn Ei). }
  destruct (nic_Attachment n) as [[inst|]|] eqn:Ha.
  - case_decide as Hv.
    + assert (n ∈ l) as Hnl' by (by apply Hl'). eapply attach_ok_kept; [by eapply Hatt|].
      destruct (nic_change _ _ _ _ _ _); auto.
    + apply Hnl. by intros [_ ?]%Hl'.
  - unfold nic_change in Hc. by rewrite Ha in Hc.
  - unfold nic_change in Hc. by rewrite Ha in Hc.
Qed.


Lemma vpc_service_inv accounts vpcID s cfg s' :
  vpc_service accounts vpcID s = Some (inr cfg, s') -> s' = s.
Proof.
  unfold vpc_service. destruct (getVpcAccount accounts vpcID) as [acc|]; [|done].
  destruct (acc_ec2 acc); [done|]. by intros [_ ->]%amret_inv.
Qed.

Lemma lookup_own_group s id mo gid out s1 sg :
  cloud_ok s id mo gid ->
  getCloudSecurityGroupsWithNameFromCloud [cid_Vpc id] {[GetCloudName id mo]} s = Some (inr out, s1) ->
  out !! GetCloudName id mo = Some sg -> esg_GroupId sg = gid /\ cloud_ok s1 id mo gid.
Proof.
  intros Hok (Hs & Hn & Hd & Hout)%lookup_by_name_inv Hsg.
  destruct (Hout _ _ Hsg) as (Hin & _ & Hv%list_elem_of_singleton & Hname%elem_of_singleton).
  split; [by eapply ok_group|]. destruct Hok. unfold default_of in *.
  split; unfold default_of in *; rewrite ?Hn, ?Hs, ?Hd in *; auto.
Qed.

Lemma members_request_realized accounts s id members mo gid s' :
  cloud_ok s id mo gid ->
  UpdateSecurityGroupMembers accounts id members mo s = Some (inr tt, s') ->
  sgs s' = sgs s /\ Forall2 (member_after id gid members) (nics s) (nics s').
Proof.
  intros Hok Hr. apply abind_inv in Hr as (cfg & s0 & ->%vpc_service_inv & Hr).
  apply abind_inv in Hr as (out & s1 & Hout & Hr). pose proof Hout as (Hs & Hn & _ & _)%lookup_by_name_inv.
  case_decide; [|done]. apply abind_inv in Hr as (sg & s2 & [Hsg ->]%aderef_inv & Hr).
  destruct (lookup_own_group _ _ _ _ _ _ _ Hok Hout Hsg) as [<- Hok1].
  apply updateSecurityGroupMembers_run in Hr as [Hs' Hn']; [|done]. rewrite Hs, Hn in *. auto.
Qed.

(** C13: When [UpdateSecurityGroupMembers] succeeds, an interface of the VPC that
    is attached to an instance is in the group exactly if its instance or the
    interface itself is one of the members; it keeps all other groups of the
    controller and is not left without any group; every other interface, and
    every security group, is unchanged. *)
Theorem UpdateSecurityGroupMembers_realizes accounts s id members mo gid s' :
  cloud_ok s id mo gid ->
  UpdateSecurityGroupMembers accounts id members mo s = Some (inr tt, s') ->
  sgs s' = sgs s /\ Forall2 (member_after id gid members) (nics s) (nics s').
Proof. apply members_request_realized. Qed.

(** C26: When [DeleteSecurityGroup] succeeds, either there was no such group and
    nothing changed, or the group is gone, no other one is, and no interface of
    the VPC that is attached to an instance is in it any more. *)
Theorem DeleteSecurityGroup_realizes accounts s id mo gid s' :
  cloud_ok s id mo gid ->
  DeleteSecurityGroup accounts id mo s = Some (inr tt, s') ->
  (~ group_exists s id mo /\ sgs s' = sgs s /\ nics s' = nics s) \/
  (sgs s' = filter (fun sg => esg_GroupId sg <> gid) (sgs s) /\
   forall n, n ∈ nics s' -> nic_VpcId n = cid_Vpc id -> is_Some (mjoin (nic_Attachment n)) -> ~ attached (nic_Groups n) gid).
Proof.
  intros Hok Hr. apply abind_inv in Hr as (cfg & s0 & ->%vpc_service_inv & Hr).
  apply abind_inv in Hr as (out & s1 & Hout & Hr). pose proof Hout as (Hs & Hn & _ & _)%lookup_by_name_inv.
  case_decide as Hsz.
  { apply amret_inv in Hr as [_ ->]. left. split; [|done]. apply map_size_empty_inv in Hsz. subst out.
    by apply (no_group_found _ _ _ _ _ Hout). }
  apply abind_inv in Hr as (sg & s2 & [Hsg ->]%aderef_inv & Hr).
  destruct (lookup_own_group _ _ _ _ _ _ _ Hok Hout Hsg) as [<- Hok1].
  apply abind_inv in Hr as ([] & s3 & Hm & [Hr _]%api_inv).
  apply updateSecurityGroupMembers_run in Hm as [Hs3 Hn3]; [|done]. apply delete_law in Hr as [Hn4 Hs4].
  right. unfold sgs, nics in *. rewrite Hs4, Hs3, Hs. split; [done|]. rewrite Hn4.
  intros n' (i & Hi)%list_elem_of_lookup Hv Ha. destruct (Forall2_lookup_r _ _ _ _ _ Hn3 Hi) as (n & _ & E1 & E2 & E3 & Hx).
  rewrite E2 in Hv. rewrite E3 in Ha. destruct (nic_Attachment n) as [[inst|]|]; [|by destruct Ha..].
  rewrite decide_True in Hx by done. destruct Hx as (Hx & _). rewrite Hx. unfold nic_is_member. simpl.
  by rewrite !bool_decide_false by set_solver.
Qed.


(** ** Rules *)

(** The permission [p] is what EC2 is told of a rule; the groups it refers to
    are groups of the VPCs [vpcs] with the names of the rule's groups. *)
Definition realized_as (s : AwsState) (vpcs : list string) (ips : list IPNet) (ids : list CloudResourceID)
    (port proto : option Z) (p : IpPermission) : Prop :=
  (ipp_FromPort p, ipp_ToPort p) = convertToIPPermissionPort port proto /\
  ipp_IpProtocol p = convertToIPPermissionProtocol proto /\
  ipp_IpRanges p = convertToEc2IpRanges ips (negb (bool_decide (ids = []))) /\
  Forall2 (fun i g => exists sg, sg ∈ sgs s /\ esg_GroupId sg = g /\ esg_VpcId sg ∈ vpcs /\
    ToLower (esg_GroupName sg) = GetCloudName i true) ids (ipp_UserIdGroupPairs p).

Lemma buildEc2UserIDGroupPairs_inv objs ids : forall s gs s',
  buildEc2UserIDGroupPairs ids objs s = Some (inr gs, s') ->
  s' = s /\ Forall2 (fun i g => exists sg, objs !! GetCloudName i true = Some sg /\ esg_GroupId sg = g) ids gs.
Proof.
  induction ids as [|i ids IH]; intros s gs s' Hr; simpl in Hr.
  - apply amret_inv in Hr as [-> ->]. split; [done|constructor].
  - apply abind_inv in Hr as (sg & s1 & [Hsg ->]%aderef_inv & Hr). apply abind_inv in Hr as (rest & s2 & [-> Hrest]%IH & Hr).
    apply amret_inv in Hr as [-> ->]. split; [done|]. constructor; eauto.
Qed.

Lemma build_permissions_inv s0 vpcs objs {R} (ips : R -> list IPNet) (ids : R -> list CloudResourceID) (port proto : R -> option Z) rs :
  (forall k sg, objs !! k = Some sg -> sg ∈ sgs s0 /\ ToLower (esg_GroupName sg) = k /\ esg_VpcId sg ∈ vpcs) ->
  forall s ps s',
  build_permissions (fun r => build_permission (ips r) (ids r) (port r) (proto r) objs) rs s = Some (inr ps, s') ->
  s' = s /\ Forall2 (fun r p => realized_as s0 vpcs (ips r) (ids r) (port r) (proto r) p) rs ps.
Proof.
  intros Hobjs. induction rs as [|r rs IH]; intros s ps s' Hr; simpl in Hr.
  - apply amret_inv in Hr as [-> ->]. split; [done|constructor].
  - apply abind_inv in Hr as (p & s1 & Hp & Hr). apply abind_inv in Hr as (ps' & s2 & [-> Hps]%IH & Hr).
    apply amret_inv in Hr as [-> ->]. apply abind_inv in Hp as (gs & s3 & [-> Hgs]%buildEc2UserIDGroupPairs_inv & Hp).
    destruct (convertToIPPermissionPort (port r) (proto r)) as [a b] eqn:Eport.
    apply amret_inv in Hp as [-> ->]. split; [done|]. constructor; [|done].
    split; [by rewrite Eport|]. split; [done|]. split; [done|]. eapply Forall2_impl; [exact Hgs|].
    intros i g (sg & Hsg & Hg). destruct (Hobjs _ _ Hsg) as (? & ? & ?). eauto.
Qed.

(** Two changes of the permissions of one group make one. *)
Lemma permissions_set_trans g i1 e1 i2 e2 l1 l2 l3 :
  permissions_set g i1 e1 l1 l2 -> permissions_set g i2 e2 l2 l3 ->
  permissions_set g (fun x => i2 (i1 x)) (fun x => e2 (e1 x)) l1 l3.
Proof.
  unfold permissions_set. intros -> ->. rewrite map_map. apply map_ext. intros sg.
  destruct (decide (esg_GroupId sg = g)) as [E0|]; [|by rewrite decide_False]. simpl. by rewrite decide_True.
Qed.

Lemma permissions_set_id g l : permissions_set g id id l l.
Proof.
  unfold permissions_set. rewrite <- (map_id l) at 1. apply map_ext. intros sg. case_decide; [by destruct sg|done].
Qed.

Lemma filter_not_in (l : list IpPermission) : filter (fun p => p ∉ l) l = [].
Proof.
  destruct (filter (fun p => p ∉ l) l) as [|p k] eqn:Ef; [done|].
  assert (p ∈ p :: k) as Hp by left. rewrite <- Ef in Hp. by apply list_elem_of_filter in Hp as [? ?].
Qed.

Definition ingress_realized s vpcs (rules : list IngressRule) (ps : list IpPermission) : Prop :=
  Forall2 (fun r p => realized_as s vpcs (ir_FromSrcIP r) (ir_FromSecurityGroups r) (ir_FromPort r) (ir_Protocol r) p) rules ps.
Definition egress_realized s vpcs (rules : list EgressRule) (ps : list IpPermission) : Prop :=
  Forall2 (fun r p => realized_as s vpcs (er_ToDstIP r) (er_ToSecurityGroups r) (er_ToPort r) (er_Protocol r) p) rules ps.

Section Realize.
Context (s0 : AwsState) (vpcs : list string) (objs : gmap string Ec2SecurityGroup).
Hypothesis objs_found : forall k sg, objs !! k = Some sg ->
  sg ∈ sgs s0 /\ ToLower (esg_GroupName sg) = k /\ esg_VpcId sg ∈ vpcs.

Lemma realizeIngress_inv sg rules s s' :
  realizeIngressIPPermissions sg rules objs s = Some (inr tt, s') ->
  nics s' = nics s /\ exists ps f, ingress_realized s0 vpcs rules ps /\ f (esg_IpPermissions sg) = ps /\
  permissions_set (esg_GroupId sg) f id (sgs s) (sgs s').
Proof.
  intros Hr. apply abind_inv in Hr as ([] & s1 & H1 & Hr).
  assert (nics s1 = nics s /\ exists f, f (esg_IpPermissions sg) = [] /\
    permissions_set (esg_GroupId sg) f id (sgs s) (sgs s1)) as (Hn1 & f & Hf & Hp1).
  { destruct (decide (esg_IpPermissions sg = [])) as [Hd|Hd].
    - apply amret_inv in H1 as [_ ->]. split; [done|]. exists id. split; [exact Hd|]. apply permissions_set_id.
    - apply api_inv in H1 as [[Hn Hp]%revoke_ingress_law _]. split; [done|]. eexists. split; [apply filter_not_in|done]. }
  destruct (decide (rules = [])) as [Hd|Hd].
  - apply amret_inv in Hr as [_ ->]. split; [done|]. subst rules. exists [], f. split; [constructor|done].
  - apply abind_inv in Hr as (ps & s2 & Hb & Hr).
    apply (build_permissions_inv s0 vpcs objs ir_FromSrcIP ir_FromSecurityGroups ir_FromPort ir_Protocol) in Hb as [-> Hps]; [|done].
    apply api_inv in Hr as [[Hn Hp]%authorize_ingress_law _]. unfold nics, sgs in *. split; [congruence|].
    exists ps. eexists. split; [done|]. split; [|exact (permissions_set_trans _ _ _ _ _ _ _ _ Hp1 Hp)]. simpl. by rewrite Hf.
Qed.

Lemma realizeEgress_inv sg rules s s' :
  realizeEgressIPPermissions sg rules objs s = Some (inr tt, s') ->
  nics s' = nics s /\ exists ps f, egress_realized s0 vpcs rules ps /\ f (esg_IpPermissionsEgress sg) = ps /\
  permissions_set (esg_GroupId sg) id f (sgs s) (sgs s').
Proof.
  intros Hr. apply abind_inv in Hr as ([] & s1 & H1 & Hr).
  assert (nics s1 = nics s /\ exists f, f (esg_IpPermissionsEgress sg) = [] /\
    permissions_set (esg_GroupId sg) id f (sgs s) (sgs s1)) as (Hn1 & f & Hf & Hp1).
  { destruct (decide (esg_IpPermissionsEgress sg = [])) as [Hd|Hd].
    - apply amret_inv in H1 as [_ ->]. split; [done|]. exists id. split; [exact Hd|]. apply permissions_set_id.
    - apply api_inv in H1 as [[Hn Hp]%revoke_egress_law _]. split; [done|]. eexists. split; [apply filter_not_in|done]. }
  destruct (decide (rules = [])) as [Hd|Hd].
  - apply amret_inv in Hr as [_ ->]. split; [done|]. subst rules. exists [], f. split; [constructor|done].
  - apply abind_inv in Hr as (ps & s2 & Hb & Hr).
    apply (build_permissions_inv s0 vpcs objs er_ToDstIP er_ToSecurityGroups er_ToPort er_Protocol) in Hb as [-> Hps]; [|done].
    apply api_inv in Hr as [[Hn Hp]%authorize_egress_law _]. unfold nics, sgs in *. split; [congruence|].
    exists ps. eexists. split; [done|]. split; [|exact (permissions_set_trans _ _ _ _ _ _ _ _ Hp1 Hp)]. simpl. by rewrite Hf.
Qed.

End Realize.

(** The groups with the permissions of one of them replaced. *)
Definition with_permissions (g : string) (psi pse : list IpPermission) (l : list Ec2SecurityGroup) : list Ec2SecurityGroup :=
  map (fun sg => if decide (esg_GroupId sg = g)
    then mkEc2SG (esg_GroupId sg) (esg_GroupName sg) (esg_VpcId sg) psi pse else sg) l.

Lemma permissions_set_own own f h l l' psi pse :
  NoDup (map esg_GroupId l) -> own ∈ l -> f (esg_IpPermissions own) = psi -> h (esg_IpPermissionsEgress own) = pse ->
  permissions_set (esg_GroupId own) f h l l' -> l' = with_permissions (esg_GroupId own) psi pse l.
Proof.
  unfold permissions_set, with_permissions. intros Hnd Hown Hf Hh ->. apply map_ext_in. intros sg Hsg%list_elem_of_In.
  case_decide as Hd; [|done]. rewrite (NoDup_key_inj esg_GroupId l sg own Hnd Hsg Hown Hd). by rewrite Hf, Hh.
Qed.

Lemma rules_request_realized accounts s id ingressRules egressRules s' own :
  NoDup (map esg_GroupId (sgs s)) ->
  (forall sg, sg ∈ sgs s -> ToLower (esg_GroupName sg) = GetCloudName id false -> sg = own) ->
  UpdateSecurityGroupRules accounts id ingressRules egressRules s = Some (inr tt, s') ->
  nics s' = nics s /\ exists vpcs psi pse,
  ingress_realized s vpcs ingressRules psi /\ egress_realized s vpcs egressRules pse /\
  sgs s' = with_permissions (esg_GroupId own) psi pse (sgs s).
Proof.
  intros Hnd Hown Hr. apply abind_inv in Hr as (cfg & s0 & ->%vpc_service_inv & Hr).
  apply abind_inv in Hr as (objs & s1 & (Hs & Hn & _ & Hobjs)%lookup_by_name_inv & Hr).
  case_decide; [|done]. apply abind_inv in Hr as (sg & s2 & [Hsg ->]%aderef_inv & Hr).
  assert (forall k sg, objs !! k = Some sg -> sg ∈ sgs s /\ ToLower (esg_GroupName sg) = k /\
    esg_VpcId sg ∈ cid_Vpc id :: getVpcPeers cfg (cid_Vpc id)) as Hfound.
  { intros k sg' Hk. destruct (Hobjs k sg' Hk) as (? & ? & ? & _). done. }
  destruct (Hobjs _ _ Hsg) as (Hin & Hname & _). pose proof (Hown sg Hin Hname). subst sg.
  apply abind_inv in Hr as ([] & s3 & Hi & He).
  apply (realizeIngress_inv s _ objs Hfound) in Hi as (Hn3 & psi & f & Hpsi & Hf & Hp3).
  apply (realizeEgress_inv s _ objs Hfound) in He as (Hn4 & pse & h & Hpse & Hh & Hp4).
  split; [congruence|]. eexists _, psi, pse. split; [exact Hpsi|]. split; [exact Hpse|].
  rewrite Hs in Hp3.
  refine (permissions_set_own own _ _ _ _ psi pse Hnd Hin _ _ (permissions_set_trans _ _ _ _ _ _ _ _ Hp3 Hp4));
    [exact Hf|exact Hh].
Qed.



(** ** Creation *)

(** C27: [CreateSecurityGroup] returns the identifier of a group of the VPC that
    has the cloud name of the requested group; and when the VPC already had such
    a group, nothing in the cloud changes. *)
Theorem CreateSecurityGroup_realizes accounts s id mo g s' :
  CreateSecurityGroup accounts id mo s = Some (inr g, s') ->
  (exists sg, sg ∈ sgs s' /\ esg_VpcId sg = cid_Vpc id /\ esg_GroupName sg = GetCloudName id mo /\ esg_GroupId sg = g) /\
  (group_exists s id mo -> sgs s' = sgs s /\ nics s' = nics s).
Proof.
  intros Hr. apply abind_inv in Hr as (cfg & s0 & ->%vpc_service_inv & Hr).
  apply abind_inv in Hr as (resp & s1 & Hc & Hr). apply abind_inv in Hr as (sg & s2 & [Hsg ->]%aderef_inv & Hr).
  apply amret_inv in Hr as [-> ->].
  apply abind_inv in Hc as (found & s3 & Hf & Hc). pose proof Hf as (Hs3 & Hn3 & _ & Hin3)%lookup_by_name_inv.
  apply abind_inv in Hc as ([] & s4 & Hca & Hc). split.
  - case_decide as Hd.
    + apply amret_inv in Hc as [-> ->]. destruct (Hin3 _ _ Hsg) as (? & _ & ?%list_elem_of_singleton & ?%elem_of_singleton).
      exists sg. assert (s3 = s4) as <-; [|by rewrite Hs3].
      assert (filter (fun n => found !! n = None) ({[GetCloudName id mo]} : gset string) = ∅) as He
        by (by apply size_empty_inv, leibniz_equiv in Hd). rewrite He, set_range_empty in Hca. by apply amret_inv in Hca as [_ ->].
    + apply lookup_by_name_inv in Hc as (Hs5 & _ & _ & Hin5).
      destruct (Hin5 _ _ Hsg) as (? & _ & ?%list_elem_of_singleton & ?%elem_of_singleton). exists sg. by rewrite Hs5.
  - intros Hex.
    assert (filter (fun n => found !! n = None) ({[GetCloudName id mo]} : gset string) = ∅) as He.
    { apply set_eq. intros n. rewrite elem_of_filter, elem_of_singleton. split; [|set_solver].
      intros [Hnone ->]. by destruct (no_group_found _ _ _ _ _ Hf Hnone). }
    rewrite He, size_empty, decide_True in Hc by done. apply amret_inv in Hc as [-> ->].
    rewrite He, set_range_empty in Hca.
    apply amret_inv in Hca as [_ ->]. by rewrite Hs3, Hn3.
Qed.

End Runs.
