(* ===== verification/AwsView.v ===== *)
(** * The AWS plug-in: the view of the cloud, and the way back

    The synchronisation contents the plug-in reports, how much of a rule
    survives the way to EC2 and back, and sample clouds. *)

From stdpp Require Import base strings list gmap sorting.
From Stdlib Require Import ZArith Lia.
From S2P Require Import Prelude GoStrings GoNet GoCIDR SecurityGroup AwsModel AwsConverters AwsSecurity AwsTheorems AwsLaws.

#[local] Open Scope string_scope.
#[local] Open Scope Z_scope.

(** ** Groups by type, members by group *)

Definition managed_name (name : string) : bool :=
  let '(_, isAG, isAT) := IsNepheControllerCreatedSG name in isAG || isAT.

Lemma groups_by_type_snoc l sg :
  getCloudSecurityGroupsByType (l ++ [sg])%list =
  let '(managed, unmanaged) := getCloudSecurityGroupsByType l in
  if managed_name (esg_GroupName sg) then (<[esg_GroupId sg := sg]> managed, unmanaged)
  else (managed, <[esg_GroupId sg := sg]> unmanaged).
Proof.
  unfold getCloudSecurityGroupsByType, managed_name. rewrite fold_left_app. simpl.
  destruct (fold_left _ l (∅, ∅)) as [m u]. by destruct (IsNepheControllerCreatedSG (esg_GroupName sg)) as [[? ?] ?].
Qed.

Lemma managed_lookup l g sg :
  (getCloudSecurityGroupsByType l).1 !! g = Some sg ->
  sg ∈ l /\ esg_GroupId sg = g /\ managed_name (esg_GroupName sg) = true.
Proof.
  induction l as [|x l IH] using rev_ind; [done|]. rewrite groups_by_type_snoc.
  destruct (getCloudSecurityGroupsByType l) as [m u]. setoid_rewrite elem_of_app.
  destruct (managed_name (esg_GroupName x)) eqn:Hm; simpl in *; [|naive_solver].
  destruct (decide (g = esg_GroupId x)) as [->|Hne]; [rewrite lookup_insert_eq|rewrite lookup_insert_ne by done].
  - intros [= <-]. split_and!; [right; left|done|done].
  - naive_solver.
Qed.

Section Members.
Context (managed : gmap string Ec2SecurityGroup).

Definition add_member (n : NetworkInterface) (m : gmap string (list CloudResource)) (g : GroupIdentifier) :
    gmap string (list CloudResource) :=
  if bool_decide (is_Some (managed !! gi_GroupId g))
  then <[gi_GroupId g := (default [] (m !! gi_GroupId g) ++ [nic_resource n])%list]> m else m.

Lemma collect_members_snoc l n :
  (collect_members managed (l ++ [n])%list).1 = fold_left (add_member n) (nic_Groups n) (collect_members managed l).1.
Proof. unfold collect_members. rewrite fold_left_app. simpl. by destruct (fold_left _ l (∅, ∅)). Qed.

Lemma add_members_elem n groups : forall m i r,
  r ∈ default [] (fold_left (add_member n) groups m !! i) <->
  r ∈ default [] (m !! i) \/ is_Some (managed !! i) /\ attached groups i /\ r = nic_resource n.
Proof.
  unfold attached. induction groups as [|g groups IH]; intros m i r; simpl.
  - split; [auto|]. by intros [?|(_ & ?%not_elem_of_nil & _)].
  - rewrite IH, elem_of_cons. unfold add_member. case_bool_decide as Hm.
    + destruct (decide (i = gi_GroupId g)) as [->|Hne]; [rewrite lookup_insert_eq|rewrite lookup_insert_ne by done]; simpl.
      * rewrite elem_of_app, list_elem_of_singleton. tauto.
      * naive_solver.
    + split; [tauto|]. intros [?|(Hi & [->|?] & ?)]; [tauto|done|tauto].
Qed.

Lemma collect_members_elem l i r :
  r ∈ default [] ((collect_members managed l).1 !! i) <->
  is_Some (managed !! i) /\ exists n, n ∈ l /\ (attached (nic_Groups n) i /\ r = nic_resource n).
Proof.
  induction l as [|n l IH] using rev_ind.
  - simpl. split; [by intros ?%not_elem_of_nil|]. by intros (_ & ? & ?%not_elem_of_nil & _).
  - rewrite collect_members_snoc, add_members_elem, IH, exists_snoc. naive_solver.
Qed.

End Members.

Section View.
Context {E : EC2} {RNG : MapRange} {L : EC2Laws E}.

Lemma vpc_filter_sgs vpcIDs sg : vpcIDs <> ∅ ->
  sg_matches (buildAwsEc2FilterForVpcIDOnlyMatches vpcIDs) sg -> esg_VpcId sg ∈ vpcIDs.
Proof.
  intros Hne Hm. unfold buildAwsEc2FilterForVpcIDOnlyMatches in Hm. rewrite decide_False in Hm by done.
  destruct (Hm _ ltac:(left)) as [Hv _]. specialize (Hv eq_refl). simpl in Hv. unfold sort_strings in Hv.
  by rewrite merge_sort_Permutation, elem_of_set_range in Hv.
Qed.

Lemma vpc_filter_nics vpcIDs n : vpcIDs <> ∅ ->
  nic_matches (buildAwsEc2FilterForVpcIDOnlyMatches vpcIDs) n <-> nic_VpcId n ∈ vpcIDs.
Proof.
  intros Hne. unfold nic_matches, buildAwsEc2FilterForVpcIDOnlyMatches. rewrite decide_False by done.
  setoid_rewrite list_elem_of_singleton. split.
  - intros Hm. specialize (Hm _ eq_refl eq_refl). simpl in Hm. unfold sort_strings in Hm.
    by rewrite merge_sort_Permutation, elem_of_set_range in Hm.
  - intros Hv f -> _. simpl. unfold sort_strings. by rewrite merge_sort_Permutation, elem_of_set_range.
Qed.

(** Every group the plug-in reports is a group of the controller in one of
    the account's VPCs, with its name, VPC and kind, and its members are exactly
    the interfaces of those VPCs that are attached to it. *)
Theorem cloud_view_members cfg s view s' c :
  getNepheControllerManagedSecurityGroupsCloudView cfg s = Some (inr view, s') -> c ∈ view ->
  sgs s' = sgs s /\ nics s' = nics s /\
  exists sg, sg ∈ sgs s /\ esg_VpcId sg ∈ getCachedVpcIDs cfg /\
  sc_Resource c = mkCloudResourceID (IsNepheControllerCreatedSG (esg_GroupName sg)).1.1 (esg_VpcId sg) /\
  HasPrefix (esg_GroupName sg) (if sc_MembershipOnly c then NepheControllerAddressGroupPrefix
    else NepheControllerAppliedToPrefix) = true /\
  forall r, r ∈ sc_Members c <-> exists n, n ∈ nics s /\ nic_VpcId n ∈ getCachedVpcIDs cfg /\
    attached (nic_Groups n) (esg_GroupId sg) /\ r = nic_resource n.
Proof.
  intros Hr Hc. unfold getNepheControllerManagedSecurityGroupsCloudView in Hr. case_decide as Hne.
  { apply amret_inv in Hr as [-> ->]. by apply not_elem_of_nil in Hc. }
  apply abind_inv in Hr as (o & s1 & Ho%attempt_inv & Hr). destruct o as [e|[l k]].
  { apply amret_inv in Hr as [-> ->]. by apply not_elem_of_nil in Hc. }
  apply abind_inv in Ho as (l0 & s2 & [Hl _]%api_inv & Ho). apply abind_inv in Ho as (k0 & s3 & [Hk _]%api_inv & Ho).
  apply amret_inv in Ho as [[= <- <-] ->].
  destruct (describe_nics_law _ _ _ _ Hl) as (Hs2 & Hn2 & Hl2). destruct (describe_sgs_law _ _ _ _ Hk) as (Hs3 & Hn3 & Hk3).
  specialize (Hl2 _ eq_refl). specialize (Hk3 _ eq_refl).
  destruct (getCloudSecurityGroupsByType k) as [managed unmanaged] eqn:Hm.
  destruct (collect_members managed l) as [members withOther] eqn:Hcm.
  apply amret_inv in Hr as [-> ->]. unfold sgs, nics. split; [congruence|]. split; [congruence|].
  apply list_elem_of_fmap in Hc as ([g sg] & -> & Hg%elem_of_go_range).
  pose proof (managed_lookup k g sg) as Hlook. rewrite Hm in Hlook. destruct (Hlook Hg) as (Hsg & <- & Hman).
  rewrite Hk3 in Hsg. apply list_elem_of_filter in Hsg as [Hmatch Hsg]. exists sg. rewrite Hs2 in Hsg. split; [done|].
  split; [by apply vpc_filter_sgs|]. unfold sync_content. simpl.
  assert (forall r, r ∈ default [] (members !! esg_GroupId sg) <-> exists n, n ∈ nics_of (aws_cloud s) /\
    nic_VpcId n ∈ getCachedVpcIDs cfg /\ attached (nic_Groups n) (esg_GroupId sg) /\ r = nic_resource n) as Hmem.
  { intros r. pose proof (collect_members_elem managed l (esg_GroupId sg) r) as Hx. rewrite Hcm in Hx. simpl in Hx.
    rewrite Hx. setoid_rewrite Hl2. setoid_rewrite list_elem_of_filter. setoid_rewrite vpc_filter_nics; [|done..]. naive_solver. }
  pose proof (IsNepheControllerCreatedSG_kind (esg_GroupName sg)) as Hkind. unfold managed_name in Hman.
  destruct (IsNepheControllerCreatedSG (esg_GroupName sg)) as [[nm isAG] isAT]. simpl. split; [done|]. split; [|done].
  destruct Hkind as [-> ->]. destruct (HasPrefix _ NepheControllerAddressGroupPrefix) eqn:Ep; [done|].
  by simpl in Hman.
Qed.

End View.

(** ** A rule on its way to EC2 and back *)

Lemma convertFromPort_To port proto :
  port <> Some (-1) ->
  convertFromIPPermissionPort (convertToIPPermissionPort port proto).1 (convertToIPPermissionPort port proto).2 = port.
Proof.
  destruct port as [p|]; simpl.
  - intros Hp. destruct (p =? -1) eqn:Ep; [apply Z.eqb_eq in Ep; congruence|]. by rewrite Z.eqb_refl.
  - intros _. destruct proto as [q|]; [|done]. by destruct ((q =? 6) || (q =? 17)).
Qed.

Lemma convertFromIPRange_To ips hasGroups :
  Forall block_v4 ips -> ips <> [] \/ hasGroups = true ->
  convertFromIPRange (convertToEc2IpRanges ips hasGroups) = ips.
Proof.
  intros Hb Hne. unfold convertFromIPRange, convertToEc2IpRanges.
  replace (bool_decide (ips = []) && negb hasGroups) with false; [by apply parse_printed_blocks|].
  symmetry. apply andb_false_iff. destruct Hne as [?| ->]; [left; by apply bool_decide_eq_false|by right].
Qed.

(** The group of the cloud that stands for a group of a rule. *)
Definition stands_for (managed unmanaged : gmap string Ec2SecurityGroup) (i : CloudResourceID) (g : string) : Prop :=
  exists sg, managed !! g = Some sg /\ unmanaged !! g = None /\ esg_GroupName sg = GetCloudName i true /\
    esg_VpcId sg = cid_Vpc i /\ ToLower (cid_Name i) = cid_Name i.

Lemma convertFromSecurityGroupPair_To managed unmanaged ids gs :
  Forall2 (stands_for managed unmanaged) ids gs -> convertFromSecurityGroupPair gs managed unmanaged = ids.
Proof.
  unfold convertFromSecurityGroupPair. induction 1 as [|i g ids gs (sg & Hm & Hu & Hn & Hv & Hl) _ IH]; [done|].
  simpl. rewrite Hm, Hu, Hn. unfold GetCloudName. rewrite IsNephe_AG, ToLower_idem, IH, Hv, Hl. by destruct i.
Qed.

(** How EC2 names the protocols of the permissions it stores: by name where it
    has one ([stored] of the number it was given). *)
Record protocol_names (stored : string -> string) : Prop := mk_protocol_names {
  stored_any : stored "-1" = "-1";
  stored_icmp : stored "1" = "icmp";
  stored_tcp : stored "6" = "tcp";
  stored_udp : stored "17" = "udp";
  stored_icmpv6 : stored "58" = "icmpv6"
}.

Lemma convertFromProtocol_To stored proto :
  protocol_names stored -> proto ∈ [None; Some 1; Some 6; Some 17; Some 58] ->
  convertFromIPPermissionProtocol (stored (convertToIPPermissionProtocol proto)) = proto.
Proof.
  intros [H1 H2 H3 H4 H5] Hp. repeat (apply elem_of_cons in Hp as [->|Hp]); [..|by apply not_elem_of_nil in Hp].
  - change (convertToIPPermissionProtocol None) with "-1". by rewrite H1.
  - change (convertToIPPermissionProtocol (Some 1)) with "1". by rewrite H2.
  - change (convertToIPPermissionProtocol (Some 6)) with "6". by rewrite H3.
  - change (convertToIPPermissionProtocol (Some 17)) with "17". by rewrite H4.
  - change (convertToIPPermissionProtocol (Some 58)) with "58". by rewrite H5.
Qed.

(** What EC2 stores of an ingress rule. *)
Definition stored_permission (stored : string -> string) (r : IngressRule) (gs : list string) : IpPermission :=
  mkIpPermission (convertToIPPermissionPort (ir_FromPort r) (ir_Protocol r)).1
    (convertToIPPermissionPort (ir_FromPort r) (ir_Protocol r)).2
    (stored (convertToIPPermissionProtocol (ir_Protocol r)))
    (convertToEc2IpRanges (ir_FromSrcIP r) (negb (bool_decide (ir_FromSecurityGroups r = [])))) gs.

(** C31: An ingress rule over TCP, UDP, ICMP or any protocol, with IPv4 blocks and
    groups of the controller as sources, is read back from EC2 as the same rule:
    the controller finds in the cloud what it has put there. *)
Theorem ingress_rule_roundtrip stored managed unmanaged r gs :
  protocol_names stored -> ir_Protocol r ∈ [None; Some 1; Some 6; Some 17; Some 58] -> ir_FromPort r <> Some (-1) ->
  Forall block_v4 (ir_FromSrcIP r) -> ir_FromSrcIP r <> [] \/ ir_FromSecurityGroups r <> [] ->
  Forall2 (stands_for managed unmanaged) (ir_FromSecurityGroups r) gs ->
  convertFromIPPermissionToIngressRule [stored_permission stored r gs] managed unmanaged = [r].
Proof.
  intros Hs Hp Hport Hips Hne Hgs. unfold convertFromIPPermissionToIngressRule. simpl.
  rewrite convertFromPort_To, (convertFromSecurityGroupPair_To _ _ _ _ Hgs), convertFromProtocol_To by done.
  rewrite convertFromIPRange_To; [by destruct r|done|]. destruct Hne as [?|Hn]; [by left|right].
  by rewrite bool_decide_false.
Qed.

(** A rule for SCTP, which EC2 has no name for, is read back as a rule for
    protocol 0. *)
Theorem sctp_is_not_read_back :
  convertToIPPermissionProtocol (Some 132) = "132" /\ convertFromIPPermissionProtocol "132" = Some 0.
Proof. split; reflexivity. Qed.

(** ** Sample clouds *)

#[local] Existing Instance SimEC2.
#[local] Existing Instance map_to_list_range.

Definition account : Account :=
  mkAccount "acc" (inr (mkEc2Service "acc" (Some (mkSnapshot {["vpc1"; "vpc2"]} {["vpc1" := ["vpc2"]; "vpc2" := ["vpc1"]]})))).
Definition web (vpc : string) : CloudResourceID := mkCloudResourceID "web" vpc.
Definition db : CloudResourceID := mkCloudResourceID "db" "vpc1".
Definition sg_default : Ec2SecurityGroup := mkEc2SG "sg-0" "default" "vpc1" [] [].
Definition sg_web : Ec2SecurityGroup := mkEc2SG "sg-1" (GetCloudName (web "vpc1") false) "vpc1" [any_permission] [].
Definition sg_db : Ec2SecurityGroup := mkEc2SG "sg-2" (GetCloudName db true) "vpc1" [] [].
Definition nic1 : NetworkInterface := mkNic "eni-1" "vpc1" [mkGroupIdentifier "sg-0" "default"] (Some (Some "i-1")).
Definition nic2 : NetworkInterface :=
  mkNic "eni-2" "vpc1" [mkGroupIdentifier "sg-1" (GetCloudName (web "vpc1") false)] (Some (Some "i-2")).
Definition sample : AwsState := mkAwsState (mkSim [sg_default; sg_web; sg_db] [nic1; nic2] 3 : @Cloud SimEC2) ∅.
Definition vm (name : string) : CloudResource := mkCloudResource CloudResourceTypeVM (mkCloudResourceID name "vpc1").
Definition rule_db : IngressRule := mkIngressRule (Some 80) [] [db] (Some 6).
Definition final {A} (o : option ((error + A) * AwsState)) : AwsState := match o with Some (_, s) => s | None => sample end.

Lemma sample_ok mo gid : (mo, gid) = (false, "sg-1") -> cloud_ok sample (web "vpc1") mo gid.
Proof.
  intros [= -> ->]. split.
  - apply (bool_decide_unpack _). vm_compute. exact I.
  - intros n [->|[->|?%not_elem_of_nil]%elem_of_cons]%elem_of_cons _; [| |done]; apply (bool_decide_unpack _); vm_compute; exact I.
  - intros n [->|[->|?%not_elem_of_nil]%elem_of_cons]%elem_of_cons _ g; [| |done];
      intros ->%list_elem_of_singleton; split; done.
  - intros sg [->|[->|[->|?%not_elem_of_nil]%elem_of_cons]%elem_of_cons]%elem_of_cons _; done.
  - intros d [?|(sg & [->|[->|[->|?%not_elem_of_nil]%elem_of_cons]%elem_of_cons]%elem_of_cons & _ & Hn & <-)]; done.
Qed.

Lemma UpdateSecurityGroupMembers_realizes_witness :
  Forall2 (member_after (web "vpc1") "sg-1" [vm "i-1"]) (nics sample)
    (nics (final (UpdateSecurityGroupMembers [account] (web "vpc1") [vm "i-1"] false sample))).
Proof.
  refine (proj2 (UpdateSecurityGroupMembers_realizes [account] sample (web "vpc1") [vm "i-1"] false "sg-1" _
    (sample_ok _ _ eq_refl) _)). vm_compute. reflexivity.
Defined.

Lemma DeleteSecurityGroup_realizes_witness :
  let s' := final (DeleteSecurityGroup [account] (web "vpc1") false sample) in
  (~ group_exists sample (web "vpc1") false /\ sgs s' = sgs sample /\ nics s' = nics sample) \/
  (sgs s' = filter (fun sg => esg_GroupId sg <> "sg-1") (sgs sample) /\
   forall n, n ∈ nics s' -> nic_VpcId n = "vpc1" -> is_Some (mjoin (nic_Attachment n)) -> ~ attached (nic_Groups n) "sg-1").
Proof.
  refine (DeleteSecurityGroup_realizes [account] sample (web "vpc1") false "sg-1" _ (sample_ok _ _ eq_refl) _).
  vm_compute. reflexivity.
Defined.


Lemma CreateSecurityGroup_realizes_witness :
  exists sg, sg ∈ sgs (final (CreateSecurityGroup [account] (mkCloudResourceID "app" "vpc1") true sample)) /\
    esg_VpcId sg = "vpc1" /\ esg_GroupName sg = GetCloudName (mkCloudResourceID "app" "vpc1") true /\ esg_GroupId sg = "sg-3".
Proof.
  refine (proj1 (CreateSecurityGroup_realizes [account] sample (mkCloudResourceID "app" "vpc1") true "sg-3" _ _)).
  vm_compute. reflexivity.
Defined.

Definition the_view : list SynchronizationContent :=
  match getNepheControllerManagedSecurityGroupsCloudView (mkEc2Service "acc" (Some (mkSnapshot {["vpc1"]} ∅))) sample with
  | Some (inr v, _) => v | _ => [] end.

Lemma cloud_view_members_witness :
  exists c sg, c ∈ the_view /\ sg ∈ sgs sample /\
    sc_Resource c = mkCloudResourceID (IsNepheControllerCreatedSG (esg_GroupName sg)).1.1 (esg_VpcId sg).
Proof.
  assert (exists c, the_view !! 0%nat = Some c) as [c Hc] by (eexists; vm_compute; reflexivity).
  apply list_elem_of_lookup_2 in Hc.
  destruct (cloud_view_members (mkEc2Service "acc" (Some (mkSnapshot {["vpc1"]} ∅))) sample the_view sample c)
    as (_ & _ & sg & H1 & _ & H2 & _); [vm_compute; reflexivity|exact Hc|].
  exists c, sg. split; [exact Hc|]. split; [exact H1|exact H2].
Defined.

Definition ec2_names (p : string) : string :=
  if decide (p = "1") then "icmp" else if decide (p = "6") then "tcp" else if decide (p = "17") then "udp"
  else if decide (p = "58") then "icmpv6" else p.

Lemma ingress_rule_roundtrip_witness :
  convertFromIPPermissionToIngressRule
    [stored_permission ec2_names (mkIngressRule (Some 80) [mkIPNet [10; 0; 0; 0] (CIDRMask 16 32)] [db] (Some 6)) ["sg-2"]]
    {["sg-2" := sg_db]} ∅ = [mkIngressRule (Some 80) [mkIPNet [10; 0; 0; 0] (CIDRMask 16 32)] [db] (Some 6)].
Proof.
  apply ingress_rule_roundtrip.
  - split; reflexivity.
  - right. right. left.
  - discriminate.
  - repeat constructor. exists 10, 0, 0, 0, 16. repeat split; discriminate.
  - left. discriminate.
  - repeat constructor. exists sg_db. repeat split.
Defined.

(** Two peered VPCs, each with its own security group for the same appliedTo
    group. *)
Definition sg_web2 : Ec2SecurityGroup := mkEc2SG "sg-9" (GetCloudName (web "vpc2") false) "vpc2" [] [].
Definition peered : AwsState := mkAwsState (mkSim [sg_web; sg_db; sg_web2] [] 10 : @Cloud SimEC2) ∅.

(** With peered VPCs, the groups of one appliedTo group in the two VPCs have
    the same name, and the plug-in looks groups up by name in both: the rules of
    the group in one VPC are set on the group of the other one, and its own group
    keeps its old rules. *)
Theorem rules_reach_the_peer_group :
  match UpdateSecurityGroupRules [account] (web "vpc1") [rule_db] [] peered with
  | Some (inr tt, s') =>
      map (fun sg => (esg_GroupId sg, esg_VpcId sg, esg_IpPermissions sg)) (sgs s') =
      [("sg-1", "vpc1", [any_permission]); ("sg-2", "vpc1", []);
       ("sg-9", "vpc2", [mkIpPermission (Some 80) (Some 80) "6" [] ["sg-2"]])]
  | _ => False
  end.
Proof. vm_compute. reflexivity. Qed.
