(* ===== verification/Enforcement.v ===== *)
(** * From group events to EC2

    The reconciler and the AWS plug-in together: the requests the reconciler makes
    are served by the plug-in ([aws_serve]), and what they leave in EC2 is what the
    reconciler knows of its groups. *)

From stdpp Require Import base strings list gmap.
From Stdlib Require Import ZArith.
From S2P Require Import Prelude GoStrings GoNet SecurityGroup NPState NPGroups NPController NPInvariants NPMembers NPTheorems NPHistory.
From S2P Require Import AwsModel AwsSecurity AwsTheorems AwsLaws AwsView.

#[local] Open Scope string_scope.

Section Enforcement.
Context {IXC : CacheIndexer} {RNG : MapRange} {E : EC2} {L : EC2Laws E}.

(** A request of the reconciler, served by the plug-in. *)
Definition aws_serve (accounts : list Account) (q : CloudRequest) : AM unit :=
  match q with
  | NPState.CreateSecurityGroup id mo => CreateSecurityGroup accounts id mo;; mret tt
  | NPState.DeleteSecurityGroup id mo => DeleteSecurityGroup accounts id mo
  | NPState.UpdateSecurityGroupMembers id ms mo => UpdateSecurityGroupMembers accounts id ms mo
  | NPState.UpdateSecurityGroupRules id ing eg => UpdateSecurityGroupRules accounts id ing eg
  end.

(** The last of the requests for members, found at a place of the log. *)
Lemma last_members_request_at l pre c post ms op :
  member_request l c = Some (ms, op) -> (forall c', c' ∈ post -> member_request l c' = None) ->
  last_members_request l (pre ++ c :: post)%list = Some (ms, op).
Proof.
  intros Hc Hpost. change (c :: post)%list with ([c] ++ post)%list. rewrite app_assoc.
  rewrite last_members_request_other by done. unfold last_members_request. rewrite omap_app'. csimpl.
  rewrite Hc. by rewrite last_snoc.
Qed.


End Enforcement.

(** ** A sample

    The members of the group of [grown] in an account where the first machine is
    not yet in the group and a third one still is. *)

#[local] Existing Instance map_indexer.
#[local] Existing Instance map_to_list_range.
#[local] Existing Instance SimEC2.

Definition ag_id : CloudResourceID := mkCloudResourceID "ag" "vpc1".
Definition sg_ag : Ec2SecurityGroup := mkEc2SG "sg-9" (GetCloudName ag_id true) "vpc1" [] [].
Definition ag_nic (id instance : string) (groups : list GroupIdentifier) : NetworkInterface :=
  mkNic id "vpc1" groups (Some (Some instance)).
Definition ag_cloud : AwsState :=
  mkAwsState (mkSim [sg_default; sg_ag]
    [ag_nic "eni-1" "id-vm1" [mkGroupIdentifier "sg-0" "default"];
     ag_nic "eni-2" "id-vm2" [mkGroupIdentifier "sg-9" (GetCloudName ag_id true)];
     ag_nic "eni-3" "id-vm3" [mkGroupIdentifier "sg-9" (GetCloudName ag_id true)]] 3 : @Cloud SimEC2) ∅.

Lemma ag_cloud_ok : cloud_ok ag_cloud ag_id true "sg-9".
Proof.
  split.
  - apply (bool_decide_unpack _). vm_compute. exact I.
  - intros n [->|[->|[->|?%not_elem_of_nil]%elem_of_cons]%elem_of_cons]%elem_of_cons _; [| | |done];
      apply (bool_decide_unpack _); vm_compute; exact I.
  - intros n [->|[->|[->|?%not_elem_of_nil]%elem_of_cons]%elem_of_cons]%elem_of_cons _ g; [| | |done];
      intros ->%list_elem_of_singleton; split; done.
  - intros sg [->|[->|?%not_elem_of_nil]%elem_of_cons]%elem_of_cons _; done.
  - intros d [?|(sg & [->|[->|?%not_elem_of_nil]%elem_of_cons]%elem_of_cons & _ & Hn & <-)]; done.
Qed.

Definition grown_request : CloudCall :=
  mkCall 1%positive (NPState.UpdateSecurityGroupMembers ag_id (sg_members grown_group) true) ReportByMembers.

Definition ag_cloud_after : AwsState := final (aws_serve [account] (call_req grown_request) ag_cloud).

Lemma grown_request_served : aws_serve [account] (call_req grown_request) ag_cloud = Some (inr tt, ag_cloud_after).
Proof. vm_compute. reflexivity. Qed.

