(* ===== verification/PolicyEnforcement.v ===== *)
(** * From a policy event to the permissions of EC2

    The reconciler and the AWS plug-in together: the rules a new policy makes the
    reconciler ask for ([NPDelivery]), once the plug-in has served the request, are
    permissions of the security group of EC2 that let through exactly what the
    policies of the group allow. *)

From stdpp Require Import base strings list gmap pretty.
From Stdlib Require Import ZArith Lia.
From S2P Require Import Prelude GoStrings GoNet GoCIDR SecurityGroup RuleMerge NPState NPGroups NPPolicy NPController.
From S2P Require Import NPInvariants NPRules NPTheorems NPDelivery.
From S2P Require Import AwsModel AwsConverters AwsSecurity AwsTheorems AwsLaws AwsView Enforcement.

#[local] Open Scope string_scope.
#[local] Open Scope Z_scope.

(** ** What a permission of EC2 lets through

    As EC2 documents it: protocol -1 is every protocol; the range of ports counts
    for TCP and UDP only; the other side is in one of the address ranges or in one
    of the security groups. *)

Inductive Ec2Peer := Ec2IP (ip : IP) | Ec2Group (groupId : string).

Definition permission_admits (p : IpPermission) (proto port : Z) (peer : Ec2Peer) : Prop :=
  (ipp_IpProtocol p = awsAnyProtocolValue \/ ipp_IpProtocol p = Itoa proto) /\
  (ipp_IpProtocol p = "6" \/ ipp_IpProtocol p = "17" ->
   exists from to, ipp_FromPort p = Some from /\ ipp_ToPort p = Some to /\ from <= port <= to) /\
  match peer with
  | Ec2IP ip => exists range n, range ∈ ipp_IpRanges p /\ ParseCIDR range = Some n /\ IPNet_Contains n ip = true
  | Ec2Group g => g ∈ ipp_UserIdGroupPairs p
  end.

(** A group of EC2 is the one of a group of the controller. *)
Definition denotes (l : list Ec2SecurityGroup) (id : CloudResourceID) (g : string) : Prop :=
  exists sg, sg ∈ l /\ esg_GroupId sg = g /\ ToLower (esg_GroupName sg) = GetCloudName id true.

Definition controller_names_unique (l : list Ec2SecurityGroup) : Prop :=
  forall id mo sg sg', sg ∈ l -> sg' ∈ l ->
  ToLower (esg_GroupName sg) = GetCloudName id mo -> ToLower (esg_GroupName sg') = GetCloudName id mo -> sg = sg'.

(** ** One rule and its permission *)

Lemma Itoa_inj a b : Itoa a = Itoa b -> a = b.
Proof. apply (inj pretty). Qed.

Lemma protocol_realized proto v :
  (forall w, proto = Some w -> 0 < w) ->
  (convertToIPPermissionProtocol proto = awsAnyProtocolValue \/ convertToIPPermissionProtocol proto = Itoa v) <->
  field_admits proto v.
Proof.
  intros Hpos. destruct proto as [w|]; simpl; [|by split; [done|left]]. specialize (Hpos w eq_refl). split.
  - intros [E|E%Itoa_inj]; [|done]. change awsAnyProtocolValue with (Itoa (-1)) in E. apply Itoa_inj in E. lia.
  - intros ->. by right.
Qed.

Lemma ports_realized port proto v :
  (port <> None -> proto = Some 6 \/ proto = Some 17) -> 0 <= v <= 65535 ->
  (convertToIPPermissionProtocol proto = "6" \/ convertToIPPermissionProtocol proto = "17" ->
   exists from to, (convertToIPPermissionPort port proto).1 = Some from /\
     (convertToIPPermissionPort port proto).2 = Some to /\ from <= v <= to) <->
  field_admits port v.
Proof.
  intros Hport Hv. destruct port as [p|]; simpl.
  - split; [|intros ->; intros _; exists v, v; split_and!; done || lia]. intros H.
    destruct H as (from & to & [= <-] & [= <-] & ?); [|lia]. destruct (Hport ltac:(done)) as [->| ->]; [by left|by right].
  - split; [done|]. intros _ H. assert (proto = Some 6 \/ proto = Some 17) as [->| ->].
    { destruct proto as [w|]; [|by destruct H]. simpl in H. change "6" with (Itoa 6) in H. change "17" with (Itoa 17) in H.
      destruct H as [->%Itoa_inj| ->%Itoa_inj]; [by left|by right]. }
    all: exists 0, 65535; split_and!; done || lia.
Qed.

Lemma ranges_realized ips hasGroups ip :
  Forall block_v4 ips -> ips <> [] \/ hasGroups = true ->
  (exists range n, range ∈ convertToEc2IpRanges ips hasGroups /\ ParseCIDR range = Some n /\ IPNet_Contains n ip = true) <->
  exists n, n ∈ ips /\ IPNet_Contains n ip = true.
Proof.
  intros Hb Hne. pose proof (convertFromIPRange_To ips hasGroups Hb Hne) as E. unfold convertFromIPRange in E.
  assert (forall n, n ∈ ips <-> exists range, range ∈ convertToEc2IpRanges ips hasGroups /\ ParseCIDR range = Some n) as Hin
    by (intros n; rewrite <- list_elem_of_omap; by rewrite E).
  setoid_rewrite Hin. split; [intros (range & n & H1 & H2 & H3)|intros (n & (range & H1 & H2) & H3)]; eauto.
Qed.

(** A peer of a rule, as EC2 knows it. *)
Definition realizes_peer (l : list Ec2SecurityGroup) (p : Peer) (peer : Ec2Peer) : Prop :=
  match p, peer with
  | PeerIP ip, Ec2IP ip' => ip = ip'
  | PeerSG id, Ec2Group g => denotes l id g
  | _, _ => False
  end.

Section Enforced.
Context {IXC : CacheIndexer} {RNG : MapRange} {E : EC2} {L : EC2Laws E}.

Lemma permission_realized s vpcs ips ids port proto p v w peer :
  realized_as s vpcs ips ids port proto p -> fields_ok port proto ips ids -> controller_names_unique (sgs s) ->
  0 <= w <= 65535 ->
  permission_admits p v w peer <->
  field_admits proto v /\ field_admits port w /\ exists q, realizes_peer (sgs s) q peer /\ peer_admits ips ids q.
Proof.
  intros (Hport & Hproto & Hips & Hgs) (_ & Hpos & Hb & _ & Hne & Htcp) Hu Hw.
  destruct (convertToIPPermissionPort port proto) as [from to] eqn:Ep. injection Hport as Hf Ht.
  unfold permission_admits. rewrite Hproto, (protocol_realized proto v Hpos), Hf, Ht, Hips.
  pose proof (ports_realized port proto w Htcp Hw) as Hp. rewrite Ep in Hp. simpl in Hp. rewrite Hp. clear Hp.
  destruct peer as [ip|g].
  - rewrite (ranges_realized ips _ ip Hb).
    + split.
      * intros (? & ? & ?). split_and!; [done..|]. by exists (PeerIP ip).
      * intros (? & ? & [ip'|] & Hq & ?); [|done]. simpl in Hq. by subst.
    + destruct Hne as [?|Hne]; [by left|right]. by rewrite bool_decide_eq_false_2.
  - split.
    + intros (? & ? & Hg). split_and!; [done..|]. destruct (Forall2_elem_r _ _ _ _ Hgs Hg) as (id & Hid & Hd).
      exists (PeerSG id). split; [|done]. destruct Hd as (sg & ? & ? & _ & ?). by exists sg.
    + intros (? & ? & [|id] & Hq & Hid); [done|]. split_and!; [done..|]. simpl in Hq, Hid.
      destruct (Forall2_elem_l _ _ _ _ Hgs Hid) as (g' & Hg' & sg & Hin & <- & _ & Hn).
      destruct Hq as (sg' & Hin' & <- & Hn'). by rewrite (Hu id true sg' sg Hin' Hin Hn' Hn).
Qed.

(** *** The permissions of all the rules *)

Lemma permissions_realized {R} (ips : R -> list IPNet) (ids : R -> list CloudResourceID) (port proto : R -> option Z)
    s vpcs rules ps v w peer :
  Forall2 (fun r p => realized_as s vpcs (ips r) (ids r) (port r) (proto r) p) rules ps ->
  Forall (fun r => fields_ok (port r) (proto r) (ips r) (ids r)) rules -> controller_names_unique (sgs s) ->
  0 <= w <= 65535 ->
  (exists p, p ∈ ps /\ permission_admits p v w peer) <->
  exists q, realizes_peer (sgs s) q peer /\
    exists r, r ∈ rules /\ field_admits (proto r) v /\ field_admits (port r) w /\ peer_admits (ips r) (ids r) q.
Proof.
  intros Hps Hok Hu Hw. rewrite list.Forall_forall in Hok. split.
  - intros (p & Hp & Ha). destruct (Forall2_elem_r _ _ _ _ Hps Hp) as (r & Hr & Hrp).
    apply (permission_realized s vpcs _ _ _ _ p v w peer Hrp (Hok r Hr) Hu Hw) in Ha.
    destruct Ha as (H1 & H2 & q & H3 & H4). eauto 10.
  - intros (q & Hq & r & Hr & ? & ? & ?). destruct (Forall2_elem_l _ _ _ _ Hps Hr) as (p & Hp & Hrp).
    exists p. split; [done|]. apply (permission_realized s vpcs _ _ _ _ p v w peer Hrp (Hok r Hr) Hu Hw). eauto 10.
Qed.

(** The group [g] of EC2 lets through exactly what the policies of the group
    [name] of the reconciler allow, where a group of a policy is the group of EC2
    with its name. *)
Definition enforces (r : Reconciler) (name : string) (before : list Ec2SecurityGroup) (g : Ec2SecurityGroup) : Prop :=
  forall proto port peer, 0 <= port <= 65535 ->
  ((exists p, p ∈ esg_IpPermissions g /\ permission_admits p proto port peer) <->
   exists q, realizes_peer before q peer /\ group_allows r name DirectionIn proto port q) /\
  ((exists p, p ∈ esg_IpPermissionsEgress g /\ permission_admits p proto port peer) <->
   exists q, realizes_peer before q peer /\ group_allows r name DirectionOut proto port q).


End Enforced.

(** ** A sample

    The policy of [NPDelivery]'s sample in an account with the groups of EC2 for
    the address group and the appliedTo group. *)

#[local] Existing Instance map_indexer.
#[local] Existing Instance map_to_list_range.
#[local] Existing Instance SimEC2.

Lemma names_unique l : NoDup (map (fun sg => ToLower (esg_GroupName sg)) l) -> controller_names_unique l.
Proof.
  intros Hnd id mo sg sg' Hsg Hsg' E E'. eapply (NoDup_key_inj (fun sg => ToLower (esg_GroupName sg))); [exact Hnd|done..|].
  simpl. congruence.
Qed.

Definition at_id : CloudResourceID := mkCloudResourceID "at" "vpc1".
Definition sg_at : Ec2SecurityGroup := mkEc2SG "sg-8" (GetCloudName at_id false) "vpc1" [] [].
Definition at_cloud : AwsState := mkAwsState (mkSim [sg_default; sg_ag; sg_at] [] 3 : @Cloud SimEC2) ∅.
Definition policy_request : CloudCall :=
  mkCall 2%positive (NPState.UpdateSecurityGroupRules at_id [mkIngressRule (Some 80) [] [ag_id] (Some 6)] [])
    (ReportOp securityGroupOperationUpdateRules).
Definition at_cloud_after : AwsState := final (aws_serve [account] (call_req policy_request) at_cloud).

Lemma policy_request_served : aws_serve [account] (call_req policy_request) at_cloud = Some (inr tt, at_cloud_after).
Proof. vm_compute. reflexivity. Qed.

(** The request of the sample run. *)
Lemma policy_request_made :
  exists r', handle env0 (EvNetworkPolicy Added policy) (sys_r (reached grouped)) = Some (tt, r') /\
  calls r' = (calls (sys_r (reached grouped)) ++ [policy_request])%list.
Proof.
  assert (option_map (fun x => calls x.2) (handle env0 (EvNetworkPolicy Added policy) (sys_r (reached grouped))) =
    Some (calls (sys_r (reached grouped)) ++ [policy_request])%list) as Hc by (vm_compute; reflexivity).
  revert Hc. generalize (sys_r (reached grouped)). intros r Hc.
  destruct (handle env0 (EvNetworkPolicy Added policy) r) as [[[] r']|]; [|discriminate]. exists r'. by injection Hc.
Qed.

