(* ===== verification/Selector.v ===== *)
(** * Selecting virtual machines

    A [CloudEntitySelector] tells which virtual machines of an account are
    imported.  Modelled are its admission webhook
    ([src/apis/crd/v1alpha1/cloudentityselector_webhook.go]) and the EC2 filters
    the AWS plug-in makes of it ([aws_filter_helpers.go], [aws_ec2.go]). *)

From stdpp Require Import base strings list gmap sorting.
From Stdlib Require Import ZArith Lia.
From S2P Require Import Prelude GoStrings AwsModel AwsConverters.

#[local] Open Scope string_scope.

(** ** Selectors *)

Record EntityMatch := mkMatch { MatchName : string; MatchID : string }.
Record VirtualMachineSelector := mkSelector { VpcMatch : option EntityMatch; VMMatch : list EntityMatch }.

(** A [CloudEntitySelector]: its account, selectors, and whether it has an
    owner reference. *)
Record CloudEntitySelector := mkCES {
  ces_namespace : string;
  ces_name : string;
  ces_AccountName : string;
  ces_VMSelector : list VirtualMachineSelector;
  ces_hasOwner : bool
}.

Inductive CloudProvider := AWSCloudProvider | AzureCloudProvider.
#[export] Instance CloudProvider_eq_dec : EqDecision CloudProvider.
Proof. solve_decision. Defined.

(** The spec of a [CloudProviderAccount]: which provider configurations it has. *)
Record AccountSpec := mkAccountSpec { as_AWSConfig : bool; as_AzureConfig : bool }.

Definition GetAccountProviderType (a : AccountSpec) : error + CloudProvider :=
  if as_AWSConfig a then inr AWSCloudProvider
  else if as_AzureConfig a then inr AzureCloudProvider
  else inl "missing cloud provider config. Please add AWS or Azure Config".

(** [len(strings.TrimSpace(s)) > 0]. *)
Definition given (s : string) : bool := negb (bool_decide (TrimSpace s = "")).

(** ** The webhook

    [owner] is what the client returns for the account of the selector, [others]
    what it lists of the selectors of the namespace. *)

Definition has_both (m : EntityMatch) : bool := given (MatchID m) && given (MatchName m).
Definition vpc_name_given (s : VirtualMachineSelector) : bool :=
  match VpcMatch s with Some v => given (MatchName v) | None => false end.

Definition both_error : error :=
  "matchID and matchName are not supported together, configure either matchID or matchName in an EntityMatch".

(** First loop of [validateMatchSections]. *)
Fixpoint check_both (l : list VirtualMachineSelector) : option error :=
  match l with
  | [] => None
  | m :: l =>
      if match VpcMatch m with Some v => has_both v | None => false end then Some both_error
      else if existsb has_both (VMMatch m) then Some both_error
      else check_both l
  end.

Definition validateMatchSections (owner : error + AccountSpec) (l : list VirtualMachineSelector) : option error :=
  match check_both l with
  | Some e => Some e
  | None =>
      match owner with
      | inl e => Some e
      | inr a =>
          match GetAccountProviderType a with
          | inl e => Some e
          | inr AzureCloudProvider =>
              if existsb vpc_name_given l
              then Some "matchName is not supported in vpcMatch, use matchID instead of matchName" else None
          | inr AWSCloudProvider =>
              if existsb (fun m => vpc_name_given m && existsb (fun v => given (MatchID v) || given (MatchName v)) (VMMatch m)) l
              then Some "vpc matchName with either vm matchID or vm matchName is not supported, use vpc matchID instead of vpc matchName"
              else None
          end
      end
  end.

Definition conflict_error (r item : CloudEntitySelector) : error :=
  "cloudentityselector " +:+ ces_namespace r +:+ "/" +:+ ces_name item +:+ " with owner as account " +:+
  ces_namespace r +:+ "/" +:+ ces_AccountName r +:+ " already exists." +:+
  "(account in a namespace can be owner of only one cloudentityselector)".

Definition validateNoOwnerConflict (others : error + list CloudEntitySelector) (r : CloudEntitySelector) : option error :=
  match others with
  | inl e => Some e
  | inr items =>
      conflict_error r <$> find (fun item => bool_decide (TrimSpace (ces_AccountName item) = TrimSpace (ces_AccountName r))) items
  end.

Definition ValidateCreate (owner : error + AccountSpec) (others : error + list CloudEntitySelector) (r : CloudEntitySelector) :
    option error :=
  if negb (ces_hasOwner r) then Some ("owner account " +:+ ces_AccountName r +:+ " not found")
  else match validateNoOwnerConflict others r with
       | Some e => Some e
       | None => validateMatchSections owner (ces_VMSelector r)
       end.

Definition ValidateUpdate (owner : error + AccountSpec) (old r : CloudEntitySelector) : option error :=
  if decide (TrimSpace (ces_AccountName old) = TrimSpace (ces_AccountName r))
  then validateMatchSections owner (ces_VMSelector r)
  else Some ("account name update not allowed (old:" +:+ TrimSpace (ces_AccountName old) +:+ ", new:" +:+
             TrimSpace (ces_AccountName r) +:+ ")").

(** [Default].  The selectors are lowered through the pointer [VpcMatch]; the
    entries of [VMMatch] are lowered in a copy the loop variable holds. *)
Definition lower_vpc (s : VirtualMachineSelector) : VirtualMachineSelector :=
  mkSelector ((fun v => mkMatch (ToLower (MatchName v)) (ToLower (MatchID v))) <$> VpcMatch s) (VMMatch s).

Definition Default (owner : error + AccountSpec) (setOwner : bool) (r : CloudEntitySelector) : CloudEntitySelector :=
  match owner with
  | inl _ => r
  | inr a =>
      match GetAccountProviderType a with
      | inl _ => r
      | inr p =>
          mkCES (ces_namespace r) (ces_name r) (ces_AccountName r)
            (if decide (p = AzureCloudProvider) then map lower_vpc (ces_VMSelector r) else ces_VMSelector r)
            (ces_hasOwner r || setOwner)
      end
  end.

(** ** EC2 filters *)

Definition awsFilterKeyVMID : string := "instance-id".
Definition awsFilterKeyVMName : string := "tag:Name".
Definition awsFilterKeyInstanceState : string := "instance-state-code".
Definition awsCustomFilterKeyVPCName : string := "vpc-name".

Definition buildEc2FilterForValidInstanceStates : Filter :=
  mkFilter awsFilterKeyInstanceState ["16"; "32"; "80"; "64"].

(** What [buildEc2Filters] sorts the selectors into. *)
Record Matches := mkMatches {
  vpcIDOnly : gset string;
  vpcIDWithOther : list VirtualMachineSelector;
  vmIDOnly : list EntityMatch;
  vmNameOnly : list EntityMatch;
  vpcNameOnly : list VirtualMachineSelector
}.

Definition vpc_id (s : VirtualMachineSelector) : string := match VpcMatch s with Some v => MatchID v | None => "" end.
Definition vpc_name (s : VirtualMachineSelector) : string := match VpcMatch s with Some v => MatchName v | None => "" end.
Definition vpc_id_given (s : VirtualMachineSelector) : bool :=
  match VpcMatch s with Some v => given (MatchID v) | None => false end.

(** Loop over the [VMMatch] of one selector. *)
Fixpoint sort_vm_matches (s : VirtualMachineSelector) (l : list EntityMatch) (acc : Matches) : Matches :=
  match l with
  | [] => acc
  | m :: l =>
      if vpc_id_given s && (given (MatchID m) || given (MatchName m)) then
        if decide (vpc_id s ∈ vpcIDOnly acc) then acc
        else mkMatches (vpcIDOnly acc) (vpcIDWithOther acc ++ [s]) (vmIDOnly acc) (vmNameOnly acc) (vpcNameOnly acc)
      else
        let acc := if given (MatchID m) && negb (given (MatchName m)) && negb (vpc_id_given s)
          then mkMatches (vpcIDOnly acc) (vpcIDWithOther acc) (vmIDOnly acc ++ [m]) (vmNameOnly acc) (vpcNameOnly acc) else acc in
        let acc := if given (MatchName m) && negb (given (MatchID m)) && negb (vpc_id_given s)
          then mkMatches (vpcIDOnly acc) (vpcIDWithOther acc) (vmIDOnly acc) (vmNameOnly acc ++ [m]) (vpcNameOnly acc) else acc in
        sort_vm_matches s l acc
  end.

(** Loop over the selectors; [None] when one of them selects everything. *)
Fixpoint sort_selectors (l : list VirtualMachineSelector) (acc : Matches) : option Matches :=
  match l with
  | [] => Some acc
  | s :: l =>
      if negb (vpc_id_given s) && bool_decide (VMMatch s = []) && negb (vpc_name_given s) then None
      else
        let acc := if vpc_id_given s && bool_decide (VMMatch s = [])
          then mkMatches ({[vpc_id s]} ∪ vpcIDOnly acc) (vpcIDWithOther acc) (vmIDOnly acc) (vmNameOnly acc) (vpcNameOnly acc)
          else acc in
        let acc := if vpc_name_given s && bool_decide (VMMatch s = []) && negb (vpc_id_given s)
          then mkMatches (vpcIDOnly acc) (vpcIDWithOther acc) (vmIDOnly acc) (vmNameOnly acc) (vpcNameOnly acc ++ [s])
          else acc in
        sort_selectors l (sort_vm_matches s (VMMatch s) acc)
  end.

Definition buildAwsEc2FilterForVpcIDWithOtherMatches (l : list VirtualMachineSelector) (vpcOnly : gset string) : list (list Filter) :=
  flat_map (fun s =>
    if decide (vpc_id s ∈ vpcOnly) then []
    else map (fun m =>
      ([mkFilter awsFilterKeyVPCID [vpc_id s]] ++
       (if given (MatchID m) then [mkFilter awsFilterKeyVMID [MatchID m]] else []) ++
       (if given (MatchName m) then [mkFilter awsFilterKeyVMName [MatchName m]] else []) ++
       [buildEc2FilterForValidInstanceStates])%list) (VMMatch s)) l.

(** The filters for a list of values of one attribute; none for no value. *)
Definition filters_of_values (key : string) (values : list string) : list (list Filter) :=
  if decide (values = []) then []
  else [[mkFilter key (sort_strings values); buildEc2FilterForValidInstanceStates]].

Definition buildAwsEc2FilterForVMIDOnlyMatches (l : list EntityMatch) : list (list Filter) :=
  filters_of_values awsFilterKeyVMID (map MatchID l).
Definition buildAwsEc2FilterForVMNameOnlyMatches (l : list EntityMatch) : list (list Filter) :=
  filters_of_values awsFilterKeyVMName (map MatchName l).
Definition buildAwsEc2FilterForVPCNameOnlyMatches (l : list VirtualMachineSelector) : list (list Filter) :=
  filters_of_values awsCustomFilterKeyVPCName (map vpc_name l).

Section Filters.
Context {RNG : MapRange}.

(** [buildEc2Filters]: alternatives, each a list of filters joined by and; the
    empty list (nil) stands for no restriction. *)
Definition buildEc2Filters (vmSelector : list VirtualMachineSelector) : list (list Filter) :=
  match sort_selectors vmSelector (mkMatches ∅ [] [] [] []) with
  | None => []
  | Some ms =>
      (match buildAwsEc2FilterForVpcIDOnlyMatches (vpcIDOnly ms) with
       | [] => []
       | fs => [fs ++ [buildEc2FilterForValidInstanceStates]]
       end ++
       buildAwsEc2FilterForVpcIDWithOtherMatches (vpcIDWithOther ms) (vpcIDOnly ms) ++
       buildAwsEc2FilterForVMIDOnlyMatches (vmIDOnly ms) ++
       buildAwsEc2FilterForVMNameOnlyMatches (vmNameOnly ms) ++
       buildAwsEc2FilterForVPCNameOnlyMatches (vpcNameOnly ms))%list
  end.

(** [convertSelectorToEC2InstanceFilters]; nil and empty selector lists are the
    same here. *)
Definition convertSelectorToEC2InstanceFilters (selector : option CloudEntitySelector) : list (list Filter) * bool :=
  match selector with
  | None => ([], false)
  | Some s => (buildEc2Filters (ces_VMSelector s), true)
  end.

(** [getInstanceResourceFilters]: the filters of all selectors; one without
    filters overrides the others. *)
Definition getInstanceResourceFilters (instanceFilters : gmap string (list (list Filter))) : list (list Filter) * bool :=
  if decide (instanceFilters = ∅) then ([], false)
  else
    let fss := map snd (go_range instanceFilters) in
    if existsb (fun fs => bool_decide (fs = [])) fss then ([], true) else (concat fss, true).

(** [SetResourceFilters], on the filters it keeps; true when the snapshot is
    dropped. *)
Definition SetResourceFilters (selector : option CloudEntitySelector) (instanceFilters : gmap string (list (list Filter))) :
    gmap string (list (list Filter)) * bool :=
  match convertSelectorToEC2InstanceFilters selector with
  | (filters, true) =>
      (match selector with Some s => <[ces_name s := filters]> instanceFilters | None => instanceFilters end, false)
  | (_, false) => (match selector with Some s => delete (ces_name s) instanceFilters | None => instanceFilters end, true)
  end.

Definition buildFilterForVPCIDFromFilterForVPCName (fs : list Filter) (vpcNameToID : gmap string string) : list Filter :=
  if decide (fs = []) then []
  else
    let vpcIDs := flat_map (fun f => if decide (f_Name f = awsFilterKeyInstanceState) then []
                                     else map (fun n => default "" (vpcNameToID !! n)) (f_Values f)) fs in
    [mkFilter awsFilterKeyVPCID (sort_strings vpcIDs); buildEc2FilterForValidInstanceStates].

(** The requests [getInstances] makes: one per alternative. *)
Definition instance_requests (instanceFilters : gmap string (list (list Filter))) (vpcNameToID : gmap string string) :
    list (list Filter) :=
  match getInstanceResourceFilters instanceFilters with
  | ([], _) => [[buildEc2FilterForValidInstanceStates]]
  | (fss, _) =>
      map (fun fs => match fs with
                     | f :: _ => if decide (f_Name f = awsCustomFilterKeyVPCName)
                                 then buildFilterForVPCIDFromFilterForVPCName fs vpcNameToID else fs
                     | [] => fs
                     end) fss
  end.

End Filters.
