(* ===== verification/SelectorTheorems.v ===== *)
(** * Selecting virtual machines: theorems

    The EC2 requests made for a selector the webhook admits return exactly the
    instances the selector describes. *)

From stdpp Require Import base strings list gmap sorting.
From Stdlib Require Import ZArith Lia.
From S2P Require Import Prelude GoStrings AwsModel AwsConverters Selector.

#[local] Open Scope string_scope.

Lemma existsb_false {A} (f : A -> bool) l : existsb f l = false <-> forall x, x ∈ l -> f x = false.
Proof.
  induction l as [|x l IH]; simpl; [split; [by intros _ ? ?%not_elem_of_nil|done]|].
  rewrite orb_false_iff, IH. setoid_rewrite elem_of_cons. naive_solver.
Qed.

(** An EC2 instance: the attributes the filters look at. *)
Record Ec2Instance := mkInstance {
  ins_id : string;
  ins_vpc : string;
  ins_name : option string;
  ins_state : string
}.

Definition attribute (i : Ec2Instance) (key : string) : option string :=
  if decide (key = awsFilterKeyVPCID) then Some (ins_vpc i)
  else if decide (key = awsFilterKeyVMID) then Some (ins_id i)
  else if decide (key = awsFilterKeyVMName) then ins_name i
  else if decide (key = awsFilterKeyInstanceState) then Some (ins_state i)
  else None.

Lemma range_one {RNG : MapRange} (k : string) (fss : list (list Filter)) : map snd (go_range {[k := fss]}) = [fss].
Proof.
  assert (go_range {[k := fss]} ≡ₚ [(k, fss)]) as Hp by (rewrite go_range_perm; by rewrite map_to_list_singleton).
  apply Permutation_singleton_r in Hp. by rewrite Hp.
Qed.

Section Semantics.
(** How EC2 compares a value of a filter with an attribute: equality, or a
    match of its wildcards. *)
Context {RNG : MapRange} (value_matches : string -> string -> Prop).

(** A filter holds when one of its values matches; a request when all its
    filters hold. *)
Definition filter_holds (i : Ec2Instance) (f : Filter) : Prop :=
  exists a v, attribute i (f_Name f) = Some a /\ v ∈ f_Values f /\ value_matches v a.
Definition request_holds (i : Ec2Instance) (fs : list Filter) : Prop := forall f, f ∈ fs -> filter_holds i f.

(** What a selector describes (the comments of [cloudentityselector_types.go]). *)
Definition valid_state (i : Ec2Instance) : Prop :=
  exists v, v ∈ f_Values buildEc2FilterForValidInstanceStates /\ value_matches v (ins_state i).
Definition match_vm (i : Ec2Instance) (m : EntityMatch) : Prop :=
  (given (MatchID m) = true -> value_matches (MatchID m) (ins_id i)) /\
  (given (MatchName m) = true -> exists n, ins_name i = Some n /\ value_matches (MatchName m) n).
Definition match_vpc (names : gmap string string) (i : Ec2Instance) (s : VirtualMachineSelector) : Prop :=
  (vpc_id_given s = true -> value_matches (vpc_id s) (ins_vpc i)) /\
  (vpc_name_given s = true -> value_matches (default "" (names !! vpc_name s)) (ins_vpc i)).
Definition match_selector (names : gmap string string) (i : Ec2Instance) (s : VirtualMachineSelector) : Prop :=
  match_vpc names i s /\ (VMMatch s = [] \/ exists m, m ∈ VMMatch s /\ match_vm i m).

(** Every entry of [VMMatch] gives an identifier or a name. *)
Definition no_blank (s : VirtualMachineSelector) : Prop :=
  forall m, m ∈ VMMatch s -> given (MatchID m) = true \/ given (MatchName m) = true.

(** What the webhook guarantees of a selector of an AWS account. *)
Record admitted (s : VirtualMachineSelector) : Prop := mk_admitted {
  adm_vpc : vpc_id_given s = true -> vpc_name_given s = false;
  adm_vm : forall m, m ∈ VMMatch s -> has_both m = false;
  adm_name : vpc_name_given s = true -> forall m, m ∈ VMMatch s -> given (MatchID m) = false /\ given (MatchName m) = false
}.

Lemma validated_admitted a l :
  GetAccountProviderType a = inr AWSCloudProvider -> validateMatchSections (inr a) l = None ->
  forall s, s ∈ l -> admitted s.
Proof.
  intros Ha Hv. unfold validateMatchSections in Hv. destruct (check_both l) eqn:Hb; [done|]. rewrite Ha in Hv.
  destruct (existsb _ l) eqn:Hex; [done|]. intros s Hs.
  assert ((match VpcMatch s with Some v => has_both v | None => false end) = false /\ existsb has_both (VMMatch s) = false) as [H1 H2].
  { clear -Hb Hs. induction l as [|x l IH]; [by apply not_elem_of_nil in Hs|]. simpl in Hb.
    destruct (match VpcMatch x with Some v => has_both v | None => false end) eqn:E1; [done|].
    destruct (existsb has_both (VMMatch x)) eqn:E2; [done|]. apply elem_of_cons in Hs as [->|Hs]; [done|auto]. }
  pose proof (proj1 (existsb_false _ _) Hex s Hs) as Hx. cbv beta in Hx. split; [|exact (proj1 (existsb_false _ _) H2)|].
  - unfold vpc_id_given, vpc_name_given in *. destruct (VpcMatch s) as [v|]; [|done]. unfold has_both in H1.
    intros Hi. by rewrite Hi in H1.
  - intros Hn m Hm. rewrite Hn in Hx. simpl in Hx.
    apply orb_false_iff. exact (proj1 (existsb_false _ _) Hx m Hm).
Qed.

(** ** What the sorted matches stand for *)

Section Instance.
Context (names : gmap string string) (i : Ec2Instance).

Definition vpc_is (v : string) : Prop := value_matches v (ins_vpc i).
Definition name_is (v : string) : Prop := exists n, ins_name i = Some n /\ value_matches v n.

Definition denotes (ms : Matches) : Prop :=
  (exists v, v ∈ vpcIDOnly ms /\ vpc_is v) \/
  (exists s, s ∈ vpcIDWithOther ms /\ vpc_is (vpc_id s) /\ exists m, m ∈ VMMatch s /\ match_vm i m) \/
  (exists m, m ∈ vmIDOnly ms /\ value_matches (MatchID m) (ins_id i)) \/
  (exists m, m ∈ vmNameOnly ms /\ name_is (MatchName m)) \/
  (exists s, s ∈ vpcNameOnly ms /\ vpc_is (default "" (names !! vpc_name s))).

Lemma exists_app {A} (P : A -> Prop) l k :
  (exists x, x ∈ (l ++ k)%list /\ P x) <-> (exists x, x ∈ l /\ P x) \/ (exists x, x ∈ k /\ P x).
Proof. setoid_rewrite elem_of_app. naive_solver. Qed.

Lemma exists_one {A} (P : A -> Prop) y : (exists x, x ∈ [y] /\ P x) <-> P y.
Proof. setoid_rewrite list_elem_of_singleton. naive_solver. Qed.

Lemma sort_vm_with_vpc s m vs acc :
  vpc_id_given s = true -> given (MatchID m) = true \/ given (MatchName m) = true ->
  denotes (sort_vm_matches s (m :: vs) acc) <->
  denotes acc \/ (vpc_is (vpc_id s) /\ exists m, m ∈ VMMatch s /\ match_vm i m).
Proof.
  intros Hv Hm. simpl. rewrite Hv. replace (given (MatchID m) || given (MatchName m)) with true
    by (destruct Hm as [->| ->]; by rewrite ?orb_true_r). simpl. case_decide as Hd; unfold denotes; simpl.
  - split; [auto|]. intros [?|[? _]]; [done|]. left. eauto.
  - rewrite exists_app, exists_one. tauto.
Qed.

Lemma match_vm_single m :
  has_both m = false -> given (MatchID m) = true \/ given (MatchName m) = true ->
  match_vm i m <-> (if given (MatchID m) then value_matches (MatchID m) (ins_id i) else name_is (MatchName m)).
Proof.
  unfold has_both, match_vm, name_is. destruct (given (MatchID m)), (given (MatchName m)); simpl; intros ? []; try done; naive_solver.
Qed.

Lemma sort_vm_without_vpc s vs : vpc_id_given s = false -> forall acc,
  (forall m, m ∈ vs -> has_both m = false /\ (given (MatchID m) = true \/ given (MatchName m) = true)) ->
  denotes (sort_vm_matches s vs acc) <-> denotes acc \/ exists m, m ∈ vs /\ match_vm i m.
Proof.
  intros Hv. induction vs as [|m vs IH]; intros acc Hvs; cbn [sort_vm_matches].
  - split; [auto|]. by intros [?|(? & ?%not_elem_of_nil & _)].
  - rewrite Hv. cbn [andb negb]. rewrite !andb_true_r. destruct (Hvs m) as [Hb Hg]; [left|].
    pose proof (match_vm_single m Hb Hg) as Hm. setoid_rewrite elem_of_cons.
    rewrite IH by (intros; apply Hvs; by right).
    assert ((exists x, (x = m \/ x ∈ vs) /\ match_vm i x) <-> match_vm i m \/ exists x, x ∈ vs /\ match_vm i x) as -> by naive_solver.
    unfold has_both in Hb. destruct (given (MatchID m)), (given (MatchName m)); try done; try (by destruct Hg);
      simpl; rewrite Hm; unfold denotes; simpl; rewrite exists_app, exists_one; tauto.
Qed.

(** One selector. *)
Lemma sort_selector_step s acc :
  admitted s -> no_blank s -> vpc_id_given s || vpc_name_given s || negb (bool_decide (VMMatch s = [])) = true ->
  let acc1 := if vpc_id_given s && bool_decide (VMMatch s = [])
    then mkMatches ({[vpc_id s]} ∪ vpcIDOnly acc) (vpcIDWithOther acc) (vmIDOnly acc) (vmNameOnly acc) (vpcNameOnly acc)
    else acc in
  let acc2 := if vpc_name_given s && bool_decide (VMMatch s = []) && negb (vpc_id_given s)
    then mkMatches (vpcIDOnly acc1) (vpcIDWithOther acc1) (vmIDOnly acc1) (vmNameOnly acc1) (vpcNameOnly acc1 ++ [s])
    else acc1 in
  denotes (sort_vm_matches s (VMMatch s) acc2) <-> denotes acc \/ match_selector names i s.
Proof.
  intros [Hvpc Hvm Hname] Hnb Hsome. unfold match_selector, match_vpc. destruct (VMMatch s) as [|m vs] eqn:Hvs.
  - rewrite bool_decide_true in * by done. rewrite !andb_true_r. simpl.
    destruct (vpc_id_given s) eqn:Hi; simpl.
    + rewrite (Hvpc eq_refl), andb_false_r by done. simpl. unfold denotes. simpl.
      assert ((exists v, v ∈ {[vpc_id s]} ∪ vpcIDOnly acc /\ vpc_is v) <-> vpc_is (vpc_id s) \/ exists v, v ∈ vpcIDOnly acc /\ vpc_is v) as ->
        by set_solver.
      assert (forall P Q R S T A B : Prop, (A <-> B) -> (A \/ P) \/ Q \/ R \/ S \/ T <-> (P \/ Q \/ R \/ S \/ T) \/ B) as Hp by tauto.
      apply Hp. split; [by intros H; split; [split|left]|]. intros [[H _] _]. by apply H.
    + destruct (vpc_name_given s); [|done]. simpl. unfold denotes. simpl. rewrite exists_app, exists_one.
      assert (forall P Q R S T A B : Prop, (A <-> B) -> P \/ Q \/ R \/ S \/ T \/ A <-> (P \/ Q \/ R \/ S \/ T) \/ B) as Hp by tauto.
      apply Hp. split; [by intros H; split; [split|left]|]. intros [[_ H] _]. by apply H.
  - rewrite bool_decide_false in * by done. rewrite !andb_false_r. cbn [andb].
    destruct (vpc_id_given s) eqn:Hi.
    + rewrite sort_vm_with_vpc; [|done|apply Hnb; rewrite Hvs; left]. rewrite Hvs.
      pose proof (Hvpc eq_refl). apply or_iff_compat_l. split.
      * intros [H1 H2]. split; [split; [done|congruence]|by right].
      * intros [[H1 _] [?|H2]]; [done|]. split; [by apply H1|done].
    + assert (vpc_name_given s = false) as Hn.
      { destruct (vpc_name_given s); [|done]. destruct (Hname eq_refl m) as [H1 H2]; [left|].
        destruct (Hnb m) as [H3|H3]; [rewrite Hvs; left|congruence..]. }
      rewrite Hn. cbn [andb]. rewrite sort_vm_without_vpc; [|done|].
      2: { intros m' Hm'. split; [auto|]. apply Hnb. by rewrite Hvs. }
      apply or_iff_compat_l. split; [intros H; split; [split; congruence|by right]|]. by intros [_ [?|?]].
Qed.

Definition match_all (s : VirtualMachineSelector) : Prop :=
  vpc_id_given s = false /\ vpc_name_given s = false /\ VMMatch s = [].

Lemma sort_selectors_spec l : forall acc,
  (forall s, s ∈ l -> admitted s /\ no_blank s) ->
  match sort_selectors l acc with
  | Some ms => denotes ms <-> denotes acc \/ exists s, s ∈ l /\ match_selector names i s
  | None => exists s, s ∈ l /\ match_all s
  end.
Proof.
  induction l as [|s l IH]; intros acc Hl.
  - simpl. split; [auto|]. by intros [?|(? & ?%not_elem_of_nil & _)].
  - cbn [sort_selectors]. destruct (Hl s) as [Ha Hb]; [left|].
    destruct (negb (vpc_id_given s) && bool_decide (VMMatch s = []) && negb (vpc_name_given s)) eqn:Hall.
    + rewrite !andb_true_iff, !negb_true_iff, bool_decide_eq_true in Hall. exists s. split; [left|].
      unfold match_all. tauto.
    + assert (vpc_id_given s || vpc_name_given s || negb (bool_decide (VMMatch s = [])) = true) as Hsome
        by (destruct (vpc_id_given s), (vpc_name_given s), (bool_decide (VMMatch s = [])); done).
      pose proof (sort_selector_step s acc Ha Hb Hsome) as Hstep. cbv zeta in Hstep |- *.
      match goal with |- context [sort_selectors l ?a] => specialize (IH a); set (acc' := a) in * end.
      specialize (IH (fun s' H => Hl s' (list_elem_of_further _ _ _ H))). clearbody acc'.
      destruct (sort_selectors l acc') as [ms|].
      * rewrite IH, Hstep. setoid_rewrite elem_of_cons. clear.
        assert ((exists s0, (s0 = s \/ s0 ∈ l) /\ match_selector names i s0) <->
          match_selector names i s \/ exists s0, s0 ∈ l /\ match_selector names i s0) as -> by naive_solver. tauto.
      * destruct IH as (s' & ? & ?). exists s'. split; [by right|done].
Qed.

(** ** The requests *)

Lemma request_holds_cons f fs : request_holds i (f :: fs) <-> filter_holds i f /\ request_holds i fs.
Proof. unfold request_holds. setoid_rewrite elem_of_cons. naive_solver. Qed.

Lemma request_holds_app fs gs : request_holds i (fs ++ gs)%list <-> request_holds i fs /\ request_holds i gs.
Proof. unfold request_holds. setoid_rewrite elem_of_app. naive_solver. Qed.

Lemma request_holds_nil : request_holds i [] <-> True.
Proof. split; [done|]. by intros _ f ?%not_elem_of_nil. Qed.

Lemma state_filter_holds : filter_holds i buildEc2FilterForValidInstanceStates <-> valid_state i.
Proof.
  unfold filter_holds, valid_state. change (attribute i (f_Name buildEc2FilterForValidInstanceStates)) with (Some (ins_state i)).
  naive_solver.
Qed.

(** A filter on one attribute; sorting its values does not matter. *)
Lemma value_filter_holds key values a :
  attribute i key = a -> filter_holds i (mkFilter key (sort_strings values)) <->
  exists v, v ∈ values /\ exists x, a = Some x /\ value_matches v x.
Proof.
  intros <-. unfold filter_holds, sort_strings. simpl. setoid_rewrite merge_sort_Permutation. naive_solver.
Qed.

Lemma single_filter_holds key v a :
  attribute i key = a -> filter_holds i (mkFilter key [v]) <-> exists x, a = Some x /\ value_matches v x.
Proof. intros <-. unfold filter_holds. simpl. setoid_rewrite list_elem_of_singleton. naive_solver. Qed.

Lemma Some_value (P : string -> Prop) a : (exists x, Some a = Some x /\ P x) <-> P a.
Proof. naive_solver. Qed.

Definition translate (fs : list Filter) : list Filter :=
  match fs with
  | f :: _ => if decide (f_Name f = awsCustomFilterKeyVPCName) then buildFilterForVPCIDFromFilterForVPCName fs names else fs
  | [] => fs
  end.

(** Some alternative of the filters built from [ms] holds. *)
Definition some_holds (fss : list (list Filter)) : Prop := exists fs, fs ∈ fss /\ request_holds i (translate fs).

Lemma some_holds_app l k : some_holds (l ++ k)%list <-> some_holds l \/ some_holds k.
Proof. apply exists_app. Qed.

Lemma some_holds_vm_ids l :
  some_holds (buildAwsEc2FilterForVMIDOnlyMatches l) <->
  valid_state i /\ exists m, m ∈ l /\ value_matches (MatchID m) (ins_id i).
Proof.
  unfold some_holds, buildAwsEc2FilterForVMIDOnlyMatches, filters_of_values. case_decide as Hl.
  - apply map_eq_nil in Hl as ->. split; [by intros (? & ?%not_elem_of_nil & _)|by intros (_ & ? & ?%not_elem_of_nil & _)].
  - rewrite exists_one. cbn [translate f_Name]. rewrite decide_False by done.
    rewrite !request_holds_cons, request_holds_nil, state_filter_holds, (value_filter_holds _ _ (Some (ins_id i))) by done.
    setoid_rewrite Some_value. setoid_rewrite list_elem_of_fmap. naive_solver.
Qed.

Lemma some_holds_vm_names l :
  some_holds (buildAwsEc2FilterForVMNameOnlyMatches l) <->
  valid_state i /\ exists m, m ∈ l /\ name_is (MatchName m).
Proof.
  unfold some_holds, buildAwsEc2FilterForVMNameOnlyMatches, filters_of_values. case_decide as Hl.
  - apply map_eq_nil in Hl as ->. split; [by intros (? & ?%not_elem_of_nil & _)|by intros (_ & ? & ?%not_elem_of_nil & _)].
  - rewrite exists_one. cbn [translate f_Name]. rewrite decide_False by done.
    rewrite !request_holds_cons, request_holds_nil, state_filter_holds, (value_filter_holds _ _ (ins_name i)) by done.
    setoid_rewrite list_elem_of_fmap. unfold name_is. naive_solver.
Qed.

Lemma some_holds_vpc_names l :
  some_holds (buildAwsEc2FilterForVPCNameOnlyMatches l) <->
  valid_state i /\ exists s, s ∈ l /\ vpc_is (default "" (names !! vpc_name s)).
Proof.
  unfold some_holds, buildAwsEc2FilterForVPCNameOnlyMatches, filters_of_values. case_decide as Hl.
  - apply map_eq_nil in Hl as ->. split; [by intros (? & ?%not_elem_of_nil & _)|by intros (_ & ? & ?%not_elem_of_nil & _)].
  - rewrite exists_one. cbn [translate f_Name]. rewrite decide_True by done.
    unfold buildFilterForVPCIDFromFilterForVPCName. rewrite decide_False by done.
    cbn [flat_map f_Name f_Values]. rewrite decide_False, decide_True, !app_nil_r by done.
    rewrite !request_holds_cons, request_holds_nil, state_filter_holds, (value_filter_holds _ _ (Some (ins_vpc i))) by done.
    setoid_rewrite Some_value. setoid_rewrite list_elem_of_fmap. unfold sort_strings.
    setoid_rewrite merge_sort_Permutation. setoid_rewrite list_elem_of_fmap. unfold vpc_is. naive_solver.
Qed.

Lemma some_holds_vpc_only vs :
  some_holds (match buildAwsEc2FilterForVpcIDOnlyMatches vs with
              | [] => [] | fs => [(fs ++ [buildEc2FilterForValidInstanceStates])%list] end) <->
  valid_state i /\ exists v, v ∈ vs /\ vpc_is v.
Proof.
  unfold some_holds, buildAwsEc2FilterForVpcIDOnlyMatches. case_decide as Hv.
  - subst. split; [by intros (? & ?%not_elem_of_nil & _)|set_solver].
  - rewrite exists_one. cbn [translate f_Name app]. rewrite decide_False by done.
    rewrite !request_holds_cons, request_holds_nil, state_filter_holds, (value_filter_holds _ _ (Some (ins_vpc i))) by done.
    setoid_rewrite Some_value. setoid_rewrite elem_of_set_range. unfold vpc_is. naive_solver.
Qed.

Lemma vm_filters_hold m :
  request_holds i ((if given (MatchID m) then [mkFilter awsFilterKeyVMID [MatchID m]] else []) ++
    (if given (MatchName m) then [mkFilter awsFilterKeyVMName [MatchName m]] else []))%list <-> match_vm i m.
Proof.
  rewrite request_holds_app. unfold match_vm.
  destruct (given (MatchID m)), (given (MatchName m)); rewrite ?request_holds_cons, ?request_holds_nil;
    rewrite ?(single_filter_holds awsFilterKeyVMID _ (Some (ins_id i))), ?(single_filter_holds awsFilterKeyVMName _ (ins_name i)) by done;
    rewrite ?Some_value; naive_solver.
Qed.

Lemma some_holds_vpc_other l vs :
  some_holds (buildAwsEc2FilterForVpcIDWithOtherMatches l vs) <->
  valid_state i /\ exists s, s ∈ l /\ vpc_id s ∉ vs /\ vpc_is (vpc_id s) /\ exists m, m ∈ VMMatch s /\ match_vm i m.
Proof.
  unfold buildAwsEc2FilterForVpcIDWithOtherMatches. induction l as [|s l IH].
  - split; [by intros (? & ?%not_elem_of_nil & _)|by intros (_ & ? & ?%not_elem_of_nil & _)].
  - cbn [flat_map]. rewrite some_holds_app, IH. setoid_rewrite elem_of_cons.
    assert (forall fs, some_holds (map (fun m => ([mkFilter awsFilterKeyVPCID [vpc_id s]] ++
       (if given (MatchID m) then [mkFilter awsFilterKeyVMID [MatchID m]] else []) ++
       (if given (MatchName m) then [mkFilter awsFilterKeyVMName [MatchName m]] else []) ++
       [buildEc2FilterForValidInstanceStates])%list) fs) <->
      valid_state i /\ vpc_is (vpc_id s) /\ exists m, m ∈ fs /\ match_vm i m) as Hs.
    { intros fs. unfold some_holds. setoid_rewrite list_elem_of_fmap.
      assert (forall m, request_holds i (translate ([mkFilter awsFilterKeyVPCID [vpc_id s]] ++
        (if given (MatchID m) then [mkFilter awsFilterKeyVMID [MatchID m]] else []) ++
        (if given (MatchName m) then [mkFilter awsFilterKeyVMName [MatchName m]] else []) ++
        [buildEc2FilterForValidInstanceStates])%list) <-> vpc_is (vpc_id s) /\ match_vm i m /\ valid_state i) as Hm.
      { intros m. cbn [app translate f_Name]. rewrite decide_False by done. rewrite request_holds_cons, app_assoc, request_holds_app.
        rewrite vm_filters_hold, request_holds_cons, request_holds_nil, state_filter_holds.
        rewrite (single_filter_holds _ _ (Some (ins_vpc i))), Some_value by done. unfold vpc_is. tauto. }
      split.
      - intros (fs' & (m & -> & Hin) & Hh%Hm). naive_solver.
      - intros (? & ? & m & Hin & ?). eexists. split; [eauto|]. apply Hm. auto. }
    case_decide as Hv; [|rewrite Hs].
    + assert (some_holds [] <-> False) as -> by (split; [by intros (? & ?%not_elem_of_nil & _)|done]). naive_solver.
    + split.
      * intros [(H1 & H2 & H3)|(H1 & s' & ? & ?)]; (split; [done|]); [exists s|exists s']; auto.
      * intros (H1 & s' & [->|?] & ?); [left; tauto|right]. split; [done|]. by exists s'.
Qed.

(** The filters built from the sorted matches stand for what they denote. *)
Lemma some_holds_build ms :
  some_holds ((match buildAwsEc2FilterForVpcIDOnlyMatches (vpcIDOnly ms) with
       | [] => [] | fs => [(fs ++ [buildEc2FilterForValidInstanceStates])%list] end) ++
       buildAwsEc2FilterForVpcIDWithOtherMatches (vpcIDWithOther ms) (vpcIDOnly ms) ++
       buildAwsEc2FilterForVMIDOnlyMatches (vmIDOnly ms) ++
       buildAwsEc2FilterForVMNameOnlyMatches (vmNameOnly ms) ++
       buildAwsEc2FilterForVPCNameOnlyMatches (vpcNameOnly ms))%list <-> valid_state i /\ denotes ms.
Proof.
  rewrite !some_holds_app, some_holds_vpc_only, some_holds_vpc_other, some_holds_vm_ids, some_holds_vm_names, some_holds_vpc_names.
  unfold denotes.
  assert ((exists v, v ∈ vpcIDOnly ms /\ vpc_is v) \/
    (exists s, s ∈ vpcIDWithOther ms /\ vpc_is (vpc_id s) /\ exists m, m ∈ VMMatch s /\ match_vm i m) <->
    (exists v, v ∈ vpcIDOnly ms /\ vpc_is v) \/
    (exists s, s ∈ vpcIDWithOther ms /\ vpc_id s ∉ vpcIDOnly ms /\ vpc_is (vpc_id s) /\ exists m, m ∈ VMMatch s /\ match_vm i m)) as Ho.
  { split; (intros [?|(s & H1 & H2)]; [by left|]); [destruct (decide (vpc_id s ∈ vpcIDOnly ms)) as [Hd|Hd]|].
    - left. exists (vpc_id s). tauto.
    - right. exists s. tauto.
    - right. exists s. tauto. }
  tauto.
Qed.

End Instance.

(** ** No selector is lost *)

Definition some_match (ms : Matches) : Prop :=
  vpcIDOnly ms <> ∅ \/ (exists s, s ∈ vpcIDWithOther ms /\ VMMatch s <> []) \/ vmIDOnly ms <> [] \/ vmNameOnly ms <> [] \/ vpcNameOnly ms <> [].

Lemma sort_vm_mono s vs : VMMatch s <> [] -> forall acc, some_match acc -> some_match (sort_vm_matches s vs acc).
Proof.
  intros Hs. induction vs as [|m vs IH]; intros acc Ha; cbn [sort_vm_matches]; [done|].
  assert (forall (l : list EntityMatch) x, (l ++ [x])%list <> []) as Hl by (by intros []).
  destruct (vpc_id_given s && _).
  - case_decide; [done|]. right; left. exists s. simpl. split; [|done]. apply elem_of_app. right. by apply list_elem_of_singleton.
  - apply IH. unfold some_match in *. repeat case_match; simpl; pose proof (Hl (vmIDOnly acc) m); pose proof (Hl (vmNameOnly acc) m); tauto.
Qed.

Lemma sort_vm_some s m vs acc :
  admitted s -> VMMatch s <> [] -> has_both m = false -> given (MatchID m) = true \/ given (MatchName m) = true ->
  some_match (sort_vm_matches s (m :: vs) acc).
Proof.
  intros Ha Hs Hb Hm. cbn [sort_vm_matches].
  assert (given (MatchID m) || given (MatchName m) = true) as Hg by (destruct Hm as [->| ->]; by rewrite ?orb_true_r).
  destruct (vpc_id_given s) eqn:Hi; rewrite Hg; cbn [andb].
  - case_decide; [left; set_solver|]. right; left. exists s. simpl. split; [|done]. apply elem_of_app. right. by apply list_elem_of_singleton.
  - apply sort_vm_mono; [done|]. unfold has_both in Hb. unfold some_match.
    destruct (given (MatchID m)), (given (MatchName m)); try done; simpl.
    + right; right; left. by destruct (vmIDOnly acc).
    + right; right; right; left. by destruct (vmNameOnly acc).
Qed.

Lemma sort_selectors_mono l : forall acc ms,
  some_match acc -> sort_selectors l acc = Some ms -> some_match ms.
Proof.
  induction l as [|s l IH]; intros acc ms Ha; cbn [sort_selectors]; [by intros [= <-]|].
  destruct (negb (vpc_id_given s) && _ && _) eqn:Hall; [done|]. cbv zeta. apply IH.
  destruct (VMMatch s) as [|m vs] eqn:Hvs.
  - cbn [sort_vm_matches]. rewrite bool_decide_true in * by done. rewrite !andb_true_r in *.
    destruct (vpc_id_given s); simpl in *; [rewrite andb_false_r; left; simpl; set_solver|].
    destruct (vpc_name_given s); [|done]. simpl. right; right; right; right. by destruct (vpcNameOnly acc).
  - apply sort_vm_mono; [by rewrite Hvs|]. by rewrite bool_decide_false, !andb_false_r by done.
Qed.

Lemma sort_selectors_some s l acc ms :
  admitted s -> no_blank s -> sort_selectors (s :: l) acc = Some ms -> some_match ms.
Proof.
  intros Ha Hb. cbn [sort_selectors]. destruct (negb (vpc_id_given s) && _ && _) eqn:Hall; [done|]. cbv zeta.
  apply sort_selectors_mono. destruct (VMMatch s) as [|m vs] eqn:Hvs.
  - cbn [sort_vm_matches]. rewrite bool_decide_true in * by done. rewrite !andb_true_r in *.
    destruct (vpc_id_given s); simpl in *.
    + rewrite andb_false_r. left. simpl. set_solver.
    + destruct (vpc_name_given s); [|done]. simpl. right; right; right; right. by destruct (vpcNameOnly acc).
  - apply sort_vm_some; [done|by rewrite Hvs|apply (adm_vm s Ha)|apply Hb]; rewrite Hvs; left.
Qed.

Lemma filters_of_values_nil key values : filters_of_values key values = [] -> values = [].
Proof. unfold filters_of_values. by case_decide. Qed.

Lemma some_match_built ms :
  some_match ms ->
  ((match buildAwsEc2FilterForVpcIDOnlyMatches (vpcIDOnly ms) with
       | [] => [] | fs => [(fs ++ [buildEc2FilterForValidInstanceStates])%list] end) ++
       buildAwsEc2FilterForVpcIDWithOtherMatches (vpcIDWithOther ms) (vpcIDOnly ms) ++
       buildAwsEc2FilterForVMIDOnlyMatches (vmIDOnly ms) ++
       buildAwsEc2FilterForVMNameOnlyMatches (vmNameOnly ms) ++
       buildAwsEc2FilterForVPCNameOnlyMatches (vpcNameOnly ms))%list <> [].
Proof.
  intros Hs Hnil. apply app_nil in Hnil as [H1 Hnil]. apply app_nil in Hnil as [H2 Hnil].
  apply app_nil in Hnil as [H3 Hnil]. apply app_nil in Hnil as [H4 H5].
  apply filters_of_values_nil, map_eq_nil in H3, H4, H5.
  assert (vpcIDOnly ms = ∅) as Hv.
  { unfold buildAwsEc2FilterForVpcIDOnlyMatches in H1. by case_decide. }
  destruct Hs as [?|[(s & Hs & Hne)|[?|[?|?]]]]; try done.
  assert (forall fs, fs ∉ buildAwsEc2FilterForVpcIDWithOtherMatches (vpcIDWithOther ms) (vpcIDOnly ms)) as Hno
    by (rewrite H2; intros fs; apply not_elem_of_nil).
  destruct (VMMatch s) as [|m vs] eqn:Hvm; [done|]. eapply Hno. unfold buildAwsEc2FilterForVpcIDWithOtherMatches.
  apply list_elem_of_In, in_flat_map. exists s. rewrite Hv, decide_False, Hvm by set_solver.
  split; [by apply list_elem_of_In|]. left. reflexivity.
Qed.

(** The requests for one admitted selector, against what it describes. *)
Lemma requests_select a l ces names i :
  GetAccountProviderType a = inr AWSCloudProvider -> validateMatchSections (inr a) l = None ->
  (forall s, s ∈ l -> no_blank s) -> l <> [] ->
  (exists fs, fs ∈ instance_requests {[ces := buildEc2Filters l]} names /\ request_holds i fs) <->
  valid_state i /\ exists s, s ∈ l /\ match_selector names i s.
Proof.
  intros Ha Hv Hnb Hne. pose proof (validated_admitted a l Ha Hv) as Hadm.
  pose proof (sort_selectors_spec names i l (mkMatches ∅ [] [] [] []) (fun s H => conj (Hadm s H) (Hnb s H))) as Hsort.
  unfold instance_requests, getInstanceResourceFilters. rewrite decide_False by apply map_non_empty_singleton.
  rewrite range_one.
  unfold buildEc2Filters at 1 2. destruct (sort_selectors l _) as [ms|] eqn:Hms.
  - assert (some_match ms) as Hsome.
    { destruct l as [|s l]; [done|]. apply (sort_selectors_some s l (mkMatches ∅ [] [] [] [])); [apply Hadm; left|apply Hnb; left|done]. }
    pose proof (some_match_built ms Hsome) as Hb. pose proof (some_holds_build names i ms) as Hh.
    match type of Hb with ?X <> [] => set (fss := X) in * end. clearbody fss. cbn [existsb].
    rewrite bool_decide_false by done. cbn [orb concat]. rewrite app_nil_r.
    assert ((exists fs, fs ∈ map (translate names) fss /\ request_holds i fs) <-> valid_state i /\ denotes names i ms) as Hx.
    { rewrite <- Hh. unfold some_holds. setoid_rewrite list_elem_of_fmap. naive_solver. }
    rewrite Hsort in Hx. destruct fss as [|f fss]; [done|]. unfold translate in Hx. rewrite Hx.
    assert (~ denotes names i (mkMatches ∅ [] [] [] [])) as Hd; [|tauto].
    unfold denotes. simpl. intros [(? & ? & _)|[(? & ? & _)|[(? & ? & _)|[(? & ? & _)|(? & ? & _)]]]]; set_solver.
  - destruct Hsort as (s & Hs & H1 & H2 & H3). cbn [existsb]. rewrite bool_decide_true by done. cbn [orb].
    rewrite exists_one, request_holds_cons, request_holds_nil, state_filter_holds. split; [|tauto].
    intros [Hst _]. split; [done|]. exists s. split; [done|]. split; [|by left]. split; congruence.
Qed.

(** C28: For a selector of an AWS account that the webhook admits, with an
    identifier or a name in every entry of its [VMMatch], the requests the
    plug-in makes return exactly the running, shutting down, stopping or stopped
    instances that some entry of the selector describes: those of its VPC, and in it those
    one of its VM matches names, or all of them. *)
Theorem selected_instances a l ces names i :
  GetAccountProviderType a = inr AWSCloudProvider -> validateMatchSections (inr a) l = None ->
  (forall s, s ∈ l -> no_blank s) -> l <> [] ->
  (exists fs, fs ∈ instance_requests {[ces := buildEc2Filters l]} names /\ request_holds i fs) <->
  valid_state i /\ exists s, s ∈ l /\ match_selector names i s.
Proof. apply requests_select. Qed.

End Semantics.

(** ** Concrete selectors *)

Definition aws_account : AccountSpec := mkAccountSpec true false.
Definition web_selector : list VirtualMachineSelector :=
  [mkSelector (Some (mkMatch "" "vpc-1")) [mkMatch "web" ""]; mkSelector None [mkMatch "" "i-07"]].
Definition web_instance : Ec2Instance := mkInstance "i-01" "vpc-1" (Some "web") "16".

(** The webhook admits a selector for one VPC whose only VM match is
    blank, but the filters made of it restrict nothing: one request is made,
    and it asks for the instances of every VPC. *)
Theorem blank_match_selects_all {RNG : MapRange} :
  let sel := [mkSelector (Some (mkMatch "" "vpc-1")) [mkMatch "" ""]] in
  validateMatchSections (inr aws_account) sel = None /\
  instance_requests {["sel" := buildEc2Filters sel]} ∅ = [[buildEc2FilterForValidInstanceStates]].
Proof.
  cbv zeta. split; [reflexivity|]. unfold instance_requests, getInstanceResourceFilters.
  rewrite decide_False by apply map_non_empty_singleton. rewrite range_one. reflexivity.
Qed.

(** [Default] lowers the VPC of an Azure selector and leaves the VM
    matches as they were given, although its comment asks for lower case: the
    loop lowers copies. *)
Theorem Default_keeps_vm_matches owner setOwner r :
  map VMMatch (ces_VMSelector (Default owner setOwner r)) = map VMMatch (ces_VMSelector r).
Proof.
  unfold Default. destruct owner as [|a]; [done|]. destruct (GetAccountProviderType a) as [|p]; [done|]. cbn [ces_VMSelector].
  case_decide; [|done]. rewrite map_map. by apply map_ext.
Qed.

#[local] Existing Instance map_to_list_range.

Lemma selected_instances_witness :
  GetAccountProviderType aws_account = inr AWSCloudProvider /\
  validateMatchSections (inr aws_account) web_selector = None /\
  exists fs, fs ∈ instance_requests {["sel" := buildEc2Filters web_selector]} ∅ /\ request_holds eq web_instance fs.
Proof.
  split; [reflexivity|]. split; [reflexivity|].
  apply (proj2 (selected_instances eq aws_account web_selector "sel" ∅ web_instance eq_refl eq_refl
    (fun s (Hs : s ∈ web_selector) m (Hm : m ∈ VMMatch s) =>
       ltac:(apply elem_of_cons in Hs as [->|Hs];
             [apply list_elem_of_singleton in Hm as ->; by right|
              apply list_elem_of_singleton in Hs as ->; apply list_elem_of_singleton in Hm as ->; by left]))
    ltac:(discriminate))).
  split; [exists "16"; split; [left|done]|]. exists (mkSelector (Some (mkMatch "" "vpc-1")) [mkMatch "web" ""]).
  split; [left|]. split; [by split|]. right. exists (mkMatch "web" ""). split; [left|].
  split; [done|]. intros _. by exists "web".
Defined.
