(* ===== verification/AzureModel.v ===== *)
(** * The Azure plug-in: data, API and effects

    The part of the Azure SDK's types the plug-in uses, the operations of its
    API wrappers ([azure_api_wrappers.go]) as a class over an abstract cloud, and
    the effects of its methods: an error or a value, a panic, or waiting
    forever. *)

From stdpp Require Import base strings list gmap.
From Stdlib Require Import ZArith Lia.
From S2P Require Import Prelude GoStrings.

#[local] Open Scope string_scope.

(** ** SDK types

    Pointer fields are options; fields the plug-in does not touch are left
    out. *)

Record ApplicationSecurityGroup := mkASG { asg_ID : option string; asg_Name : option string }.

Inductive SecurityRuleProtocol :=
  | ProtocolAsterisk | ProtocolIcmp | ProtocolTCP | ProtocolUDP | ProtocolOther (name : string).
Inductive SecurityRuleDirection := DirectionInbound | DirectionOutbound.
Inductive SecurityRuleAccess := AccessAllow | AccessDeny.

(** [%v] on a direction. *)
Definition Direction_String (d : SecurityRuleDirection) : string :=
  match d with DirectionInbound => "Inbound" | DirectionOutbound => "Outbound" end.

Record SecurityRule := mkSecurityRule {
  sr_Name : option string;
  sr_Protocol : SecurityRuleProtocol;
  sr_SourcePortRange : option string;
  sr_SourceAddressPrefix : option string;
  sr_SourceAddressPrefixes : option (list string);
  sr_SourceASGs : option (list ApplicationSecurityGroup);
  sr_DestinationPortRange : option string;
  sr_DestinationAddressPrefix : option string;
  sr_DestinationAddressPrefixes : option (list string);
  sr_DestinationASGs : option (list ApplicationSecurityGroup);
  sr_Access : SecurityRuleAccess;
  sr_Priority : option Z;
  sr_Direction : SecurityRuleDirection;
  sr_Description : option string
}.

(** A network security group; [nsg_ID] is nil in the value that comes with an
    error. *)
Record NetworkSecurityGroup := mkNSG {
  nsg_ID : option string;
  nsg_SecurityRules : option (list SecurityRule)
}.

(** A network interface: its configurations with their application security
    groups, the network security group attached to it (by its identifier) and
    its tags. *)
Record IPConfiguration := mkIPConfiguration {
  ipc_Primary : option bool;
  ipc_ASGs : option (list ApplicationSecurityGroup)
}.
Record Interface := mkInterface {
  nif_ID : option string;
  nif_IPConfigurations : list IPConfiguration;
  nif_NSG : option NetworkSecurityGroup;
  nif_Tags : option (gmap string string)
}.

(** A row of the resource graph's table of network interfaces. *)
Record networkInterfaceTable := mkNwIntfRow {
  nit_ID : string;
  nit_VnetID : string;
  nit_VirtualMachineID : option string;
  nit_NetworkSecurityGroupID : option string;
  nit_ASGIDs : list string;
  nit_Tags : list (gmap string string)
}.

(** A row of the table of virtual machines; [nics] are their private addresses. *)
Record vmNetworkInterface := mkVMNic {
  vmn_ID : string;
  vmn_MacAddress : option string;
  vmn_PrivateIps : list string;
  vmn_PublicIps : list string
}.
Record virtualMachineTable := mkVMRow {
  vmt_ID : string;
  vmt_Name : string;
  vmt_NetworkInterfaces : list vmNetworkInterface;
  vmt_Tags : gmap string string;
  vmt_Status : option string;
  vmt_VnetID : string
}.

#[export] Instance ApplicationSecurityGroup_eq_dec : EqDecision ApplicationSecurityGroup.
Proof. solve_decision. Defined.
#[export] Instance SecurityRuleProtocol_eq_dec : EqDecision SecurityRuleProtocol.
Proof. solve_decision. Defined.
#[export] Instance SecurityRuleDirection_eq_dec : EqDecision SecurityRuleDirection.
Proof. solve_decision. Defined.
#[export] Instance SecurityRuleAccess_eq_dec : EqDecision SecurityRuleAccess.
Proof. solve_decision. Defined.
#[export] Instance SecurityRule_eq_dec : EqDecision SecurityRule.
Proof. solve_decision. Defined.

(** ** Errors, panics and deadlocks *)

(** An error: its message, and the HTTP status when it is the SDK's
    [autorest.DetailedError]. *)
Record azError := mkErr { e_Error : string; e_StatusCode : option Z }.
Definition Errorf (msg : string) : azError := mkErr msg None.

Inductive Outcome (A : Type) := Returned (a : A) | Panicked | Blocked.
Arguments Returned {A} a.
Arguments Panicked {A}.
Arguments Blocked {A}.

(** ** The API wrappers *)

Class Azure := {
  AzCloud : Type;
  (** resource group, name *)
  nsg_get : string -> string -> AzCloud -> (azError + NetworkSecurityGroup) * AzCloud;
  (** resource group, name, location, rules (nil for none given) *)
  nsg_createOrUpdate : string -> string -> string -> option (list SecurityRule) -> AzCloud ->
    (azError + NetworkSecurityGroup) * AzCloud;
  nsg_listAllComplete : AzCloud -> (azError + list NetworkSecurityGroup) * AzCloud;
  asg_get : string -> string -> AzCloud -> (azError + ApplicationSecurityGroup) * AzCloud;
  asg_createOrUpdate : string -> string -> string -> AzCloud -> (azError + ApplicationSecurityGroup) * AzCloud;
  asg_listComplete : string -> AzCloud -> (azError + list ApplicationSecurityGroup) * AzCloud;
  asg_listAllComplete : AzCloud -> (azError + list ApplicationSecurityGroup) * AzCloud;
  asg_delete : string -> string -> AzCloud -> (azError + unit) * AzCloud;
  nic_createOrUpdate : string -> string -> Interface -> AzCloud -> (azError + unit) * AzCloud;
  nic_listAllComplete : AzCloud -> (azError + list Interface) * AzCloud;
  (** the tables of the resource graph: query, subscriptions; the rows are
      decoded by [mapstructure] *)
  networkInterfaceRows : string -> list string -> AzCloud -> (azError + list networkInterfaceTable) * AzCloud;
  virtualMachineRows : string -> list string -> AzCloud -> (azError + list virtualMachineTable) * AzCloud
}.

Section Effects.
Context {Z : Azure}.

Definition ZM (A : Type) : Type := AzCloud -> Outcome ((azError + A) * AzCloud).

#[export] Instance ZM_ret : MRet ZM := fun A a c => Returned (inr a, c).
#[export] Instance ZM_bind : MBind ZM := fun A B k m c =>
  match m c with
  | Returned (inr a, c') => k a c'
  | Returned (inl e, c') => Returned (inl e, c')
  | Panicked => Panicked
  | Blocked => Blocked
  end.

Definition zfail {A} (e : azError) : ZM A := fun c => Returned (inl e, c).
Definition zpanic {A} : ZM A := fun _ => Panicked.
Definition zblock {A} : ZM A := fun _ => Blocked.
Definition zderef {A} (o : option A) : ZM A := match o with Some a => mret a | None => zpanic end.
Definition zlift {A} (r : azError + A) : ZM A := match r with inl e => zfail e | inr a => mret a end.

(** A call of the API. *)
Definition zapi {A} (f : AzCloud -> (azError + A) * AzCloud) : ZM A := fun c => Returned (f c).

(** Runs a method and hands its error over as a value. *)
Definition zattempt {A} (m : ZM A) : ZM (azError + A) := fun c =>
  match m c with
  | Returned (r, c') => Returned (inr r, c')
  | Panicked => Panicked
  | Blocked => Blocked
  end.

End Effects.
