(* ===== verification/AzureRules.v ===== *)
(** * The Azure plug-in: security rules

    Model of [azure_nsg_rules.go] and [azure_utils.go]: the rules of the
    controller as rules of a network security group and back, their names and
    priorities, and the fields of resource identifiers.  The rules the
    controller passes are never nil. *)

From stdpp Require Import base strings list gmap.
From Stdlib Require Import Ascii ZArith Lia.
From S2P Require Import Prelude GoStrings GoNet GoCIDR GoFmt SecurityGroup AzureModel.

#[local] Open Scope string_scope.
#[local] Open Scope Z_scope.

(** ** Resource identifiers ([azure_utils.go]) *)

(** [extractFieldsFromAzureResourceID]: subscription, resource group and name. *)
Definition extractFieldsFromAzureResourceID (resourceID : string) : azError + (string * string * string) :=
  let tokens := Split "/"%char (Quote resourceID) in
  let fields := flat_map (fun token =>
    let str1 := Trim is_dquote token in
    if decide (str1 = "") then [] else [ToLower str1]) tokens in
  match fields !! 1%nat, fields !! 3%nat, fields !! 7%nat with
  | Some subscriptionID, Some resourceGroupName, Some resourceName =>
      inr (subscriptionID, resourceGroupName, resourceName)
  | _, _, _ => inl (Errorf ("not a valid azure resource id format (" +:+ resourceID +:+ ")"))
  end.

Definition convertStrSliceToLowercaseCommaSeparatedStr (strSlice : list string) : string :=
  let lowerCase := flat_map (fun str => if decide (str = "") then [] else [ToLower str]) strSlice in
  if decide (lowerCase = []) then ""
  else Trim is_bracket (Join (Split " "%char (Quote_slice lowerCase)) ", ").

Definition mergeSet (ms : list (gset string)) : gset string := ⋃ ms.

(** ** Constants *)

Definition ruleStartPriority : Z := 100.
Definition vnetToVnetDenyRulePriority : Z := 4096.
Definition appliedToSecurityGroupNamePerVnet : string := "per-vnet-default".
Definition vnetToVnetDenyRuleDescription : string := "nephe-at-" +:+ appliedToSecurityGroupNamePerVnet.
Definition emptyPort : string := "*".
Definition virtualnetworkAddressPrefix : string := "VirtualNetwork".

(** ** From rules to security rules *)

Definition protoNumAzureNameMap (n : Z) : option SecurityRuleProtocol :=
  if n =? 1 then Some ProtocolIcmp else if n =? 6 then Some ProtocolTCP else if n =? 17 then Some ProtocolUDP else None.

Definition convertToAzureProtocolName (protoNum : option Z) : azError + SecurityRuleProtocol :=
  match protoNum with
  | None => inr ProtocolAsterisk
  | Some n =>
      match protoNumAzureNameMap n with
      | Some p => inr p
      | None => inl (Errorf ("unsupported protocol number " +:+ Itoa n))
      end
  end.

Definition convertToAzurePortRange (port : option Z) : string :=
  match port with None => emptyPort | Some p => Itoa p end.

(** One prefix, or a list of them. *)
Definition convertToAzureAddressPrefix (ruleIPs : list IPNet) : option string * option (list string) :=
  let prefixes := map IPNet_String ruleIPs in
  if decide (prefixes = []) then (Some emptyPort, None) else (None, Some prefixes).

Definition convertToAzureApplicationSecurityGroups (securityGroups : list CloudResourceID)
    (asgByNepheControllerName : gmap string ApplicationSecurityGroup) : list ApplicationSecurityGroup :=
  omap (fun g => asgByNepheControllerName !! ToLower (cid_Name g)) securityGroups.

Definition rule_name (priority : Z) (d : SecurityRuleDirection) : string :=
  Itoa priority +:+ "-" +:+ Direction_String d.

(** [buildSecurityRule], and [buildPeerSecurityRule], which logs a name as well.
    The arguments in the order of the source. *)
Definition buildSecurityRule (rulePriority : Z) (protoName : SecurityRuleProtocol) (direction : SecurityRuleDirection)
    (srcPort srcAddrPrefix : option string) (srcAddrPrefixes : option (list string))
    (srcASGs : option (list ApplicationSecurityGroup))
    (dstPort dstAddrPrefix : option string) (dstAddrPrefixes : option (list string))
    (dstASGs : option (list ApplicationSecurityGroup))
    (description : option string) (access : SecurityRuleAccess) : SecurityRule :=
  {| sr_Name := Some (rule_name rulePriority direction);
     sr_Protocol := protoName;
     sr_SourcePortRange := srcPort;
     sr_SourceAddressPrefix := srcAddrPrefix;
     sr_SourceAddressPrefixes := srcAddrPrefixes;
     sr_SourceASGs := srcASGs;
     sr_DestinationPortRange := dstPort;
     sr_DestinationAddressPrefix := dstAddrPrefix;
     sr_DestinationAddressPrefixes := dstAddrPrefixes;
     sr_DestinationASGs := dstASGs;
     sr_Access := access;
     sr_Priority := Some rulePriority;
     sr_Direction := direction;
     sr_Description := description |}.

Definition buildPeerSecurityRule := buildSecurityRule.

(** The rule that denies traffic inside the virtual network. *)
Definition vnet_deny_rule (d : SecurityRuleDirection) : SecurityRule :=
  buildSecurityRule vnetToVnetDenyRulePriority ProtocolAsterisk d
    (Some emptyPort) (Some virtualnetworkAddressPrefix) None None
    (Some emptyPort) (Some virtualnetworkAddressPrefix) None None
    (Some vnetToVnetDenyRuleDescription) AccessDeny.

(** [rulePriority++], [n] times. *)
Definition next_priority (p : Z) (n : nat) : Z := int32 (p + Z.of_nat n).

(** The loops over the rules, as a function [build] of the priority and the
    protocol makes the security rules of one rule: at most one for the addresses
    and one for the groups. *)
Section Loop.
Context {R : Type} (proto : R -> option Z) (build : Z -> SecurityRuleProtocol -> R -> list SecurityRule).

Fixpoint convert_rules (rulePriority : Z) (rules : list R) : azError + list SecurityRule :=
  match rules with
  | [] => inr []
  | rule :: rules =>
      match convertToAzureProtocolName (proto rule) with
      | inl e => inl e
      | inr protoName =>
          let new := build rulePriority protoName rule in
          match convert_rules (next_priority rulePriority (length new)) rules with
          | inl e => inl e
          | inr rest => inr (new ++ rest)%list
          end
      end
  end.
End Loop.

(** Body of the loop of [convertIngressToAzureNsgSecurityRules]. *)
Definition ingress_security_rules (description : string) (dstAsgObj : ApplicationSecurityGroup)
    (agAsgs : gmap string ApplicationSecurityGroup) (rulePriority : Z) (protoName : SecurityRuleProtocol)
    (rule : IngressRule) : list SecurityRule :=
  let srcPort := convertToAzurePortRange (ir_FromPort rule) in
  let mk p prefix prefixes asgs := buildSecurityRule p protoName DirectionInbound
    (Some emptyPort) prefix prefixes asgs (Some srcPort) None None (Some [dstAsgObj])
    (Some description) AccessAllow in
  let by_address :=
    if bool_decide (ir_FromSrcIP rule <> []) || bool_decide (ir_FromSecurityGroups rule = []) then
      let '(srcAddrPrefix, srcAddrPrefixes) := convertToAzureAddressPrefix (ir_FromSrcIP rule) in
      [mk rulePriority srcAddrPrefix srcAddrPrefixes None]
    else [] in
  let srcASGs := convertToAzureApplicationSecurityGroups (ir_FromSecurityGroups rule) agAsgs in
  (by_address ++
   if decide (srcASGs = []) then []
   else [mk (next_priority rulePriority (length by_address)) None None (Some srcASGs)])%list.

Definition convertIngressToAzureNsgSecurityRules (appliedToGroupID : CloudResourceID) (rules : list IngressRule)
    (agAsgs atAsgs : gmap string ApplicationSecurityGroup) : azError + list SecurityRule :=
  match atAsgs !! ToLower (cid_Name appliedToGroupID) with
  | None => inl (Errorf ("asg not found for applied to SG " +:+ cid_Name appliedToGroupID))
  | Some dstAsgObj =>
      match convert_rules ir_Protocol
              (ingress_security_rules (GetCloudName appliedToGroupID false) dstAsgObj agAsgs)
              ruleStartPriority rules with
      | inl e => inl e
      | inr securityRules => inr (securityRules ++ [vnet_deny_rule DirectionInbound])%list
      end
  end.

Definition egress_security_rules (description : string) (srcAsgObj : ApplicationSecurityGroup)
    (agAsgs : gmap string ApplicationSecurityGroup) (rulePriority : Z) (protoName : SecurityRuleProtocol)
    (rule : EgressRule) : list SecurityRule :=
  let dstPort := convertToAzurePortRange (er_ToPort rule) in
  let mk p prefix prefixes asgs := buildSecurityRule p protoName DirectionOutbound
    (Some emptyPort) None None (Some [srcAsgObj]) (Some dstPort) prefix prefixes asgs
    (Some description) AccessAllow in
  let by_address :=
    if bool_decide (er_ToDstIP rule <> []) || bool_decide (er_ToSecurityGroups rule = []) then
      let '(dstAddrPrefix, dstAddrPrefixes) := convertToAzureAddressPrefix (er_ToDstIP rule) in
      [mk rulePriority dstAddrPrefix dstAddrPrefixes None]
    else [] in
  let dstASGs := convertToAzureApplicationSecurityGroups (er_ToSecurityGroups rule) agAsgs in
  (by_address ++
   if decide (dstASGs = []) then []
   else [mk (next_priority rulePriority (length by_address)) None None (Some dstASGs)])%list.

Definition convertEgressToAzureNsgSecurityRules (appliedToGroupID : CloudResourceID) (rules : list EgressRule)
    (agAsgs atAsgs : gmap string ApplicationSecurityGroup) : azError + list SecurityRule :=
  match atAsgs !! ToLower (cid_Name appliedToGroupID) with
  | None => inl (Errorf ("asg not found for applied to SG " +:+ cid_Name appliedToGroupID))
  | Some srcAsgObj =>
      match convert_rules er_Protocol
              (egress_security_rules (GetCloudName appliedToGroupID false) srcAsgObj agAsgs)
              ruleStartPriority rules with
      | inl e => inl e
      | inr securityRules => inr (securityRules ++ [vnet_deny_rule DirectionOutbound])%list
      end
  end.

(** ** Rules for peered virtual networks *)

(** The groups of a rule as one security rule, when one of them is of the
    network of the appliedTo group and some are known; else the address
    [ruleIP]. *)
Definition peer_groups (appliedToGroupID : CloudResourceID) (groups : list CloudResourceID)
    (agAsgs : gmap string ApplicationSecurityGroup) : option (list ApplicationSecurityGroup) :=
  let asgs := convertToAzureApplicationSecurityGroups groups agAsgs in
  if existsb (fun g => bool_decide (cid_Vpc g = cid_Vpc appliedToGroupID)) groups && negb (bool_decide (asgs = []))
  then Some asgs else None.

Definition ingress_peer_rules (appliedToGroupID : CloudResourceID) (agAsgs : gmap string ApplicationSecurityGroup)
    (ruleIP : option string) (rulePriority : Z) (protoName : SecurityRuleProtocol) (rule : IngressRule) :
    list SecurityRule :=
  let srcPort := convertToAzurePortRange (ir_FromPort rule) in
  let mk p prefix prefixes asgs := buildPeerSecurityRule p protoName DirectionInbound
    (Some emptyPort) prefix prefixes asgs (Some srcPort) (Some emptyPort) None None
    (Some (GetCloudName appliedToGroupID false)) AccessAllow in
  let by_address :=
    if bool_decide (ir_FromSrcIP rule <> []) || bool_decide (ir_FromSecurityGroups rule = []) then
      let '(srcAddrPrefix, srcAddrPrefixes) := convertToAzureAddressPrefix (ir_FromSrcIP rule) in
      [mk rulePriority srcAddrPrefix srcAddrPrefixes None]
    else [] in
  let p := next_priority rulePriority (length by_address) in
  (by_address ++
   match peer_groups appliedToGroupID (ir_FromSecurityGroups rule) agAsgs with
   | Some asgs => [mk p None None (Some asgs)]
   | None => [mk p ruleIP None None]
   end)%list.

Definition convertIngressToAzurePeerNsgSecurityRules (appliedToGroupID : CloudResourceID) (rules : list IngressRule)
    (agAsgs : gmap string ApplicationSecurityGroup) (ruleIP : option string) : azError + list SecurityRule :=
  match convert_rules ir_Protocol (ingress_peer_rules appliedToGroupID agAsgs ruleIP) ruleStartPriority rules with
  | inl e => inl e
  | inr securityRules => inr (securityRules ++ [vnet_deny_rule DirectionInbound])%list
  end.

Definition egress_peer_rules (appliedToGroupID : CloudResourceID) (agAsgs : gmap string ApplicationSecurityGroup)
    (ruleIP : option string) (rulePriority : Z) (protoName : SecurityRuleProtocol) (rule : EgressRule) :
    list SecurityRule :=
  let dstPort := convertToAzurePortRange (er_ToPort rule) in
  let mk p prefix prefixes asgs := buildPeerSecurityRule p protoName DirectionOutbound
    (Some emptyPort) (Some emptyPort) None None (Some dstPort) prefix prefixes asgs
    (Some (GetCloudName appliedToGroupID false)) AccessAllow in
  let by_address :=
    if bool_decide (er_ToDstIP rule <> []) || bool_decide (er_ToSecurityGroups rule = []) then
      let '(dstAddrPrefix, dstAddrPrefixes) := convertToAzureAddressPrefix (er_ToDstIP rule) in
      [mk rulePriority dstAddrPrefix dstAddrPrefixes None]
    else [] in
  let p := next_priority rulePriority (length by_address) in
  (by_address ++
   match peer_groups appliedToGroupID (er_ToSecurityGroups rule) agAsgs with
   | Some asgs => [mk p None None (Some asgs)]
   | None => [mk p ruleIP None None]
   end)%list.

Definition convertEgressToAzurePeerNsgSecurityRules (appliedToGroupID : CloudResourceID) (rules : list EgressRule)
    (agAsgs : gmap string ApplicationSecurityGroup) (ruleIP : option string) : azError + list SecurityRule :=
  match convert_rules er_Protocol (egress_peer_rules appliedToGroupID agAsgs ruleIP) ruleStartPriority rules with
  | inl e => inl e
  | inr securityRules => inr (securityRules ++ [vnet_deny_rule DirectionOutbound])%list
  end.

(** ** Names and priorities *)

Definition with_priority (p : Z) (r : SecurityRule) : SecurityRule :=
  {| sr_Name := Some (rule_name p (sr_Direction r));
     sr_Protocol := sr_Protocol r;
     sr_SourcePortRange := sr_SourcePortRange r;
     sr_SourceAddressPrefix := sr_SourceAddressPrefix r;
     sr_SourceAddressPrefixes := sr_SourceAddressPrefixes r;
     sr_SourceASGs := sr_SourceASGs r;
     sr_DestinationPortRange := sr_DestinationPortRange r;
     sr_DestinationAddressPrefix := sr_DestinationAddressPrefix r;
     sr_DestinationAddressPrefixes := sr_DestinationAddressPrefixes r;
     sr_DestinationASGs := sr_DestinationASGs r;
     sr_Access := sr_Access r;
     sr_Priority := Some p;
     sr_Direction := sr_Direction r;
     sr_Description := sr_Description r |}.

(** The two loops of [updateSecurityRuleNameAndPriority]: the renumbered rules,
    and the rules with the priority of the deny rule by name.  [None] is the
    panic on a rule without priority or name. *)
Fixpoint renumber (rules : list SecurityRule) (rulePriority : Z) (defaults : gmap string SecurityRule) :
    option (list SecurityRule * gmap string SecurityRule) :=
  match rules with
  | [] => Some ([], defaults)
  | rule :: rules =>
      match sr_Priority rule with
      | None => None
      | Some p =>
          if decide (p = vnetToVnetDenyRulePriority) then
            match sr_Name rule with
            | None => None
            | Some name => renumber rules rulePriority (<[name := rule]> defaults)
            end
          else
            match renumber rules (next_priority rulePriority 1) defaults with
            | None => None
            | Some (rest, defaults') => Some (with_priority rulePriority rule :: rest, defaults')
            end
      end
  end.

Definition updateSecurityRuleNameAndPriority `{MapRange} (existingRules newRules : list SecurityRule) :
    option (list SecurityRule) :=
  match renumber (existingRules ++ newRules)%list ruleStartPriority ∅ with
  | None => None
  | Some (rules, defaultRulesByName) => Some (rules ++ map snd (go_range defaultRulesByName))%list
  end.

(** ** From security rules to rules

    [None] is the panic on a nil pointer. *)

Definition convertFromAzureProtocolToNepheControllerProtocol (p : SecurityRuleProtocol) : azError + option Z :=
  match p with
  | ProtocolAsterisk => inr None
  | ProtocolIcmp => inr (Some 1)
  | ProtocolTCP => inr (Some 6)
  | ProtocolUDP => inr (Some 17)
  | ProtocolOther name => inl (Errorf ("unsupported azure protocol " +:+ name))
  end.

Fixpoint convert_asgs (asgs : list ApplicationSecurityGroup) (vnetID : string) : option (list CloudResourceID) :=
  match asgs with
  | [] => Some []
  | asg :: asgs =>
      id ← asg_ID asg;
      rest ← convert_asgs asgs vnetID;
      match extractFieldsFromAzureResourceID id with
      | inl _ => Some rest
      | inr (_, _, asgName) =>
          let '(sgName, isAG, _) := IsNepheControllerCreatedSG asgName in
          Some (if isAG : bool then mkCloudResourceID sgName vnetID :: rest else rest)
      end
  end.

Definition convertFromAzureASGsToNepheControllerSecurityGroups (asgs : option (list ApplicationSecurityGroup))
    (vnetID : string) : option (list CloudResourceID) :=
  match asgs with None => Some [] | Some l => convert_asgs l vnetID end.

Definition convertFromAzurePrefixesToNepheControllerIPs (ipPrefix : option string) (ipPrefixes : option (list string)) :
    option (list IPNet) :=
  if decide (ipPrefix = Some emptyPort) then Some []
  else
    let first := match ipPrefix with Some p => option_list (ParseCIDR p) | None => [] end in
    match ipPrefixes with
    | None => None
    | Some ps => Some (first ++ omap ParseCIDR ps)%list
    end.

Definition convertFromAzurePortToNepheControllerPort (port : option string) : option Z :=
  match port with
  | None => None
  | Some p => if decide (p = emptyPort) then None else ParseInt32 p
  end.

Definition convertFromAzureSecurityRuleToNepheControllerIngressRule (rule : SecurityRule) (vnetID : string) :
    option (azError + IngressRule) :=
  srcIP ← convertFromAzurePrefixesToNepheControllerIPs (sr_SourceAddressPrefix rule) (sr_SourceAddressPrefixes rule);
  securityGroups ← convertFromAzureASGsToNepheControllerSecurityGroups (sr_SourceASGs rule) vnetID;
  Some (match convertFromAzureProtocolToNepheControllerProtocol (sr_Protocol rule) with
        | inl e => inl e
        | inr protoNum => inr (mkIngressRule (convertFromAzurePortToNepheControllerPort (sr_DestinationPortRange rule))
            srcIP securityGroups protoNum)
        end).

Definition convertFromAzureSecurityRuleToNepheControllerEgressRule (rule : SecurityRule) (vnetID : string) :
    option (azError + EgressRule) :=
  dstIP ← convertFromAzurePrefixesToNepheControllerIPs (sr_DestinationAddressPrefix rule) (sr_DestinationAddressPrefixes rule);
  securityGroups ← convertFromAzureASGsToNepheControllerSecurityGroups (sr_DestinationASGs rule) vnetID;
  Some (match convertFromAzureProtocolToNepheControllerProtocol (sr_Protocol rule) with
        | inl e => inl e
        | inr protoNum => inr (mkEgressRule (convertFromAzurePortToNepheControllerPort (sr_DestinationPortRange rule))
            dstIP securityGroups protoNum)
        end).

(** The rules of an NSG by the appliedTo group they were made for. *)
Fixpoint convertToNepheControllerRulesByAppliedToSGName (azureSecurityRules : list SecurityRule) (vnetID : string)
    (ingress : gmap string (list IngressRule)) (egress : gmap string (list EgressRule)) :
    option (gmap string (list IngressRule) * gmap string (list EgressRule)) :=
  match azureSecurityRules with
  | [] => Some (ingress, egress)
  | rule :: rules =>
      description ← sr_Description rule;
      let '(sgName, _, isATSg) := IsNepheControllerCreatedSG description in
      if negb isATSg then convertToNepheControllerRulesByAppliedToSGName rules vnetID ingress egress
      else
        match sr_Direction rule with
        | DirectionInbound =>
            r ← convertFromAzureSecurityRuleToNepheControllerIngressRule rule vnetID;
            convertToNepheControllerRulesByAppliedToSGName rules vnetID
              match r with
              | inl _ => ingress
              | inr i => <[sgName := (default [] (ingress !! sgName) ++ [i])%list]> ingress
              end egress
        | DirectionOutbound =>
            r ← convertFromAzureSecurityRuleToNepheControllerEgressRule rule vnetID;
            convertToNepheControllerRulesByAppliedToSGName rules vnetID ingress
              match r with
              | inl _ => egress
              | inr i => <[sgName := (default [] (egress !! sgName) ++ [i])%list]> egress
              end
        end
  end.
