(* ===== verification/AzureQuery.v ===== *)
(** * The Azure plug-in: resource graph queries

    Model of [azure_query_helpers.go] and of the query templates of
    [azure_resourcegraph_vmTable.go] and [azure_resource_graph_nwIntfTable.go].
    A Go template with [if] blocks over pointer fields is a concatenation whose
    blocks are left out when the field is nil. *)

From stdpp Require Import base strings list gmap sorting.
From Stdlib Require Import Ascii ZArith Lia.
From S2P Require Import Prelude GoStrings GoFmt AwsConverters AzureModel AzureRules Selector.

#[local] Open Scope string_scope.

(** ** Templates *)

(** [vmTableQueryParameters]; [nwIntfTableQueryParameters] has the first four
    fields. *)
Record QueryParameters := mkQueryParameters {
  q_SubscriptionIDs : option string;
  q_TenantIDs : option string;
  q_Locations : option string;
  q_VnetIDs : option string;
  q_VMNames : option string;
  q_VMIDs : option string
}.

(** A block that is printed around the value of a field that is not nil. *)
Definition if_field (field : option string) (before after : string) : string :=
  match field with Some v => before +:+ v +:+ after | None => "" end.

Definition quoted (s : string) : string := String dquote (s +:+ String dquote "").

Definition buildVmsTableQueryWithParams (q : QueryParameters) : string :=
  "Resources| where type =~ 'microsoft.compute/virtualmachines'" +:+
  "| extend subscriptionIdLowerCase = tolower(subscriptionId)" +:+
  if_field (q_SubscriptionIDs q) " | where subscriptionIdLowerCase in (" ") " +:+
  "| extend tenantIdLowerCase = tolower(tenantId)" +:+
  if_field (q_TenantIDs q) " | where tenantIdLowerCase in (" ") " +:+
  "| extend locationLowerCase = tolower(location)" +:+
  if_field (q_Locations q) " | where locationLowerCase in (" ")" +:+
  "| extend name = tolower(name)" +:+
  if_field (q_VMNames q) " | where name in (" ")" +:+
  "| extend id = tolower(id)" +:+
  if_field (q_VMIDs q) " | where id in (" ")" +:+
  "| mvexpand nic = properties.networkProfile.networkInterfaces" +:+
  "| extend nicId = tolower(tostring(nic.id))| join kind = innerunique (	Resources	" +:+
  "| where type =~ 'microsoft.network/networkinterfaces'	| extend macAddress = properties.macAddress	" +:+
  "| mvexpand ipconfig = properties.ipConfigurations	" +:+
  "| extend vnetIdArray = array_slice(split(ipconfig.properties.subnet.id, " +:+
  quoted "/" +:+
  "), 0, 8)	| extend vnetId = tolower(strcat_array(vnetIdArray, " +:+
  quoted "/" +:+
  "))	" +:+
  if_field (q_VnetIDs q) " 	| where vnetId in (" ") 	" +:+
  "	| extend publicIpId = tolower(tostring(ipconfig.properties.publicIPAddress.id))	" +:+
  "| extend nicPrivateIp = ipconfig.properties.privateIPAddress	| join kind = leftouter (		Resources		" +:+
  "| where type =~ 'microsoft.network/publicipaddresses'		" +:+
  "| project publicIpId = tolower(id), nicPublicIp = properties.ipAddress	) on publicIpId	" +:+
  "| summarize nicTags = any(tags), macAddress = any(macAddress), vnetId = any(vnetId), nicPublicIps = make_list(nicPublicIp), nicPrivateIps = make_list(nicPrivateIp) by id, name	" +:+
  "| project nicId = tolower(id), nicName = name, nicPublicIps, nicPrivateIps, vnetId, macAddress, nicTags) on nicId" +:+
  "| extend networkInterfaceDetails = pack(" +:+
  quoted "id" +:+ ", nicId, " +:+
  quoted "name" +:+ ", nicName, " +:+
  quoted "macAddress" +:+ ", macAddress, " +:+
  quoted "privateIps" +:+
  ",nicPrivateIps, " +:+
  quoted "publicIps" +:+ ", nicPublicIps, " +:+
  quoted "tags" +:+ ", nicTags, " +:+
  quoted "vnetId" +:+
  ", vnetId)" +:+
  "| summarize vnetId = any(vnetId), properties = make_bag(properties), tags = make_bag(tags), networkInterfaces = make_list(networkInterfaceDetails) by id, name" +:+
  "| project id, name, properties, status=properties.extended.instanceView.powerState.code, networkInterfaces, tags, vnetId".

Definition buildNwIntfTableQueryWithParams (q : QueryParameters) : string :=
  "Resources| where type =~ 'microsoft.network/networkinterfaces'" +:+
  "| extend subscriptionIdLowerCase = tolower(subscriptionId)" +:+
  if_field (q_SubscriptionIDs q) " | where subscriptionIdLowerCase in (" ") " +:+
  "| extend tenantIdLowerCase = tolower(tenantId)" +:+
  if_field (q_TenantIDs q) " | where tenantIdLowerCase in (" ") " +:+
  "| extend locationLowerCase = tolower(location)" +:+
  if_field (q_Locations q) " | where locationLowerCase in (" ")" +:+
  "| extend virtualMachineID = properties.virtualMachine.id" +:+
  "| extend networkSecurityGroupID = properties.networkSecurityGroup.id" +:+
  "| mvexpand ipconfig = properties.ipConfigurations" +:+
  "| extend applicationSecurityGroup = ipconfig.properties.applicationSecurityGroups" +:+
  "| extend primary = ipconfig.properties.primary| where primary =~ 'true'" +:+
  "| extend vnetIdArray = array_slice(split(ipconfig.properties.subnet.id, " +:+
  quoted "/" +:+
  "), 0, 8)| extend vnetId = tolower(strcat_array(vnetIdArray, " +:+
  quoted "/" +:+
  "))" +:+
  if_field (q_VnetIDs q) " | where vnetId in (" ") " +:+
  "| mvexpand applicationSecurityGroup| extend appId = applicationSecurityGroup.id" +:+
  "| summarize applicationSecurityGroupIDs=make_list(appId), tags=make_set(tags) by id, name, tostring(virtualMachineID), tostring(networkSecurityGroupID), tostring(vnetId)".

(** ** Queries *)

Definition subscriptionIDsNotFoundErrorMsg : azError := Errorf "subscription ID(s) required for the query".
Definition tenantIDsNotFoundErrorMsg : azError := Errorf "tenant ID(s) required for the query".
Definition locationsNotFoundErrorMsg : azError := Errorf "location/region(s) required for the query".
Definition vnetIDsNotFoundErrorMsg : azError := Errorf "vnet ID(s) required for the query".
Definition vmIDsNotFoundErrorMsg : azError := Errorf "vm ID(s) required for the query".
Definition vmNamesNotFoundErrorMsg : azError := Errorf "vm name(s) required for the query".
Definition vmIDorNameNotFoundErrorMsg : azError := Errorf "vm ID(s) or name(s) required for the query".

Notation csv := convertStrSliceToLowercaseCommaSeparatedStr.

(** Fails with [e] for a list that prints as nothing. *)
Definition required {A} (l : list string) (e : azError) (k : string -> azError + A) : azError + A :=
  let s := csv l in if decide (s = "") then inl e else k s.

(** The credentials every query carries: subscriptions, tenants, locations. *)
Definition with_account {A} (subs tenants locations : list string)
    (k : string -> string -> string -> azError + A) : azError + A :=
  required subs subscriptionIDsNotFoundErrorMsg (fun s =>
  required tenants tenantIDsNotFoundErrorMsg (fun t =>
  required locations locationsNotFoundErrorMsg (fun l => k s t l))).

Definition getVMsByVnetIDsMatchQuery (vnetIDs subs tenants locations : list string) : azError + string :=
  required vnetIDs vnetIDsNotFoundErrorMsg (fun v =>
  with_account subs tenants locations (fun s t l =>
  inr (buildVmsTableQueryWithParams (mkQueryParameters (Some s) (Some t) (Some l) (Some v) None None)))).

Definition getVMsByVMNamesMatchQuery (vmNames subs tenants locations : list string) : azError + string :=
  required vmNames vmNamesNotFoundErrorMsg (fun n =>
  with_account subs tenants locations (fun s t l =>
  inr (buildVmsTableQueryWithParams (mkQueryParameters (Some s) (Some t) (Some l) None (Some n) None)))).

Definition getVMsByVMIDsMatchQuery (vmIDs subs tenants locations : list string) : azError + string :=
  required vmIDs vmIDsNotFoundErrorMsg (fun i =>
  with_account subs tenants locations (fun s t l =>
  inr (buildVmsTableQueryWithParams (mkQueryParameters (Some s) (Some t) (Some l) None None (Some i))))).

Definition getVMsBySubscriptionIDsAndTenantIDsAndLocationsMatchQuery (subs tenants locations : list string) :
    azError + string :=
  with_account subs tenants locations (fun s t l =>
  inr (buildVmsTableQueryWithParams (mkQueryParameters (Some s) (Some t) (Some l) None None None))).

Definition getVMsByVnetAndOtherMatchesQuery (vnetIDs vmNames vmIDs subs tenants locations : list string) : azError + string :=
  with_account subs tenants locations (fun s t l =>
  required vnetIDs vnetIDsNotFoundErrorMsg (fun v =>
  let i := csv vmIDs in
  let n := csv vmNames in
  if decide (i = "" /\ n = "") then inl vmIDorNameNotFoundErrorMsg
  else inr (buildVmsTableQueryWithParams (mkQueryParameters (Some s) (Some t) (Some l) (Some v)
              (if decide (n = "") then None else Some n) (if decide (n = "") then Some i else None))))).

Definition getNwIntfsByVnetIDsAndSubscriptionIDsAndTenantIDsAndLocationsMatchQuery
    (vnetIDs subs tenants locations : list string) : azError + string :=
  required vnetIDs vnetIDsNotFoundErrorMsg (fun v =>
  with_account subs tenants locations (fun s t l =>
  inr (buildNwIntfTableQueryWithParams (mkQueryParameters (Some s) (Some t) (Some l) (Some v) None None)))).

(** ** Selectors ([azure_query_helpers.go]) *)

Record AzMatches := mkAzMatches {
  az_vpcIDOnly : gset string;
  az_vpcIDWithOther : list VirtualMachineSelector;
  az_vmIDOnly : list EntityMatch;
  az_vmIDAndVMName : list EntityMatch;
  az_vmNameOnly : list EntityMatch
}.

(** Loop over the [VMMatch] of one selector. *)
Fixpoint az_sort_vm_matches (s : VirtualMachineSelector) (l : list EntityMatch) (acc : AzMatches) : AzMatches :=
  match l with
  | [] => acc
  | m :: l =>
      let id := given (MatchID m) in
      let name := given (MatchName m) in
      if vpc_id_given s && (id || name) then
        if decide (vpc_id s ∈ az_vpcIDOnly acc) then acc
        else mkAzMatches (az_vpcIDOnly acc) (az_vpcIDWithOther acc ++ [s]) (az_vmIDOnly acc) (az_vmIDAndVMName acc) (az_vmNameOnly acc)
      else
        let acc := if id && negb name && negb (vpc_id_given s)
          then mkAzMatches (az_vpcIDOnly acc) (az_vpcIDWithOther acc) (az_vmIDOnly acc ++ [m]) (az_vmIDAndVMName acc) (az_vmNameOnly acc)
          else acc in
        let acc := if id && name && negb (vpc_id_given s)
          then mkAzMatches (az_vpcIDOnly acc) (az_vpcIDWithOther acc) (az_vmIDOnly acc) (az_vmIDAndVMName acc ++ [m]) (az_vmNameOnly acc)
          else acc in
        let acc := if name && negb id && negb (vpc_id_given s)
          then mkAzMatches (az_vpcIDOnly acc) (az_vpcIDWithOther acc) (az_vmIDOnly acc) (az_vmIDAndVMName acc) (az_vmNameOnly acc ++ [m])
          else acc in
        az_sort_vm_matches s l acc
  end.

(** Loop over the selectors; [None] when one of them selects everything. *)
Fixpoint az_sort_selectors (l : list VirtualMachineSelector) (acc : AzMatches) : option AzMatches :=
  match l with
  | [] => Some acc
  | s :: l =>
      if negb (vpc_id_given s) && bool_decide (VMMatch s = []) then None
      else
        let acc := if vpc_id_given s && bool_decide (VMMatch s = [])
          then mkAzMatches ({[vpc_id s]} ∪ az_vpcIDOnly acc) (az_vpcIDWithOther acc) (az_vmIDOnly acc) (az_vmIDAndVMName acc) (az_vmNameOnly acc)
          else acc in
        az_sort_selectors l (az_sort_vm_matches s (VMMatch s) acc)
  end.

Section Queries.
Context `{MapRange} (subs tenants locations : list string).

(** A query for a list of values, none for no value. *)
Definition query_for (l : list string) (get : list string -> list string -> list string -> list string -> azError + string) :
    azError + list string :=
  if decide (l = []) then inr []
  else match get (sort_strings l) subs tenants locations with inl e => inl e | inr q => inr [q] end.

Definition buildQueryForVpcIDOnlyMatches (vpcIDs : gset string) : azError + list string :=
  query_for (set_range vpcIDs) getVMsByVnetIDsMatchQuery.
Definition buildQueryForVMNameOnlyMatches (l : list EntityMatch) : azError + list string :=
  query_for (map MatchName l) getVMsByVMNamesMatchQuery.
Definition buildQueryForVMIDOnlyMatches (l : list EntityMatch) : azError + list string :=
  query_for (map MatchID l) getVMsByVMIDsMatchQuery.

(** Collects the values of a list of computations; the first error ends it. *)
Fixpoint all_of {A} (l : list (azError + A)) : azError + list A :=
  match l with
  | [] => inr []
  | inl e :: _ => inl e
  | inr a :: l => match all_of l with inl e => inl e | inr rest => inr (a :: rest) end
  end.

Definition vm_match_query (s : VirtualMachineSelector) (m : EntityMatch) : azError + string :=
  getVMsByVnetAndOtherMatchesQuery [vpc_id s]
    (sort_strings (if given (MatchName m) then [MatchName m] else []))
    (sort_strings (if given (MatchID m) then [MatchID m] else [])) subs tenants locations.

Definition buildFilterForVpcIDWithOtherMatches (l : list VirtualMachineSelector) (vpcOnly : gset string) :
    azError + list string :=
  all_of (flat_map (fun s => if decide (vpc_id s ∈ vpcOnly) then [] else map (vm_match_query s) (VMMatch s)) l).

(** [buildQueries]; the empty list (nil) stands for no restriction. *)
Definition buildQueries (vmSelector : list VirtualMachineSelector) : azError + list string :=
  match az_sort_selectors vmSelector (mkAzMatches ∅ [] [] [] []) with
  | None => inr []
  | Some ms =>
      match all_of [buildQueryForVpcIDOnlyMatches (az_vpcIDOnly ms);
                    buildFilterForVpcIDWithOtherMatches (az_vpcIDWithOther ms) (az_vpcIDOnly ms);
                    buildQueryForVMNameOnlyMatches (az_vmNameOnly ms);
                    buildQueryForVMIDOnlyMatches (az_vmIDOnly ms)] with
      | inl e => inl e
      | inr qss => inr (concat qss)
      end
  end.

Definition convertSelectorToComputeQuery (selector : option CloudEntitySelector) : list string * bool :=
  match selector with
  | None => ([], false)
  | Some s => match buildQueries (ces_VMSelector s) with inl _ => ([], false) | inr qs => (qs, true) end
  end.

(** [SetResourceFilters] of the compute service: its filters, and whether the
    snapshot is dropped. *)
Definition az_SetResourceFilters (selector : option CloudEntitySelector) (computeFilters : gmap string (list string)) :
    gmap string (list string) * bool :=
  match convertSelectorToComputeQuery selector with
  | (filters, true) =>
      (match selector with Some s => <[ces_name s := filters]> computeFilters | None => computeFilters end, false)
  | (_, false) =>
      (match selector with Some s => delete (ces_name s) computeFilters | None => computeFilters end, true)
  end.

(** [getComputeResourceFilters]. *)
Definition getComputeResourceFilters (computeFilters : gmap string (list string)) : list string * bool :=
  if decide (computeFilters = ∅) then ([], false)
  else
    let fss := map snd (go_range computeFilters) in
    if existsb (fun fs => bool_decide (fs = [])) fss then
      match getVMsBySubscriptionIDsAndTenantIDsAndLocationsMatchQuery subs tenants locations with
      | inl _ => ([], false)
      | inr q => ([q], true)
      end
    else (concat fss, true).

End Queries.
