(* ===== verification/VirtualMachine.v ===== *)
(** * Virtual machine objects

    The [VirtualMachine] resource ([virtualmachine_types.go]), how the plug-ins
    make one of an instance of their cloud ([crd_generator.go],
    [aws_crd_helpers.go], [azure_crd_helpers.go]). *)

From stdpp Require Import base strings list gmap.
From Stdlib Require Import Ascii ZArith Lia.
From S2P Require Import Prelude GoStrings SecurityGroup AzureModel AzureRules.

#[local] Open Scope string_scope.
#[local] Open Scope Z_scope.

(** ** The resource *)

(** [AddressType], [VMState] and [CloudProvider] are strings in Go; these are
    the values the code uses, a state of EC2 is taken over as it is. *)
Inductive AddressType := AddressTypeHostName | AddressTypeInternalIP | AddressTypeExternalIP.
Record IPAddress := mkIPAddress { ip_AddressType : AddressType; ip_Address : string }.
Record VMNetworkInterface := mkVMNetworkInterface {
  vni_Name : string;
  vni_MAC : string;
  vni_IPs : list IPAddress
}.
Record VirtualMachineStatus := mkVMStatus {
  vs_Provider : string;
  vs_VirtualPrivateCloud : string;
  vs_Tags : gmap string string;
  vs_NetworkInterfaces : list VMNetworkInterface;
  vs_State : string
}.

(** An owner reference: kind and name. *)
Record OwnerReference := mkOwner { or_Kind : string; or_Name : string }.

Record VirtualMachine := mkVM {
  vm_Name : string;
  vm_Namespace : string;
  vm_Annotations : gmap string string;
  vm_OwnerReferences : list OwnerReference;
  vm_Status : VirtualMachineStatus
}.

#[export] Instance AddressType_eq_dec : EqDecision AddressType.
Proof. solve_decision. Defined.
#[export] Instance IPAddress_eq_dec : EqDecision IPAddress.
Proof. solve_decision. Defined.
#[export] Instance VMNetworkInterface_eq_dec : EqDecision VMNetworkInterface.
Proof. solve_decision. Defined.
#[export] Instance VirtualMachineStatus_eq_dec : EqDecision VirtualMachineStatus.
Proof. solve_decision. Defined.
#[export] Instance OwnerReference_eq_dec : EqDecision OwnerReference.
Proof. solve_decision. Defined.
#[export] Instance VirtualMachine_eq_dec : EqDecision VirtualMachine.
Proof. solve_decision. Defined.

Definition Running : string := "running".
Definition Stopped : string := "stopped".
Definition Stopping : string := "stopping".
Definition ShuttingDown : string := "shutting down".
Definition Starting : string := "starting".
Definition Unknown : string := "unknown".

(** The name [%v] prints for an address type. *)
Definition AddressType_String (t : AddressType) : string :=
  match t with
  | AddressTypeHostName => "HostName" | AddressTypeInternalIP => "InternalIP" | AddressTypeExternalIP => "ExternalIP"
  end.

(** [GetVMIPAddresses] of [pkg/controllers/utils]. *)
Definition GetVMIPAddresses (vm : VirtualMachine) : list IPAddress :=
  flat_map vni_IPs (vs_NetworkInterfaces (vm_Status vm)).

(** ** [crd_generator.go] *)

Definition AnnotationCloudAssignedIDKey : string := "cloud-assigned-id".
Definition AnnotationCloudAssignedNameKey : string := "cloud-assigned-name".
Definition AnnotationCloudAssignedVPCIDKey : string := "cloud-assigned-vpc-id".
Definition NetworkInterfaceCRDKind : string := "NetworkInterface".

(** The object, without its random UID. *)
Definition GenerateVirtualMachineCRD (crdName cloudName cloudID namespace cloudNetwork shortNetworkID state : string)
    (tags : gmap string string) (networkInterfaces : list VMNetworkInterface) (provider : string) : VirtualMachine :=
  mkVM crdName namespace
    (<[AnnotationCloudAssignedVPCIDKey := cloudNetwork]>
      (<[AnnotationCloudAssignedNameKey := cloudName]>
        {[AnnotationCloudAssignedIDKey := cloudID]}))
    [] (mkVMStatus provider shortNetworkID tags networkInterfaces state).

Definition uint32 (z : Z) : Z := z mod 2 ^ 32.

(** The sum of the bytes of a string, in 32 bits. *)
Fixpoint byte_sum (sum : Z) (s : string) : Z :=
  match s with
  | EmptyString => sum
  | String c s => byte_sum (uint32 (sum + Z.of_nat (nat_of_ascii c))) s
  end.

Definition is_blank (c : ascii) : bool := bool_decide (c = " "%char).

Definition GenerateShortResourceIdentifier (id prefixToAdd : string) : string :=
  let idTrim := Trim is_blank id in
  if decide (idTrim = "") then ""
  else ToLower prefixToAdd +:+ "-" +:+ Itoa (byte_sum 0 (ToLower idTrim)).

(** ** EC2 instances *)

(** The private addresses of an interface, each with its public one. *)
Record Ec2NetworkInterface := mkEc2Nic {
  eni_Id : string;
  eni_Mac : string;
  eni_Addresses : list (string * option string)
}.
Record Ec2VM := mkEc2VM {
  evm_InstanceId : string;
  evm_VpcId : string;
  evm_Tags : list (string * string);
  evm_NetworkInterfaces : list Ec2NetworkInterface;
  evm_State : string
}.

Definition ResourceNameTagKey : string := "Name".

Definition ec2_nic (n : Ec2NetworkInterface) : VMNetworkInterface :=
  mkVMNetworkInterface (eni_Id n) (eni_Mac n)
    (flat_map (fun '(private, public) =>
       mkIPAddress AddressTypeInternalIP private ::
       match public with Some p => [mkIPAddress AddressTypeExternalIP p] | None => [] end) (eni_Addresses n)).

Definition ec2InstanceToVirtualMachineCRD (instance : Ec2VM) (namespace : string) : VirtualMachine :=
  let tags := fold_left (fun m '(k, v) => <[k := v]> m) (evm_Tags instance) (∅ : gmap string string) in
  GenerateVirtualMachineCRD (evm_InstanceId instance) (default "" (tags !! ResourceNameTagKey)) (evm_InstanceId instance)
    namespace (evm_VpcId instance) (evm_VpcId instance) (evm_State instance) tags
    (map ec2_nic (evm_NetworkInterfaces instance)) "AWS".

(** ** Azure virtual machines *)

Definition azureStateMap (status : string) : string :=
  if decide (status = "PowerState/running") then Running
  else if decide (status = "PowerState/deallocated") then Stopped
  else if decide (status = "PowerState/deallocating") then ShuttingDown
  else if decide (status = "PowerState/stopping") then Stopping
  else if decide (status = "PowerState/stopped") then Stopped
  else if decide (status = "PowerState/starting") then Starting
  else if decide (status = "PowerState/unknown") then Unknown
  else "".

(** The public addresses are recorded as internal ones, too. *)
Definition azure_nic (n : vmNetworkInterface) : VMNetworkInterface :=
  mkVMNetworkInterface (vmn_ID n) (default "" (vmn_MacAddress n))
    (map (mkIPAddress AddressTypeInternalIP) (vmn_PrivateIps n) ++
     map (mkIPAddress AddressTypeInternalIP) (vmn_PublicIps n))%list.

Definition is_nephe_tag (key : string) : bool :=
  let '(_, hasAGPrefix, hasATPrefix) := IsNepheControllerCreatedSG key in hasAGPrefix || hasATPrefix.

(** [None] (nil) for a virtual network whose identifier has not the form of
    one. *)
Definition computeInstanceToVirtualMachineCRD (instance : virtualMachineTable) (namespace : string) : option VirtualMachine :=
  let tags := filter (fun '(k, _) => is_nephe_tag k = false) (vmt_Tags instance) in
  let cloudNetworkID := ToLower (vmt_VnetID instance) in
  let cloudID := ToLower (vmt_ID instance) in
  let cloudName := ToLower (vmt_Name instance) in
  let crdName := GenerateShortResourceIdentifier cloudID cloudName in
  match extractFieldsFromAzureResourceID cloudNetworkID with
  | inl _ => None
  | inr (_, _, nwResName) =>
      Some (GenerateVirtualMachineCRD crdName (ToLower cloudName) (ToLower cloudID) namespace (ToLower cloudNetworkID)
        (GenerateShortResourceIdentifier cloudNetworkID nwResName)
        (match vmt_Status instance with Some s => azureStateMap s | None => Unknown end) tags
        (map azure_nic (vmt_NetworkInterfaces instance)) "Azure")
  end.
