(* ===== verification/AzureSecurity.v ===== *)
(** * The Azure plug-in: security groups

    Model of [azure_security.go], [azure_nsg.go], [azure_asg.go] and
    [azure_network_interfaces.go].  One network security group (NSG) per virtual
    network holds the rules of all appliedTo groups; every group has an
    application security group (ASG) its members are in.

    The goroutines of [processNsgAttachDetachConcurrently] and
    [processAsgAttachDetachConcurrently] update one interface each: they are run
    one after the other.  The channel they send on is closed when as many of
    them are done as there are identifiers, not interfaces found. *)

From stdpp Require Import base strings list gmap.
From Stdlib Require Import Ascii ZArith Lia.
From S2P Require Import Prelude GoStrings SecurityGroup AwsConverters AzureModel AzureRules AzureQuery VirtualMachine.

#[local] Open Scope string_scope.
#[local] Open Scope Z_scope.

(** ** The compute service of an account *)

Record azureAccountConfig := mkAzureAccount {
  aac_SubscriptionID : string;
  aac_TenantID : string;
  aac_region : string
}.

(** [computeResourcesCacheSnapshot], as far as the security code reads it: the
    virtual networks, and the peers of each as identifier, destination and
    source prefix. *)
Record computeResourcesCacheSnapshot := mkComputeSnapshot {
  csn_vnetIDs : gset string;
  csn_vnetPeers : gmap string (list (string * string * string))
}.
Record computeServiceConfig := mkComputeService {
  comp_accountName : string;
  comp_credentials : azureAccountConfig;
  comp_snapshot : option computeResourcesCacheSnapshot;
  comp_computeFilters : gmap string (list string)
}.
Record AzAccount := mkAzAccount { azacc_name : string; azacc_compute : azError + computeServiceConfig }.

Definition getCachedVnetIDs (cfg : computeServiceConfig) : gset string :=
  match comp_snapshot cfg with None => ∅ | Some s => csn_vnetIDs s end.

Definition getVnetPeers (cfg : computeServiceConfig) (vnetID : string) : list (string * string * string) :=
  match comp_snapshot cfg with
  | None => []
  | Some s => default [] (csn_vnetPeers s !! vnetID)
  end.

(** Some peer of the network is managed, too. *)
Definition ifPeerProcessing (cfg : computeServiceConfig) (vnetID : string) : bool :=
  existsb (fun p => bool_decide (p.1.1 ∈ getCachedVnetIDs cfg)) (getVnetPeers cfg vnetID).

Fixpoint getVnetAccount (accounts : list AzAccount) (vpcID : string) : option AzAccount :=
  match accounts with
  | [] => None
  | acc :: accounts =>
      match azacc_compute acc with
      | inl _ => getVnetAccount accounts vpcID
      | inr cfg =>
          if decide (ToLower vpcID ∈ getCachedVnetIDs cfg) then Some acc else getVnetAccount accounts vpcID
      end
  end.

(** The name of the NSG of a virtual network: the last element of the
    identifier makes it differ from those of other networks. *)
Definition perVnetNsgName (vnetID : string) : string :=
  GetCloudName (mkCloudResourceID appliedToSecurityGroupNamePerVnet vnetID) false +:+ "-" +:+
  default "" (last (Split "/"%char vnetID)).

(** ** Network interfaces ([azure_network_interfaces.go]) *)

(** The ASGs of the first primary configuration; [None] panics. *)
Fixpoint primary_asgs (ipConfigurations : list IPConfiguration) : option (list ApplicationSecurityGroup) :=
  match ipConfigurations with
  | [] => Some []
  | c :: cs =>
      match ipc_Primary c with
      | None => None
      | Some true => Some (default [] (ipc_ASGs c))
      | Some false => primary_asgs cs
      end
  end.

Fixpoint asgs_without (id : string) (asgs : list ApplicationSecurityGroup) : option (list ApplicationSecurityGroup) :=
  match asgs with
  | [] => Some []
  | a :: asgs =>
      aid ← asg_ID a;
      rest ← asgs_without id asgs;
      Some (if decide (id = ToLower aid) then rest else a :: rest)
  end.

(** Every configuration gets the new list: the properties a configuration embeds
    are a pointer, so the loop over copies reaches the object. *)
Definition getAsgUpdatedIPConfigurations (nwIntf : Interface) (asg : ApplicationSecurityGroup) (isAttach : bool) :
    option (list IPConfiguration) :=
  current ← primary_asgs (nif_IPConfigurations nwIntf);
  new ← (if isAttach then Some (current ++ [asg])%list
         else id ← asg_ID asg; asgs_without (ToLower id) current);
  Some (map (fun c => mkIPConfiguration (ipc_Primary c) (Some new)) (nif_IPConfigurations nwIntf)).

Definition hasAnyNepheControllerSecurityGroupTags (tags : gmap string string) : bool :=
  bool_decide (Exists (fun kv => (IsNepheControllerCreatedSG kv.1).2 = true) (map_to_list tags)).

Definition getUpdatedNetworkInterfaceNsgAndTags (nwIntf : Interface) (nsg : NetworkSecurityGroup) (isAttach : bool)
    (tagKey : string) : option NetworkSecurityGroup * option (gmap string string) :=
  if isAttach then
    (Some nsg, Some (<[tagKey := "true"]> (default ∅ (nif_Tags nwIntf))))
  else
    let tags := delete tagKey <$> nif_Tags nwIntf in
    (if hasAnyNepheControllerSecurityGroupTags (default ∅ tags) then nif_NSG nwIntf else None, tags).

(** Resource group and name of an interface; the error is ignored. *)
Definition nic_location (id : string) : string * string :=
  match extractFieldsFromAzureResourceID id with inr (_, rg, name) => (rg, name) | inl _ => ("", "") end.

(** ** NSGs and ASGs ([azure_nsg.go], [azure_asg.go]) *)

Definition getNepheControllerCreatedAsgs (asgs : list ApplicationSecurityGroup) :
    gmap string ApplicationSecurityGroup * gmap string ApplicationSecurityGroup :=
  fold_left (fun acc asg =>
    let '(ag, at_) := acc in
    match asg_Name asg with
    | None => acc
    | Some name =>
        let '(sgName, isAG, isAT) := IsNepheControllerCreatedSG name in
        if isAT then (ag, <[ToLower sgName := asg]> at_)
        else if isAG then (<[ToLower sgName := asg]> ag, at_) else acc
    end) asgs (∅, ∅).

Section Azure.
Context {AZ : Azure} {RNG : MapRange}.

(** [get], where the status 404 means that there is none; other errors than the
    SDK's detailed ones fail the type assertion. *)
Definition create_or_get {A} (ID : A -> option string) (get create : ZM A) : ZM string :=
  r ← zattempt get;
  known ← match r with
          | inr a => mret (ID a)
          | inl e =>
              match e_StatusCode e with
              | None => zpanic
              | Some 404 => mret None
              | Some _ => zfail e
              end
          end;
  match known with
  | Some id => mret (ToLower id)
  | None => a ← create; id ← zderef (ID a); mret (ToLower id)
  end.

Definition createOrGetNetworkSecurityGroup (location rgName cloudSgName : string) : ZM string :=
  create_or_get nsg_ID (zapi (nsg_get rgName cloudSgName)) (zapi (nsg_createOrUpdate rgName cloudSgName location None)).

Definition createOrGetApplicationSecurityGroup (location rgName cloudAsgName : string) : ZM string :=
  create_or_get asg_ID (zapi (asg_get rgName cloudAsgName)) (zapi (asg_createOrUpdate rgName cloudAsgName location)).

Definition updateNetworkSecurityGroupRules (location rgName cloudSgName : string) (rules : list SecurityRule) : ZM unit :=
  zapi (nsg_createOrUpdate rgName cloudSgName location (Some rules));; mret tt.

Definition getNepheControllerCreatedAsgByNameForResourceGroup (rgName : string) :
    ZM (gmap string ApplicationSecurityGroup * gmap string ApplicationSecurityGroup) :=
  asgs ← zapi (asg_listComplete rgName);
  mret (getNepheControllerCreatedAsgs asgs).

(** ** Attaching and detaching *)

Definition updateNetworkInterfaceAsg (nwIntf : Interface) (asg : ApplicationSecurityGroup) (isAttach : bool) : ZM unit :=
  match nif_ID nwIntf with
  | None => zfail (Errorf "network interface object is empty")
  | Some id =>
      let '(rgName, resName) := nic_location id in
      ipConfigurations ← zderef (getAsgUpdatedIPConfigurations nwIntf asg isAttach);
      zapi (nic_createOrUpdate rgName resName
        (mkInterface (nif_ID nwIntf) ipConfigurations (nif_NSG nwIntf) (nif_Tags nwIntf)))
  end.

Definition updateNetworkInterfaceNsg (nwIntf : Interface) (nsg : NetworkSecurityGroup) (asg : ApplicationSecurityGroup)
    (isAttach : bool) (tagKey : string) : ZM unit :=
  match nif_ID nwIntf with
  | None => zfail (Errorf "network interface object is empty")
  | Some id =>
      let '(rgName, resName) := nic_location id in
      let '(nsg', tags) := getUpdatedNetworkInterfaceNsgAndTags nwIntf nsg isAttach tagKey in
      ipConfigurations ← zderef (getAsgUpdatedIPConfigurations nwIntf asg isAttach);
      zapi (nic_createOrUpdate rgName resName (mkInterface (nif_ID nwIntf) ipConfigurations nsg' tags))
  end.

(** The interfaces with the given (lower-case) identifiers. *)
Fixpoint interfaces_given (objs : list Interface) (ids : gset string) (acc : gmap string Interface) :
    option (gmap string Interface) :=
  match objs with
  | [] => Some acc
  | o :: objs =>
      id ← nif_ID o;
      interfaces_given objs ids (if decide (ToLower id ∈ ids) then <[ToLower id := o]> acc else acc)
  end.

Definition getNetworkInterfacesGivenIDs (ids : gset string) : ZM (gmap string Interface) :=
  objs ← zapi nic_listAllComplete;
  zderef (interfaces_given objs ids ∅).

(** Every interface is tried; the errors are collected. *)
Fixpoint update_interfaces (update : Interface -> bool -> ZM unit) (toAttach : gset string) (todo : list Interface) :
    ZM (list azError) :=
  match todo with
  | [] => mret []
  | o :: todo =>
      id ← zderef (nif_ID o);
      r ← zattempt (update o (bool_decide (ToLower id ∈ toAttach)));
      es ← update_interfaces update toAttach todo;
      mret (match r with inl e => e :: es | inr _ => es end)
  end.

Definition joined (e : azError) (es : list azError) : azError :=
  Errorf (fold_left (fun m e => m +:+ "; " +:+ e_Error e) es (e_Error e)).

(** [processNsgAttachDetachConcurrently] and [processAsgAttachDetachConcurrently],
    for the update of one interface: an error of the listing is dropped; an
    identifier without interface leaves the wait group above zero. *)
Definition attach_detach_concurrently (update : Interface -> bool -> ZM unit) (toAttach toDetach : gset string) : ZM unit :=
  let all := mergeSet [toAttach; toDetach] in
  r ← zattempt (getNetworkInterfacesGivenIDs all);
  match r with
  | inl _ => mret tt
  | inr objs =>
      es ← update_interfaces update toAttach (map snd (go_range objs));
      if decide (size objs = size all) then
        match es with [] => mret tt | e :: es => zfail (joined e es) end
      else zblock
  end.

Definition processNsgAttachDetachConcurrently (nsg : NetworkSecurityGroup) (asg : ApplicationSecurityGroup)
    (toAttach toDetach : gset string) (tagKey : string) : ZM unit :=
  attach_detach_concurrently (fun o isAttach => updateNetworkInterfaceNsg o nsg asg isAttach tagKey) toAttach toDetach.

Definition processAsgAttachDetachConcurrently (asg : ApplicationSecurityGroup) (toAttach toDetach : gset string) : ZM unit :=
  attach_detach_concurrently (fun o isAttach => updateNetworkInterfaceAsg o asg isAttach) toAttach toDetach.

Definition getNetworkInterfacesOfVnet (cfg : computeServiceConfig) (vnetIDs : gset string) : ZM (list networkInterfaceTable) :=
  let cred := comp_credentials cfg in
  query ← zlift (getNwIntfsByVnetIDsAndSubscriptionIDsAndTenantIDsAndLocationsMatchQuery (set_range vnetIDs)
    [aac_SubscriptionID cred] [aac_TenantID cred] [aac_region cred]);
  zapi (networkInterfaceRows query [aac_SubscriptionID cred]).

(** What a row says of the membership: the virtual machine it belongs to, unless
    it is skipped. *)
Definition row_vm (row : networkInterfaceTable) : option string :=
  match nit_VirtualMachineID row with
  | None => None
  | Some vm => if decide (vm = "") then None else Some vm
  end.

Definition is_member (members : gset string * gset string) (vmID : string) (row : networkInterfaceTable) : bool :=
  bool_decide (ToLower vmID ∈ members.1) || bool_decide (ToLower (nit_ID row) ∈ members.2).

(** Is the NSG of the network attached to the interface, for this group? *)
Definition nsg_attached (perVnetNsg cloudSgName : string) (row : networkInterfaceTable) : azError + bool :=
  match nit_NetworkSecurityGroupID row with
  | None => inr false
  | Some nsgID =>
      if decide (nsgID = "") then inr false
      else match extractFieldsFromAzureResourceID (ToLower nsgID) with
      | inl e => inl e
      | inr (_, _, nsgName) =>
          match nit_Tags row with
          | [] => inr false
          | tags :: _ => inr (bool_decide (nsgName = perVnetNsg) && bool_decide (is_Some (tags !! cloudSgName)))
          end
      end
  end.

(** Is the ASG attached to the interface? *)
Definition asg_attached (cloudAsgName : string) (row : networkInterfaceTable) : azError + bool :=
  inr (existsb (fun asgID =>
    match extractFieldsFromAzureResourceID (ToLower asgID) with
    | inl _ => false
    | inr (_, _, asgName) =>
        let '(_, isAG, _) := IsNepheControllerCreatedSG asgName in
        isAG && bool_decide (asgName = cloudAsgName)
    end) (nit_ASGIDs row)).

(** The loops over the interfaces: those to attach and those to detach. *)
Fixpoint attach_detach_sets (attached : networkInterfaceTable -> azError + bool) (members : gset string * gset string)
    (rows : list networkInterfaceTable) (acc : gset string * gset string) : azError + (gset string * gset string) :=
  match rows with
  | [] => inr acc
  | row :: rows =>
      match row_vm row with
      | None => attach_detach_sets attached members rows acc
      | Some vmID =>
          match attached row with
          | inl e => inl e
          | inr is_attached =>
              let id := ToLower (nit_ID row) in
              attach_detach_sets attached members rows
                (if is_attached then
                   if negb (is_member members vmID row) then (acc.1, {[id]} ∪ acc.2) else acc
                 else if is_member members vmID row then ({[id]} ∪ acc.1, acc.2) else acc)
          end
      end
  end.

Definition processAppliedToMembership (id : CloudResourceID) (rows : list networkInterfaceTable) (rgName : string)
    (members : gset string * gset string) (isPeer : bool) : ZM unit :=
  let perVnetNsg := perVnetNsgName (cid_Vpc id) in
  let cloudSgName := GetCloudName id isPeer in
  nsg ← zapi (nsg_get rgName perVnetNsg);
  asg ← zapi (asg_get rgName cloudSgName);
  sets ← zlift (attach_detach_sets (nsg_attached perVnetNsg cloudSgName) members rows (∅, ∅));
  processNsgAttachDetachConcurrently nsg asg sets.1 sets.2 (GetCloudName id false).

Definition processAddressGroupMembership (id : CloudResourceID) (rows : list networkInterfaceTable) (rgName : string)
    (members : gset string * gset string) : ZM unit :=
  let cloudAsgName := GetCloudName id true in
  asg ← zapi (asg_get rgName cloudAsgName);
  sets ← zlift (attach_detach_sets (asg_attached cloudAsgName) members rows (∅, ∅));
  processAsgAttachDetachConcurrently asg sets.1 sets.2.

(** [updateSecurityGroupMembers] of the compute service. *)
Definition az_updateSecurityGroupMembers (cfg : computeServiceConfig) (id : CloudResourceID) (resources : list CloudResource)
    (membershipOnly : bool) : ZM unit :=
  rows ← getNetworkInterfacesOfVnet cfg {[cid_Vpc id]};
  let members := FindResourcesBasedOnKind resources in
  fields ← zlift (extractFieldsFromAzureResourceID (cid_Vpc id));
  let rgName := fields.1.2 in
  if ifPeerProcessing cfg (cid_Vpc id) then
    if membershipOnly then processAppliedToMembership id rows rgName members true else mret tt
  else if membershipOnly then processAddressGroupMembership id rows rgName members
  else processAppliedToMembership id rows rgName members false.

(** ** Rules *)

(** The rules of an NSG that were made for other appliedTo groups. *)
Definition other_groups_rule (appliedToGroupName : string) (r : SecurityRule) : bool :=
  match sr_Description r with
  | None => false
  | Some d => (IsNepheControllerCreatedSG d).2 && negb (bool_decide (d = appliedToGroupName))
  end.

Definition current_rules (id : CloudResourceID) (d : SecurityRuleDirection) (rules : list SecurityRule) : list SecurityRule :=
  filter (fun r => sr_Direction r = d) (filter (fun r => other_groups_rule (GetCloudName id false) r = true) rules).

(** The new rules of both directions behind those of the other groups. *)
Definition effective_rules (id : CloudResourceID) (current newIngress newEgress : list SecurityRule) :
    option (list SecurityRule) :=
  allIngress ← updateSecurityRuleNameAndPriority (current_rules id DirectionInbound current) newIngress;
  allEgress ← updateSecurityRuleNameAndPriority (current_rules id DirectionOutbound current) newEgress;
  Some (allIngress ++ allEgress)%list.

Definition buildEffectiveNSGSecurityRulesToApply (id : CloudResourceID) (ingressRules : list IngressRule)
    (egressRules : list EgressRule) (perVnetNsg rgName : string) : ZM (list SecurityRule) :=
  nsg ← zapi (nsg_get rgName perVnetNsg);
  current ← zderef (nsg_SecurityRules nsg);
  asgs ← getNepheControllerCreatedAsgByNameForResourceGroup rgName;
  newIngress ← zlift (convertIngressToAzureNsgSecurityRules id ingressRules asgs.1 asgs.2);
  newEgress ← zlift (convertEgressToAzureNsgSecurityRules id egressRules asgs.1 asgs.2);
  zderef (effective_rules id current newIngress newEgress).

Definition buildEffectivePeerNSGSecurityRulesToApply (id : CloudResourceID) (ingressRules : list IngressRule)
    (egressRules : list EgressRule) (perVnetNsg rgName : string) (ruleIP : option string) : ZM (list SecurityRule) :=
  nsg ← zapi (nsg_get rgName perVnetNsg);
  current ← zderef (nsg_SecurityRules nsg);
  asgs ← getNepheControllerCreatedAsgByNameForResourceGroup rgName;
  newIngress ← zlift (convertIngressToAzurePeerNsgSecurityRules id ingressRules asgs.1 ruleIP);
  newEgress ← zlift (convertEgressToAzurePeerNsgSecurityRules id egressRules asgs.1 ruleIP);
  zderef (effective_rules id current newIngress newEgress).

(** The ASGs of a rule without the one of a deleted group, nil if none is left,
    and whether there was one. *)
Fixpoint asgs_to_keep (asgs : list ApplicationSecurityGroup) (name : string) :
    option (list ApplicationSecurityGroup * bool) :=
  match asgs with
  | [] => Some ([], false)
  | asg :: asgs =>
      id ← asg_ID asg;
      rest ← asgs_to_keep asgs name;
      let '(keep, updated) := rest : list ApplicationSecurityGroup * bool in
      Some (match extractFieldsFromAzureResourceID id with
            | inl _ => (keep, updated)
            | inr (_, _, asgName) =>
                if decide (ToLower asgName = name) then (keep, true) else (asg :: keep, updated)
            end)
  end.

Definition getAsgsToAdd (asgs : list ApplicationSecurityGroup) (name : string) :
    option (option (list ApplicationSecurityGroup) * bool) :=
  r ← asgs_to_keep asgs name;
  Some (if decide (r.1 = []) then None else Some r.1, r.2).

(** Source or destination ASGs of a rule: were they updated, and did none
    remain? *)
Definition asgs_updated (asgs : option (list ApplicationSecurityGroup)) (name : string) : option (bool * bool) :=
  match asgs with
  | None | Some [] => Some (false, false)
  | Some l => '(keep, updated) ← getAsgsToAdd l name; Some (updated, updated && bool_decide (keep = None))
  end.

(** The rules to keep, and whether the NSG is to be updated.  A rule that is kept
    is kept as it was. *)
Fixpoint rules_to_keep (rules : list SecurityRule) (name : string) : option (list SecurityRule * bool) :=
  match rules with
  | [] => Some ([], false)
  | rule :: rules =>
      src ← asgs_updated (sr_SourceASGs rule) name;
      dst ← asgs_updated (sr_DestinationASGs rule) name;
      rest ← rules_to_keep rules name;
      Some (if (src.2 || dst.2 : bool) then rest.1 else rule :: rest.1, src.1 || dst.1 || rest.2)
  end.

Definition removeReferencesToSecurityGroup (cfg : computeServiceConfig) (id : CloudResourceID) (rgName location : string)
    (membershipOnly : bool) : ZM unit :=
  nsg ← zapi (nsg_get rgName (perVnetNsgName (cid_Vpc id)));
  match nsg_SecurityRules nsg with
  | None => mret tt
  | Some current =>
      let asgName := GetCloudName id (if ifPeerProcessing cfg (cid_Vpc id) then false else membershipOnly) in
      r ← zderef (rules_to_keep current asgName);
      if negb r.2 then mret tt
      else updateNetworkSecurityGroupRules location rgName (perVnetNsgName (cid_Vpc id)) r.1
  end.

(** ** The inventory the rules of peered networks look at *)

Fixpoint rows_of_queries (queries : list string) (subscriptions : list string) : ZM (list virtualMachineTable) :=
  match queries with
  | [] => mret []
  | q :: queries =>
      rows ← zapi (virtualMachineRows q subscriptions);
      rest ← rows_of_queries queries subscriptions;
      mret (rows ++ rest)%list
  end.

Definition getVirtualMachines (cfg : computeServiceConfig) : ZM (list virtualMachineTable) :=
  let cred := comp_credentials cfg in
  let '(filters, _) := getComputeResourceFilters [aac_SubscriptionID cred] [aac_TenantID cred] [aac_region cred]
                         (comp_computeFilters cfg) in
  rows_of_queries filters [aac_SubscriptionID cred].

(** The loop over the virtual machines looks at the first one only. *)
Definition rule_ip (vms : list virtualMachineTable) (vnetID : string) : ZM (option string) :=
  match vms with
  | [] => mret None
  | vm :: _ =>
      if decide (vmt_VnetID vm = vnetID) then
        nic ← zderef (head (vmt_NetworkInterfaces vm));
        ip ← zderef (head (vmn_PrivateIps nic));
        mret (Some ip)
      else mret None
  end.

(** ** The methods of the plug-in *)

Definition az_account_error (vnetID : string) : azError :=
  Errorf ("azure account not found managing virtual network [" +:+ vnetID +:+ "]").

Definition vnet_service (accounts : list AzAccount) (vnetID : string) : ZM computeServiceConfig :=
  match getVnetAccount accounts vnetID with
  | None => zfail (az_account_error vnetID)
  | Some acc => zlift (azacc_compute acc)
  end.

(** Prefixes the message of an error, as [fmt.Errorf] with [%w]. *)
Definition wrap_error {A} (msg : string) (m : ZM A) : ZM A :=
  r ← zattempt m;
  match r with inl e => zfail (Errorf (msg +:+ e_Error e)) | inr a => mret a end.

Definition az_CreateSecurityGroup (accounts : list AzAccount) (id : CloudResourceID) (membershipOnly : bool) : ZM string :=
  match getVnetAccount accounts (cid_Vpc id) with
  | None => zfail (az_account_error (cid_Vpc id))
  | Some acc =>
      fields ← zlift (extractFieldsFromAzureResourceID (cid_Vpc id));
      cfg ← zlift (azacc_compute acc);
      let rgName := fields.1.2 in
      let location := aac_region (comp_credentials cfg) in
      let asg mo := wrap_error ("azure asg " +:+ GetCloudName id mo +:+ " create failed for " +:+
          (if mo : bool then "AG" else "AT") +:+ " sg " +:+ cid_Name id +:+ ", reason: ")
        (createOrGetApplicationSecurityGroup location rgName (GetCloudName id mo)) in
      if negb membershipOnly then
        let nsgName := perVnetNsgName (cid_Vpc id) in
        nsgID ← wrap_error ("azure per vnet nsg " +:+ nsgName +:+ " create failed for AT sg " +:+
            appliedToSecurityGroupNamePerVnet +:+ ", reason: ")
          (createOrGetNetworkSecurityGroup location rgName nsgName);
        asg false;;
        mret nsgID
      else asg true
  end.

Definition az_UpdateSecurityGroupRules (accounts : list AzAccount) (id : CloudResourceID) (ingressRules : list IngressRule)
    (egressRules : list EgressRule) : ZM unit :=
  let vnetID := cid_Vpc id in
  cfg ← vnet_service accounts vnetID;
  fields ← zlift (extractFieldsFromAzureResourceID vnetID);
  let rgName := fields.1.2 in
  vms ← zattempt (getVirtualMachines cfg);
  let vms := match vms with inr l => l | inl _ => [] end in
  let nsgName := perVnetNsgName vnetID in
  let plain_rules := buildEffectiveNSGSecurityRulesToApply id ingressRules egressRules nsgName rgName in
  rules ← (if ifPeerProcessing cfg vnetID then
             ruleIP ← rule_ip vms vnetID;
             peer ← buildEffectivePeerNSGSecurityRulesToApply id ingressRules egressRules nsgName rgName ruleIP;
             if decide (vms = []) then plain_rules else mret peer
           else plain_rules);
  updateNetworkSecurityGroupRules (aac_region (comp_credentials cfg)) rgName nsgName rules.

Definition az_UpdateSecurityGroupMembers (accounts : list AzAccount) (id : CloudResourceID) (resources : list CloudResource)
    (membershipOnly : bool) : ZM unit :=
  cfg ← vnet_service accounts (cid_Vpc id);
  az_updateSecurityGroupMembers cfg id resources membershipOnly.

Definition az_DeleteSecurityGroup (accounts : list AzAccount) (id : CloudResourceID) (membershipOnly : bool) : ZM unit :=
  cfg ← vnet_service accounts (cid_Vpc id);
  zattempt (az_updateSecurityGroupMembers cfg id [] membershipOnly);;
  fields ← zlift (extractFieldsFromAzureResourceID (cid_Vpc id));
  let rgName := fields.1.2 in
  removeReferencesToSecurityGroup cfg id rgName (aac_region (comp_credentials cfg)) membershipOnly;;
  zapi (asg_delete rgName (GetCloudName id (if ifPeerProcessing cfg (cid_Vpc id) then false else membershipOnly))).

End Azure.
