(* ===== verification/AzureView.v ===== *)
(** * The Azure plug-in: the view of the cloud

    The functions of [azure_security.go] that report the enforced groups back to
    the controller. *)

From stdpp Require Import base strings list gmap.
From Stdlib Require Import Ascii ZArith Lia.
From S2P Require Import Prelude GoStrings SecurityGroup AzureModel AzureRules AzureQuery VirtualMachine AzureSecurity.

#[local] Open Scope string_scope.
#[local] Open Scope Z_scope.

Definition az_nic_resource (row : networkInterfaceTable) : CloudResource :=
  mkCloudResource CloudResourceTypeNIC
    (mkCloudResourceID (GenerateShortResourceIdentifier (nit_ID row) NetworkInterfaceCRDKind) (ToLower (nit_VnetID row))).

(** Appends to the list of a key. *)
Definition append_to (k : string) (r : CloudResource) (m : gmap string (list CloudResource)) : gmap string (list CloudResource) :=
  <[k := (default [] (m !! k) ++ [r])%list]> m.

(** ** Address groups *)

(** The address group an ASG belongs to. *)
Definition ag_of_asg (asgID : string) : option string :=
  match extractFieldsFromAzureResourceID (ToLower asgID) with
  | inl _ => None
  | inr (_, _, name) => let '(sgName, isAG, _) := IsNepheControllerCreatedSG name in if isAG : bool then Some sgName else None
  end.

(** Loop over the interfaces: the members by group name, and the virtual network
    of every ASG. *)
Definition collect_ag (rows : list networkInterfaceTable) : gmap string (list CloudResource) * gmap string string :=
  fold_left (fun acc row =>
    match nit_VirtualMachineID row with
    | None => acc
    | Some _ =>
        fold_left (fun (acc : gmap string (list CloudResource) * gmap string string) asgID =>
          match ag_of_asg asgID with
          | None => acc
          | Some sgName =>
              (append_to sgName (az_nic_resource row) acc.1, <[ToLower asgID := ToLower (nit_VnetID row)]> acc.2)
          end) (nit_ASGIDs row) acc
    end) rows (∅, ∅).

(** One entry of [getAGGroupView], unless the ASG is skipped; [None] panics. *)
Definition ag_content (members : gmap string (list CloudResource)) (asgIDToVnetID : gmap string string)
    (atNames : gset string) (asg : ApplicationSecurityGroup) : option (list SynchronizationContent) :=
  id ← asg_ID asg;
  Some (match ag_of_asg (ToLower id) with
        | None => []
        | Some sgName =>
            if decide (sgName ∈ atNames) then []
            else [mkSynchronizationContent
                    (mkCloudResourceID sgName (default "" (asgIDToVnetID !! ToLower id))) true
                    (default [] (members !! sgName)) [] [] []]
        end).

(** Concatenates the results of a loop that may panic. *)
Fixpoint concat_all {A B} (f : A -> option (list B)) (l : list A) : option (list B) :=
  match l with
  | [] => Some []
  | a :: l => b ← f a; rest ← concat_all f l; Some (b ++ rest)%list
  end.

(** ** AppliedTo groups *)

(** What the loop of [processAndBuildATSgView] collects: members by group, the
    groups of every NSG, the virtual network of every NSG. *)
Record AtView := mkAtView {
  av_members : gmap string (list CloudResource);
  av_names : gmap string (gset string);
  av_vnets : gmap string string
}.

Section View.
Context {RNG : MapRange}.

(** The appliedTo groups an interface is tagged with. *)
Definition range_at_names (tags : gmap string string) : list string :=
  omap (fun kv => let '(name, _, isAT) := IsNepheControllerCreatedSG kv.1 in if isAT : bool then Some name else None)
    (go_range tags).

(** One interface; [None] panics on an interface without a tag map. *)
Definition at_row (acc : AtView) (row : networkInterfaceTable) : option AtView :=
  match nit_VirtualMachineID row, nit_NetworkSecurityGroupID row with
  | Some _, Some nsg =>
      let nsgID := ToLower nsg in
      match extractFieldsFromAzureResourceID nsgID with
      | inl _ => Some acc
      | inr (_, _, nsgName) =>
          let '(sgName, _, isAT) := IsNepheControllerCreatedSG nsgName in
          if negb isAT then Some acc
          else
            let vnets := <[nsgID := ToLower (nit_VnetID row)]> (av_vnets acc) in
            if decide (sgName = ToLower appliedToSecurityGroupNamePerVnet) then
              tags ← head (nit_Tags row);
              let names := range_at_names tags in
              Some (mkAtView (fold_left (fun m n => append_to n (az_nic_resource row) m) names (av_members acc))
                (if decide (names = []) then av_names acc
                 else <[nsgID := mergeSet [default ∅ (av_names acc !! nsgID); list_to_set names]]> (av_names acc))
                vnets)
            else Some (mkAtView (av_members acc) (av_names acc) vnets)
      end
  | _, _ => Some acc
  end.

Fixpoint collect_at (rows : list networkInterfaceTable) (acc : AtView) : option AtView :=
  match rows with
  | [] => Some acc
  | row :: rows => acc ← at_row acc row; collect_at rows acc
  end.

(** The entries of [getATGroupView] for one NSG. *)
Definition at_content (v : AtView) (nsg : NetworkSecurityGroup) : option (list SynchronizationContent) :=
  id ← nsg_ID nsg;
  let nsgID := ToLower id in
  let vnetID := default "" (av_vnets v !! nsgID) in
  match av_names v !! nsgID with
  | None => Some []
  | Some names =>
      rules ← nsg_SecurityRules nsg;
      r ← convertToNepheControllerRulesByAppliedToSGName rules vnetID ∅ ∅;
      Some (map (fun name => mkSynchronizationContent (mkCloudResourceID name vnetID) false
        (default [] (av_members v !! name)) [] (default [] (r.1 !! name)) (default [] (r.2 !! name)))
        (AwsConverters.set_range names))
  end.

Context {AZ : Azure}.

Definition getATGroupView (v : AtView) : ZM (list SynchronizationContent * gset string) :=
  nsgs ← zapi nsg_listAllComplete;
  view ← zderef (concat_all (at_content v) nsgs);
  mret (view, list_to_set (map (fun c => cid_Name (sc_Resource c)) view)).

Definition processAndBuildATSgView (rows : list networkInterfaceTable) : ZM (list SynchronizationContent * gset string) :=
  v ← zderef (collect_at rows (mkAtView ∅ ∅ ∅));
  getATGroupView v.

Definition getAGGroupView (members : gmap string (list CloudResource)) (asgIDToVnetID : gmap string string)
    (atNames : gset string) : ZM (list SynchronizationContent) :=
  asgs ← zapi asg_listAllComplete;
  zderef (concat_all (ag_content members asgIDToVnetID atNames) asgs).

Definition processAndBuildAGSgView (rows : list networkInterfaceTable) (atNames : gset string) : ZM (list SynchronizationContent) :=
  getAGGroupView (collect_ag rows).1 (collect_ag rows).2 atNames.

(** Errors leave the view empty. *)
Definition az_getNepheControllerManagedSecurityGroupsCloudView (cfg : computeServiceConfig) : ZM (list SynchronizationContent) :=
  let vnetIDs := getCachedVnetIDs cfg in
  if decide (vnetIDs = ∅) then mret []
  else
    r ← zattempt (rows ← getNetworkInterfacesOfVnet cfg vnetIDs;
                  at_view ← processAndBuildATSgView rows;
                  ag_view ← processAndBuildAGSgView rows at_view.2;
                  mret (at_view.1 ++ ag_view)%list);
    mret (match r with inl _ => [] | inr view => view end).

(** [GetEnforcedSecurity]: the views of the accounts, one after another;
    [initialized] tells which inventories are initialised in time. *)
Fixpoint az_GetEnforcedSecurity (initialized : string -> bool) (accounts : list AzAccount) : ZM (list SynchronizationContent) :=
  match accounts with
  | [] => mret []
  | acc :: accounts =>
      view ← match azacc_compute acc with
             | inl _ => mret []
             | inr cfg =>
                 if initialized (comp_accountName cfg) then az_getNepheControllerManagedSecurityGroupsCloudView cfg
                 else mret []
             end;
      rest ← az_GetEnforcedSecurity initialized accounts;
      mret (view ++ rest)%list
  end.

End View.
