(* ===== verification/AzureTheorems.v ===== *)
(** * The Azure plug-in: correctness of the rules

    The priorities the rules of a network security group get, and what the
    group admits: the rules of the controller for the group that is updated, and
    what it admitted before for the others. *)

From stdpp Require Import base strings list gmap.
From Stdlib Require Import Ascii ZArith Lia.
From S2P Require Import Prelude GoStrings GoNet GoCIDR GoFmt SecurityGroup RuleMerge AzureModel AzureRules AzureQuery.
From S2P Require Import VirtualMachine AzureSecurity.

#[local] Open Scope string_scope.
#[local] Open Scope Z_scope.
#[local] Arguments String.append !_ _ : simpl nomatch.

(** ** Priorities *)

(** The rules that keep their name and priority, that of the deny rule. *)
Definition is_default (r : SecurityRule) : Prop := sr_Priority r = Some vnetToVnetDenyRulePriority.
#[export] Instance is_default_dec r : Decision (is_default r).
Proof. unfold is_default. apply _. Defined.

(** Azure returns rules with name and priority, and the plug-in makes them so. *)
Definition has_keys (r : SecurityRule) : Prop := is_Some (sr_Priority r) /\ is_Some (sr_Name r).

Definition numbered (p : Z) (rules : list SecurityRule) : list SecurityRule :=
  imap (fun i r => with_priority (p + Z.of_nat i) r) rules.

(** The map of the rules with the deny rule's priority. *)
Definition by_rule_name (rules : list SecurityRule) (m : gmap string SecurityRule) : gmap string SecurityRule :=
  fold_left (fun m r => <[default "" (sr_Name r) := r]> m) rules m.

Lemma renumber_spec rules p m :
  Forall has_keys rules -> 0 <= p -> p + Z.of_nat (length (filter (fun r => ~ is_default r) rules)) < 2 ^ 31 ->
  renumber rules p m =
    Some (numbered p (filter (fun r => ~ is_default r) rules), by_rule_name (filter is_default rules) m).
Proof.
  intros Hk. revert p m. induction Hk as [|r rules [[q Hq] [name Hname]] _ IH]; intros p m Hp Hb; [done|].
  cbn [renumber]. rewrite Hq.
  destruct (decide (q = vnetToVnetDenyRulePriority)) as [->|Hne].
  - assert (is_default r) as Hd by done.
    rewrite (filter_cons_True is_default) by done. rewrite filter_cons_False in * by tauto.
    rewrite Hname, IH by done. unfold by_rule_name. cbn [fold_left]. by rewrite Hname.
  - assert (~ is_default r) as Hd by (unfold is_default; congruence).
    rewrite (filter_cons_False is_default) by done. rewrite filter_cons_True in * by done. cbn [length] in Hb.
    unfold next_priority. change (Z.of_nat 1) with 1. rewrite int32_small by lia. rewrite IH by lia.
    unfold numbered. rewrite imap_cons. rewrite Z.add_0_r. do 3 f_equal. apply imap_ext. intros i r' _. simpl. f_equal. lia.
Qed.

Lemma by_rule_name_lookup rules name r :
  Forall has_keys rules -> by_rule_name rules ∅ !! name = Some r -> r ∈ rules /\ sr_Name r = Some name.
Proof.
  intros Hk. unfold by_rule_name. rewrite fold_insert_lookup, lookup_empty.
  destruct (last_with _ name rules) as [r'|] eqn:E; [|done]. intros [= ->].
  apply last_with_key in E as [Hn Hin]. split; [done|]. rewrite list.Forall_forall in Hk.
  destruct (Hk r Hin) as [_ [n Hr]]. rewrite Hr in *. simpl in Hn. congruence.
Qed.

(** Rules of one name: the last one stays. *)
Lemma by_rule_name_same rules r name :
  sr_Name r = Some name -> Forall (fun r' => sr_Name r' = Some name) rules ->
  by_rule_name (rules ++ [r]) ∅ = {[name := r]}.
Proof.
  intros Hr Hall. apply map_eq. intros k. unfold by_rule_name. rewrite fold_insert_lookup, last_with_app, Hr. simpl.
  destruct (decide (name = k)) as [->|Hne]; [by rewrite lookup_singleton_eq|].
  rewrite lookup_singleton_ne by done. destruct (last_with _ k rules) as [r'|] eqn:E; [|done].
  apply last_with_key in E as [Hk Hin]. rewrite list.Forall_forall in Hall. rewrite (Hall r' Hin) in Hk. done.
Qed.

Lemma elem_of_numbered p rules r :
  r ∈ numbered p rules <-> exists i r0, rules !! i = Some r0 /\ r = with_priority (p + Z.of_nat i) r0.
Proof.
  rewrite list_elem_of_lookup. unfold numbered. setoid_rewrite list_lookup_imap. split.
  - intros [i Hi]. destruct (rules !! i) as [r0|] eqn:E; simplify_eq/=. eauto.
  - intros (i & r0 & Hi & ->). exists i. by rewrite Hi.
Qed.

Lemma numbered_elem rules r :
  (length rules <= 3996)%nat -> r ∈ numbered ruleStartPriority rules ->
  exists r0 p, r0 ∈ rules /\ r = with_priority p r0 /\ 100 <= p <= 4095.
Proof.
  intros Hl (i & r0 & Hi & ->)%elem_of_numbered. exists r0, (ruleStartPriority + Z.of_nat i).
  repeat split; [by eapply list_elem_of_lookup_2|..]; apply lookup_lt_Some in Hi; unfold ruleStartPriority; lia.
Qed.

Lemma numbered_from rules r0 :
  (length rules <= 3996)%nat -> r0 ∈ rules ->
  exists p, 100 <= p <= 4095 /\ with_priority p r0 ∈ numbered ruleStartPriority rules.
Proof.
  intros Hl [i Hi]%list_elem_of_lookup. exists (ruleStartPriority + Z.of_nat i). rewrite elem_of_numbered.
  split; [|by eauto]. apply lookup_lt_Some in Hi. unfold ruleStartPriority. lia.
Qed.

(** The numbers in use have no dash, so that a name determines the number. *)
Lemma Itoa_no_dash p : 0 <= p <= 4096 -> has_byte "-"%char (Itoa p) = false.
Proof.
  intros Hp.
  assert (forallb (fun n => negb (has_byte "-"%char (Itoa (Z.of_nat n)))) (seq 0 4097) = true) as Hall by (vm_compute; reflexivity).
  rewrite forallb_forall in Hall. specialize (Hall (Z.to_nat p)). rewrite Z2Nat.id in Hall by lia.
  apply negb_true_iff, Hall, in_seq. lia.
Qed.

Lemma rule_name_inj p q d e : 0 <= p <= 4096 -> 0 <= q <= 4096 -> rule_name p d = rule_name q e -> p = q.
Proof.
  unfold rule_name. intros Hp Hq E. apply (inj Itoa).
  by apply (split_at_byte_inj "-"%char) in E as [? _]; [|apply Itoa_no_dash..].
Qed.

Lemma numbered_distinct p rules :
  0 <= p -> p + Z.of_nat (length rules) <= 4096 -> NoDup (map sr_Name (numbered p rules)).
Proof.
  intros Hp Hl. apply NoDup_alt. intros i j x. rewrite !list_lookup_fmap. unfold numbered. rewrite !list_lookup_imap.
  destruct (rules !! i) as [r|] eqn:Ei; [|done]. destruct (rules !! j) as [r'|] eqn:Ej; [|done]. simpl.
  apply lookup_lt_Some in Ei, Ej. intros [= <-] [= E]. apply rule_name_inj in E; lia.
Qed.

Section Update.
Context `{MapRange}.

Lemma update_spec existing new :
  let rules := (existing ++ new)%list in
  Forall has_keys rules -> (length (filter (fun r => ~ is_default r) rules) <= 3996)%nat ->
  exists defaults,
    updateSecurityRuleNameAndPriority existing new =
      Some (numbered ruleStartPriority (filter (fun r => ~ is_default r) rules) ++ defaults)%list /\
    NoDup (map sr_Name defaults) /\
    (forall r, r ∈ defaults -> is_default r /\ r ∈ rules) /\
    (forall r, r ∈ rules -> is_default r -> exists r', r' ∈ defaults /\ sr_Name r' = sr_Name r).
Proof.
  intros rules Hk Hl. unfold updateSecurityRuleNameAndPriority. fold rules.
  rewrite renumber_spec by (done || unfold ruleStartPriority; lia). eexists. split; [reflexivity|].
  assert (Forall has_keys (filter is_default rules)) as Hk' 
    by (rewrite !list.Forall_forall in *; intros r [_ Hr]%list_elem_of_filter; by apply Hk).
  set (m := by_rule_name _ _).
  assert (forall k r, m !! k = Some r -> (is_default r /\ r ∈ rules) /\ sr_Name r = Some k) as Hm.
  { intros k r Hr. apply by_rule_name_lookup in Hr as [Hr ?]; [|done]. by rewrite list_elem_of_filter in Hr. }
  repeat split.
  - rewrite map_map. pose proof (NoDup_go_range_keys m) as Hnd.
    assert (map (fun x => sr_Name x.2) (go_range m) = map Some (go_range m).*1) as ->.
    { rewrite <- list_fmap_compose. apply list_fmap_ext. intros i [k r] Hi%list_elem_of_lookup_2%elem_of_go_range.
      simpl. by apply Hm in Hi as [_ ?]. }
    apply NoDup_fmap_2; [apply _|done].
  - apply elem_of_go_range_values in H0 as [k Hr]. by apply Hm in Hr as [[] _].
  - apply elem_of_go_range_values in H0 as [k Hr]. by apply Hm in Hr as [[] _].
  - intros r Hr Hd. rewrite list.Forall_forall in Hk'.
    destruct (Hk' r) as [_ [name Hn]]; [by apply list_elem_of_filter|].
    destruct (m !! name) as [r'|] eqn:E.
    + exists r'. split; [apply elem_of_go_range_values; eauto|]. apply Hm in E as [_ ?]. congruence.
    + unfold m, by_rule_name in E. rewrite fold_insert_lookup, lookup_empty in E.
      destruct (last_with _ _ _) eqn:El; [done|]. apply last_with_None in El. destruct El.
      apply list_elem_of_fmap. exists r. rewrite Hn. split; [done|]. by apply list_elem_of_filter.
Qed.

End Update.

(** ** What a network security group admits

    The end points of a connection: address, application security groups (by
    identifier), and whether they are inside the virtual network.  The rule of
    the lowest priority that matches decides; when none does, the rules every
    network security group has by default do. *)

Record Endpoint := mkEndpoint { ep_IP : IP; ep_ASGs : gset string; ep_InVnet : bool }.
Record Traffic := mkTraffic {
  tr_Protocol : Z;
  tr_Source : Endpoint;
  tr_SourcePort : Z;
  tr_Destination : Endpoint;
  tr_DestinationPort : Z
}.

Definition protocol_matches (p : SecurityRuleProtocol) (n : Z) : Prop :=
  match p with
  | ProtocolAsterisk => True
  | ProtocolIcmp => n = 1
  | ProtocolTCP => n = 6
  | ProtocolUDP => n = 17
  | ProtocolOther _ => False
  end.

(** A range is one port or all of them: the plug-in writes no others. *)
Definition port_matches (range : option string) (port : Z) : Prop :=
  range = Some emptyPort \/ range = Some (Itoa port).

Definition in_asg (a : ApplicationSecurityGroup) (e : Endpoint) : Prop :=
  exists id, asg_ID a = Some id /\ id ∈ ep_ASGs e.

Definition prefix_matches (prefix : string) (e : Endpoint) : Prop :=
  prefix = emptyPort \/ (prefix = virtualnetworkAddressPrefix /\ ep_InVnet e = true) \/
  (exists n, ParseCIDR prefix = Some n /\ IPNet_Contains n (ep_IP e) = true).

Definition side_matches (prefix : option string) (prefixes : option (list string))
    (asgs : option (list ApplicationSecurityGroup)) (e : Endpoint) : Prop :=
  (exists s, prefix = Some s /\ prefix_matches s e) \/
  (exists ps s, prefixes = Some ps /\ s ∈ ps /\ prefix_matches s e) \/
  (exists l a, asgs = Some l /\ a ∈ l /\ in_asg a e).

Definition matches (r : SecurityRule) (t : Traffic) : Prop :=
  protocol_matches (sr_Protocol r) (tr_Protocol t) /\
  port_matches (sr_SourcePortRange r) (tr_SourcePort t) /\
  side_matches (sr_SourceAddressPrefix r) (sr_SourceAddressPrefixes r) (sr_SourceASGs r) (tr_Source t) /\
  port_matches (sr_DestinationPortRange r) (tr_DestinationPort t) /\
  side_matches (sr_DestinationAddressPrefix r) (sr_DestinationAddressPrefixes r) (sr_DestinationASGs r) (tr_Destination t).

(** The rules of direction [d] decide the connection with [access]. *)
Definition decides (access : SecurityRuleAccess) (rules : list SecurityRule) (d : SecurityRuleDirection) (t : Traffic) : Prop :=
  exists r p, r ∈ rules /\ sr_Direction r = d /\ sr_Access r = access /\ sr_Priority r = Some p /\ matches r t /\
    forall r' p', r' ∈ rules -> sr_Direction r' = d -> sr_Access r' <> access -> sr_Priority r' = Some p' ->
      matches r' t -> p < p'.

(** The rules the plug-in leaves in a network security group: only the deny rule
    of each direction has the last priority, and its name. *)
Definition plugin_rule (r : SecurityRule) : Prop :=
  match sr_Access r with
  | AccessAllow => is_Some (sr_Name r) /\ exists p, sr_Priority r = Some p /\ 100 <= p <= 4095
  | AccessDeny => is_default r /\ sr_Name r = Some (rule_name vnetToVnetDenyRulePriority (sr_Direction r))
  end.

Lemma plugin_rule_keys r : plugin_rule r -> has_keys r.
Proof.
  unfold plugin_rule, has_keys, is_default. destruct (sr_Access r).
  - intros (? & p & -> & _). eauto.
  - intros [-> ->]. eauto.
Qed.

Lemma plugin_rule_default r : plugin_rule r -> is_default r <-> sr_Access r = AccessDeny.
Proof.
  unfold plugin_rule, is_default. destruct (sr_Access r).
  - intros (_ & p & -> & Hp). split; [|done]. intros [= ->]. unfold vnetToVnetDenyRulePriority in Hp. lia.
  - tauto.
Qed.

Lemma vnet_deny_plugin d : plugin_rule (vnet_deny_rule d).
Proof. by unfold plugin_rule. Qed.

Lemma matches_with_priority p r t : matches (with_priority p r) t <-> matches r t.
Proof. done. Qed.

Lemma vnet_deny_matches d t :
  matches (vnet_deny_rule d) t <-> ep_InVnet (tr_Source t) = true /\ ep_InVnet (tr_Destination t) = true.
Proof.
  assert (forall e, side_matches (Some virtualnetworkAddressPrefix) None None e <-> ep_InVnet e = true) as Hs.
  { intros e. unfold side_matches, prefix_matches. split.
    - intros [(s & [= <-] & [|[[_ ?]|(n & Hn & _)]])|[(? & ? & ? & _)|(? & ? & ? & _)]]; done.
    - intros ?. left. exists virtualnetworkAddressPrefix. auto. }
  unfold matches. cbn -[side_matches]. rewrite !Hs. unfold port_matches. split; [tauto|].
  intros []. auto 10.
Qed.

(** ** One direction: the rules of the other groups, the new ones, the deny rule *)

Section Direction.
Context `{MapRange} (d : SecurityRuleDirection).

Definition of_direction (r : SecurityRule) : Prop := plugin_rule r /\ sr_Direction r = d.

Lemma update_direction existing allow :
  Forall of_direction existing -> Forall of_direction allow -> Forall (fun r => sr_Access r = AccessAllow) allow ->
  (length (filter (fun r => sr_Access r = AccessAllow) existing) + length allow <= 3996)%nat ->
  updateSecurityRuleNameAndPriority existing (allow ++ [vnet_deny_rule d]) =
    Some (numbered ruleStartPriority (filter (fun r => sr_Access r = AccessAllow) existing ++ allow) ++ [vnet_deny_rule d])%list.
Proof.
  intros He Ha Haa Hl. set (rules := (existing ++ allow ++ [vnet_deny_rule d])%list).
  assert (Forall of_direction rules) as Hall.
  { apply Forall_app. split; [done|]. apply Forall_app. split; [done|]. apply list.Forall_singleton. split; [apply vnet_deny_plugin|done]. }
  assert (forall l, Forall of_direction l ->
    filter (fun r => ~ is_default r) l = filter (fun r => sr_Access r = AccessAllow) l) as Hf.
  { intros l Hd. apply filter_Forall_iff. eapply Forall_impl; [exact Hd|]. intros r [Hp _].
    rewrite plugin_rule_default by done. destruct (sr_Access r); intuition congruence. }
  assert (filter (fun r => ~ is_default r) rules = filter (fun r => sr_Access r = AccessAllow) existing ++ allow)%list as Hflt.
  { rewrite Hf by done. unfold rules. rewrite !filter_app. f_equal. rewrite (filter_Forall _ allow) by done.
    by rewrite filter_cons_False, filter_nil, app_nil_r by done. }
  unfold updateSecurityRuleNameAndPriority. fold rules. rewrite renumber_spec.
  2: { eapply Forall_impl; [exact Hall|]. intros r [Hp _]. by apply plugin_rule_keys. }
  2: done.
  2: { rewrite Hflt, length_app. unfold ruleStartPriority. lia. }
  rewrite Hflt. do 2 f_equal.
  assert (by_rule_name (filter is_default rules) ∅ = {[rule_name vnetToVnetDenyRulePriority d := vnet_deny_rule d]}) as ->.
  { assert (filter is_default rules = filter is_default (existing ++ allow) ++ [vnet_deny_rule d])%list as ->.
    { unfold rules. by rewrite app_assoc, filter_app. }
    apply by_rule_name_same; [done|]. unfold rules in Hall. rewrite app_assoc in Hall. apply Forall_app in Hall as [Hall _].
    rewrite list.Forall_forall in *. intros r [Hd Hr]%list_elem_of_filter. destruct (Hall r Hr) as [Hp <-].
    rewrite plugin_rule_default in Hd by done. unfold plugin_rule in Hp. rewrite Hd in Hp. apply Hp. }
  by rewrite go_range_singleton.
Qed.

(** What the rules of a direction decide once they are numbered. *)
Lemma direction_decides existing allow rules t :
  Forall of_direction existing -> Forall of_direction allow -> Forall (fun r => sr_Access r = AccessAllow) allow ->
  (length (filter (fun r => sr_Access r = AccessAllow) existing) + length allow <= 3996)%nat ->
  updateSecurityRuleNameAndPriority existing (allow ++ [vnet_deny_rule d]) = Some rules ->
  Forall of_direction rules /\
  (decides AccessAllow rules d t <->
   exists r, (r ∈ existing /\ sr_Access r = AccessAllow \/ r ∈ allow) /\ matches r t) /\
  (decides AccessDeny rules d t <->
   ~ decides AccessAllow rules d t /\ ep_InVnet (tr_Source t) = true /\ ep_InVnet (tr_Destination t) = true).
Proof.
  intros He Ha Haa Hl. rewrite update_direction by done. intros [= <-].
  set (base := (filter _ existing ++ allow)%list). set (num := numbered _ _).
  assert (forall r, r ∈ base <-> r ∈ existing /\ sr_Access r = AccessAllow \/ r ∈ allow) as Hbase.
  { intros r. unfold base. rewrite elem_of_app, list_elem_of_filter. tauto. }
  assert (forall r, r ∈ base -> of_direction r /\ sr_Access r = AccessAllow) as Hdir.
  { rewrite !list.Forall_forall in *. intros r [[]| ]%Hbase; auto. }
  assert (length base <= 3996)%nat as Hlen by (unfold base; rewrite length_app; done).
  pose proof (fun r => numbered_elem base r Hlen) as Hnum. pose proof (fun r => numbered_from base r Hlen) as Hfrom.
  assert (Forall of_direction (num ++ [vnet_deny_rule d])) as Hres.
  { apply Forall_app. split; [|apply list.Forall_singleton; split; [apply vnet_deny_plugin|done]].
    apply list.Forall_forall. intros r (r0 & p & Hr0 & -> & Hp)%Hnum. destruct (Hdir r0 Hr0) as [[_ Hd] Hacc].
    split; [|done]. unfold plugin_rule. cbn. rewrite Hacc. eauto. }
  assert (decides AccessAllow (num ++ [vnet_deny_rule d]) d t <-> exists r, r ∈ base /\ matches r t) as Hallow.
  { split.
    - intros (r & p & Hr & _ & Hacc & _ & Hm & _). apply elem_of_app in Hr as [(r0 & p0 & Hr0 & -> & _)%Hnum|Hr].
      + exists r0. by rewrite matches_with_priority in Hm.
      + apply list_elem_of_singleton in Hr. by subst.
    - intros (r0 & Hr0 & Hm). destruct (Hfrom r0 Hr0) as (p & Hp & Hin). destruct (Hdir r0 Hr0) as [[_ Hd] Hacc].
      exists (with_priority p r0), p. repeat split; [by apply elem_of_app; left|done|done|apply Hm..|].
      intros r' p' [(r1 & p1 & Hr1 & -> & _)%Hnum|Hr']%elem_of_app _ Hne Hp' _.
      + destruct (Hdir r1 Hr1) as [_ Hacc1]. by cbn in Hne.
      + apply list_elem_of_singleton in Hr'. subst. injection Hp' as <-. unfold vnetToVnetDenyRulePriority. lia. }
  split; [done|]. split; [setoid_rewrite <- Hbase; exact Hallow|]. rewrite Hallow, <- (vnet_deny_matches d t). split.
  - intros (r & p & Hr & _ & Hacc & Hp & Hm & Hlow).
    apply elem_of_app in Hr as [(r0 & p0 & Hr0 & -> & _)%Hnum|Hr].
    { destruct (Hdir r0 Hr0) as [_ Hacc0]. cbn in Hacc. congruence. }
    apply list_elem_of_singleton in Hr. subst. split; [|done]. intros (r0 & Hr0 & Hm0).
    destruct (Hfrom r0 Hr0) as (q & Hq & Hin). destruct (Hdir r0 Hr0) as [[_ Hd] Hacc0].
    specialize (Hlow (with_priority q r0) q). injection Hp as <-.
    assert (vnetToVnetDenyRulePriority < q); [|unfold vnetToVnetDenyRulePriority in *; lia].
    apply Hlow; [by apply elem_of_app; left|done| |done|done]. cbn. congruence.
  - intros [Hno Hm]. exists (vnet_deny_rule d), vnetToVnetDenyRulePriority.
    repeat split; [apply elem_of_app; right; by left|apply Hm..|].
    intros r' p' [(r1 & p1 & Hr1 & -> & _)%Hnum|Hr']%elem_of_app _ Hne Hp' Hm'.
    + destruct Hno. exists r1. by rewrite matches_with_priority in Hm'.
    + apply list_elem_of_singleton in Hr'. by subst.
Qed.

End Direction.

(** ** Converted rules *)

(** The peers an end point is, for a rule of the controller. *)
Definition peer_of (agAsgs : gmap string ApplicationSecurityGroup) (e : Endpoint) (p : Peer) : Prop :=
  match p with
  | PeerIP ip => ip = ep_IP e
  | PeerSG g => exists a, agAsgs !! ToLower (cid_Name g) = Some a /\ in_asg a e
  end.

(** Rules name a source (a destination), and their blocks are in canonical form. *)
Definition names_peers (ips : list IPNet) (sgs : list CloudResourceID) : Prop :=
  (ips <> [] \/ sgs <> []) /\ Forall block_v4 ips.

Lemma protocol_matches_field proto p n :
  convertToAzureProtocolName proto = inr p -> protocol_matches p n <-> field_admits proto n.
Proof.
  unfold convertToAzureProtocolName, protoNumAzureNameMap. destruct proto as [q|]; [|by intros [= <-]].
  destruct (Z.eqb_spec q 1) as [->|]; [intros [= <-]; simpl; split; congruence|].
  destruct (Z.eqb_spec q 6) as [->|]; [intros [= <-]; simpl; split; congruence|].
  destruct (Z.eqb_spec q 17) as [->|]; [intros [= <-]; simpl; split; congruence|done].
Qed.

Lemma port_matches_field port p : port_matches (Some (convertToAzurePortRange port)) p <-> field_admits port p.
Proof.
  unfold port_matches, convertToAzurePortRange. destruct port as [q|]; simpl; [|by intuition].
  split; [|intros ->; by right]. intros [[= E]|[= E]]; [by destruct (Itoa_not_star q)|by apply (inj Itoa)].
Qed.

Lemma port_matches_any p : port_matches (Some emptyPort) p.
Proof. by left. Qed.

Lemma side_asgs l e : side_matches None None (Some l) e <-> exists a, a ∈ l /\ in_asg a e.
Proof.
  unfold side_matches. split.
  - intros [(? & ? & _)|[(? & ? & ? & _)|(l' & a & [= <-] & Ha & Hin)]]; [done|done|eauto].
  - intros (a & Ha & Hin). right; right. eauto.
Qed.

Lemma prefix_matches_block n e :
  block_v4 n -> prefix_matches (IPNet_String n) e <-> IPNet_Contains n (ep_IP e) = true.
Proof.
  intros (a & b & c & d & k & -> & H1 & H2 & H3). unfold prefix_matches. pose proof (ParseCIDR_String_v4 a b c d k H1 H2 H3) as Hp.
  assert (ParseCIDR emptyPort = None /\ ParseCIDR virtualnetworkAddressPrefix = None) as [Hs Hv] by done. split.
  - intros [E|[[E _]|(n & Hn & Hc)]]; [congruence..|]. rewrite Hp in Hn. by injection Hn as <-.
  - intros Hc. right; right. rewrite Hp. eauto.
Qed.

Lemma side_blocks ips e :
  Forall block_v4 ips -> ips <> [] ->
  side_matches (convertToAzureAddressPrefix ips).1 (convertToAzureAddressPrefix ips).2 None e <->
  exists n, n ∈ ips /\ IPNet_Contains n (ep_IP e) = true.
Proof.
  rewrite list.Forall_forall. intros Hb Hne. unfold convertToAzureAddressPrefix.
  rewrite decide_False by (intros E%map_eq_nil; done). simpl. unfold side_matches. split.
  - intros [(? & ? & _)|[(ps & s & [= <-] & (n & -> & Hn)%list_elem_of_fmap & Hm)|(? & ? & ? & _)]]; [done| |done].
    exists n. split; [done|]. by rewrite prefix_matches_block in Hm by auto.
  - intros (n & Hn & Hc). right; left. exists (map IPNet_String ips), (IPNet_String n). split; [done|]. split.
    + apply list_elem_of_fmap. eauto.
    + by apply prefix_matches_block; auto.
Qed.

Lemma elem_of_convert_asgs sgs ag a :
  a ∈ convertToAzureApplicationSecurityGroups sgs ag <-> exists g, g ∈ sgs /\ ag !! ToLower (cid_Name g) = Some a.
Proof. unfold convertToAzureApplicationSecurityGroups. apply list_elem_of_omap. Qed.

(** The two kinds of rules one rule becomes match the peers it admits. *)
Lemma peer_sides ips sgs ag e :
  names_peers ips sgs ->
  ((bool_decide (ips <> []) || bool_decide (sgs = []) = true /\
    side_matches (convertToAzureAddressPrefix ips).1 (convertToAzureAddressPrefix ips).2 None e) \/
   (convertToAzureApplicationSecurityGroups sgs ag <> [] /\
    side_matches None None (Some (convertToAzureApplicationSecurityGroups sgs ag)) e)) <->
  exists p, peer_of ag e p /\ peer_admits ips sgs p.
Proof.
  intros [Hne Hb]. rewrite side_asgs. setoid_rewrite elem_of_convert_asgs. split.
  - intros [[Hc Hs]|[_ (a & (g & Hg & Ha) & Hin)]].
    + assert (ips <> []) as Hi.
      { apply orb_true_iff in Hc as [?%bool_decide_eq_true|?%bool_decide_eq_true]; [done|]. by destruct Hne. }
      apply side_blocks in Hs; [|done..]. exists (PeerIP (ep_IP e)). done.
    + exists (PeerSG g). simpl. eauto.
  - intros ([ip|g] & Hp & Ha); simpl in *.
    + subst ip. left. assert (ips <> []) as Hi by (destruct Ha as (n & Hn & _); by intros ->; apply elem_of_nil in Hn).
      rewrite bool_decide_true by done. split; [done|]. by apply side_blocks.
    + destruct Hp as (a & Hl & Hin). right. split; [|by eauto]. intros E.
      assert (a ∈ convertToAzureApplicationSecurityGroups sgs ag) as Hx by (apply elem_of_convert_asgs; eauto).
      rewrite E in Hx. by apply elem_of_nil in Hx.
Qed.

Lemma two_rules_match {A} `{EqDecision A} (c : bool) (l : list A) r1 r2 t :
  (exists r, r ∈ ((if c then [r1] else []) ++ (if decide (l = []) then [] else [r2]))%list /\ matches r t) <->
  (c = true /\ matches r1 t) \/ (l <> [] /\ matches r2 t).
Proof.
  setoid_rewrite elem_of_app. destruct c, (decide (l = [])); setoid_rewrite list_elem_of_In; simpl; naive_solver.
Qed.

Lemma side_asg a e : side_matches None None (Some [a]) e <-> in_asg a e.
Proof. rewrite side_asgs. setoid_rewrite list_elem_of_singleton. naive_solver. Qed.

Lemma exists_peer (Q : Peer -> Prop) (A B : Prop) (S : Peer -> Prop) :
  (exists p, Q p /\ A /\ B /\ S p) <-> A /\ B /\ exists p, Q p /\ S p.
Proof. split; [intros (p & ? & ? & ? & ?)|intros (? & ? & p & ? & ?)]; eauto 10. Qed.

Lemma ingress_security_rules_match desc dst ag q pn rule t :
  names_peers (ir_FromSrcIP rule) (ir_FromSecurityGroups rule) -> convertToAzureProtocolName (ir_Protocol rule) = inr pn ->
  (exists r, r ∈ ingress_security_rules desc dst ag q pn rule /\ matches r t) <->
  in_asg dst (tr_Destination t) /\
  exists p, peer_of ag (tr_Source t) p /\ ingress_admits rule (tr_Protocol t) (tr_DestinationPort t) p.
Proof.
  intros Hn Hp. pose proof (peer_sides _ _ ag (tr_Source t) Hn) as Hpeer.
  unfold ingress_admits. setoid_rewrite <- (protocol_matches_field _ _ _ Hp). setoid_rewrite <- port_matches_field.
  unfold ingress_security_rules. destruct (convertToAzureAddressPrefix (ir_FromSrcIP rule)) as [prefix prefixes].
  rewrite two_rules_match. unfold matches. cbn -[side_matches port_matches convertToAzureApplicationSecurityGroups] in *.
  rewrite side_asg, exists_peer, <- Hpeer. pose proof (port_matches_any (tr_SourcePort t)). tauto.
Qed.

Lemma egress_security_rules_match desc src ag q pn rule t :
  names_peers (er_ToDstIP rule) (er_ToSecurityGroups rule) -> convertToAzureProtocolName (er_Protocol rule) = inr pn ->
  (exists r, r ∈ egress_security_rules desc src ag q pn rule /\ matches r t) <->
  in_asg src (tr_Source t) /\
  exists p, peer_of ag (tr_Destination t) p /\ egress_admits rule (tr_Protocol t) (tr_DestinationPort t) p.
Proof.
  intros Hn Hp. pose proof (peer_sides _ _ ag (tr_Destination t) Hn) as Hpeer.
  unfold egress_admits. setoid_rewrite <- (protocol_matches_field _ _ _ Hp). setoid_rewrite <- port_matches_field.
  unfold egress_security_rules. destruct (convertToAzureAddressPrefix (er_ToDstIP rule)) as [prefix prefixes].
  rewrite two_rules_match. unfold matches. cbn -[side_matches port_matches convertToAzureApplicationSecurityGroups] in *.
  rewrite side_asg, exists_peer, <- Hpeer. pose proof (port_matches_any (tr_SourcePort t)). tauto.
Qed.

Section Converted.
Context {R : Type} (proto : R -> option Z) (build : Z -> SecurityRuleProtocol -> R -> list SecurityRule).

Lemma convert_rules_elem p rules out :
  convert_rules proto build p rules = inr out ->
  (forall r, r ∈ out -> exists rule q pn, rule ∈ rules /\ convertToAzureProtocolName (proto rule) = inr pn /\ r ∈ build q pn rule) /\
  (forall rule, rule ∈ rules -> exists q pn, convertToAzureProtocolName (proto rule) = inr pn /\
     forall r, r ∈ build q pn rule -> r ∈ out).
Proof.
  revert p out. induction rules as [|rule rules IH]; intros p out; cbn [convert_rules].
  { intros [= <-]. split; intros ? Hx; by apply elem_of_nil in Hx. }
  destruct (convertToAzureProtocolName (proto rule)) as [|pn] eqn:Ep; [done|].
  destruct (convert_rules _ _ _ rules) as [|rest] eqn:Er; [done|]. intros [= <-].
  destruct (IH _ _ Er) as [IH1 IH2]. split.
  - intros r [Hr|Hr]%elem_of_app.
    + exists rule, p, pn. split; [by left|done].
    + destruct (IH1 r Hr) as (rule' & q & pn' & Hin & ?). exists rule', q, pn'. split; [by right|done].
  - intros rule' Hin. inversion Hin as [|? ? ? Hin']; subst.
    + exists p, pn. split; [done|]. intros r Hr. apply elem_of_app. by left.
    + destruct (IH2 rule' Hin') as (q & pn' & ? & Hall). exists q, pn'. split; [done|]. intros r Hr.
      apply elem_of_app. right. auto.
Qed.

(** The rules match what those of each rule match. *)
Lemma convert_rules_match (ok : R -> Prop) (P : R -> Prop) p rules out t :
  (forall q pn rule, ok rule -> convertToAzureProtocolName (proto rule) = inr pn ->
     (exists r, r ∈ build q pn rule /\ matches r t) <-> P rule) ->
  Forall ok rules -> convert_rules proto build p rules = inr out ->
  (exists r, r ∈ out /\ matches r t) <-> exists rule, rule ∈ rules /\ P rule.
Proof.
  rewrite list.Forall_forall. intros Hm Hok E. destruct (convert_rules_elem _ _ _ E) as [H1 H2]. split.
  - intros (r & (rule & q & pn & Hin & Hp & Hr)%H1 & Hr'). exists rule. split; [done|]. eapply Hm; eauto.
  - intros (rule & Hin & HP). destruct (H2 rule Hin) as (q & pn & Hp & Hall).
    destruct (Hm q pn rule) as [_ Hx]; [by apply Hok|done|]. destruct (Hx HP) as (r & Hr & ?). eauto.
Qed.

Lemma convert_rules_length p rules out :
  (forall q pn rule, (length (build q pn rule) <= 2)%nat) -> convert_rules proto build p rules = inr out ->
  (length out <= 2 * length rules)%nat.
Proof.
  intros H2. revert p out. induction rules as [|rule rules IH]; intros p out; cbn [convert_rules]; [by intros [= <-]|].
  destruct (convertToAzureProtocolName (proto rule)) as [|pn]; [done|].
  destruct (convert_rules _ _ _ rules) as [|rest] eqn:Er; [done|]. intros [= <-].
  rewrite length_app. specialize (IH _ _ Er). specialize (H2 p pn rule). cbn [length]. lia.
Qed.

(** Rules are numbered in sequence when [build] does so. *)
Hypothesis build_numbers : forall q pn rule i r,
  0 <= q -> q + Z.of_nat (length (build q pn rule)) < 2 ^ 31 ->
  build q pn rule !! i = Some r -> sr_Priority r = Some (q + Z.of_nat i).

Lemma convert_rules_numbers p rules out i r :
  convert_rules proto build p rules = inr out -> 0 <= p -> p + Z.of_nat (length out) < 2 ^ 31 ->
  out !! i = Some r -> sr_Priority r = Some (p + Z.of_nat i).
Proof.
  revert p out i. induction rules as [|rule rules IH]; intros p out i; cbn [convert_rules]; [by intros [= <-]|].
  destruct (convertToAzureProtocolName (proto rule)) as [|pn] eqn:Ep; [done|].
  destruct (convert_rules _ _ _ rules) as [|rest] eqn:Er; [done|]. intros [= <-] Hp Hl. rewrite length_app in Hl.
  intros [Hi|[Hge Hi]]%lookup_app_Some; [apply build_numbers in Hi; [done|done|lia]|].
  unfold next_priority in Er. rewrite int32_small in Er by lia.
  rewrite (IH _ _ _ Er) by (done || lia). f_equal. lia.
Qed.

End Converted.

Lemma ingress_security_rules_length desc a ag q pn rule :
  (length (ingress_security_rules desc a ag q pn rule) <= 2)%nat.
Proof.
  unfold ingress_security_rules. destruct (convertToAzureAddressPrefix _). destruct (_ || _), (decide _); simpl; lia.
Qed.

Lemma ingress_security_rules_numbers desc dst ag q pn rule i r :
  0 <= q -> q + Z.of_nat (length (ingress_security_rules desc dst ag q pn rule)) < 2 ^ 31 ->
  ingress_security_rules desc dst ag q pn rule !! i = Some r -> sr_Priority r = Some (q + Z.of_nat i).
Proof.
  unfold ingress_security_rules. destruct (convertToAzureAddressPrefix _) as [prefix prefixes].
  intros Hq Hl. destruct (_ || _), (decide _); cbn [app length] in *; destruct i as [|[|i]]; cbn;
    intros [= <-]; cbn; unfold next_priority; rewrite ?int32_small by lia; f_equal; lia.
Qed.

Lemma egress_security_rules_length desc a ag q pn rule :
  (length (egress_security_rules desc a ag q pn rule) <= 2)%nat.
Proof.
  unfold egress_security_rules. destruct (convertToAzureAddressPrefix _). destruct (_ || _), (decide _); simpl; lia.
Qed.

Lemma egress_security_rules_numbers desc src ag q pn rule i r :
  0 <= q -> q + Z.of_nat (length (egress_security_rules desc src ag q pn rule)) < 2 ^ 31 ->
  egress_security_rules desc src ag q pn rule !! i = Some r -> sr_Priority r = Some (q + Z.of_nat i).
Proof.
  unfold egress_security_rules. destruct (convertToAzureAddressPrefix _) as [prefix prefixes].
  intros Hq Hl. destruct (_ || _), (decide _); cbn [app length] in *; destruct i as [|[|i]]; cbn;
    intros [= <-]; cbn; unfold next_priority; rewrite ?int32_small by lia; f_equal; lia.
Qed.

(** What all rules made for a group have in common. *)
Definition group_rule (desc : string) (d : SecurityRuleDirection) (r : SecurityRule) : Prop :=
  sr_Direction r = d /\ sr_Access r = AccessAllow /\ sr_Description r = Some desc /\ is_Some (sr_Name r).

Lemma ingress_security_rules_group desc dst ag q pn rule r :
  r ∈ ingress_security_rules desc dst ag q pn rule -> group_rule desc DirectionInbound r.
Proof.
  unfold ingress_security_rules. destruct (convertToAzureAddressPrefix _) as [prefix prefixes].
  intros [Hr|Hr]%elem_of_app; [destruct (_ || _) in Hr|destruct (decide _) in Hr];
    rewrite ?list_elem_of_singleton, ?elem_of_nil in Hr; subst; try done; by repeat split; eauto.
Qed.

Lemma egress_security_rules_group desc src ag q pn rule r :
  r ∈ egress_security_rules desc src ag q pn rule -> group_rule desc DirectionOutbound r.
Proof.
  unfold egress_security_rules. destruct (convertToAzureAddressPrefix _) as [prefix prefixes].
  intros [Hr|Hr]%elem_of_app; [destruct (_ || _) in Hr|destruct (decide _) in Hr];
    rewrite ?list_elem_of_singleton, ?elem_of_nil in Hr; subst; try done; by repeat split; eauto.
Qed.

(** ** The rules of one direction, from the controller's to the group's *)

(** The traffic to (from) a member of the group that its rules allow. *)
Definition ingress_allows (ag : gmap string ApplicationSecurityGroup) (dst : ApplicationSecurityGroup)
    (rules : list IngressRule) (t : Traffic) : Prop :=
  in_asg dst (tr_Destination t) /\
  exists rule p, rule ∈ rules /\ peer_of ag (tr_Source t) p /\
    ingress_admits rule (tr_Protocol t) (tr_DestinationPort t) p.

Definition egress_allows (ag : gmap string ApplicationSecurityGroup) (src : ApplicationSecurityGroup)
    (rules : list EgressRule) (t : Traffic) : Prop :=
  in_asg src (tr_Source t) /\
  exists rule p, rule ∈ rules /\ peer_of ag (tr_Destination t) p /\
    egress_admits rule (tr_Protocol t) (tr_DestinationPort t) p.

Definition ingress_ok (r : IngressRule) : Prop := names_peers (ir_FromSrcIP r) (ir_FromSecurityGroups r).
Definition egress_ok (r : EgressRule) : Prop := names_peers (er_ToDstIP r) (er_ToSecurityGroups r).

(** The converted rules, the deny rule behind them. *)
Definition converted (d : SecurityRuleDirection) (new allow : list SecurityRule) (allows : Traffic -> Prop) : Prop :=
  new = (allow ++ [vnet_deny_rule d])%list /\ Forall (of_direction d) allow /\
  Forall (fun r => sr_Access r = AccessAllow) allow /\
  forall t, (exists r, r ∈ allow /\ matches r t) <-> allows t.

Lemma group_rules_of_direction desc d allow :
  (length allow <= 3996)%nat -> (forall r, r ∈ allow -> group_rule desc d r) ->
  (forall i r, allow !! i = Some r -> sr_Priority r = Some (ruleStartPriority + Z.of_nat i)) ->
  Forall (of_direction d) allow /\ Forall (fun r => sr_Access r = AccessAllow) allow.
Proof.
  intros Hl Hg Hp. rewrite !list.Forall_forall. split; intros r Hr; destruct (Hg r Hr) as (Hd & Ha & _ & Hn); [|done].
  split; [|done]. unfold plugin_rule. rewrite Ha. split; [done|]. apply list_elem_of_lookup in Hr as [i Hi].
  exists (ruleStartPriority + Z.of_nat i). split; [by apply Hp|]. apply lookup_lt_Some in Hi. unfold ruleStartPriority. lia.
Qed.

Lemma convertIngress_converted id ing ag ats new :
  Forall ingress_ok ing -> (2 * length ing <= 3996)%nat -> convertIngressToAzureNsgSecurityRules id ing ag ats = inr new ->
  exists dst allow, ats !! ToLower (cid_Name id) = Some dst /\ (length allow <= 2 * length ing)%nat /\
    converted DirectionInbound new allow (ingress_allows ag dst ing).
Proof.
  unfold convertIngressToAzureNsgSecurityRules. intros Hok Hn. destruct (ats !! _) as [dst|]; [|done].
  destruct (convert_rules _ _ _ _) as [|allow] eqn:E; [done|]. intros [= <-].
  exists dst, allow. split; [done|].
  pose proof (convert_rules_length _ _ _ _ _ (ingress_security_rules_length _ _ _) E) as Hl. split; [done|]. destruct (convert_rules_elem _ _ _ _ _ E) as [H1 H2].
  edestruct group_rules_of_direction as [Hd Ha]; [..|split; [done|split; [exact Hd|split; [exact Ha|]]]]; [lia| | |].
  - intros r (rule & q & pn & _ & _ & Hr)%H1. by eapply ingress_security_rules_group.
  - intros i r Hi. eapply convert_rules_numbers in Hi; [exact Hi|..|exact E|done|unfold ruleStartPriority; lia].
    apply ingress_security_rules_numbers.
  - intros t. rewrite (convert_rules_match _ _ ingress_ok _ _ _ _ t) by
      (done || intros; by apply ingress_security_rules_match). unfold ingress_allows. clear. split; [intros (rule & ? & ? & p & ?)|intros (? & rule & p & ? & ?)]; eauto 10.
Qed.

Lemma convertEgress_converted id eg ag ats new :
  Forall egress_ok eg -> (2 * length eg <= 3996)%nat -> convertEgressToAzureNsgSecurityRules id eg ag ats = inr new ->
  exists src allow, ats !! ToLower (cid_Name id) = Some src /\ (length allow <= 2 * length eg)%nat /\
    converted DirectionOutbound new allow (egress_allows ag src eg).
Proof.
  unfold convertEgressToAzureNsgSecurityRules. intros Hok Hn. destruct (ats !! _) as [src|]; [|done].
  destruct (convert_rules _ _ _ _) as [|allow] eqn:E; [done|]. intros [= <-].
  exists src, allow. split; [done|].
  pose proof (convert_rules_length _ _ _ _ _ (egress_security_rules_length _ _ _) E) as Hl. split; [done|]. destruct (convert_rules_elem _ _ _ _ _ E) as [H1 H2].
  edestruct group_rules_of_direction as [Hd Ha]; [..|split; [done|split; [exact Hd|split; [exact Ha|]]]]; [lia| | |].
  - intros r (rule & q & pn & _ & _ & Hr)%H1. by eapply egress_security_rules_group.
  - intros i r Hi. eapply convert_rules_numbers in Hi; [exact Hi|..|exact E|done|unfold ruleStartPriority; lia].
    apply egress_security_rules_numbers.
  - intros t. rewrite (convert_rules_match _ _ egress_ok _ _ _ _ t) by
      (done || intros; by apply egress_security_rules_match). unfold egress_allows. clear. split; [intros (rule & ? & ? & p & ?)|intros (? & rule & p & ? & ?)]; eauto 10.
Qed.

(** ** The whole group *)

Lemma decides_app access l1 l2 d t :
  Forall (fun r => sr_Direction r <> d) l2 -> decides access (l1 ++ l2) d t <-> decides access l1 d t.
Proof.
  rewrite list.Forall_forall. intros H2. unfold decides. split.
  - intros (r & p & Hr & Hd & ? & ? & ? & Hlow). exists r, p. apply elem_of_app in Hr as [Hr|Hr]; [|by destruct (H2 r Hr)].
    repeat (split; [done|]). intros r' p' Hr'. apply Hlow, elem_of_app. by left.
  - intros (r & p & Hr & Hd & ? & ? & ? & Hlow). exists r, p. split; [apply elem_of_app; by left|].
    repeat (split; [done|]). intros r' p' [Hr'|Hr']%elem_of_app Hd'; [by eapply Hlow|by destruct (H2 r' Hr')].
Qed.

Lemma decides_app_comm access l1 l2 d t : decides access (l1 ++ l2) d t <-> decides access (l2 ++ l1) d t.
Proof. unfold decides. setoid_rewrite elem_of_app. setoid_rewrite (or_comm (_ ∈ l1)). done. Qed.

Section Effective.
Context `{MapRange} (id : CloudResourceID) (current : list SecurityRule).

(** The allow rules of a direction that were made for other groups. *)
Definition kept_rule (d : SecurityRuleDirection) (r : SecurityRule) : Prop :=
  r ∈ current /\ other_groups_rule (GetCloudName id false) r = true /\ sr_Direction r = d /\ sr_Access r = AccessAllow.

Definition kept_count (d : SecurityRuleDirection) : nat :=
  length (filter (fun r => sr_Access r = AccessAllow) (current_rules id d current)).

Lemma effective_direction d new allow allows :
  Forall plugin_rule current -> converted d new allow allows -> (kept_count d + length allow <= 3996)%nat ->
  exists rules, updateSecurityRuleNameAndPriority (current_rules id d current) new = Some rules /\
    Forall (of_direction d) rules /\
    forall t, (decides AccessAllow rules d t <-> allows t \/ exists r, kept_rule d r /\ matches r t) /\
      (decides AccessDeny rules d t <->
       ~ decides AccessAllow rules d t /\ ep_InVnet (tr_Source t) = true /\ ep_InVnet (tr_Destination t) = true).
Proof.
  intros Hc (-> & Hd & Ha & Hall) Hl.
  assert (forall r, r ∈ current_rules id d current <->
    r ∈ current /\ other_groups_rule (GetCloudName id false) r = true /\ sr_Direction r = d) as Hin.
  { intros r. unfold current_rules. rewrite !list_elem_of_filter. tauto. }
  assert (Forall (of_direction d) (current_rules id d current)) as Hcur.
  { rewrite list.Forall_forall in *. intros r (Hr & _ & Hr')%Hin. split; [by apply Hc|done]. }
  eexists. split; [by apply update_direction|]. split.
  - by eapply (direction_decides d _ _ _ (mkTraffic 0 (mkEndpoint [] ∅ false) 0 (mkEndpoint [] ∅ false) 0));
      [..|by apply update_direction].
  - intros t. destruct (direction_decides d (current_rules id d current) allow
      (numbered ruleStartPriority (filter (fun r => sr_Access r = AccessAllow) (current_rules id d current) ++ allow)
        ++ [vnet_deny_rule d]) t) as (_ & HA & HD); [done..|by apply update_direction|].
    split; [|exact HD]. rewrite HA, <- Hall. setoid_rewrite Hin. unfold kept_rule. split.
    + intros (r & [[(? & ? & ?) ?]|?] & ?); [right|left]; exists r; tauto.
    + intros [(r & ? & ?)|(r & (? & ? & ? & ?) & ?)]; exists r; tauto.
Qed.

Lemma effective_rules_spec newI newE allowI allowE allowsI allowsE :
  Forall plugin_rule current ->
  converted DirectionInbound newI allowI allowsI -> converted DirectionOutbound newE allowE allowsE ->
  (kept_count DirectionInbound + length allowI <= 3996)%nat -> (kept_count DirectionOutbound + length allowE <= 3996)%nat ->
  exists rules, effective_rules id current newI newE = Some rules /\ Forall plugin_rule rules /\
    forall t,
      (decides AccessAllow rules DirectionInbound t <-> allowsI t \/ exists r, kept_rule DirectionInbound r /\ matches r t) /\
      (decides AccessAllow rules DirectionOutbound t <-> allowsE t \/ exists r, kept_rule DirectionOutbound r /\ matches r t) /\
      (forall d, decides AccessDeny rules d t <->
        ~ decides AccessAllow rules d t /\ ep_InVnet (tr_Source t) = true /\ ep_InVnet (tr_Destination t) = true).
Proof.
  intros Hc HI HE HlI HlE.
  destruct (effective_direction _ _ _ _ Hc HI HlI) as (I & EI & HdI & HtI).
  destruct (effective_direction _ _ _ _ Hc HE HlE) as (E & EE & HdE & HtE).
  exists (I ++ E)%list. unfold effective_rules. rewrite EI. simpl. rewrite EE. split; [done|].
  assert (Forall (fun r => sr_Direction r <> DirectionInbound) E) as HE'
    by (eapply Forall_impl; [exact HdE|]; intros r [_ ->]; done).
  assert (Forall (fun r => sr_Direction r <> DirectionOutbound) I) as HI'
    by (eapply Forall_impl; [exact HdI|]; intros r [_ ->]; done).
  split; [apply Forall_app; split; eapply Forall_impl; [exact HdI| |exact HdE|]; by intros r []|].
  intros t. destruct (HtI t) as [HIA HID], (HtE t) as [HEA HED].
  split; [by rewrite decides_app|]. split; [by rewrite decides_app_comm, decides_app|].
  intros [].
  - by rewrite !decides_app.
  - by rewrite !(decides_app_comm _ I), !decides_app.
Qed.

End Effective.

(** ** Claims *)

(** C19: [updateSecurityRuleNameAndPriority] gives the rules of a direction, up to
    3996 of them, consecutive priorities from 100 in their order, hence distinct
    ones between 100 and 4095 with distinct names, and puts behind them the rules
    of priority 4096, one for each of their names. *)
Theorem priorities_in_bounds `{MapRange} existing new :
  let rules := (existing ++ new)%list in
  Forall has_keys rules -> (length (filter (fun r => ~ is_default r) rules) <= 3996)%nat ->
  exists allow defaults,
    updateSecurityRuleNameAndPriority existing new = Some (allow ++ defaults)%list /\
    allow = imap (fun i r => with_priority (100 + Z.of_nat i) r) (filter (fun r => ~ is_default r) rules) /\
    (forall r, r ∈ allow -> exists p, sr_Priority r = Some p /\ 100 <= p <= 4095) /\
    NoDup (map sr_Name allow) /\ NoDup (map sr_Name defaults) /\
    (forall r, r ∈ defaults -> is_default r /\ r ∈ rules) /\
    (forall r, r ∈ rules -> is_default r -> exists r', r' ∈ defaults /\ sr_Name r' = sr_Name r).
Proof.
  intros rules Hk Hl. destruct (update_spec existing new Hk Hl) as (ds & E & Hnd & Hin & Hname). fold rules in E, Hin, Hname.
  eexists _, ds. split; [exact E|]. split; [done|]. split; [|split; [|done]].
  - intros r (r0 & p & _ & -> & Hp)%numbered_elem; [|done]. by exists p.
  - apply numbered_distinct; unfold ruleStartPriority; lia.
Qed.
