(* ===== verification/AzureLaws.v ===== *)
(** * The Azure plug-in: what its methods do to the cloud

    The documented behaviour of the Azure API as laws over an abstract cloud,
    and what the methods of [azure_security.go] leave in the cloud under these
    laws: the rules of the network security group, and the groups of the network
    interfaces. *)

From stdpp Require Import base strings list gmap.
From Stdlib Require Import Ascii ZArith Lia.
From S2P Require Import Prelude GoStrings GoNet GoCIDR GoFmt SecurityGroup RuleMerge AzureModel AzureRules AzureQuery.
From S2P Require Import VirtualMachine AzureSecurity AzureTheorems.

#[local] Open Scope string_scope.
#[local] Open Scope Z_scope.

(** ** Rules up to their representation

    Azure stores what a rule means: a list that was not given comes back
    empty. *)

Definition same_rule (r r' : SecurityRule) : Prop :=
  sr_Name r = sr_Name r' /\ sr_Priority r = sr_Priority r' /\ sr_Direction r = sr_Direction r' /\
  sr_Access r = sr_Access r' /\ sr_Description r = sr_Description r' /\ forall t, matches r t <-> matches r' t.

Definition same_rules : relation (list SecurityRule) := Forall2 same_rule.

#[export] Instance same_rule_equiv : Equivalence same_rule.
Proof.
  split.
  - intros r. repeat (split; [done|]). done.
  - intros r r' (? & ? & ? & ? & ? & Hm). repeat (split; [done|]). intros t. by rewrite Hm.
  - intros r1 r2 r3 (? & ? & ? & ? & ? & Hm) (? & ? & ? & ? & ? & Hm').
    repeat (split; [congruence|]). intros t. by rewrite Hm.
Qed.

#[export] Instance same_rules_equiv : Equivalence same_rules.
Proof. unfold same_rules. apply _. Qed.

Lemma decides_mono access l1 l2 d t : same_rules l1 l2 -> decides access l1 d t -> decides access l2 d t.
Proof.
  intros Hs (r & p & Hr & Hd & Ha & Hp & Hm & Hlow).
  apply list_elem_of_lookup in Hr as [i Hi]. destruct (Forall2_lookup_l _ _ _ _ _ Hs Hi) as (r2 & Hi2 & HR).
  destruct HR as (_ & E2 & E3 & E4 & _ & HM). exists r2, p.
  split; [by eapply list_elem_of_lookup_2|]. split; [congruence|]. split; [congruence|]. split; [congruence|].
  split; [by apply HM|]. intros r' p' Hr'. apply list_elem_of_lookup in Hr' as [j Hj].
  destruct (Forall2_lookup_r _ _ _ _ _ Hs Hj) as (r1 & Hj1 & _ & F2 & F3 & F4 & _ & HM').
  rewrite <- F2, <- F3, <- F4, <- HM'. apply Hlow. by eapply list_elem_of_lookup_2.
Qed.

#[export] Instance decides_proper access : Proper (same_rules ==> eq ==> eq ==> iff) (decides access).
Proof. intros l1 l2 Hs d ? <- t ? <-. split; apply decides_mono; [done|by symmetry]. Qed.

#[export] Instance plugin_rule_proper : Proper (same_rule ==> iff) plugin_rule.
Proof.
  intros r r' (E1 & E2 & E3 & E4 & _). unfold plugin_rule, is_default. by rewrite E1, E2, E3, E4.
Qed.

(** ** Laws of the API *)

Section LawClass.
Context {AZ : Azure}.

Class AzureLaws := {
  (** the rules of the network security groups, by resource group and name *)
  az_nsgs : AzCloud -> string -> string -> option (list SecurityRule);
  (** the application security groups of a resource group *)
  az_asgs : AzCloud -> string -> list ApplicationSecurityGroup;
  (** the network interfaces, by lower-case identifier *)
  az_nics : AzCloud -> gmap string Interface;

  (** reading a network security group gives its rules, which are never nil, and
      an identifier that ends in its name *)
  nsg_get_law rg n c : match nsg_get rg n c with
    | (inr g, c') => c' = c /\ nsg_SecurityRules g = az_nsgs c rg n /\ is_Some (az_nsgs c rg n) /\
        exists i sub rg', nsg_ID g = Some i /\ i <> "" /\ extractFieldsFromAzureResourceID (ToLower i) = inr (sub, rg', ToLower n)
    | (inl _, c') => c' = c
    end;
  (** writing one replaces its rules *)
  nsg_put_law rg n loc rules c : match nsg_createOrUpdate rg n loc (Some rules) c with
    | (inr _, c') => (exists rules', az_nsgs c' rg n = Some rules' /\ same_rules rules rules') /\
        (forall rg' n', (rg', n') <> (rg, n) -> az_nsgs c' rg' n' = az_nsgs c rg' n')
    | (inl _, _) => True
    end;
  asg_list_law rg c : match asg_listComplete rg c with
    | (inr l, c') => c' = c /\ l = az_asgs c rg
    | (inl _, c') => c' = c
    end;
  (** a group that is read has an identifier that ends in its name *)
  asg_get_law rg n c : match asg_get rg n c with
    | (inr a, c') => c' = c /\ exists i sub g, asg_ID a = Some i /\ extractFieldsFromAzureResourceID (ToLower i) = inr (sub, g, ToLower n)
    | (inl _, c') => c' = c
    end;
  (** queries of the resource graph only read *)
  vm_rows_law q subs c : (virtualMachineRows q subs c).2 = c;
  nic_rows_law q subs c : match networkInterfaceRows q subs c with
    | (inr rows, c') => c' = c /\ NoDup (map (fun row => ToLower (nit_ID row)) rows) /\
        forall row, row ∈ rows -> exists i asgs, az_nics c !! ToLower (nit_ID row) = Some i /\
        primary_asgs (nif_IPConfigurations i) = Some asgs /\ map Some (nit_ASGIDs row) = map asg_ID asgs /\
        (nit_NetworkSecurityGroupID row = nif_NSG i ≫= nsg_ID \/
         nit_NetworkSecurityGroupID row = Some "" /\ nif_NSG i ≫= nsg_ID = None) /\
        nit_Tags row = option_list (nif_Tags i)
    | (inl _, c') => c' = c
    end;
  (** the list of interfaces is complete; every interface has its identifier *)
  nic_list_law c : match nic_listAllComplete c with
    | (inr l, c') => c' = c /\ forall i, i ∈ l <-> exists k, az_nics c !! k = Some i
    | (inl _, c') => c' = c
    end;
  nic_id_law c k i : az_nics c !! k = Some i -> exists id, nif_ID i = Some id /\ ToLower id = k;
  (** writing an interface replaces it *)
  nic_put_law id rg n i c : nif_ID i = Some id -> nic_location id = (rg, n) ->
    match nic_createOrUpdate rg n i c with
    | (inr _, c') => az_nics c' = <[ToLower id := i]> (az_nics c)
    | (inl _, _) => True
    end
}.

End LawClass.

Section Realized.
Context {AZ : Azure} {LAWS : AzureLaws} {RNG : MapRange}.

(** ** Updating rules *)

(** The groups of the resource group, as the plug-in looks them up. *)
Definition address_asgs (c : AzCloud) (rg : string) : gmap string ApplicationSecurityGroup :=
  (getNepheControllerCreatedAsgs (az_asgs c rg)).1.
Definition applied_asgs (c : AzCloud) (rg : string) : gmap string ApplicationSecurityGroup :=
  (getNepheControllerCreatedAsgs (az_asgs c rg)).2.

(** The rules [rules] of the network security group admit what the new rules of
    group [id] allow and what the rules of the other groups admitted, and deny
    the rest inside the virtual network. *)
Definition rules_realized (c : AzCloud) (rg : string) (id : CloudResourceID) (ing : list IngressRule) (eg : list EgressRule)
    (current rules : list SecurityRule) : Prop :=
  Forall plugin_rule rules /\
  exists asg, applied_asgs c rg !! ToLower (cid_Name id) = Some asg /\ forall t,
    (decides AccessAllow rules DirectionInbound t <->
       ingress_allows (address_asgs c rg) asg ing t \/ exists r, kept_rule id current DirectionInbound r /\ matches r t) /\
    (decides AccessAllow rules DirectionOutbound t <->
       egress_allows (address_asgs c rg) asg eg t \/ exists r, kept_rule id current DirectionOutbound r /\ matches r t) /\
    (forall d, decides AccessDeny rules d t <->
       ~ decides AccessAllow rules d t /\ ep_InVnet (tr_Source t) = true /\ ep_InVnet (tr_Destination t) = true).

Lemma rules_realized_same c rg id ing eg current rules rules' :
  same_rules rules rules' -> rules_realized c rg id ing eg current rules -> rules_realized c rg id ing eg current rules'.
Proof.
  intros Hs [Hp (asg & Ha & Ht)]. split.
  - rewrite list.Forall_forall in *. intros r' [i Hi]%list_elem_of_lookup.
    destruct (Forall2_lookup_r _ _ _ _ _ Hs Hi) as (r & Hi' & Hr). rewrite <- Hr. by eapply Hp, list_elem_of_lookup_2.
  - exists asg. split; [done|]. intros t. specialize (Ht t). setoid_rewrite <- Hs. exact Ht.
Qed.

(** What the network security group may hold before the update: rules the
    plug-in left there, and room for the new ones. *)
Definition room (id : CloudResourceID) (ing : list IngressRule) (eg : list EgressRule) (current : list SecurityRule) : Prop :=
  Forall plugin_rule current /\ Forall ingress_ok ing /\ Forall egress_ok eg /\
  (kept_count id current DirectionInbound + 2 * length ing <= 3996)%nat /\
  (kept_count id current DirectionOutbound + 2 * length eg <= 3996)%nat.

(** An error ends the method. *)
Ltac returns_error := subst; eexists; split; [reflexivity|by intros ? [=]].

Lemma buildEffective_spec id ing eg nsg rg c current :
  az_nsgs c rg nsg = Some current -> room id ing eg current ->
  exists res, buildEffectiveNSGSecurityRulesToApply id ing eg nsg rg c = Returned (res, c) /\
    forall rules, res = inr rules -> rules_realized c rg id ing eg current rules.
Proof.
  intros Hcur (Hp & Hi & He & HlI & HlE). unfold buildEffectiveNSGSecurityRulesToApply, mbind, ZM_bind, zapi.
  pose proof (nsg_get_law rg nsg c) as Hget. destruct (nsg_get rg nsg c) as [[e|g] c']; [returns_error|].
  destruct Hget as (-> & Hg & _ & _). rewrite Hcur in Hg. rewrite Hg. cbn [zderef mret ZM_ret].
  unfold getNepheControllerCreatedAsgByNameForResourceGroup, mbind, ZM_bind, zapi.
  pose proof (asg_list_law rg c) as Hlist. destruct (asg_listComplete rg c) as [[e|l] c']; [returns_error|].
  destruct Hlist as [-> ->]. cbn [mret ZM_ret]. fold (address_asgs c rg) (applied_asgs c rg).
  destruct (convertIngressToAzureNsgSecurityRules id ing _ _) as [e|newI] eqn:EI; [returns_error|].
  cbn [zlift mret ZM_ret]. destruct (convertEgressToAzureNsgSecurityRules id eg _ _) as [e|newE] eqn:EE; [returns_error|].
  cbn [zlift mret ZM_ret].
  destruct (convertIngress_converted _ _ _ _ _ Hi ltac:(lia) EI) as (a & allowI & Ha & HnI & HcI).
  destruct (convertEgress_converted _ _ _ _ _ He ltac:(lia) EE) as (a' & allowE & Ha' & HnE & HcE).
  rewrite Ha in Ha'. injection Ha' as <-.
  destruct (effective_rules_spec id current _ _ _ _ _ _ Hp HcI HcE) as (rules & -> & Hpl & Ht); [lia..|].
  exists (inr rules). split; [done|]. intros ? [= <-]. split; [done|]. exists a. split; [done|exact Ht].
Qed.

Lemma rows_of_queries_reads qs subs c : exists r, rows_of_queries qs subs c = Returned (r, c).
Proof.
  induction qs as [|q qs [r IH]]; cbn [rows_of_queries]; [by eexists|]. unfold mbind, ZM_bind, zapi.
  pose proof (vm_rows_law q subs c) as Hr. destruct (virtualMachineRows q subs c) as [[e|rows] c']; simpl in Hr; subst; [by eauto|].
  rewrite IH. destruct r; by eauto.
Qed.

Lemma getVirtualMachines_reads cfg c : exists r, getVirtualMachines cfg c = Returned (r, c).
Proof. unfold getVirtualMachines. destruct (getComputeResourceFilters _ _ _ _). apply rows_of_queries_reads. Qed.

Lemma az_UpdateSecurityGroupRules_spec accounts acc cfg id ing eg sub rg nm c current :
  let nsg := perVnetNsgName (cid_Vpc id) in
  getVnetAccount accounts (cid_Vpc id) = Some acc -> azacc_compute acc = inr cfg ->
  extractFieldsFromAzureResourceID (cid_Vpc id) = inr (sub, rg, nm) ->
  ifPeerProcessing cfg (cid_Vpc id) = false ->
  az_nsgs c rg nsg = Some current -> room id ing eg current ->
  exists res c', az_UpdateSecurityGroupRules accounts id ing eg c = Returned (res, c') /\
    (res = inr tt -> (exists rules, az_nsgs c' rg nsg = Some rules /\ rules_realized c rg id ing eg current rules) /\
       forall rg' n, (rg', n) <> (rg, nsg) -> az_nsgs c' rg' n = az_nsgs c rg' n).
Proof.
  intros nsg Hacc Hcfg Hex Hpeer Hcur Hroom. unfold az_UpdateSecurityGroupRules, vnet_service.
  rewrite Hacc, Hcfg, Hex. unfold mbind, ZM_bind. cbn [zlift mret ZM_ret fst snd]. rewrite Hpeer.
  unfold zattempt. destruct (getVirtualMachines_reads cfg c) as [r ->]. fold nsg.
  destruct (buildEffective_spec id ing eg nsg rg c current Hcur Hroom) as (res & -> & Hres).
  destruct res as [e|rules]; [by eexists _, _; split; [done|]|].
  unfold updateNetworkSecurityGroupRules, mbind, ZM_bind, zapi.
  pose proof (nsg_put_law rg nsg (aac_region (comp_credentials cfg)) rules c) as Hput.
  destruct (nsg_createOrUpdate _ _ _ _ c) as [[e|g] c']; [by eexists _, _; split; [done|]|].
  destruct Hput as [(rules' & Hr' & Hs) Hframe]. eexists _, _. split; [done|]. intros _. split; [|exact Hframe].
  exists rules'. split; [done|]. eapply rules_realized_same; [exact Hs|]. by apply Hres.
Qed.


(** ** Membership *)

(** What is to be done for an interface: [Some true] to attach the group, [Some
    false] to detach it. *)
Definition change (attached : networkInterfaceTable -> azError + bool) (members : gset string * gset string)
    (row : networkInterfaceTable) : option bool :=
  match row_vm row with
  | None => None
  | Some vm =>
      match attached row with
      | inl _ => None
      | inr a => if Bool.eqb a (is_member members vm row) then None else Some (is_member members vm row)
      end
  end.

Definition changed_ids (attached : networkInterfaceTable -> azError + bool) (members : gset string * gset string)
    (rows : list networkInterfaceTable) (b : bool) (k : string) : Prop :=
  exists row, row ∈ rows /\ change attached members row = Some b /\ ToLower (nit_ID row) = k.

Lemma changed_ids_cons attached members row rows b k :
  changed_ids attached members (row :: rows) b k <->
  (change attached members row = Some b /\ ToLower (nit_ID row) = k) \/ changed_ids attached members rows b k.
Proof.
  unfold changed_ids. split.
  - intros (r & [->|Hr]%elem_of_cons & ? & ?); [by left|right; by eauto].
  - intros [[? ?]|(r & ? & ? & ?)]; [exists row|exists r]; rewrite elem_of_cons; auto.
Qed.

Lemma attach_detach_sets_step attached members row rows acc sets :
  attach_detach_sets attached members (row :: rows) acc = inr sets ->
  attach_detach_sets attached members rows
    match change attached members row with
    | None => acc
    | Some true => ({[ToLower (nit_ID row)]} ∪ acc.1, acc.2)
    | Some false => (acc.1, {[ToLower (nit_ID row)]} ∪ acc.2)
    end = inr sets.
Proof.
  cbn [attach_detach_sets]. unfold change. destruct (row_vm row) as [vm|]; [|done].
  destruct (attached row) as [e|[]]; [done|..]; by destruct (is_member members vm row).
Qed.

Lemma attach_detach_sets_spec attached members rows acc sets :
  attach_detach_sets attached members rows acc = inr sets ->
  (forall k, k ∈ sets.1 <-> k ∈ acc.1 \/ changed_ids attached members rows true k) /\
  (forall k, k ∈ sets.2 <-> k ∈ acc.2 \/ changed_ids attached members rows false k).
Proof.
  revert acc. induction rows as [|row rows IH]; intros acc.
  { intros [= <-]. split; intros k; (split; [by left|]); intros [|(row & Hr & _)]; try done; by apply elem_of_nil in Hr. }
  intros [H1 H2]%attach_detach_sets_step%IH. setoid_rewrite changed_ids_cons.
  split; intros k; [rewrite H1|rewrite H2]; destruct (change attached members row) as [[]|]; simpl;
    rewrite ?elem_of_union, ?elem_of_singleton; intuition congruence.
Qed.

(** The sets are only returned when every row can be read. *)
Lemma attach_detach_sets_error attached members rows acc row vm e sets :
  row ∈ rows -> row_vm row = Some vm -> attached row = inl e ->
  attach_detach_sets attached members rows acc = inr sets -> False.
Proof.
  intros Hin Hvm He. revert acc. induction Hin as [row rows|row row' rows _ IH]; intros acc Hs.
  - cbn [attach_detach_sets] in Hs. by rewrite Hvm, He in Hs.
  - apply attach_detach_sets_step in Hs. by eapply IH.
Qed.

(** *** Updating interfaces *)

(** [update o b] writes [upd o b] in place of [o]. *)
Definition updates (update : Interface -> bool -> ZM unit) (upd : Interface -> bool -> Interface) (ok : Interface -> Prop) : Prop :=
  forall o id b c, nif_ID o = Some id -> ok o ->
    exists res c', update o b c = Returned (res, c') /\
      (res = inr tt -> az_nics c' = <[ToLower id := upd o b]> (az_nics c)).

Definition has_id (k : string) (o : Interface) : Prop := ToLower <$> nif_ID o = Some k.
#[local] Instance has_id_dec k o : Decision (has_id k o).
Proof. unfold has_id. apply _. Defined.

Lemma has_id_alt k o : has_id k o <-> exists id, nif_ID o = Some id /\ ToLower id = k.
Proof. unfold has_id. rewrite fmap_Some. naive_solver. Qed.

Lemma update_interfaces_spec update upd ok toAttach todo c :
  updates update upd ok -> Forall (fun o => ok o /\ exists k, has_id k o) todo ->
  (forall k o o', o ∈ todo -> o' ∈ todo -> has_id k o -> has_id k o' -> o = o') ->
  exists es c', update_interfaces update toAttach todo c = Returned (inr es, c') /\
    (es = [] -> forall k,
       (forall o, o ∈ todo -> has_id k o -> az_nics c' !! k = Some (upd o (bool_decide (k ∈ toAttach)))) /\
       ((forall o, o ∈ todo -> ~ has_id k o) -> az_nics c' !! k = az_nics c !! k)).
Proof.
  intros Hu Hok. revert c. induction Hok as [|o todo [Ho [k (id & Hid & Hk)%has_id_alt]] Hok IH]; intros c Hinj; cbn [update_interfaces].
  { eexists _, _. split; [done|]. intros _ k. split; [|done]. intros o Hin. by apply elem_of_nil in Hin. }
  rewrite Hid. unfold mbind, ZM_bind, zattempt. cbn [zderef mret ZM_ret].
  destruct (Hu o id (bool_decide (ToLower id ∈ toAttach)) c Hid Ho) as (res & c1 & -> & Hc1).
  destruct (IH c1) as (es & c' & -> & Hc').
  { intros k' o1 o2 H1 H2. apply Hinj; by right. }
  eexists _, _. split; [done|]. destruct res as [e|[]]; [done|]. intros -> k'.
  destruct (Hc' eq_refl k') as [HA HB]. specialize (Hc1 eq_refl). split.
  - intros o' [->|Hin]%elem_of_cons Hk'; [|by apply HA].
    apply has_id_alt in Hk' as (id' & Hid' & <-). rewrite Hid in Hid'. injection Hid' as <-.
    destruct (decide (Exists (has_id (ToLower id)) todo)) as [Hex|Hno].
    + apply Exists_exists in Hex as (o2 & Hin2 & Hk2).
      rewrite (Hinj (ToLower id) o o2) by (by left || by right || (by apply has_id_alt; exists id) || done). by apply HA.
    + rewrite HB, Hc1; [by rewrite lookup_insert_eq|]. intros o2 Hin2 Hk2. apply Hno, Exists_exists. eauto.
  - intros Hno. rewrite HB, Hc1 by (intros o2 Hin2; apply Hno; by right).
    apply lookup_insert_ne. intros E. apply (Hno o); [by left|]. apply has_id_alt. by exists id.
Qed.

(** The interfaces with the given identifiers. *)
Lemma interfaces_given_spec (nics : gmap string Interface) objs ids acc :
  (forall o, o ∈ objs -> exists k, has_id k o /\ nics !! k = Some o) ->
  (forall k o, acc !! k = Some o -> k ∈ ids /\ nics !! k = Some o) ->
  exists m, interfaces_given objs ids acc = Some m /\
    (forall k o, m !! k = Some o -> k ∈ ids /\ nics !! k = Some o) /\
    (forall k, is_Some (acc !! k) -> is_Some (m !! k)) /\
    (forall k o, o ∈ objs -> has_id k o -> k ∈ ids -> is_Some (m !! k)).
Proof.
  revert acc. induction objs as [|o objs IH]; intros acc Ho Hacc; cbn [interfaces_given].
  { exists acc. repeat split; try done; [by eapply Hacc..|]. intros k o Hin. by apply elem_of_nil in Hin. }
  destruct (Ho o) as (k & Hk & Hn); [by left|]. pose proof Hk as (id & Hid & <-)%has_id_alt. rewrite Hid. simpl.
  destruct (IH (if decide (ToLower id ∈ ids) then <[ToLower id := o]> acc else acc)) as (m & -> & Hm & Hsub & Hin).
  { intros o' Hin. apply Ho. by right. }
  { intros k o'. case_decide; [|by apply Hacc]. rewrite lookup_insert_Some. intros [[<- <-]|[_ ?]]; [done|by apply Hacc]. }
  exists m. split; [done|]. split; [done|].
  assert (forall k, is_Some (acc !! k) -> is_Some (m !! k)) as Hsub'.
  { intros k Hs. apply Hsub. case_decide; [|done]. rewrite lookup_insert_is_Some. destruct (decide (ToLower id = k)); auto. }
  split; [done|]. intros k o' [->|Hin']%elem_of_cons Hk' Hids; [|by eapply Hin].
  unfold has_id in Hk, Hk'. rewrite Hk in Hk'. injection Hk' as <-. apply Hsub. rewrite decide_True by done.
  by rewrite lookup_insert_eq.
Qed.

(** Every interface to attach or detach is updated, and no other. *)
Lemma attach_detach_spec update upd ok toAttach toDetach c objs :
  updates update upd ok -> (nic_listAllComplete c).1 = inr objs ->
  (forall k, k ∈ toAttach ∪ toDetach -> exists o, az_nics c !! k = Some o /\ ok o) ->
  exists res c', attach_detach_concurrently update toAttach toDetach c = Returned (res, c') /\
    (res = inr tt -> forall k, az_nics c' !! k =
       if decide (k ∈ toAttach ∪ toDetach) then (fun o => upd o (bool_decide (k ∈ toAttach))) <$> az_nics c !! k
       else az_nics c !! k).
Proof.
  intros Hu Hlist Hok. unfold attach_detach_concurrently, getNetworkInterfacesGivenIDs, mbind, ZM_bind, zattempt, zapi.
  pose proof (nic_list_law c) as Hlaw. destruct (nic_listAllComplete c) as [r c1]. simpl in Hlist. subst r.
  destruct Hlaw as [-> Hobjs].
  assert (mergeSet [toAttach; toDetach] = toAttach ∪ toDetach) as -> by (unfold mergeSet; simpl; set_solver).
  set (all := toAttach ∪ toDetach).
  destruct (interfaces_given_spec (az_nics c) objs all ∅) as (m & -> & Hm & _ & Hin).
  { intros o (k & Hk)%Hobjs. exists k. split; [|done]. by apply has_id_alt, nic_id_law with (1 := Hk). }
  { intros k o. by rewrite lookup_empty. }
  cbn [zderef mret ZM_ret].
  assert (forall k, m !! k = if decide (k ∈ all) then az_nics c !! k else None) as Hmk.
  { intros k. case_decide as Hk.
    - destruct (Hok k Hk) as (o & Ho & _). destruct (Hin k o) as [o' Ho']; [by apply Hobjs; eauto| |done|].
      + by apply has_id_alt, nic_id_law with (1 := Ho).
      + rewrite Ho'. symmetry. by apply Hm.
    - destruct (m !! k) as [o|] eqn:E; [|done]. by apply Hm in E as [? _]. }
  assert (forall o, o ∈ map snd (go_range m) <-> exists k, m !! k = Some o) as Htodo by (intros o; apply elem_of_go_range_values).
  assert (forall k o, m !! k = Some o -> has_id k o /\ ok o) as Hmo.
  { intros k o E. pose proof E as [Hk Ho]%Hm. split; [by apply has_id_alt, nic_id_law with (1 := Ho)|].
    destruct (Hok k Hk) as (o' & Ho' & ?). congruence. }
  destruct (update_interfaces_spec update upd ok toAttach (map snd (go_range m)) c Hu) as (es & c' & -> & Hes).
  { apply list.Forall_forall. intros o (k & Hk)%Htodo. destruct (Hmo k o Hk). eauto. }
  { intros k o o' (k1 & H1)%Htodo (k2 & H2)%Htodo Hk Hk'. destruct (Hmo _ _ H1) as [Hi1 _], (Hmo _ _ H2) as [Hi2 _].
    unfold has_id in *. congruence. }
  assert (size m = size all) as ->.
  { rewrite <- size_dom. f_equal. apply leibniz_equiv. intros k. rewrite elem_of_dom, Hmk.
    case_decide as Hk; [|by split; [intros []|]]. destruct (Hok k Hk) as (o & -> & _). split; eauto. }
  rewrite decide_True by done. destruct es as [|e es]; [|by eexists _, _]. eexists _, _. split; [done|]. intros _ k.
  destruct (Hes eq_refl k) as [HA HB]. specialize (Hmk k). case_decide as Hk.
  - destruct (Hok k Hk) as (o & Ho & _). rewrite Ho in *. apply HA; [by apply Htodo; eauto|]. by apply (Hmo k o).
  - apply HB. intros o (k' & Hk')%Htodo Hid. destruct (Hmo _ _ Hk') as [Hi _]. unfold has_id in *. congruence.
Qed.

(** A membership update changes the interfaces of the table that need it. *)
Lemma membership_spec attached members rows update upd ok sets c objs :
  updates update upd ok -> (nic_listAllComplete c).1 = inr objs ->
  NoDup (map (fun row => ToLower (nit_ID row)) rows) ->
  (forall row, row ∈ rows -> exists o, az_nics c !! ToLower (nit_ID row) = Some o /\ ok o) ->
  attach_detach_sets attached members rows (∅, ∅) = inr sets ->
  exists res c', attach_detach_concurrently update sets.1 sets.2 c = Returned (res, c') /\
    (res = inr tt ->
     (forall row o, row ∈ rows -> az_nics c !! ToLower (nit_ID row) = Some o ->
        az_nics c' !! ToLower (nit_ID row) = Some (match change attached members row with None => o | Some b => upd o b end)) /\
     (forall k, (forall row, row ∈ rows -> ToLower (nit_ID row) <> k) -> az_nics c' !! k = az_nics c !! k)).
Proof.
  intros Hu Hlist Hnd Hok [H1 H2]%attach_detach_sets_spec. simpl in H1, H2.
  assert (forall k, k ∈ sets.1 ∪ sets.2 <-> exists row b, row ∈ rows /\ change attached members row = Some b /\ ToLower (nit_ID row) = k) as Hsets.
  { intros k. rewrite elem_of_union, H1, H2. unfold changed_ids. split.
    - intros [[[]%elem_of_empty|(r & ? & ? & ?)]|[[]%elem_of_empty|(r & ? & ? & ?)]]; eauto 10.
    - intros (r & [] & ? & ? & ?); [left|right]; right; eauto. }
  destruct (attach_detach_spec update upd ok sets.1 sets.2 c objs Hu Hlist) as (res & c' & -> & Hc').
  { intros k (row & b & Hin & _ & <-)%Hsets. by apply Hok. }
  eexists _, _. split; [done|]. intros Hres. specialize (Hc' Hres). split.
  - intros row o Hin Ho. rewrite Hc', Ho. simpl.
    destruct (change attached members row) as [b|] eqn:Eb.
    + rewrite decide_True by (apply Hsets; eauto). do 2 f_equal.
      assert (forall row' b', row' ∈ rows -> change attached members row' = Some b' ->
        ToLower (nit_ID row') = ToLower (nit_ID row) -> b' = b) as Huniq.
      { intros row' b' Hin' Hb' Eid. rewrite (NoDup_key_inj _ _ row' row Hnd) in Hb' by done. congruence. }
      destruct b.
      * apply bool_decide_true, H1. right. by exists row.
      * apply bool_decide_false. rewrite H1. intros [[]%elem_of_empty|(row' & Hin' & Hb' & Eid)].
        by apply (Huniq row' true) in Eid.
    + rewrite decide_False; [done|]. intros (row' & b & Hin' & Hb & Eid)%Hsets.
      rewrite (NoDup_key_inj _ _ row' row Hnd) in Hb by done. congruence.
  - intros k Hk. rewrite Hc', decide_False; [done|]. intros (row & b & Hin & _ & E)%Hsets. by apply (Hk row).
Qed.

End Realized.
