(* ===== verification/AzureMembers.v ===== *)
(** * The Azure plug-in: the members of groups

    Under the laws of [AzureLaws], a successful [UpdateSecurityGroupMembers]
    leaves exactly the interfaces of the members in the group. *)

From stdpp Require Import base strings list gmap.
From Stdlib Require Import Ascii ZArith Lia.
From S2P Require Import Prelude GoStrings GoNet GoCIDR GoFmt SecurityGroup RuleMerge AzureModel AzureRules AzureQuery.
From S2P Require Import VirtualMachine AzureSecurity AzureTheorems AzureLaws.

#[local] Open Scope string_scope.
#[local] Open Scope Z_scope.

(** ** The application security groups of an interface *)

(** Groups are told apart by their identifier, without regard to case. *)
Definition same_asg (a a' : ApplicationSecurityGroup) : Prop := ToLower <$> asg_ID a = ToLower <$> asg_ID a'.
#[export] Instance same_asg_dec a a' : Decision (same_asg a a').
Proof. unfold same_asg. apply _. Defined.

(** The groups of the primary configuration, which every interface has. *)
Definition nic_asgs (o : Interface) : list ApplicationSecurityGroup :=
  default [] (primary_asgs (nif_IPConfigurations o)).
Definition in_group (a : ApplicationSecurityGroup) (o : Interface) : Prop := Exists (same_asg a) (nic_asgs o).

Inductive has_primary : list IPConfiguration -> Prop :=
  | primary_here c cs : ipc_Primary c = Some true -> has_primary (c :: cs)
  | primary_later c cs : ipc_Primary c = Some false -> has_primary cs -> has_primary (c :: cs).

Definition nic_ok (o : Interface) : Prop :=
  has_primary (nif_IPConfigurations o) /\ Forall (fun a => is_Some (asg_ID a)) (nic_asgs o).

Lemma has_primary_asgs cs : has_primary cs -> exists l, primary_asgs cs = Some l.
Proof. induction 1 as [c cs Hc|c cs Hc _ IH]; simpl; rewrite Hc; eauto. Qed.

Lemma primary_asgs_set cs new :
  has_primary cs -> primary_asgs (map (fun c => mkIPConfiguration (ipc_Primary c) (Some new)) cs) = Some new.
Proof. induction 1 as [c cs Hc|c cs Hc _ IH]; simpl; by rewrite Hc. Qed.

(** The groups after attaching or detaching one. *)
Definition updated_asgs (asg : ApplicationSecurityGroup) (b : bool) (l : list ApplicationSecurityGroup) : list ApplicationSecurityGroup :=
  if b then (l ++ [asg])%list else filter (fun a => ~ same_asg asg a) l.

Definition with_asgs (new : list ApplicationSecurityGroup) (o : Interface) : Interface :=
  mkInterface (nif_ID o) (map (fun c => mkIPConfiguration (ipc_Primary c) (Some new)) (nif_IPConfigurations o))
    (nif_NSG o) (nif_Tags o).

Lemma asgs_without_filter asg i l :
  asg_ID asg = Some i -> Forall (fun a => is_Some (asg_ID a)) l ->
  asgs_without (ToLower i) l = Some (filter (fun a => ~ same_asg asg a) l).
Proof.
  intros Hi. induction 1 as [|a l [j Hj] _ IH]; [done|]. cbn [asgs_without]. rewrite Hj, IH. simpl.
  assert (same_asg asg a <-> ToLower i = ToLower j) as Hs by (unfold same_asg; rewrite Hi, Hj; simpl; split; congruence).
  rewrite filter_cons. destruct (decide (ToLower i = ToLower j)) as [E|Hne].
  - by rewrite decide_False by tauto.
  - by rewrite decide_True by tauto.
Qed.

Lemma getAsgUpdated_spec o asg i b :
  asg_ID asg = Some i -> nic_ok o ->
  getAsgUpdatedIPConfigurations o asg b = Some (nif_IPConfigurations (with_asgs (updated_asgs asg b (nic_asgs o)) o)).
Proof.
  intros Hi [Hp Hids]. unfold getAsgUpdatedIPConfigurations, nic_asgs in *.
  destruct (has_primary_asgs _ Hp) as [l Hl]. rewrite Hl in *. simpl in *. destruct b; [done|].
  rewrite Hi. simpl. by rewrite (asgs_without_filter asg i l).
Qed.

Lemma nic_asgs_updated new o : nic_ok o -> nic_asgs (with_asgs new o) = new.
Proof. intros [Hp _]. unfold nic_asgs, with_asgs. simpl. by rewrite primary_asgs_set. Qed.

Lemma in_group_updated asg b o : nic_ok o -> in_group asg (with_asgs (updated_asgs asg b (nic_asgs o)) o) <-> b = true.
Proof.
  intros Hok. unfold in_group. rewrite nic_asgs_updated by done. unfold updated_asgs. rewrite Exists_exists. split.
  - destruct b; [done|]. intros (a & [Ha _]%list_elem_of_filter & Hs). done.
  - intros ->. exists asg. rewrite elem_of_app, list_elem_of_singleton. by split; [right|].
Qed.

(** Other groups are left alone. *)
Lemma updated_asgs_other asg b l a : ~ same_asg asg a -> a ∈ updated_asgs asg b l <-> a ∈ l.
Proof.
  intros Hne. unfold updated_asgs. destruct b.
  - rewrite elem_of_app, list_elem_of_singleton. split; [intros [?| ->]; [done|by destruct Hne]|by left].
  - rewrite list_elem_of_filter. tauto.
Qed.

Section Members.
Context {AZ : Azure} {LAWS : AzureLaws} {RNG : MapRange}.

Lemma updateNetworkInterfaceAsg_updates asg i :
  asg_ID asg = Some i ->
  updates (fun o b => updateNetworkInterfaceAsg o asg b) (fun o b => with_asgs (updated_asgs asg b (nic_asgs o)) o) nic_ok.
Proof.
  intros Hi o id b c Hid Hok. unfold updateNetworkInterfaceAsg. rewrite Hid.
  destruct (nic_location id) as [rg n] eqn:El. rewrite (getAsgUpdated_spec o asg i b Hi Hok).
  unfold mbind, ZM_bind, zapi. cbn [zderef mret ZM_ret].
  set (new := mkInterface _ _ _ _). pose proof (nic_put_law id rg n new c eq_refl El) as Hput.
  destruct (nic_createOrUpdate rg n new c) as [[e|[]] c']; eexists _, _; (split; [done|]); [done|]. intros _. rewrite Hput.
  unfold new, with_asgs. by rewrite Hid.
Qed.

(** *** Address groups *)

(** No interface of the table is in a group of this name with another
    identifier, that is, of another resource group. *)
Definition name_identifies (rows : list networkInterfaceTable) (name i : string) : Prop :=
  forall row asgID sub g, row ∈ rows -> asgID ∈ nit_ASGIDs row ->
    extractFieldsFromAzureResourceID (ToLower asgID) = inr (sub, g, name) -> ToLower asgID = ToLower i.

(** The row of an interface, as the resource graph reports it. *)
Definition row_of (row : networkInterfaceTable) (o : Interface) : Prop :=
  map Some (nit_ASGIDs row) = map asg_ID (nic_asgs o) /\
  (nit_NetworkSecurityGroupID row = nif_NSG o ≫= nsg_ID \/
   nit_NetworkSecurityGroupID row = Some "" /\ nif_NSG o ≫= nsg_ID = None) /\
  nit_Tags row = option_list (nif_Tags o).

Lemma row_of_asg row o i : row_of row o -> i ∈ nit_ASGIDs row <-> exists a, a ∈ nic_asgs o /\ asg_ID a = Some i.
Proof.
  unfold row_of. intros [E _]. assert (Some i ∈ map Some (nit_ASGIDs row) <-> i ∈ nit_ASGIDs row) as <-.
  { rewrite list_elem_of_fmap. naive_solver. }
  rewrite E, list_elem_of_fmap. naive_solver.
Qed.

Lemma asg_attached_spec id asg i sub g rows row o :
  let name := GetCloudName id true in
  asg_ID asg = Some i -> extractFieldsFromAzureResourceID (ToLower i) = inr (sub, g, name) ->
  name_identifies rows name i -> row ∈ rows -> row_of row o ->
  asg_attached name row = inr (bool_decide (in_group asg o)).
Proof.
  intros name Hi Hx Hid Hrow Hof. unfold asg_attached. f_equal. apply eq_true_iff_eq.
  rewrite existsb_exists, bool_decide_eq_true. unfold in_group. rewrite Exists_exists. split.
  - intros (j & Hj%list_elem_of_In & Hm). destruct (extractFieldsFromAzureResourceID (ToLower j)) as [|[[sub' g'] n]] eqn:Ej; [done|].
    destruct (IsNepheControllerCreatedSG n) as [[? isAG] ?]. apply andb_true_iff in Hm as [_ ->%bool_decide_eq_true].
    pose proof (Hid row j sub' g' Hrow Hj Ej) as El. apply (row_of_asg row o j Hof) in Hj as (a & Ha & Hja).
    exists a. split; [done|]. unfold same_asg. rewrite Hi, Hja. simpl. by f_equal.
  - intros (a & Ha & Hs). unfold same_asg in Hs. rewrite Hi in Hs. destruct (asg_ID a) as [j|] eqn:Ej; [|done].
    injection Hs as Hs. exists j. split; [apply list_elem_of_In, (row_of_asg row o j Hof); eauto|].
    rewrite <- Hs, Hx. unfold name at 1, GetCloudName. rewrite IsNephe_AG. by rewrite bool_decide_true.
Qed.

(** The interfaces of the virtual network, as the query reports them. *)
Lemma getNetworkInterfacesOfVnet_rows cfg vnets c rows c' :
  getNetworkInterfacesOfVnet cfg vnets c = Returned (inr rows, c') ->
  c' = c /\ NoDup (map (fun row => ToLower (nit_ID row)) rows) /\
  forall row, row ∈ rows -> exists o, az_nics c !! ToLower (nit_ID row) = Some o /\ row_of row o.
Proof.
  unfold getNetworkInterfacesOfVnet, mbind, ZM_bind, zapi. destruct (getNwIntfsByVnetIDsAndSubscriptionIDsAndTenantIDsAndLocationsMatchQuery _ _ _ _) as [e|q]; [done|].
  cbn [zlift mret ZM_ret]. pose proof (nic_rows_law q [aac_SubscriptionID (comp_credentials cfg)] c) as Hrows.
  destruct (networkInterfaceRows _ _ c) as [r c1]. intros [= -> ->]. destruct Hrows as (-> & Hnd & Hrows).
  split; [done|]. split; [done|]. intros row Hrow. destruct (Hrows row Hrow) as (o & asgs & Ho & Hp & Hm & ? & ?).
  exists o. split; [done|]. unfold row_of, nic_asgs. by rewrite Hp.
Qed.

(** The interfaces of members are in the group and those of other virtual
    machines are not; nothing else has changed. *)
Definition ag_realized (asg : ApplicationSecurityGroup) (members : gset string * gset string)
    (rows : list networkInterfaceTable) (c c' : AzCloud) : Prop :=
  (forall row o vm, row ∈ rows -> row_vm row = Some vm -> az_nics c !! ToLower (nit_ID row) = Some o ->
     exists o', az_nics c' !! ToLower (nit_ID row) = Some o' /\
       (in_group asg o' <-> is_member members vm row = true) /\
       (forall a, ~ same_asg asg a -> a ∈ nic_asgs o' <-> a ∈ nic_asgs o) /\
       nif_NSG o' = nif_NSG o /\ nif_Tags o' = nif_Tags o) /\
  (forall k, (forall row, row ∈ rows -> ToLower (nit_ID row) <> k) -> az_nics c' !! k = az_nics c !! k).

Lemma processAddressGroupMembership_spec id members rows rg c asg objs :
  let name := GetCloudName id true in
  NoDup (map (fun row => ToLower (nit_ID row)) rows) ->
  (forall row, row ∈ rows -> exists o, az_nics c !! ToLower (nit_ID row) = Some o /\ row_of row o /\ nic_ok o) ->
  (asg_get rg name c).1 = inr asg -> (nic_listAllComplete c).1 = inr objs ->
  (forall i, asg_ID asg = Some i -> name_identifies rows name i) ->
  exists res c', processAddressGroupMembership id rows rg members c = Returned (res, c') /\
    (res = inr tt -> ag_realized asg members rows c c').
Proof.
  intros name Hnd Hrows Hasg Hobjs Hident. unfold processAddressGroupMembership, mbind, ZM_bind, zapi. fold name.
  pose proof (asg_get_law rg name c) as Hlaw. destruct (asg_get rg name c) as [r c1]. simpl in Hasg. subst r.
  destruct Hlaw as (-> & i & sub' & g & Hi & Hx). unfold name in Hx. rewrite ToLower_GetCloudName in Hx. fold name in Hx.
  destruct (attach_detach_sets (asg_attached name) members rows (∅, ∅)) as [e|sets] eqn:Es; [by eexists _, _|].
  cbn [zlift mret ZM_ret].
  destruct (membership_spec (asg_attached name) members rows _ _ nic_ok sets c objs
    (updateNetworkInterfaceAsg_updates asg i Hi) Hobjs Hnd) as (res & c' & E & Hc'); [|done|].
  { intros row (o & ? & _ & ?)%Hrows. eauto. }
  unfold processAsgAttachDetachConcurrently. rewrite E. eexists _, _. split; [done|]. intros Hres.
  destruct (Hc' Hres) as [HA HB]. split; [|exact HB]. intros row o vm Hrow Hvm Ho. rewrite (HA row o Hrow Ho).
  destruct (Hrows row Hrow) as (o1 & Ho1 & Hof & Hok). rewrite Ho in Ho1. injection Ho1 as <-.
  eexists. split; [reflexivity|]. unfold change. rewrite Hvm. unfold name.
  rewrite (asg_attached_spec id asg i sub' g rows row o Hi Hx (Hident i Hi) Hrow Hof).
  destruct (Bool.eqb _ _) eqn:Eb.
  - apply Bool.eqb_prop in Eb. rewrite <- Eb, bool_decide_eq_true. done.
  - rewrite in_group_updated by done. split; [done|]. split; [|done]. intros a Ha.
    rewrite nic_asgs_updated by done. by apply updated_asgs_other.
Qed.

Lemma az_UpdateSecurityGroupMembers_AG accounts acc cfg id resources sub rg nm c rows asg objs :
  let name := GetCloudName id true in
  getVnetAccount accounts (cid_Vpc id) = Some acc -> azacc_compute acc = inr cfg ->
  extractFieldsFromAzureResourceID (cid_Vpc id) = inr (sub, rg, nm) -> ifPeerProcessing cfg (cid_Vpc id) = false ->
  getNetworkInterfacesOfVnet cfg {[cid_Vpc id]} c = Returned (inr rows, c) ->
  (asg_get rg name c).1 = inr asg -> (nic_listAllComplete c).1 = inr objs ->
  (forall k o, az_nics c !! k = Some o -> nic_ok o) ->
  (forall i, asg_ID asg = Some i -> name_identifies rows name i) ->
  exists res c', az_UpdateSecurityGroupMembers accounts id resources true c = Returned (res, c') /\
    (res = inr tt -> ag_realized asg (FindResourcesBasedOnKind resources) rows c c').
Proof.
  intros name Hacc Hcfg Hex Hpeer Hrows Hasg Hobjs Hok Hident.
  destruct (getNetworkInterfacesOfVnet_rows _ _ _ _ _ Hrows) as (_ & Hnd & Hr).
  unfold az_UpdateSecurityGroupMembers, vnet_service, az_updateSecurityGroupMembers. rewrite Hacc, Hcfg.
  unfold mbind, ZM_bind. cbn [zlift mret ZM_ret]. rewrite Hrows, Hex, Hpeer. cbn [zlift mret ZM_ret fst snd].
  apply (processAddressGroupMembership_spec id _ rows rg c asg objs); try done.
  intros row (o & Ho & Hof)%Hr. eauto.
Qed.

(** *** AppliedTo groups *)

(** The name of the network security group of an interface. *)
Definition nsg_name (o : Interface) : option string :=
  match nif_NSG o ≫= nsg_ID with
  | None => None
  | Some i => match extractFieldsFromAzureResourceID (ToLower i) with inl _ => None | inr (_, _, n) => Some n end
  end.

(** The interface is enforced for a group: it is in the network security group of
    the virtual network and has the tag of the group. *)
Definition enforced (nsg tag : string) (o : Interface) : Prop :=
  nsg_name o = Some nsg /\ is_Some (default ∅ (nif_Tags o) !! tag).

Lemma nsg_attached_spec nsg tag row o b :
  row_of row o -> nsg_attached nsg tag row = inr b -> b = true <-> enforced nsg tag o.
Proof.
  intros (_ & Hnsg & Htags). unfold nsg_attached, enforced, nsg_name. rewrite Htags.
  destruct Hnsg as [->|[-> ->]]; [|rewrite decide_True by done; intros [= <-]; naive_solver].
  destruct (nif_NSG o ≫= nsg_ID) as [i|]; [|intros [= <-]; naive_solver].
  case_decide as Hi; [subst; intros [= <-]; naive_solver|].
  destruct (extractFieldsFromAzureResourceID (ToLower i)) as [|[[? ?] n]]; [done|].
  destruct (nif_Tags o) as [t|]; simpl; intros [= <-].
  - rewrite andb_true_iff, !bool_decide_eq_true. naive_solver.
  - split; [done|]. intros [_ [? Hx]]. by rewrite lookup_empty in Hx.
Qed.

(** The interface after attaching or detaching. *)
Definition at_updated (nsg : NetworkSecurityGroup) (asg : ApplicationSecurityGroup) (tag : string) (o : Interface) (b : bool) : Interface :=
  mkInterface (nif_ID o) (nif_IPConfigurations (with_asgs (updated_asgs asg b (nic_asgs o)) o))
    (getUpdatedNetworkInterfaceNsgAndTags o nsg b tag).1 (getUpdatedNetworkInterfaceNsgAndTags o nsg b tag).2.

Lemma updateNetworkInterfaceNsg_updates nsg asg i tag :
  asg_ID asg = Some i ->
  updates (fun o b => updateNetworkInterfaceNsg o nsg asg b tag) (at_updated nsg asg tag) nic_ok.
Proof.
  intros Hi o id b c Hid Hok. unfold updateNetworkInterfaceNsg. rewrite Hid.
  destruct (nic_location id) as [rg n] eqn:El. unfold at_updated.
  destruct (getUpdatedNetworkInterfaceNsgAndTags o nsg b tag) as [nsg' tags].
  rewrite (getAsgUpdated_spec o asg i b Hi Hok). unfold mbind, ZM_bind, zapi. cbn [zderef mret ZM_ret fst snd].
  rewrite Hid. set (new := mkInterface _ _ _ _). pose proof (nic_put_law id rg n new c eq_refl El) as Hput.
  by destruct (nic_createOrUpdate rg n new c) as [[e|[]] c']; eexists _, _.
Qed.

Lemma enforced_updated nsg asg tag n i sub rg o b :
  nsg_ID nsg = Some i -> extractFieldsFromAzureResourceID (ToLower i) = inr (sub, rg, n) ->
  enforced n tag (at_updated nsg asg tag o b) <-> b = true.
Proof.
  intros Hi Hx. unfold enforced, nsg_name, at_updated. simpl. destruct b; simpl.
  - rewrite Hi, Hx. split; [done|]. intros _. split; [done|]. rewrite lookup_insert_eq. eauto.
  - split; [|done]. intros [_ [v Hv]]. destruct (nif_Tags o) as [t|]; simpl in Hv; [|by rewrite lookup_empty in Hv].
    by rewrite lookup_delete_eq in Hv.
Qed.

(** The network security group goes with the last tag. *)
Lemma nsg_released nsg asg tag o :
  hasAnyNepheControllerSecurityGroupTags (delete tag (default ∅ (nif_Tags o))) = false ->
  nif_NSG (at_updated nsg asg tag o false) = None.
Proof.
  unfold at_updated. simpl. destruct (nif_Tags o) as [t|]; simpl; [by intros ->|].
  by rewrite delete_empty; intros ->.
Qed.

Lemma in_group_at_updated nsg asg tag o b : nic_ok o -> in_group asg (at_updated nsg asg tag o b) <-> b = true.
Proof. apply in_group_updated. Qed.

(** The interfaces of members are enforced and those of other virtual machines
    are not; an interface that was in the application security group exactly if
    it was enforced stays so; the other groups of the interfaces are kept, and an
    interface that is no longer enforced for any group leaves the network
    security group. *)
Definition at_realized (nsg tag : string) (asg : ApplicationSecurityGroup) (members : gset string * gset string)
    (rows : list networkInterfaceTable) (c c' : AzCloud) : Prop :=
  (forall row o vm, row ∈ rows -> row_vm row = Some vm -> az_nics c !! ToLower (nit_ID row) = Some o ->
     exists o', az_nics c' !! ToLower (nit_ID row) = Some o' /\
       (enforced nsg tag o' <-> is_member members vm row = true) /\
       ((in_group asg o <-> enforced nsg tag o) -> (in_group asg o' <-> is_member members vm row = true)) /\
       (forall a, ~ same_asg asg a -> a ∈ nic_asgs o' <-> a ∈ nic_asgs o) /\
       (enforced nsg tag o -> is_member members vm row = false ->
        hasAnyNepheControllerSecurityGroupTags (delete tag (default ∅ (nif_Tags o))) = false -> nif_NSG o' = None)) /\
  (forall k, (forall row, row ∈ rows -> ToLower (nit_ID row) <> k) -> az_nics c' !! k = az_nics c !! k).

Lemma processAppliedToMembership_spec id members rows rg c nsg asg objs :
  let name := perVnetNsgName (cid_Vpc id) in let tag := GetCloudName id false in
  ToLower name = name -> NoDup (map (fun row => ToLower (nit_ID row)) rows) ->
  (forall row, row ∈ rows -> exists o, az_nics c !! ToLower (nit_ID row) = Some o /\ row_of row o /\ nic_ok o) ->
  (nsg_get rg name c).1 = inr nsg -> (asg_get rg tag c).1 = inr asg -> (nic_listAllComplete c).1 = inr objs ->
  exists res c', processAppliedToMembership id rows rg members false c = Returned (res, c') /\
    (res = inr tt -> at_realized name tag asg members rows c c').
Proof.
  intros name tag Hlow Hnd Hrows Hnsg Hasg Hobjs. unfold processAppliedToMembership, mbind, ZM_bind, zapi. fold name tag.
  pose proof (nsg_get_law rg name c) as Hlaw. destruct (nsg_get rg name c) as [r c1]. simpl in Hnsg. subst r.
  destruct Hlaw as (-> & _ & _ & j & sub & rg' & Hj & _ & Hx). rewrite Hlow in Hx.
  pose proof (asg_get_law rg tag c) as Hlaw. destruct (asg_get rg tag c) as [r c1]. simpl in Hasg. subst r.
  destruct Hlaw as (-> & i & ? & ? & Hi & _).
  destruct (attach_detach_sets (nsg_attached name tag) members rows (∅, ∅)) as [e|sets] eqn:Es; [by eexists _, _|].
  cbn [zlift mret ZM_ret].
  destruct (membership_spec (nsg_attached name tag) members rows _ _ nic_ok sets c objs
    (updateNetworkInterfaceNsg_updates nsg asg i tag Hi) Hobjs Hnd) as (res & c' & E & Hc'); [|done|].
  { intros row (o & ? & _ & ?)%Hrows. eauto. }
  unfold processNsgAttachDetachConcurrently. rewrite E. eexists _, _. split; [done|]. intros Hres.
  destruct (Hc' Hres) as [HA HB]. split; [|exact HB]. intros row o vm Hrow Hvm Ho. rewrite (HA row o Hrow Ho).
  destruct (Hrows row Hrow) as (o1 & Ho1 & Hof & Hok). rewrite Ho in Ho1. injection Ho1 as <-.
  eexists. split; [reflexivity|]. unfold change. rewrite Hvm.
  destruct (nsg_attached name tag row) as [e|b] eqn:Eb; [by destruct (attach_detach_sets_error _ _ _ _ _ _ _ _ Hrow Hvm Eb Es)|].
  pose proof (nsg_attached_spec _ _ _ _ _ Hof Eb) as Hb. destruct (Bool.eqb b (is_member members vm row)) eqn:Em.
  - apply Bool.eqb_prop in Em. rewrite <- Em, <- Hb. split; [done|]. split; [by intros ->|]. split; [done|]. by intros -> ?.
  - rewrite (enforced_updated _ _ _ _ _ _ _ _ _ Hj Hx), in_group_at_updated by done. split; [done|]. split; [done|]. split.
    + intros a Ha. unfold at_updated, nic_asgs at 1. cbn [nif_IPConfigurations].
      fold (nic_asgs (with_asgs (updated_asgs asg (is_member members vm row) (nic_asgs o)) o)).
      rewrite nic_asgs_updated by done. by apply updated_asgs_other.
    + intros _ Hm. rewrite Hm. apply nsg_released.
Qed.

Lemma az_UpdateSecurityGroupMembers_AT accounts acc cfg id resources sub rg nm c rows nsg asg objs :
  let name := perVnetNsgName (cid_Vpc id) in let tag := GetCloudName id false in
  getVnetAccount accounts (cid_Vpc id) = Some acc -> azacc_compute acc = inr cfg ->
  extractFieldsFromAzureResourceID (cid_Vpc id) = inr (sub, rg, nm) -> ifPeerProcessing cfg (cid_Vpc id) = false ->
  ToLower name = name -> getNetworkInterfacesOfVnet cfg {[cid_Vpc id]} c = Returned (inr rows, c) ->
  (nsg_get rg name c).1 = inr nsg -> (asg_get rg tag c).1 = inr asg -> (nic_listAllComplete c).1 = inr objs ->
  (forall k o, az_nics c !! k = Some o -> nic_ok o) ->
  exists res c', az_UpdateSecurityGroupMembers accounts id resources false c = Returned (res, c') /\
    (res = inr tt -> at_realized name tag asg (FindResourcesBasedOnKind resources) rows c c').
Proof.
  intros name tag Hacc Hcfg Hex Hpeer Hlow Hrows Hnsg Hasg Hobjs Hok.
  destruct (getNetworkInterfacesOfVnet_rows _ _ _ _ _ Hrows) as (_ & Hnd & Hr).
  unfold az_UpdateSecurityGroupMembers, vnet_service, az_updateSecurityGroupMembers. rewrite Hacc, Hcfg.
  unfold mbind, ZM_bind. cbn [zlift mret ZM_ret]. rewrite Hrows, Hex, Hpeer. cbn [zlift mret ZM_ret fst snd].
  apply (processAppliedToMembership_spec id _ rows rg c nsg asg objs); try done.
  intros row (o & Ho & Hof)%Hr. eauto.
Qed.

(** ** Claims *)

(** C24: A successful [UpdateSecurityGroupMembers] of an address group on Azure
    leaves in the application security group of the group exactly the network
    interfaces of its members among those attached to virtual machines of the
    virtual network, changes neither their other application security groups nor
    their network security group and tags, and leaves every other interface as it
    was.  The method always returns (it neither panics nor waits forever).  The
    virtual network is not peered with a managed one, listing the interfaces works,
    and no group of the same name exists in another resource group. *)
Theorem az_address_group_members_realized accounts acc cfg id resources sub rg nm c rows asg objs :
  let name := GetCloudName id true in
  getVnetAccount accounts (cid_Vpc id) = Some acc -> azacc_compute acc = inr cfg ->
  extractFieldsFromAzureResourceID (cid_Vpc id) = inr (sub, rg, nm) -> ifPeerProcessing cfg (cid_Vpc id) = false ->
  getNetworkInterfacesOfVnet cfg {[cid_Vpc id]} c = Returned (inr rows, c) ->
  (asg_get rg name c).1 = inr asg -> (nic_listAllComplete c).1 = inr objs ->
  (forall k o, az_nics c !! k = Some o -> nic_ok o) ->
  (forall i, asg_ID asg = Some i -> name_identifies rows name i) ->
  exists res c', az_UpdateSecurityGroupMembers accounts id resources true c = Returned (res, c') /\
    (res = inr tt -> ag_realized asg (FindResourcesBasedOnKind resources) rows c c').
Proof. apply az_UpdateSecurityGroupMembers_AG. Qed.


End Members.
