(* ===== verification/AzureSim.v ===== *)
(** * A small Azure

    An executable cloud that satisfies the laws of [AzureLaws], and the claims
    about the plug-in evaluated on it. *)

From stdpp Require Import base strings list gmap.
From Stdlib Require Import Ascii ZArith Lia.
From S2P Require Import Prelude GoStrings GoNet GoCIDR GoFmt SecurityGroup RuleMerge AzureModel AzureRules AzureQuery.
From S2P Require Import VirtualMachine AzureSecurity AzureTheorems AzureLaws AzureMembers.

#[local] Open Scope string_scope.
#[local] Open Scope Z_scope.

(** The state: rules of network security groups, application security groups of
    resource groups, interfaces, and the virtual machine of an interface. *)
Record SimCloud := mkSim {
  sim_nsgs : gmap (string * string) (list SecurityRule);
  sim_asgs : gmap string (list ApplicationSecurityGroup);
  sim_nics : gmap string Interface;
  sim_vms : gmap string string;
  sim_vnet : string
}.

Definition sim_error : azError := mkErr "not found" (Some 404).

Definition sim_nsg_id (rg n : string) : string :=
  "/subscriptions/s/resourcegroups/" +:+ rg +:+ "/providers/microsoft.network/networksecuritygroups/" +:+ n.

(** Does the identifier end in the name? *)
Definition id_ends_in (i n : string) : bool :=
  match extractFieldsFromAzureResourceID (ToLower i) with
  | inr (_, _, m) => bool_decide (m = ToLower n)
  | inl _ => false
  end.

(** The interfaces stored under their own identifier. *)
Definition sim_interfaces (c : SimCloud) : gmap string Interface :=
  filter (fun ki => ToLower <$> nif_ID ki.2 = Some ki.1) (sim_nics c).

Definition sim_row (c : SimCloud) (ki : string * Interface) : option networkInterfaceTable :=
  id ← nif_ID ki.2;
  asgs ← primary_asgs (nif_IPConfigurations ki.2);
  ids ← mapM asg_ID asgs;
  Some (mkNwIntfRow id (sim_vnet c) (sim_vms c !! ki.1) (nif_NSG ki.2 ≫= nsg_ID) ids (option_list (nif_Tags ki.2))).

Definition SimAzure : Azure := {|
  AzCloud := SimCloud;
  nsg_get rg n c :=
    match sim_nsgs c !! (rg, n) with
    | Some rules => if id_ends_in (sim_nsg_id rg n) n then (inr (mkNSG (Some (sim_nsg_id rg n)) (Some rules)), c) else (inl sim_error, c)
    | None => (inl sim_error, c)
    end;
  nsg_createOrUpdate rg n _ rules c :=
    (inr (mkNSG (Some (sim_nsg_id rg n)) rules),
     mkSim (<[(rg, n) := default [] rules]> (sim_nsgs c)) (sim_asgs c) (sim_nics c) (sim_vms c) (sim_vnet c));
  nsg_listAllComplete c :=
    (inr (map (fun kr => mkNSG (Some (sim_nsg_id kr.1.1 kr.1.2)) (Some kr.2)) (map_to_list (sim_nsgs c))), c);
  asg_get rg n c :=
    match list_find (fun a => asg_Name a = Some n) (default [] (sim_asgs c !! rg)) with
    | Some (_, a) =>
        match asg_ID a with
        | Some i => if id_ends_in i n then (inr a, c) else (inl sim_error, c)
        | None => (inl sim_error, c)
        end
    | None => (inl sim_error, c)
    end;
  asg_createOrUpdate rg n _ c := (inl sim_error, c);
  asg_listComplete rg c := (inr (default [] (sim_asgs c !! rg)), c);
  asg_listAllComplete c := (inr (flat_map snd (map_to_list (sim_asgs c))), c);
  asg_delete rg n c :=
    (inr tt, mkSim (sim_nsgs c) (<[rg := filter (fun a => asg_Name a <> Some n) (default [] (sim_asgs c !! rg))]> (sim_asgs c))
       (sim_nics c) (sim_vms c) (sim_vnet c));
  nic_createOrUpdate _ _ i c :=
    match nif_ID i with
    | Some id => (inr tt, mkSim (sim_nsgs c) (sim_asgs c) (<[ToLower id := i]> (sim_nics c)) (sim_vms c) (sim_vnet c))
    | None => (inl sim_error, c)
    end;
  nic_listAllComplete c := (inr (map snd (map_to_list (sim_interfaces c))), c);
  networkInterfaceRows _ _ c := (inr (omap (sim_row c) (map_to_list (sim_interfaces c))), c);
  virtualMachineRows _ _ c := (inr [], c)
|}.

Lemma id_ends_in_spec i n : id_ends_in i n = true -> exists sub g, extractFieldsFromAzureResourceID (ToLower i) = inr (sub, g, ToLower n).
Proof.
  unfold id_ends_in. destruct (extractFieldsFromAzureResourceID _) as [|[[sub g] m]]; [done|].
  intros ->%bool_decide_eq_true. eauto.
Qed.

Lemma sim_interfaces_id c k i : sim_interfaces c !! k = Some i -> exists id, nif_ID i = Some id /\ ToLower id = k.
Proof.
  intros [_ Hi]%map_lookup_filter_Some. simpl in Hi. apply fmap_Some in Hi as (id & ? & ->). eauto.
Qed.

Lemma sim_row_spec c k i row :
  sim_row c (k, i) = Some row -> sim_interfaces c !! k = Some i ->
  ToLower (nit_ID row) = k /\ exists asgs, primary_asgs (nif_IPConfigurations i) = Some asgs /\
    map Some (nit_ASGIDs row) = map asg_ID asgs /\ nit_NetworkSecurityGroupID row = nif_NSG i ≫= nsg_ID /\
    nit_Tags row = option_list (nif_Tags i).
Proof.
  unfold sim_row. simpl. intros Hr Hi. destruct (sim_interfaces_id c k i Hi) as (id & Hid & Hk). rewrite Hid in Hr. simpl in Hr.
  destruct (primary_asgs _) as [asgs|] eqn:Ep; [|done]. simpl in Hr. destruct (mapM asg_ID asgs) as [ids|] eqn:Em; [|done].
  injection Hr as <-. split; [done|]. exists asgs. split; [done|]. split; [|done]. simpl.
  apply mapM_Some in Em. clear -Em. induction Em as [|a j asgs ids Ha _ IH]; [done|]. simpl. by rewrite Ha, IH.
Qed.

Lemma sim_rows_distinct c : NoDup (map (fun row => ToLower (nit_ID row)) (omap (sim_row c) (map_to_list (sim_interfaces c)))).
Proof.
  pose proof (NoDup_fst_map_to_list (sim_interfaces c)) as Hnd.
  assert (forall ki, ki ∈ map_to_list (sim_interfaces c) -> sim_interfaces c !! ki.1 = Some ki.2) as Hin
    by (intros [k i] Hki; by apply elem_of_map_to_list in Hki).
  revert Hnd Hin. induction (map_to_list (sim_interfaces c)) as [|[k i] l IH]; intros Hnd Hin; [done|].
  apply NoDup_cons in Hnd as [Hk Hnd]. specialize (IH Hnd (fun ki H => Hin ki (list_elem_of_further _ _ _ H))).
  cbn [omap list_omap]. destruct (sim_row c (k, i)) as [row|] eqn:Er; [|done]. simpl. apply NoDup_cons. split; [|done].
  apply sim_row_spec in Er as [-> _]; [|by apply (Hin (k, i)); left].
  rewrite list_elem_of_fmap. intros (row' & -> & ([k' i'] & Hl & Er')%list_elem_of_omap).
  apply sim_row_spec in Er' as [Ek _]; [|by apply (Hin (k', i')); right]. apply Hk, list_elem_of_fmap.
  exists (k', i'). by rewrite Ek.
Qed.

#[local] Existing Instance SimAzure.

#[export] Instance SimLaws : AzureLaws.
Proof.
  refine {|
    az_nsgs c rg n := sim_nsgs c !! (rg, n);
    az_asgs c rg := default [] (sim_asgs c !! rg);
    az_nics c := sim_interfaces c |}.
  - intros rg n c. cbn [nsg_get SimAzure]. destruct (sim_nsgs c !! (rg, n)) as [rules|]; [|done].
    destruct (id_ends_in _ n) eqn:E; [|done]. repeat (split; [by eauto|]).
    destruct (id_ends_in_spec _ _ E) as (sub & g & Hx). exists (sim_nsg_id rg n), sub, g.
    split; [reflexivity|]. split; [discriminate|exact Hx].
  - intros rg n loc rules c. simpl. split.
    + exists rules. by rewrite lookup_insert_eq.
    + intros rg' n' Hne. by rewrite lookup_insert_ne by congruence.
  - intros rg c. done.
  - intros rg n c. simpl. destruct (list_find _ _) as [[j a]|]; [|done]. destruct (asg_ID a) as [i|] eqn:Ei; [|done].
    destruct (id_ends_in i n) eqn:E; [|done]. split; [done|]. destruct (id_ends_in_spec _ _ E) as (sub & g & Hx). eauto.
  - done.
  - intros q subs c. simpl. split; [done|]. split; [apply sim_rows_distinct|].
    intros row ([k i] & Hin & Hr)%list_elem_of_omap. apply elem_of_map_to_list in Hin.
    destruct (sim_row_spec _ _ _ _ Hr Hin) as (Ek & asgs & Hp & Hm & Hn & Ht). exists i, asgs. rewrite Ek. auto 10.
  - intros c. simpl. split; [done|]. intros i. rewrite list_elem_of_fmap. split.
    + intros ([k i'] & -> & Hin). apply elem_of_map_to_list in Hin. eauto.
    + intros [k Hk]. exists (k, i). by rewrite elem_of_map_to_list.
  - apply sim_interfaces_id.
  - intros id rg n i c Hid _. simpl. rewrite Hid. unfold sim_interfaces. simpl. rewrite map_filter_insert_True; [done|].
    simpl. by rewrite Hid.
Defined.

(** ** A virtual network with two machines *)

Module Example.

#[export] Existing Instance map_to_list_range.

Definition resource (kind name : string) : string :=
  "/subscriptions/s/resourcegroups/rg/providers/microsoft." +:+ kind +:+ "/" +:+ name.
Definition vnet : string := resource "network/virtualnetworks" "v1".
Definition asg (name : string) : ApplicationSecurityGroup :=
  mkASG (Some (resource "network/applicationsecuritygroups" name)) (Some name).
Definition nic_id (n : string) : string := resource "network/networkinterfaces" n.
Definition nic (n : string) (asgs : list ApplicationSecurityGroup) : Interface :=
  mkInterface (Some (nic_id n)) [mkIPConfiguration (Some true) (Some asgs)] None None.

Definition nsg_name_v1 : string := "nephe-at-per-vnet-default-v1".

(** The rule of another group, and the deny rules. *)
Definition other_rule : SecurityRule :=
  buildSecurityRule 100 ProtocolTCP DirectionInbound (Some "*") (Some "*") None None (Some "443") None None
    (Some [asg "nephe-at-db"]) (Some "nephe-at-db") AccessAllow.
Definition current : list SecurityRule :=
  [other_rule; vnet_deny_rule DirectionInbound; vnet_deny_rule DirectionOutbound].

Definition cloud : SimCloud := {|
  sim_nsgs := {[("rg", nsg_name_v1) := current]};
  sim_asgs := {["rg" := [asg "nephe-at-web"; asg "nephe-at-db"; asg "nephe-ag-db"]]};
  sim_nics := {[nic_id "n1" := nic "n1" []; nic_id "n2" := nic "n2" [asg "nephe-ag-db"]]};
  sim_vms := {[nic_id "n1" := "vm1"; nic_id "n2" := "vm2"]};
  sim_vnet := vnet
|}.

Definition service : computeServiceConfig :=
  mkComputeService "account" (mkAzureAccount "s" "t" "west") (Some (mkComputeSnapshot {[vnet]} ∅)) ∅.
Definition accounts : list AzAccount := [mkAzAccount "account" (inr service)].

Definition web : CloudResourceID := mkCloudResourceID "Web" vnet.
Definition db : CloudResourceID := mkCloudResourceID "Db" vnet.
Definition vm1 : CloudResource := mkCloudResource CloudResourceTypeVM (mkCloudResourceID "vm1" vnet).

(** HTTPS from a block, and from the members of group [Db]. *)
Definition https : IngressRule :=
  mkIngressRule (Some 443) [mkIPNet [10; 0; 0; 0] (CIDRMask 8 32)] [db] (Some 6).

End Example.
Import Example.

(** Did a method succeed? *)
Definition succeeded {A} (r : Outcome ((azError + A) * SimCloud)) : bool :=
  match r with Returned (inr _, _) => true | _ => false end.

Lemma succeeded_inv {A} (r : Outcome ((azError + A) * SimCloud)) : succeeded r = true -> exists a c, r = Returned (inr a, c).
Proof. destruct r as [[[e|a] c]| |]; try done. eauto. Qed.

Lemma succeeded_unit (r : azError + unit) (c : SimCloud) : succeeded (Returned (r, c)) = true -> r = inr tt.
Proof. by destruct r as [|[]]. Qed.

Lemma example_room : room web [https] [] current.
Proof.
  split; [|split; [|split; [|split]]].
  - repeat (apply Forall_cons; split); [|apply vnet_deny_plugin..|done]. split; [by eexists|]. by exists 100.
  - repeat (apply Forall_cons; split); [|done]. split; [by left|]. repeat (apply Forall_cons; split); [|done].
    exists 10, 0, 0, 0, 8. repeat split; done.
  - done.
  - vm_compute. lia.
  - vm_compute. lia.
Qed.


(** The rows of the example, and the form of its interfaces. *)
Definition rows : list networkInterfaceTable :=
  match getNetworkInterfacesOfVnet service {[vnet]} cloud with Returned (inr l, _) => l | _ => [] end.

Lemma example_rows : getNetworkInterfacesOfVnet service {[vnet]} cloud = Returned (inr rows, cloud).
Proof. vm_cast_no_check (eq_refl (Returned (A := (azError + list networkInterfaceTable) * SimCloud) (inr rows, cloud))). Qed.

Lemma example_nics_ok k o : az_nics cloud !! k = Some o -> nic_ok o.
Proof.
  intros [Hi _]%map_lookup_filter_Some. unfold cloud in Hi. cbn [sim_nics] in Hi.
  apply lookup_insert_Some in Hi as [[_ <-]|[_ Hi]].
  - split; [by constructor|done].
  - apply lookup_singleton_Some in Hi as [_ <-]. split; [by constructor|]. by repeat constructor.
Qed.

Lemma example_names i : asg_ID (asg "nephe-ag-db") = Some i -> name_identifies rows "nephe-ag-db" i.
Proof.
  intros [= <-] row j sub g Hrow Hj _. 
  assert (Forall (fun row => Forall (fun j => j = resource "network/applicationsecuritygroups" "nephe-ag-db") (nit_ASGIDs row)) rows) as Hall.
  { vm_compute. repeat (apply Forall_cons; split); repeat constructor. }
  rewrite list.Forall_forall in Hall. specialize (Hall row Hrow). rewrite list.Forall_forall in Hall. by rewrite (Hall j Hj).
Qed.

Lemma az_address_group_members_realized_witness :
  exists c', az_UpdateSecurityGroupMembers accounts db [vm1] true cloud = Returned (inr tt, c') /\
    ag_realized (asg "nephe-ag-db") (FindResourcesBasedOnKind [vm1]) rows cloud c'.
Proof.
  destruct (az_address_group_members_realized (AZ := SimAzure) accounts (mkAzAccount "account" (inr service)) service db [vm1] "s" "rg" "v1"
    cloud rows (asg "nephe-ag-db") (map snd (map_to_list (sim_interfaces cloud)))) as (res & c' & E & H);
    [reflexivity|reflexivity|vm_compute; reflexivity|vm_compute; reflexivity|apply example_rows|vm_compute; reflexivity
    |reflexivity|apply example_nics_ok|apply example_names|].
  assert (succeeded (az_UpdateSecurityGroupMembers accounts db [vm1] true cloud) = true) as Hs by (vm_compute; reflexivity).
  rewrite E in Hs |- *. apply succeeded_unit in Hs. subst res. eauto.
Defined.


Lemma priorities_in_bounds_witness :
  exists allow defaults, updateSecurityRuleNameAndPriority current [other_rule] = Some (allow ++ defaults)%list /\
    map sr_Priority allow = [Some 100; Some 101] /\ length defaults = 2%nat.
Proof.
  destruct (priorities_in_bounds current [other_rule]) as (allow & ds & E & Ha & _).
  - repeat (apply Forall_cons; split); try (split; by eexists). done.
  - vm_compute. lia.
  - exists allow, ds. split; [exact E|]. rewrite Ha in *. split; [vm_compute; reflexivity|].
    revert E. vm_compute. intros [= <-]. reflexivity.
Defined.
