(* ===== verification/AzureFindings.v ===== *)
(** * The Azure plug-in: where it does not do what it means to *)

From stdpp Require Import base strings list gmap.
From Stdlib Require Import Ascii ZArith Lia.
From S2P Require Import Prelude GoStrings GoNet GoCIDR GoFmt SecurityGroup RuleMerge AzureModel AzureRules AzureQuery.
From S2P Require Import VirtualMachine AzureSecurity AzureView AzureTheorems AzureLaws AzureMembers AzureSim.

#[local] Open Scope string_scope.
#[local] Open Scope Z_scope.
#[local] Arguments String.append !_ _ : simpl nomatch.

(** ** Attaching and detaching *)

Section Concurrently.
Context {AZ : Azure} {RNG : MapRange}.

Lemma update_interfaces_returns update toAttach todo c :
  Forall (fun o => is_Some (nif_ID o) /\ forall b c, exists res c', update o b c = Returned (res, c')) todo ->
  exists es c', update_interfaces update toAttach todo c = Returned (inr es, c').
Proof.
  intros Hid. revert c. induction Hid as [|o todo [[id Ho] Hu] _ IH]; intros c; cbn [update_interfaces]; [by eexists _, _|].
  rewrite Ho. unfold mbind, ZM_bind, zattempt. cbn [zderef mret ZM_ret].
  destruct (Hu (bool_decide (ToLower id ∈ toAttach)) c) as (res & c1 & ->). destruct (IH c1) as (es & c' & ->).
  by eexists _, _.
Qed.

Lemma interfaces_given_some objs ids acc :
  Forall (fun o => is_Some (nif_ID o)) objs -> is_Some (interfaces_given objs ids acc).
Proof.
  intros Hids. revert acc. induction Hids as [|o objs [id Ho] _ IH]; intros acc; cbn [interfaces_given]; [by eexists|].
  rewrite Ho. simpl. apply IH.
Qed.

Lemma interfaces_given_from objs ids acc m k o :
  interfaces_given objs ids acc = Some m -> m !! k = Some o -> acc !! k = Some o \/ (k ∈ ids /\ o ∈ objs /\ has_id k o).
Proof.
  revert acc. induction objs as [|o1 objs IH]; intros acc; cbn [interfaces_given]; [intros [= ->]; auto|].
  destruct (nif_ID o1) as [id|] eqn:Ho; [|done]. simpl. intros Hm Hk.
  destruct (IH _ Hm Hk) as [Ha|(? & ? & ?)]; [|right; split; [done|]; by split; [right|]].
  case_decide; [|by left]. apply lookup_insert_Some in Ha as [[<- <-]|[_ ?]]; [|by left].
  right. split; [done|]. split; [by left|]. unfold has_id. by rewrite Ho.
Qed.

(** An identifier without interface leaves the wait group above zero. *)
Lemma attach_detach_blocks update toAttach toDetach c objs k :
  nic_listAllComplete c = (inr objs, c) ->
  Forall (fun o => is_Some (nif_ID o) /\ forall b c, exists res c', update o b c = Returned (res, c')) objs ->
  k ∈ toAttach ∪ toDetach -> (forall o, o ∈ objs -> ~ has_id k o) ->
  attach_detach_concurrently update toAttach toDetach c = Blocked.
Proof.
  intros Hlist Hobjs Hk Hno. unfold attach_detach_concurrently, getNetworkInterfacesGivenIDs, mbind, ZM_bind, zattempt, zapi.
  rewrite Hlist. assert (mergeSet [toAttach; toDetach] = toAttach ∪ toDetach) as -> by (unfold mergeSet; simpl; set_solver).
  destruct (interfaces_given_some objs (toAttach ∪ toDetach) ∅) as [m Hm].
  { eapply Forall_impl; [exact Hobjs|]. by intros o []. }
  assert (forall k o, m !! k = Some o -> k ∈ toAttach ∪ toDetach /\ o ∈ objs /\ has_id k o) as Hfrom.
  { intros k' o Ho. destruct (interfaces_given_from _ _ _ _ _ _ Hm Ho) as [Hx|?]; [by rewrite lookup_empty in Hx|done]. }
  rewrite Hm. cbn [zderef mret ZM_ret].
  destruct (update_interfaces_returns update toAttach (map snd (go_range m)) c) as (es & c' & ->).
  { rewrite list.Forall_forall in *. intros o (k' & Hk')%elem_of_go_range_values. by apply Hobjs, (Hfrom k' o). }
  rewrite decide_False; [done|]. intros Hsize.
  assert (dom m = toAttach ∪ toDetach) as Hdom.
  { apply set_subseteq_size_eq; [|by rewrite size_dom, Hsize]. intros k' [o Ho]%elem_of_dom. by apply (Hfrom k' o). }
  rewrite <- Hdom in Hk. apply elem_of_dom in Hk as [o Ho]. destruct (Hfrom k o Ho) as (_ & Hin & Hid). by destruct (Hno o Hin).
Qed.

Lemma updateNetworkInterfaceAsg_returns asg i o b c :
  asg_ID asg = Some i -> nic_ok o -> exists res c', updateNetworkInterfaceAsg o asg b c = Returned (res, c').
Proof.
  intros Hi Hok. unfold updateNetworkInterfaceAsg. destruct (nif_ID o) as [id|]; [|by eexists _, _].
  destruct (nic_location id). rewrite (getAsgUpdated_spec o asg i b Hi Hok). unfold mbind, ZM_bind, zapi. cbn [zderef mret ZM_ret].
  destruct (nic_createOrUpdate _ _ _ c). by eexists _, _.
Qed.

Lemma updateNetworkInterfaceNsg_returns nsg asg i tag o b c :
  asg_ID asg = Some i -> nic_ok o -> exists res c', updateNetworkInterfaceNsg o nsg asg b tag c = Returned (res, c').
Proof.
  intros Hi Hok. unfold updateNetworkInterfaceNsg. destruct (nif_ID o) as [id|]; [|by eexists _, _].
  destruct (nic_location id), (getUpdatedNetworkInterfaceNsgAndTags o nsg b tag).
  rewrite (getAsgUpdated_spec o asg i b Hi Hok). unfold mbind, ZM_bind, zapi. cbn [zderef mret ZM_ret].
  destruct (nic_createOrUpdate _ _ _ c). by eexists _, _.
Qed.

(** When one of the interfaces to attach or detach is not in the list of
    interfaces any more (it was deleted since the query), the wait group of
    [processAsgAttachDetachConcurrently] and [processNsgAttachDetachConcurrently]
    never reaches zero: the method, which holds the plug-in's mutex, never
    returns. *)
Theorem missing_interface_blocks nsg asg i tag toAttach toDetach c objs k :
  asg_ID asg = Some i -> nic_listAllComplete c = (inr objs, c) ->
  Forall (fun o => is_Some (nif_ID o) /\ nic_ok o) objs ->
  k ∈ toAttach ∪ toDetach -> (forall o, o ∈ objs -> ~ has_id k o) ->
  processAsgAttachDetachConcurrently asg toAttach toDetach c = Blocked /\
  processNsgAttachDetachConcurrently nsg asg toAttach toDetach tag c = Blocked.
Proof.
  intros Hi Hlist Hobjs Hk Hno. split; (eapply attach_detach_blocks; [exact Hlist| |exact Hk|exact Hno]);
  (eapply Forall_impl; [exact Hobjs|]); intros o [Ho Hok]; (split; [done|]); intros.
  - by eapply updateNetworkInterfaceAsg_returns.
  - by eapply updateNetworkInterfaceNsg_returns.
Qed.

(** An error of listing the interfaces is dropped: the membership update
    reports success and has changed nothing, so that the group stays without its
    new members. *)
Theorem list_error_is_dropped nsg asg tag toAttach toDetach c e :
  nic_listAllComplete c = (inl e, c) ->
  processAsgAttachDetachConcurrently asg toAttach toDetach c = Returned (inr tt, c) /\
  processNsgAttachDetachConcurrently nsg asg toAttach toDetach tag c = Returned (inr tt, c).
Proof.
  intros Hl. unfold processAsgAttachDetachConcurrently, processNsgAttachDetachConcurrently, attach_detach_concurrently,
    getNetworkInterfacesGivenIDs, mbind, ZM_bind, zattempt, zapi. by rewrite Hl.
Qed.

End Concurrently.

(** ** The reported view *)

(** The network security groups of the table's interfaces are foreign ones or
    those the plug-in has created: their name has the name of the virtual network
    behind the one [processAndBuildATSgView] looks for. *)
Definition created_nsg (row : networkInterfaceTable) : Prop :=
  forall nsg sub rg name, nit_NetworkSecurityGroupID row = Some nsg ->
    extractFieldsFromAzureResourceID (ToLower nsg) = inr (sub, rg, name) ->
    (IsNepheControllerCreatedSG name).2 = false \/ exists vnet, name = ToLower (perVnetNsgName vnet).

Lemma perVnetNsgName_not_default vnet :
  (IsNepheControllerCreatedSG (ToLower (perVnetNsgName vnet))).1.1 <> ToLower appliedToSecurityGroupNamePerVnet.
Proof.
  unfold perVnetNsgName, GetCloudName. simpl cid_Name.
  change (ToLower appliedToSecurityGroupNamePerVnet) with appliedToSecurityGroupNamePerVnet.
  rewrite string_app_assoc, ToLower_app.
  change (ToLower NepheControllerAppliedToPrefix) with NepheControllerAppliedToPrefix.
  rewrite IsNephe_AT. cbn [fst]. rewrite !ToLower_app. intros E%(f_equal String.length).
  rewrite !string_app_length, !ToLower_length in E. simpl in E. lia.
Qed.

Section AtView.
Context {AZ : Azure} {RNG : MapRange}.

Lemma collect_at_names rows v v' :
  Forall created_nsg rows -> collect_at rows v = Some v' -> av_names v = ∅ -> av_names v' = ∅.
Proof.
  intros Hc. revert v. induction Hc as [|row rows Hrow _ IH]; intros v; cbn [collect_at]; [by intros [= <-]|].
  destruct (at_row v row) as [v1|] eqn:E1; [|done]. simpl. intros Hv' Hv. apply (IH v1 Hv').
  revert E1. unfold at_row. destruct (nit_VirtualMachineID row); [|by intros [= <-]].
  destruct (nit_NetworkSecurityGroupID row) as [nsg|] eqn:En; [|by intros [= <-]].
  destruct (extractFieldsFromAzureResourceID (ToLower nsg)) as [|[[sub rg] name]] eqn:Ex; [by intros [= <-]|].
  destruct (Hrow nsg sub rg name En Ex) as [Hno|(vnet & ->)].
  - destruct (IsNepheControllerCreatedSG name) as [[? ?] isAT]. simpl in Hno. subst isAT. by intros [= <-].
  - pose proof (perVnetNsgName_not_default vnet) as Hd. destruct (IsNepheControllerCreatedSG _) as [[sg ?] isAT]. simpl in Hd.
    destruct isAT; [|by intros [= <-]]. simpl. rewrite decide_False by done. by intros [= <-].
Qed.

Lemma concat_all_nil {A B} (f : A -> option (list B)) l : Forall (fun a => is_Some (f a) -> f a = Some []) l ->
  forall r, concat_all f l = Some r -> r = [].
Proof.
  induction 1 as [|a l Ha _ IH]; intros r; cbn [concat_all]; [by intros [= <-]|].
  destruct (f a) as [b|]; [|done]. simpl. destruct (concat_all f l) as [rest|]; [|done]. simpl.
  rewrite (IH rest) by done. specialize (Ha ltac:(eauto)). injection Ha as ->. by intros [= <-].
Qed.

(** The cloud view Azure reports never holds an appliedTo group: the loop
    that collects them compares the group part of the network security group's
    name with the fixed name per virtual network, while the groups are created
    with the name of the virtual network appended.  The synchronisation with the
    cloud therefore never sees the members and rules of an appliedTo group. *)
Theorem at_view_is_empty rows c view names c' :
  Forall created_nsg rows -> processAndBuildATSgView rows c = Returned (inr (view, names), c') -> view = [] /\ names = ∅.
Proof.
  intros Hc. unfold processAndBuildATSgView, mbind, ZM_bind. destruct (collect_at rows _) as [v|] eqn:Ev; [|done].
  cbn [zderef mret ZM_ret]. unfold getATGroupView, mbind, ZM_bind, zapi.
  destruct (nsg_listAllComplete c) as [[e|nsgs] c1]; [done|]. destruct (concat_all (at_content v) nsgs) as [l|] eqn:El; [|done].
  cbn [zderef mret ZM_ret]. intros [= <- <- <-].
  assert (l = []) as ->; [|done]. eapply (concat_all_nil (at_content v)); [|exact El].
  apply list.Forall_forall. intros nsg _. unfold at_content. destruct (nsg_ID nsg); simpl; [|by intros []]. intros _.
  by rewrite (collect_at_names _ _ _ Hc Ev eq_refl), lookup_empty.
Qed.

End AtView.

(** ** Rules *)

(** For a virtual network peered with a managed one, the rules of an appliedTo
    group are not restricted to its members: traffic that an allow rule of any
    group admits is admitted to (from) every interface in the network security
    group. *)
Theorem peer_rules_reach_everyone id ing eg ag ip newI newE :
  convertIngressToAzurePeerNsgSecurityRules id ing ag ip = inr newI ->
  convertEgressToAzurePeerNsgSecurityRules id eg ag ip = inr newE ->
  (forall r t dst, r ∈ newI -> sr_Access r = AccessAllow -> matches r t ->
     matches r (mkTraffic (tr_Protocol t) (tr_Source t) (tr_SourcePort t) dst (tr_DestinationPort t))) /\
  (forall r t src, r ∈ newE -> sr_Access r = AccessAllow -> matches r t ->
     matches r (mkTraffic (tr_Protocol t) src (tr_SourcePort t) (tr_Destination t) (tr_DestinationPort t))).
Proof.
  assert (forall e, side_matches (Some emptyPort) None None e) as Hany by (intros e; left; exists emptyPort; split; [done|by left]).
  unfold convertIngressToAzurePeerNsgSecurityRules, convertEgressToAzurePeerNsgSecurityRules.
  destruct (convert_rules ir_Protocol _ _ _) as [|outI] eqn:EI; [done|].
  destruct (convert_rules er_Protocol _ _ _) as [|outE] eqn:EE; [done|]. intros [= <-] [= <-]. split.
  - intros r t dst [(rule & q & pn & _ & _ & Hr)%(convert_rules_elem _ _ _ _ _ EI)|Hr]%elem_of_app Ha (H1 & H2 & H3 & H4 & _).
    2: { apply list_elem_of_singleton in Hr. by subst. }
    repeat (split; [done|]). revert Hr. unfold ingress_peer_rules. destruct (convertToAzureAddressPrefix _).
    rewrite elem_of_app. destruct (_ || _), (peer_groups _ _ _); rewrite ?list_elem_of_singleton, ?elem_of_nil;
      intros [Hr|Hr]; try done; subst; apply Hany.
  - intros r t src [(rule & q & pn & _ & _ & Hr)%(convert_rules_elem _ _ _ _ _ EE)|Hr]%elem_of_app Ha (H1 & H2 & _ & H4 & H5).
    2: { apply list_elem_of_singleton in Hr. by subst. }
    split; [done|]. split; [done|]. split; [|done]. revert Hr. unfold egress_peer_rules. destruct (convertToAzureAddressPrefix _).
    rewrite elem_of_app. destruct (_ || _), (peer_groups _ _ _); rewrite ?list_elem_of_singleton, ?elem_of_nil;
      intros [Hr|Hr]; try done; subst; apply Hany.
Qed.

(** The 3997th security rule of a group has the priority by which
    [updateSecurityRuleNameAndPriority] recognises the deny rule. *)
Theorem rule_beyond_limit_is_lost id ing ag ats new :
  convertIngressToAzureNsgSecurityRules id ing ag ats = inr new -> length new = 3998%nat ->
  exists lost, new !! 3996%nat = Some lost /\ sr_Access lost = AccessAllow /\ is_default lost.
Proof.
  unfold convertIngressToAzureNsgSecurityRules. destruct (ats !! _) as [dst|]; [|done].
  destruct (convert_rules _ _ _ _) as [|out] eqn:E; [done|]. intros [= <-]. rewrite length_app. cbn [length]. intros Hl.
  destruct (lookup_lt_is_Some_2 out 3996%nat ltac:(lia)) as [lost Hlost]. exists lost.
  split; [by rewrite lookup_app_l by lia|]. split.
  - apply list_elem_of_lookup_2 in Hlost. apply (convert_rules_elem _ _ _ _ _ E) in Hlost as (rule & q & pn & _ & _ & Hr).
    by apply ingress_security_rules_group in Hr as (_ & ? & _).
  - apply (convert_rules_numbers _ _ (ingress_security_rules_numbers _ _ _) _ _ _ 3996%nat lost E) in Hlost; [exact Hlost|done|].
    unfold ruleStartPriority. lia.
Qed.

(** A rule that names the deleted group and another one is kept as it is, with
    the group that is about to be deleted. *)
Example deleted_group_stays_referenced :
  let rule := buildSecurityRule 100 ProtocolTCP DirectionInbound (Some "*") None None
    (Some [Example.asg "nephe-ag-db"; Example.asg "nephe-ag-app"]) (Some "443") None None
    (Some [Example.asg "nephe-at-web"]) (Some "nephe-at-web") AccessAllow in
  rules_to_keep [rule] "nephe-ag-db" = Some ([rule], true).
Proof. vm_compute. reflexivity. Qed.

(** Short identifiers add up the characters, so that those of different
    interfaces may be equal. *)
Example short_identifiers_collide :
  GenerateShortResourceIdentifier (Example.nic_id "web-12") NetworkInterfaceCRDKind =
  GenerateShortResourceIdentifier (Example.nic_id "web-21") NetworkInterfaceCRDKind.
Proof. vm_compute. reflexivity. Qed.

(** ** Instances of the claims *)

#[local] Existing Instance SimAzure.
#[local] Existing Instance map_to_list_range.

Lemma missing_interface_blocks_witness :
  processAsgAttachDetachConcurrently (Example.asg "nephe-ag-db") {["gone"]} ∅ Example.cloud = Blocked.
Proof.
  destruct (missing_interface_blocks (AZ := SimAzure) (mkNSG None None) (Example.asg "nephe-ag-db") (Example.resource "network/applicationsecuritygroups" "nephe-ag-db")
    "nephe-at-web" {["gone"]} ∅ Example.cloud (map snd (map_to_list (sim_interfaces Example.cloud))) "gone") as [H _].
  - reflexivity.
  - reflexivity.
  - apply list.Forall_forall. intros o ([k o'] & -> & Hin%elem_of_map_to_list)%list_elem_of_fmap. simpl.
    split; [|by eapply example_nics_ok]. apply sim_interfaces_id in Hin as (id & -> & _). eauto.
  - set_solver.
  - intros o ([k o'] & -> & Hin%elem_of_map_to_list)%list_elem_of_fmap Hid. simpl in Hid.
    apply map_lookup_filter_Some in Hin as [Hin Hk]. simpl in Hk. unfold has_id in Hid. rewrite Hid in Hk. injection Hk as <-.
    vm_compute in Hin. discriminate.
  - exact H.
Defined.

(** An interface of a member of group [web], as the plug-in leaves it. *)
Definition enforced_row : networkInterfaceTable :=
  mkNwIntfRow (Example.nic_id "n1") Example.vnet (Some "vm1") (Some (sim_nsg_id "rg" Example.nsg_name_v1))
    [Example.resource "network/applicationsecuritygroups" "nephe-at-web"] [{["nephe-at-web" := "true"]}].

Lemma enforced_row_created : created_nsg enforced_row.
Proof.
  intros nsg sub rg name [= <-] E. right. exists "v1".
  assert (extractFieldsFromAzureResourceID (ToLower (sim_nsg_id "rg" Example.nsg_name_v1)) = inr ("s", "rg", Example.nsg_name_v1)) as Ex
    by (vm_compute; reflexivity).
  rewrite Ex in E. by injection E as <- <- <-.
Qed.

Lemma at_view_is_empty_witness :
  exists view names c', processAndBuildATSgView [enforced_row] Example.cloud = Returned (inr (view, names), c') /\ view = [].
Proof.
  assert (succeeded (processAndBuildATSgView [enforced_row] Example.cloud) = true) as Hs by (vm_compute; reflexivity).
  apply succeeded_inv in Hs as ([view names] & c' & E). exists view, names, c'. split; [exact E|].
  apply (at_view_is_empty (AZ := SimAzure) [enforced_row] Example.cloud view names c'); [|exact E].
  apply list.Forall_singleton, enforced_row_created.
Defined.

Lemma peer_rules_reach_everyone_witness :
  exists newI r, convertIngressToAzurePeerNsgSecurityRules Example.web [Example.https] ∅ (Some "10.0.0.4") = inr newI /\ r ∈ newI /\
    forall t dst, matches r t -> matches r (mkTraffic (tr_Protocol t) (tr_Source t) (tr_SourcePort t) dst (tr_DestinationPort t)).
Proof.
  destruct (convertIngressToAzurePeerNsgSecurityRules Example.web [Example.https] ∅ (Some "10.0.0.4")) as [e|newI] eqn:EI; [done|].
  destruct newI as [|r newI]; [done|]. exists (r :: newI), r. split; [done|]. split; [by left|].
  destruct (peer_rules_reach_everyone Example.web [Example.https] [] ∅ (Some "10.0.0.4") (r :: newI) [vnet_deny_rule DirectionOutbound] EI eq_refl)
    as [H _]. intros t dst. apply H; [by left|]. revert EI. vm_compute. by intros [= <- _].
Defined.
