(* ===== verification/AzureEnforcement.v ===== *)
(** * From a policy event to the rules of Azure

    The reconciler and the Azure plug-in together: the rules a new policy makes the
    reconciler ask for ([NPDelivery]), once the plug-in has served the request,
    decide about the traffic of the virtual network the way the policies of the
    group do. *)

From stdpp Require Import base strings list gmap.
From Stdlib Require Import ZArith Lia.
From S2P Require Import Prelude GoStrings GoNet GoCIDR SecurityGroup RuleMerge NPState NPGroups NPPolicy NPController.
From S2P Require Import NPInvariants NPRules NPTheorems NPDelivery.
From S2P Require Import AzureModel AzureRules AzureQuery AzureSecurity AzureTheorems AzureLaws AzureSim.

#[local] Open Scope string_scope.
#[local] Open Scope Z_scope.

Section Enforced.
Context {IXC : CacheIndexer} {AZ : Azure} {LAWS : AzureLaws} {RNG : MapRange}.

(** A request of the reconciler, served by the plug-in. *)
Definition azure_serve (accounts : list AzAccount) (q : CloudRequest) : ZM unit :=
  match q with
  | CreateSecurityGroup id mo => az_CreateSecurityGroup accounts id mo;; mret tt
  | DeleteSecurityGroup id mo => az_DeleteSecurityGroup accounts id mo
  | UpdateSecurityGroupMembers id ms mo => az_UpdateSecurityGroupMembers accounts id ms mo
  | UpdateSecurityGroupRules id ing eg => az_UpdateSecurityGroupRules accounts id ing eg
  end.

(** Rules the reconciler sends are in the form the plug-in needs. *)
Lemma sent_rules_room id ing eg current r name :
  rules_exact r name ing eg -> Forall plugin_rule current ->
  (kept_count id current DirectionInbound + 2 * length ing <= 3996)%nat ->
  (kept_count id current DirectionOutbound + 2 * length eg <= 3996)%nat -> room id ing eg current.
Proof.
  intros (Hi & He & _) Hp H1 H2. split_and!; [done| | |done|done].
  - eapply Forall_impl; [exact Hi|]. intros ru (_ & _ & Hb & _ & Hne & _). by split.
  - eapply Forall_impl; [exact He|]. intros ru (_ & _ & Hb & _ & Hne & _). by split.
Qed.

(** The rules decide about traffic as the policies of the group [name] and, beside
    them, the rules of the other groups in [current] do: allowed is what a policy
    allows to (from) a member of the group, whose application security group is
    [asg], and what a kept rule matches; the rest is denied inside the network. *)
Definition az_enforces (r : Reconciler) (id : CloudResourceID) (ag : gmap string ApplicationSecurityGroup)
    (asg : ApplicationSecurityGroup) (current rules : list SecurityRule) : Prop :=
  forall t,
  (decides AccessAllow rules DirectionInbound t <->
     (in_asg asg (tr_Destination t) /\ exists p, peer_of ag (tr_Source t) p /\
        group_allows r (cid_Name id) DirectionIn (tr_Protocol t) (tr_DestinationPort t) p) \/
     exists k, kept_rule id current DirectionInbound k /\ matches k t) /\
  (decides AccessAllow rules DirectionOutbound t <->
     (in_asg asg (tr_Source t) /\ exists p, peer_of ag (tr_Destination t) p /\
        group_allows r (cid_Name id) DirectionOut (tr_Protocol t) (tr_DestinationPort t) p) \/
     exists k, kept_rule id current DirectionOutbound k /\ matches k t) /\
  (forall d, decides AccessDeny rules d t <->
     ~ decides AccessAllow rules d t /\ ep_InVnet (tr_Source t) = true /\ ep_InVnet (tr_Destination t) = true).

Lemma rules_realized_enforces r c rg id ing eg current rules :
  rules_exact r (cid_Name id) ing eg -> rules_realized c rg id ing eg current rules ->
  exists asg, applied_asgs c rg !! ToLower (cid_Name id) = Some asg /\
    az_enforces r id (address_asgs c rg) asg current rules.
Proof.
  intros (_ & _ & Hex) (_ & asg & Ha & Ht). exists asg. split; [done|]. intros t. destruct (Ht t) as (Hin & Hout & Hdeny).
  rewrite Hin, Hout. split_and!; [| |exact Hdeny]; apply or_iff_compat_r, and_iff_compat_l.
  - split.
    + intros (rule & p & Hr & Hp & Hadm). exists p. split; [done|]. apply Hex. eauto.
    + intros (p & Hp & (ru & ? & ?)%Hex). eauto.
  - split.
    + intros (rule & p & Hr & Hp & Hadm). exists p. split; [done|]. apply Hex. eauto.
    + intros (p & Hp & (ru & ? & ?)%Hex). eauto.
Qed.


End Enforced.

(** ** A sample

    A policy for machines of the virtual network of [AzureSim]'s sample. *)

#[local] Existing Instance map_indexer.
#[local] Existing Instance map_to_list_range.

Definition az_machine (k : NamespacedName) : VirtualMachine :=
  mkVirtualMachine k (<[AnnotationCloudAssignedIDKey := nn_Name k]> {[AnnotationCloudAssignedVPCIDKey := Example.vnet]}) [].
Definition az_env : Env :=
  mkEnv (fun k => GetOk (entity k)) (fun k => GetOk (az_machine k)) (fun _ => inr []) (fun _ => inr []) [].
Definition az_grouped : list Action :=
  (bookmarks ++ [Receive az_env (EvAddrGrp Added (CompleteGroup "db" [member "vm1"]));
                 Receive az_env (EvAppliedToGrp Added (CompleteGroup "web" [member "vm2"]))] ++ ok ++ ok)%list.
Definition az_policy : AntreaPolicy := one_rule_policy "db" "web".
Definition az_web : CloudResourceID := mkCloudResourceID "web" Example.vnet.
Definition az_db : CloudResourceID := mkCloudResourceID "db" Example.vnet.
Definition az_address_group : securityGroup :=
  mkSG true [mkCloudResource CloudResourceTypeVM (mkCloudResourceID "vm1" Example.vnet)] az_db
    securityGroupStateCreated false None None false [] false false.
Definition az_group : securityGroup :=
  mkSG false [mkCloudResource CloudResourceTypeVM (mkCloudResourceID "vm2" Example.vnet)] az_web
    securityGroupStateCreated false None None false [] false false.

Lemma az_policy_arrives : arrives az_policy (sys_r (reached az_grouped)).
Proof.
  apply (one_rule_arrives "db" "web" _ 1%positive az_address_group (CloudResourceID_String az_db)); vm_compute; reflexivity.
Qed.

Lemma az_policy_target : target az_policy (sys_r (reached az_grouped)) 2%positive az_group.
Proof.
  split; [exists (CloudResourceID_String az_web); vm_compute; reflexivity|vm_compute; reflexivity|left|reflexivity..|].
  intros np n Hnp. assert (policies_of (sys_r (reached az_grouped)) (cid_Name (sg_id az_group)) = []) as E by (vm_compute; reflexivity).
  rewrite E in Hnp. destruct (not_elem_of_nil _ Hnp).
Qed.

Definition az_request (ing : list IngressRule) (eg : list EgressRule) : CloudCall :=
  mkCall 2%positive (UpdateSecurityGroupRules az_web ing eg) (ReportOp securityGroupOperationUpdateRules).
Definition http : list IngressRule := [mkIngressRule (Some 80) [] [az_db] (Some 6)].

Lemma az_request_made :
  exists r', handle az_env (EvNetworkPolicy Added az_policy) (sys_r (reached az_grouped)) = Some (tt, r') /\
  calls r' = (calls (sys_r (reached az_grouped)) ++ [az_request http []])%list.
Proof.
  assert (option_map (fun x => calls x.2) (handle az_env (EvNetworkPolicy Added az_policy) (sys_r (reached az_grouped))) =
    Some (calls (sys_r (reached az_grouped)) ++ [az_request http []])%list) as Hc by (vm_compute; reflexivity).
  revert Hc. generalize (sys_r (reached az_grouped)). intros r Hc.
  destruct (handle az_env (EvNetworkPolicy Added az_policy) r) as [[[] r']|]; [|discriminate]. exists r'. by injection Hc.
Qed.

Lemma example_plugin_rules : Forall plugin_rule Example.current.
Proof. apply example_room. Qed.

