(* ===== verification/Wrappers.v ===== *)
(** * The wrappers around the cloud SDKs

    Model of [aws_api_wrappers.go], [azure_api_wrappers.go] and
    [azure_resourcegraph.go]: what the plug-ins do between their own code and the
    SDKs.  Listings come in pages (AWS, by a token), through an iterator that
    fetches pages (Azure), or, for the resource graph, in one page that is all the
    code asks for; changes of Azure resources are futures that are waited for.

    The SDK is a parameter: the function that serves one request, and for the
    iterator of Azure a class with its documented behaviour. *)

From stdpp Require Import base strings list pretty.
From Stdlib Require Import ZArith Lia.
From S2P Require Import Prelude GoStrings GoFmt AzureModel.

#[local] Open Scope string_scope.

(** ** EC2: listings by token *)

(** A response: its items and [NextToken]. *)
Record Page (A : Type) := mkPage { page_items : list A; page_NextToken : option string }.
Arguments mkPage {A} page_items page_NextToken. Arguments page_items {A} p. Arguments page_NextToken {A} p.

(** [aws.StringValue]. *)
Definition StringValue (s : option string) : string := default "" s.

Section Paged.
Context {Sdk A : Type}.
(** [Describe...] of the SDK for the input with its [NextToken]. *)
Variable describe : option string -> Sdk -> (string + Page A) * Sdk.
(** Text of the error, before the quoted error of the SDK. *)
Variable prefix : string.

(** The loop of the paged wrappers.  It asks for pages as long as there is a
    token; [None] when it has not ended after [fuel] pages. *)
Fixpoint paged (fuel : nat) (token : option string) (acc : list A) (s : Sdk) : option ((string + list A) * Sdk) :=
  match fuel with
  | O => None
  | S fuel =>
      match describe token s with
      | (inl err, s) => Some (inl (prefix +:+ Quote err), s)
      | (inr response, s) =>
          let acc := (acc ++ page_items response)%list in
          if decide (StringValue (page_NextToken response) = "") then Some (inr acc, s)
          else paged fuel (page_NextToken response) acc s
      end
  end.

(** *** What the server has to give: a listing of [k] pages *)

Inductive listing : option string -> Sdk -> nat -> list A -> Sdk -> Prop :=
  | listing_last token s p s' :
      describe token s = (inr p, s') -> StringValue (page_NextToken p) = "" ->
      listing token s 1 (page_items p) s'
  | listing_more token s p s1 k items s' :
      describe token s = (inr p, s1) -> StringValue (page_NextToken p) <> "" ->
      listing (page_NextToken p) s1 k items s' ->
      listing token s (1 + k) (page_items p ++ items)%list s'.

(** A page of the listing cannot be had. *)
Inductive broken : option string -> Sdk -> nat -> string -> Sdk -> Prop :=
  | broken_here token s e s' : describe token s = (inl e, s') -> broken token s 1 e s'
  | broken_later token s p s1 k e s' :
      describe token s = (inr p, s1) -> StringValue (page_NextToken p) <> "" ->
      broken (page_NextToken p) s1 k e s' -> broken token s (1 + k) e s'.

Lemma paged_listing token s k items s' fuel acc :
  listing token s k items s' -> (k <= fuel)%nat -> paged fuel token acc s = Some (inr (acc ++ items)%list, s').
Proof.
  intros Hl. revert fuel acc. induction Hl as [token s p s' Hd Hn|token s p s1 k items s' Hd Hn _ IH]; intros fuel acc Hk;
    (destruct fuel as [|fuel]; [lia|]); simpl; rewrite Hd.
  - by rewrite decide_True.
  - rewrite decide_False by done. rewrite IH by lia. by rewrite app_assoc.
Qed.

Lemma paged_broken token s k e s' fuel acc :
  broken token s k e s' -> (k <= fuel)%nat -> paged fuel token acc s = Some (inl (prefix +:+ Quote e), s').
Proof.
  intros Hl. revert fuel acc. induction Hl as [token s e s' Hd|token s p s1 k e s' Hd Hn _ IH]; intros fuel acc Hk;
    (destruct fuel as [|fuel]; [lia|]); simpl; rewrite Hd; [done|].
  rewrite decide_False by done. apply IH. lia.
Qed.

Lemma paged_inv fuel token acc s r s' :
  paged fuel token acc s = Some (r, s') ->
  match r with
  | inr out => exists k items, (k <= fuel)%nat /\ listing token s k items s' /\ out = (acc ++ items)%list
  | inl t => exists k e, (k <= fuel)%nat /\ broken token s k e s' /\ t = prefix +:+ Quote e
  end.
Proof.
  revert token acc s. induction fuel as [|fuel IH]; intros token acc s; simpl; [done|].
  destruct (describe token s) as [[e|p] s1] eqn:Hd; [intros [= <- <-]; eexists _, _; split; [|by split; [apply broken_here|]]; lia|].
  case_decide as Hn; [intros [= <- <-]; eexists _, _; split; [|by split; [by apply listing_last|]]; lia|].
  intros Hr%IH. destruct r as [t|out].
  - destruct Hr as (k & e & Hk & Hb & ->). exists (1 + k)%nat, e. split; [lia|]. split; [by eapply broken_later|done].
  - destruct Hr as (k & items & Hk & Hl & ->). exists (1 + k)%nat, (page_items p ++ items)%list.
    split; [lia|]. split; [by eapply listing_more|]. by rewrite app_assoc.
Qed.

End Paged.

(** [pagedDescribeInstancesWrapper]: the instances of the reservations of every
    page. *)
Definition pagedDescribeInstancesWrapper {Sdk I} (DescribeInstances : option string -> Sdk -> (string + Page (list I)) * Sdk)
    (fuel : nat) (s : Sdk) : option ((string + list I) * Sdk) :=
  paged (fun token s =>
           match DescribeInstances token s with
           | (inl e, s) => (inl e, s)
           | (inr p, s) => (inr (mkPage (mjoin (page_items p)) (page_NextToken p)), s)
           end)
    "error describing ec2 instances : " fuel None [] s.

Definition pagedDescribeNetworkInterfacesWrapper {Sdk I}
    (DescribeNetworkInterfaces : option string -> Sdk -> (string + Page I) * Sdk) (fuel : nat) (s : Sdk) :
    option ((string + list I) * Sdk) :=
  paged DescribeNetworkInterfaces "error describing ec2 network interfaces: " fuel None [] s.

(** ** Azure: iterators *)

(** An error of the SDK; one of type [autorest.DetailedError] has a status code. *)
Record SdkError := mkSdkError { sdk_text : string; sdk_StatusCode : option Z }.

Class ListIterator (Sdk A It : Type) := {
  NotDone : It -> bool;
  Value : It -> A;
  NextWithContext : It -> Sdk -> option SdkError * It * Sdk;
  (** the items that are still to come *)
  it_rest : It -> list A
}.

(** The documented behaviour: an iterator that is not done has a value, a step
    moves past it, and a step that fails does not move. *)
Class IteratorLaws (Sdk A It : Type) `{ListIterator Sdk A It} := {
  it_done it : NotDone it = negb (bool_decide (it_rest it = []));
  it_value it x l : it_rest it = x :: l -> Value it = x;
  it_next it s : match NextWithContext it s with
                 | (None, it', _) => it_rest it' = tail (it_rest it)
                 | (Some _, it', _) => it_rest it' = it_rest it
                 end
}.

Section Listing.
Context {Sdk A It : Type} `{ListIterator Sdk A It}.

(** [for ; it.NotDone(); err = it.NextWithContext(ctx)]: the error of a step is
    looked at in the next round, if there is one. *)
Fixpoint iterate (fuel : nat) (failed : string) (it : It) (err : option SdkError) (acc : list A) (s : Sdk) :
    option ((string + list A) * Sdk) :=
  match fuel with
  | O => None
  | S fuel =>
      if NotDone it then
        match err with
        | Some e => Some (inl (failed +:+ sdk_text e), s)
        | None =>
            let '(err, it', s') := NextWithContext it s in
            iterate fuel failed it' err (acc ++ [Value it])%list s'
        end
      else Some (inr acc, s)
  end.

(** [listComplete] and [listAllComplete]: [List] of the SDK makes the iterator. *)
Definition list_wrapper (List : Sdk -> (SdkError + It) * Sdk) (failed_list failed_step : string) (fuel : nat) (s : Sdk) :
    option ((string + list A) * Sdk) :=
  match List s with
  | (inl e, s) => Some (inl (failed_list +:+ sdk_text e), s)
  | (inr it, s) => iterate fuel failed_step it None [] s
  end.

Definition nwIntf_listAllComplete (ListAllComplete : Sdk -> (SdkError + It) * Sdk) :=
  list_wrapper ListAllComplete "failed to list network interfaces, reason "
    "failed to iterate list of network interface, reason ".
Definition nsg_wrapper_listAllComplete (ListAllComplete : Sdk -> (SdkError + It) * Sdk) :=
  list_wrapper ListAllComplete "failed to list network security groups, reason "
    "failed to iterate list of security groups, reason ".
Definition asg_wrapper_listComplete (resourceGroupName : string) (ListComplete : string -> Sdk -> (SdkError + It) * Sdk) :=
  list_wrapper (ListComplete resourceGroupName)
    ("failed to list of asgs for resource-group: " +:+ resourceGroupName +:+ ", reason ")
    ("failed to iterate list of asgs for resource-group: " +:+ resourceGroupName +:+ ", reason ").
Definition asg_wrapper_listAllComplete (ListAllComplete : Sdk -> (SdkError + It) * Sdk) :=
  list_wrapper ListAllComplete "failed to list application security groups, reason "
    "failed to iterate list of application security groups, reason ".
Definition vnet_listAllComplete (ListAllComplete : Sdk -> (SdkError + It) * Sdk) :=
  list_wrapper ListAllComplete "failed to list virtual networks, reason "
    "failed to iterate list of virtual networks, reason ".

Context `{!IteratorLaws Sdk A It}.

Lemma iterate_spec it failed acc s :
  exists r s', iterate (1 + length (it_rest it)) failed it None acc s = Some (r, s') /\
  match r with
  | inr out => out = (acc ++ it_rest it)%list
  | inl t => exists it1 s1 e it2, NextWithContext it1 s1 = (Some e, it2, s') /\ t = failed +:+ sdk_text e
  end.
Proof.
  remember (it_rest it) as l eqn:Hl. revert it acc s Hl. induction l as [|x l IH]; intros it acc s Hl.
  - eexists _, _. simpl. rewrite it_done, <- Hl. simpl. split; [done|]. simpl. by rewrite app_nil_r.
  - cbn [length Nat.add iterate]. rewrite it_done, bool_decide_false by (by rewrite <- Hl). simpl negb. cbv iota.
    rewrite (it_value it x l) by done. pose proof (it_next it s) as Hn.
    destruct (NextWithContext it s) as [[err it'] s1] eqn:Hs. destruct err as [e|].
    + eexists _, _. cbn [iterate]. rewrite it_done, Hn, bool_decide_false by (by rewrite <- Hl). simpl. split; [done|]. by exists it, s, e, it'.
    + rewrite <- Hl in Hn. simpl in Hn. destruct (IH it' (acc ++ [x])%list s1 (eq_sym Hn)) as (r & s' & Hr & Hspec).
      exists r, s'. split; [exact Hr|]. destruct r; [done|]. rewrite Hspec. by rewrite <- app_assoc.
Qed.

End Listing.

(** ** Azure: changes *)

Section Changes.
Context {Sdk A : Type}.

(** [createOrUpdate]: the request, the future it returns, its result. *)
Definition create_wrapper (CreateOrUpdate : Sdk -> (SdkError + unit) * Sdk) (WaitForCompletionRef : Sdk -> option SdkError * Sdk)
    (Result : Sdk -> (SdkError + A) * Sdk) (cannot_create cannot_wait : string) (s : Sdk) : (string + A) * Sdk :=
  match CreateOrUpdate s with
  | (inl e, s) => (inl (cannot_create +:+ sdk_text e), s)
  | (inr _, s) =>
      match WaitForCompletionRef s with
      | (Some e, s) => (inl (cannot_wait +:+ sdk_text e), s)
      | (None, s) =>
          match Result s with
          | (inl e, s) => (inl (sdk_text e), s)
          | (inr a, s) => (inr a, s)
          end
      end
  end.

Definition nwIntf_createOrUpdate C W R (networkIntfName : string) :=
  create_wrapper C W R ("cannot create " +:+ networkIntfName +:+ ", reason: ")
    "cannot get network-interface create or update future response: ".
Definition nsg_wrapper_createOrUpdate C W R (networkSecurityGroupName : string) :=
  create_wrapper C W R ("cannot create " +:+ networkSecurityGroupName +:+ ", reason: ")
    "cannot get nsg create or update future response: ".
Definition asg_wrapper_createOrUpdate C W R (applicationSecurityGroupName : string) :=
  create_wrapper C W R ("cannot create asg " +:+ applicationSecurityGroupName +:+ ", reason: ")
    "cannot get asg create or update future response: ".

(** [delete]: what does not exist is deleted; an error of another type than
    [autorest.DetailedError] panics. *)
Definition delete_wrapper (kind name : string) (Delete : Sdk -> (SdkError + unit) * Sdk)
    (WaitForCompletionRef : Sdk -> option SdkError * Sdk) (s : Sdk) : Outcome (option string * Sdk) :=
  match Delete s with
  | (inl e, s) =>
      match sdk_StatusCode e with
      | None => Panicked
      | Some code =>
          if decide (code <> 404%Z)
          then Returned (Some ("cannot delete " +:+ kind +:+ " " +:+ name +:+ ", reason: " +:+ sdk_text e), s)
          else Returned (None, s)
      end
  | (inr _, s) =>
      match WaitForCompletionRef s with
      | (Some e, s) => Returned (Some ("cannot get " +:+ kind +:+ " delete future response: " +:+ sdk_text e), s)
      | (None, s) => Returned (None, s)
      end
  end.

Definition nsg_wrapper_delete := delete_wrapper "nsg".
Definition asg_wrapper_delete := delete_wrapper "asg".

End Changes.

(** ** Azure: the resource graph *)

(** The response to a query: rows ([nil] for no data), their number over all
    pages, and the token of the next page. *)
Record QueryResponse (R : Type) := mkQueryResponse {
  qr_Data : option (list R);
  qr_TotalRecords : option Z;
  qr_SkipToken : option string
}.
Arguments mkQueryResponse {R} qr_Data qr_TotalRecords qr_SkipToken.
Arguments qr_Data {R} q. Arguments qr_TotalRecords {R} q. Arguments qr_SkipToken {R} q.

Section ResourceGraph.
Context {Sdk R A : Type}.
(** [Resources] of the SDK: query, subscriptions, token of the page. *)
Variable resources : string -> list string -> option string -> Sdk -> (SdkError + QueryResponse R) * Sdk.
(** [mapstructure.Decode] of a row. *)
Variable Decode : R -> string + A.

(** One request, without a token; [*results.TotalRecords] panics without it. *)
Definition invokeResourceGraphQuery (query : string) (subscriptions : list string) (s : Sdk) :
    Outcome ((string + option (list R) * Z) * Sdk) :=
  match resources query subscriptions None s with
  | (inl e, s) => Returned (inl (sdk_text e), s)
  | (inr results, s) =>
      match qr_TotalRecords results with
      | None => Panicked
      | Some count => Returned (inr (qr_Data results, count), s)
      end
  end.

Fixpoint decode_rows (rows : list R) : string + list A :=
  match rows with
  | [] => inr []
  | row :: rows =>
      match Decode row with
      | inl e => inl e
      | inr a => match decode_rows rows with inl e => inl e | inr l => inr (a :: l) end
      end
  end.

(** [getVirtualMachineTable] and [getNetworkInterfaceTable]. *)
Definition graph_table (query : string) (subscriptions : list string) (s : Sdk) :
    Outcome ((string + list A * Z) * Sdk) :=
  match invokeResourceGraphQuery query subscriptions s with
  | Returned (inl e, s) => Returned (inl e, s)
  | Returned (inr (None, _), s) => Returned (inr ([], 0%Z), s)
  | Returned (inr (Some rows, count), s) =>
      match decode_rows rows with
      | inl e => Returned (inl e, s)
      | inr l => Returned (inr (l, count), s)
      end
  | Panicked => Panicked
  | Blocked => Blocked
  end.

End ResourceGraph.

Definition getVirtualMachineTable {Sdk R} resources (Decode : R -> string + virtualMachineTable) :=
  graph_table (Sdk := Sdk) resources Decode.
Definition getNetworkInterfaceTable {Sdk R} resources (Decode : R -> string + networkInterfaceTable) :=
  graph_table (Sdk := Sdk) resources Decode.
