(* ===== verification/WrappersTheorems.v ===== *)
(** * Listings through the SDK wrappers

    The wrappers return every item of every page, in order, or an error; queries
    of the resource graph return the first page only. *)

From stdpp Require Import base strings list pretty.
From Stdlib Require Import Ascii ZArith Lia.
From S2P Require Import Prelude GoStrings GoFmt AzureModel Wrappers.

#[local] Open Scope string_scope.

(** ** EC2 *)

(** C34: The paged wrapper returns a list exactly when the pages that EC2 serves,
    each asked for with the token of the one before, end, and then it is the items
    of all pages in their order, with one request per page; it returns an error
    exactly when one of these pages cannot be had. *)
Theorem paged_lists_every_page {Sdk I} (describe : option string -> Sdk -> (string + Page I) * Sdk) fuel s s' :
  (forall out, pagedDescribeNetworkInterfacesWrapper describe fuel s = Some (inr out, s') <->
     exists k, (k <= fuel)%nat /\ listing describe None s k out s') /\
  (forall t, pagedDescribeNetworkInterfacesWrapper describe fuel s = Some (inl t, s') <->
     exists k e, (k <= fuel)%nat /\ broken describe None s k e s' /\
       t = "error describing ec2 network interfaces: " +:+ Quote e).
Proof.
  unfold pagedDescribeNetworkInterfacesWrapper. split.
  - intros out. split.
    + intros (k & items & Hk & Hl & ->)%paged_inv. eauto.
    + intros (k & Hk & Hl). exact (paged_listing _ _ _ _ _ _ _ _ [] Hl Hk).
  - intros t. split.
    + intros Hr%paged_inv. exact Hr.
    + intros (k & e & Hk & Hb & ->). exact (paged_broken _ _ _ _ _ _ _ _ [] Hb Hk).
Qed.

(** A server that has the list [l] and gives [n] items at a time; the token is
    the number of items given before, in unary. *)
Fixpoint stars (n : nat) : string := match n with O => "" | S n => String "*"%char (stars n) end.

Lemma length_stars n : String.length (stars n) = n.
Proof. induction n as [|n IH]; simpl; congruence. Qed.

Definition page_server {A} (n : nat) (l : list A) (token : option string) (s : unit) : (string + Page A) * unit :=
  let off := String.length (StringValue token) in
  (inr (mkPage (take n (drop off l)) (if decide (off + n < length l)%nat then Some (stars (off + n)) else None)), s).

Lemma page_server_listing {A} n (l : list A) : (0 < n)%nat -> forall m token,
  (length l <= String.length (StringValue token) + m)%nat ->
  exists k, (1 <= k <= 1 + m)%nat /\ listing (page_server n l) token tt k (drop (String.length (StringValue token)) l) tt.
Proof.
  intros Hn. induction m as [m IH] using lt_wf_ind. intros token Hm. set (off := String.length (StringValue token)) in *.
  destruct (decide (off + n < length l)%nat) as [Hlt|Hge].
  - destruct (IH (m - n)%nat ltac:(lia) (Some (stars (off + n)))) as (k & Hk & Hl).
    { simpl. rewrite length_stars. lia. }
    simpl in Hl. rewrite length_stars in Hl. exists (1 + k)%nat. split; [lia|].
    rewrite <- (take_drop n (drop off l)), drop_drop.
    eapply (listing_more _ _ _ (mkPage (take n (drop off l)) (Some (stars (off + n))))); [|simpl|exact Hl].
    + unfold page_server. fold off. by rewrite decide_True.
    + intros E. assert (String.length (stars (off + n)) = 0%nat) as E' by by rewrite E. rewrite length_stars in E'. lia.
  - exists 1%nat. split; [lia|].
    rewrite <- (take_ge (drop off l) n) by (rewrite length_drop; lia).
    apply (listing_last _ _ _ (mkPage (take n (drop off l)) None)); [|done].
    unfold page_server. fold off. by rewrite decide_False.
Qed.

(** Whatever the size of the pages, the whole list is returned, with no more
    requests than it has items. *)
Theorem paging_collects_all {A} n (l : list A) :
  (0 < n)%nat -> pagedDescribeNetworkInterfacesWrapper (page_server n l) (1 + length l) tt = Some (inr l, tt).
Proof.
  intros Hn. destruct (page_server_listing n l Hn (length l) None) as (k & Hk & Hl); [simpl; lia|].
  apply (paged_listing _ "error describing ec2 network interfaces: " _ _ _ _ _ (1 + length l) []) in Hl; [exact Hl|lia].
Qed.

(** The instances of an account come in reservations, which are joined. *)
Theorem paged_instances {Sdk I} (DescribeInstances : option string -> Sdk -> (string + Page (list I)) * Sdk) fuel s rs s' k :
  listing DescribeInstances None s k rs s' -> (k <= fuel)%nat ->
  pagedDescribeInstancesWrapper DescribeInstances fuel s = Some (inr (mjoin rs), s').
Proof.
  intros Hl Hk. unfold pagedDescribeInstancesWrapper. set (describe := fun _ _ => _).
  assert (listing describe None s k (mjoin rs) s') as Hl'; [|exact (paged_listing _ _ _ _ _ _ _ _ [] Hl' Hk)].
  clear Hk. induction Hl as [token s p s' Hd Hn|token s p s1 k items s' Hd Hn _ IH].
  - apply (listing_last _ _ _ (mkPage (mjoin (page_items p)) (page_NextToken p))); [|done]. unfold describe. by rewrite Hd.
  - rewrite join_app. apply (listing_more _ _ _ (mkPage (mjoin (page_items p)) (page_NextToken p)) s1); [|done|done].
    unfold describe. by rewrite Hd.
Qed.

(** ** Azure *)

Section Iterators.
Context {Sdk A It : Type} `{!ListIterator Sdk A It} `{!IteratorLaws Sdk A It}.

(** A listing of Azure ends after as many rounds as there are items; it is
    either all the items of the iterator, in order, or the error of the request or
    of a step of the iterator: an error is never taken for the end of the list. *)
Theorem list_wrapper_complete (List : Sdk -> (SdkError + It) * Sdk) failed_list failed_step s :
  match List s with
  | (inl e, s1) => forall fuel, list_wrapper List failed_list failed_step fuel s = Some (inl (failed_list +:+ sdk_text e), s1)
  | (inr it, s1) =>
      exists r s', list_wrapper List failed_list failed_step (1 + length (it_rest it)) s = Some (r, s') /\
      match r with
      | inr out => out = it_rest it
      | inl t => exists it1 s2 e it2, NextWithContext it1 s2 = (Some e, it2, s') /\ t = failed_step +:+ sdk_text e
      end
  end.
Proof.
  unfold list_wrapper. destruct (List s) as [[e|it] s1]; [done|]. exact (iterate_spec it failed_step [] s1).
Qed.

End Iterators.

(** Deleting what is not there is no error: a deletion can be repeated. *)
Theorem delete_is_idempotent {Sdk} kind name (Delete : Sdk -> (SdkError + unit) * Sdk) Wait s e s' :
  Delete s = (inl e, s') -> sdk_StatusCode e = Some 404%Z -> delete_wrapper kind name Delete Wait s = Returned (None, s').
Proof. intros Hd Hc. unfold delete_wrapper. by rewrite Hd, Hc. Qed.

(** ** The resource graph *)

(** The resource graph with the rows [l], [n] to a page. *)
Definition graph_server {R} (n : nat) (l : list R) (query : string) (subscriptions : list string)
    (token : option string) (s : nat) : (SdkError + QueryResponse R) * nat :=
  let off := String.length (StringValue token) in
  (inr (mkQueryResponse (Some (take n (drop off l))) (Some (Z.of_nat (length l)))
     (if decide (off + n < length l)%nat then Some (stars (off + n)) else None)), 1 + s)%nat.

Lemma decode_rows_all {R A} (f : R -> A) rows : decode_rows (fun r => inr (f r)) rows = inr (map f rows).
Proof. induction rows as [|r rows IH]; [done|]. simpl. by rewrite IH. Qed.

(** C40: A query of the resource graph is asked once and the token of the response
    is dropped: of the rows that do not fit into the first page nothing is
    returned, although the count that is returned with the rows tells that there
    are more. *)
Theorem resource_graph_first_page {R} n (l : list R) (f : R -> virtualMachineTable) query subscriptions s :
  getVirtualMachineTable (graph_server n l) (fun r => inr (f r)) query subscriptions s =
  Returned (inr (map f (take n l), Z.of_nat (length l)), (1 + s)%nat).
Proof. unfold getVirtualMachineTable, graph_table, invokeResourceGraphQuery, graph_server. simpl. by rewrite decode_rows_all. Qed.

(** ** A sample iterator

    Two pages of items; fetching a page may fail.  The state is the outcome of
    each step to come. *)

Definition SimIt := list nat.
#[local] Instance SimIterator : ListIterator (list bool) nat SimIt := {|
  NotDone it := match it with [] => false | _ => true end;
  Value it := default 0%nat (head it);
  NextWithContext it s :=
    match s with
    | false :: s => (Some (mkSdkError "throttled" (Some 429%Z)), it, s)
    | _ => (None, tail it, tail s)
    end;
  it_rest it := it
|}.
#[local] Instance SimIteratorLaws : IteratorLaws (list bool) nat SimIt.
Proof. split; [by intros []|by intros it x l Hl; simpl in *; subst|by intros it [|[] s]]. Qed.

Lemma list_wrapper_complete_witness :
  exists r s', nsg_wrapper_listAllComplete (fun s => (inr [1; 2; 3]%nat, s)) 4 [true; false] = Some (r, s') /\
  match r with
  | inr out => out = [1; 2; 3]%nat
  | inl t => exists it1 s2 e it2, NextWithContext (A := nat) (It := SimIt) it1 s2 = (Some e, it2, s') /\
      t = "failed to iterate list of security groups, reason " +:+ sdk_text e
  end.
Proof.
  exact (list_wrapper_complete (It := SimIt) (fun s => (inr [1; 2; 3]%nat, s)) "failed to list network security groups, reason "
    "failed to iterate list of security groups, reason " [true; false]).
Defined.
