(* ===== verification/Accounts.v ===== *)
(** * Cloud accounts

    Model of [pkg/cloud-provider/cloudapi/internal]: what is common to the
    plug-ins.  A service of an account ([CloudServiceInterface],
    [services_common.go]) is a class the plug-ins instantiate; accounts
    ([accounts_common.go]) hold their services; [cloudCommon]
    ([cloud_common.go]) holds the accounts.

    Mutexes make every method atomic.  The goroutine [PollUntil] runs is the
    operation [periodic_sync] on an account whose channel is open. *)

From stdpp Require Import base strings list gmap.
From Stdlib Require Import ZArith Lia.
From S2P Require Import Prelude GoStrings AwsModel Selector VirtualMachine.

#[local] Open Scope string_scope.
#[local] Open Scope Z_scope.

(** ** Statistics and services ([services_common.go]) *)

(** The counters are [uint64]; [lastPollErrTime] is left out. *)
Definition uint64 (z : Z) : Z := z mod 2 ^ 64.

Record CloudServiceStats := mkStats {
  totalPollCnt : Z;
  successPollCnt : Z;
  lastPollErr : option error
}.

Definition IsInventoryInitialized (s : CloudServiceStats) : bool := 0 <? successPollCnt s.

Definition UpdateInventoryPollStats (err : option error) (s : CloudServiceStats) : CloudServiceStats :=
  match err with
  | None => mkStats (uint64 (totalPollCnt s + 1)) (uint64 (successPollCnt s + 1)) (lastPollErr s)
  | Some e => mkStats (uint64 (totalPollCnt s + 1)) (successPollCnt s) (Some e)
  end.

Definition ResetInventoryPollStats (s : CloudServiceStats) : CloudServiceStats := mkStats 0 0 None.

Definition CloudServiceTypeCompute : string := "Compute".

(** [CloudServiceInterface]: [Env] is the cloud an inventory looks at;
    [GetInventoryStats] returns a pointer, so the statistics can be set. *)
Class CloudService := {
  Svc : Type;
  Env : Type;
  UpdateServiceConfig : Svc -> Svc -> Svc;
  svc_SetResourceFilters : option CloudEntitySelector -> Svc -> Svc;
  HasFiltersConfigured : Svc -> bool * bool;
  DoResourceInventory : Env -> Svc -> option error * Svc;
  GetInventoryStats : Svc -> CloudServiceStats;
  SetInventoryStats : CloudServiceStats -> Svc -> Svc;
  GetResourceCRDs : string -> Svc -> list (option VirtualMachine);
  GetName : Svc -> string;
  GetType : Svc -> string;
  ResetCachedState : Svc -> Svc
}.

(** [CloudCommonHelperInterface]: the functions may be nil; [Creds] are the
    credentials of an account object, [AccCfg] the plug-in's.  The conversion of
    credentials may panic ([None]). *)
Class CloudCommonHelper `{CloudService} := {
  Client : Type;
  Creds : Type;
  AccCfg : Type;
  SetAccountCredentialsFunc : option (Client -> Creds -> option (error + option AccCfg));
  GetCloudCredentialsComparatorFunc : option (string -> AccCfg -> AccCfg -> bool);
  GetCloudServicesCreateFunc : option (string * string -> AccCfg -> error + list Svc)
}.

(** Namespace and name. *)
Definition NamespacedName : Type := string * string.
Definition NamespacedName_String (n : NamespacedName) : string := n.1 +:+ "/" +:+ n.2.

Section Accounts.
Context `{CloudCommonHelper} {RNG : MapRange}.

(** ** An account ([accounts_common.go]) *)

Record cloudAccountConfig := mkAccountConfig {
  acc_namespacedName : NamespacedName;
  acc_credentials : AccCfg;
  acc_serviceConfigs : gmap string Svc;
  acc_inventoryPollInterval : Z;
  acc_inventoryChannel : bool;
  acc_StatusError : string
}.

Definition with_services (svcs : gmap string Svc) (a : cloudAccountConfig) : cloudAccountConfig :=
  mkAccountConfig (acc_namespacedName a) (acc_credentials a) svcs (acc_inventoryPollInterval a)
    (acc_inventoryChannel a) (acc_StatusError a).

(** The services by name; of two with one name the last. *)
Definition services_by_name (l : list Svc) : gmap string Svc := fold_left (fun m s => <[GetName s := s]> m) l ∅.

(** The credentials of an account object, checked and converted; [None] panics. *)
Definition convert_credentials (client : Client) (credentials : Creds) (nil_error : error) : option (error + AccCfg) :=
  match SetAccountCredentialsFunc with
  | None => Some (inl "registered cloud-credentials validator function cannot be nil")
  | Some f =>
      r ← f client credentials;
      Some (match r with
            | inl e => inl e
            | inr None => inl nil_error
            | inr (Some c) => inr c
            end)
  end.

Definition create_services (name : NamespacedName) (cred : AccCfg) : error + gmap string Svc :=
  match GetCloudServicesCreateFunc with
  | None => inl "registered cloud-services creator function cannot be nil"
  | Some f => match f name cred with inl e => inl e | inr l => inr (services_by_name l) end
  end.

Definition newCloudAccountConfig (client : Client) (name : NamespacedName) (credentials : Creds) (pollInterval : Z) :
    option (error + cloudAccountConfig) :=
  r ← convert_credentials client credentials ("cloud credentials cannot be nil (accountName: " +:+ NamespacedName_String name +:+ ")");
  Some (match r with
        | inl e => inl e
        | inr cred =>
            match create_services name cred with
            | inl e => inl e
            | inr svcs => inr (mkAccountConfig name cred svcs pollInterval false "")
            end
        end).

(** [cloudAccountConfig.update]: the services present in both maps are
    updated when the credentials have changed. *)
Definition update (cmp : string -> AccCfg -> AccCfg -> bool) (newCred : AccCfg) (newSvcs : gmap string Svc)
    (a : cloudAccountConfig) : cloudAccountConfig :=
  if cmp (NamespacedName_String (acc_namespacedName a)) newCred (acc_credentials a) then
    mkAccountConfig (acc_namespacedName a) newCred
      (map_imap (fun name s => Some (match newSvcs !! name with Some n => UpdateServiceConfig n s | None => s end)) (acc_serviceConfigs a))
      (acc_inventoryPollInterval a) (acc_inventoryChannel a) (acc_StatusError a)
  else a.

Definition updateCloudAccountConfig (client : Client) (credentials : Creds) (a : cloudAccountConfig) :
    option (error + cloudAccountConfig) :=
  r ← convert_credentials client credentials ("cloud credentials cannot be nil. update failed. (account: " +:+
        NamespacedName_String (acc_namespacedName a) +:+ ")");
  Some (match r with
        | inl e => inl e
        | inr cred =>
            match GetCloudCredentialsComparatorFunc with
            | None => inr a
            | Some cmp =>
                match create_services (acc_namespacedName a) cred with
                | inl e => inl e
                | inr svcs => inr (update cmp cred svcs a)
                end
            end
        end).

(** The goroutine of one service: its error, and the service afterwards.  A
    service without filters is not polled. *)
Definition sync_service (env : Env) (s : Svc) : option error * Svc :=
  if (HasFiltersConfigured s).1 then
    let '(err, s1) := DoResourceInventory env s in
    (err, SetInventoryStats (UpdateInventoryPollStats err (GetInventoryStats s1)) s1)
  else (None, s).

(** [performInventorySync]: the goroutines log their errors and store them in the
    status, but send none on the channel the result is collected from. *)
Definition performInventorySync (env : Env) (a : cloudAccountConfig) : list error * cloudAccountConfig :=
  let polled := (fun s => sync_service env s) <$> acc_serviceConfigs a in
  let sent : list error := [] in
  (sent, mkAccountConfig (acc_namespacedName a) (acc_credentials a) (snd <$> polled) (acc_inventoryPollInterval a)
     (acc_inventoryChannel a)
     (fold_left (fun err r => match r.2.1 with Some e => e | None => err end) (go_range polled) (acc_StatusError a))).

Definition GetServiceConfigByName (name : string) (a : cloudAccountConfig) : error + Svc :=
  match acc_serviceConfigs a !! name with
  | Some s => inr s
  | None => inl (name +:+ " service not found for account " +:+ NamespacedName_String (acc_namespacedName a))
  end.

(** The errors of [performInventorySync] as one. *)
Definition multierr (l : list error) : option error :=
  match l with [] => None | e :: l => Some (fold_left (fun m e => m +:+ "; " +:+ e) l e) end.

Definition startPeriodicInventorySync (env : Env) (a : cloudAccountConfig) : option error * cloudAccountConfig :=
  let '(errs, a1) := performInventorySync env a in
  match multierr errs with
  | Some e => (Some e, a1)
  | None => (None, mkAccountConfig (acc_namespacedName a1) (acc_credentials a1) (acc_serviceConfigs a1)
                     (acc_inventoryPollInterval a1) true (acc_StatusError a1))
  end.

Definition stopPeriodicInventorySync (a : cloudAccountConfig) : cloudAccountConfig :=
  mkAccountConfig (acc_namespacedName a) (acc_credentials a) (ResetCachedState <$> acc_serviceConfigs a)
    (acc_inventoryPollInterval a) false (acc_StatusError a).

(** One turn of [PollUntil]. *)
Definition periodic_sync (env : Env) (a : cloudAccountConfig) : cloudAccountConfig :=
  if acc_inventoryChannel a then (performInventorySync env a).2 else a.

(** ** The accounts ([cloud_common.go]) *)

Definition cloudCommon : Type := gmap NamespacedName cloudAccountConfig.

(** [AddCloudAccount]; [None] panics: a new account needs a poll interval. *)
Definition AddCloudAccount (client : Client) (name : NamespacedName) (pollInterval : option Z) (credentials : Creds) (c : cloudCommon) :
    option (option error * cloudCommon) :=
  match c !! name with
  | Some existing =>
      r ← updateCloudAccountConfig client credentials existing;
      Some (match r with
            | inl e => (Some e, c)
            | inr a => (None, <[name := a]> c)
            end)
  | None =>
      interval ← pollInterval;
      r ← newCloudAccountConfig client name credentials interval;
      Some (match r with
            | inl e => (Some e, c)
            | inr a => (None, <[acc_namespacedName a := a]> c)
            end)
  end.

Definition RemoveCloudAccount (name : NamespacedName) (c : cloudCommon) : cloudCommon := delete name c.

Definition GetCloudAccountByName (name : NamespacedName) (c : cloudCommon) : option cloudAccountConfig := c !! name.

Definition GetCloudAccountComputeResourceCRDs (name : NamespacedName) (c : cloudCommon) : error + list (option VirtualMachine) :=
  match GetCloudAccountByName name c with
  | None => inl ("unable to find cloud account:" +:+ NamespacedName_String name)
  | Some a =>
      inr (flat_map (fun kv => if decide (GetType kv.2 = CloudServiceTypeCompute)
                               then GetResourceCRDs (acc_namespacedName a).1 kv.2 else [])
             (go_range (acc_serviceConfigs a)))
  end.

Definition GetAllCloudAccountsComputeResourceCRDs (c : cloudCommon) : list error * list (option VirtualMachine) :=
  fold_left (fun acc kv =>
    match GetCloudAccountComputeResourceCRDs kv.1 c with
    | inl e => (acc.1 ++ [e], acc.2)
    | inr l => (acc.1, acc.2 ++ l)
    end)%list (go_range c) ([], []).

Definition AddSelector (env : Env) (name : NamespacedName) (selector : CloudEntitySelector) (c : cloudCommon) :
    option error * cloudCommon :=
  match GetCloudAccountByName name c with
  | None => (Some ("account not found " +:+ NamespacedName_String name), c)
  | Some a =>
      let a1 := with_services (svc_SetResourceFilters (Some selector) <$> acc_serviceConfigs a) a in
      let '(err, a2) := startPeriodicInventorySync env a1 in
      (match err with
       | Some e => Some ("inventory sync failed [ account : " +:+ NamespacedName_String name +:+ ", err: " +:+ e +:+ " ]")
       | None => None
       end, <[name := a2]> c)
  end.

Definition RemoveSelector (name : NamespacedName) (selectorName : string) (c : cloudCommon) : cloudCommon :=
  match GetCloudAccountByName name c with
  | None => c
  | Some a => <[name := stopPeriodicInventorySync a]> c
  end.

Definition GetStatus (name : NamespacedName) (c : cloudCommon) : error + string :=
  match GetCloudAccountByName name c with
  | None => inl ("account not found " +:+ NamespacedName_String name)
  | Some a => inr (acc_StatusError a)
  end.

End Accounts.
