(* ===== verification/Inventory.v ===== *)
(** * The inventory of the plug-ins

    The compute services of AWS ([aws_ec2.go]) and Azure ([azure_compute.go]) as
    instances of the service class of [Accounts]: filters from selectors, polling
    of the cloud into a snapshot, and the snapshot as [VirtualMachine]
    objects. *)

From stdpp Require Import base strings list gmap.
From Stdlib Require Import ZArith Lia.
From S2P Require Import Prelude GoStrings AwsModel AwsSecurity Selector VirtualMachine AzureModel AzureQuery AzureSecurity Accounts.

#[local] Open Scope string_scope.
#[local] Open Scope Z_scope.

Section Inventory.
Context {RNG : MapRange}.

(** ** EC2 *)

(** What EC2 answers: instances for filters, the VPCs with their tags, the
    peerings as accepter and requester. *)
Record Ec2Answers := mkEc2Answers {
  describeInstances : list Filter -> error + list Ec2VM;
  describeVpcs : error + list (string * list (string * string));
  describeVpcPeeringConnections : error + list (string * string)
}.

(** [ec2ServiceConfig] with the part of its snapshot that [AwsModel] leaves out;
    without snapshot these are not looked at.  [es_apiClient] stands for the API
    client made from the credentials. *)
Record ec2Service := mkEc2Svc {
  es_config : ec2ServiceConfig;
  es_apiClient : string;
  es_instances : gmap string Ec2VM;
  es_vpcNameToID : gmap string string;
  es_instanceFilters : gmap string (list (list Filter));
  es_inventoryStats : CloudServiceStats
}.

Definition ec2_with_snapshot (snapshot : option ec2ResourcesCacheSnapshot) (instances : gmap string Ec2VM)
    (names : gmap string string) (s : ec2Service) : ec2Service :=
  mkEc2Svc (mkEc2Service (ec2_accountName (es_config s)) snapshot) (es_apiClient s) instances names
    (es_instanceFilters s) (es_inventoryStats s).

Definition getCachedInstances (s : ec2Service) : list Ec2VM :=
  match ec2_snapshot (es_config s) with
  | None => []
  | Some _ => map snd (go_range (es_instances s))
  end.

Definition getCachedVpcNameToID (s : ec2Service) : gmap string string :=
  match ec2_snapshot (es_config s) with None => ∅ | Some _ => es_vpcNameToID s end.

(** The requests of [getInstances], one after another; the first error ends
    them. *)
Fixpoint describe_all (api : Ec2Answers) (requests : list (list Filter)) : error + list Ec2VM :=
  match requests with
  | [] => inr []
  | fs :: requests =>
      match describeInstances api fs with
      | inl e => inl e
      | inr l => match describe_all api requests with inl e => inl e | inr rest => inr (l ++ rest)%list end
      end
  end.

Definition getInstances (api : Ec2Answers) (s : ec2Service) : error + list Ec2VM :=
  describe_all api (instance_requests (es_instanceFilters s) (getCachedVpcNameToID s)).

(** The name tag of a VPC; empty when there is none. *)
Definition vpc_name_tag (tags : list (string * string)) : string :=
  match find (fun t => bool_decide (t.1 = "Name")) tags with Some (_, v) => v | None => "" end.

Definition buildMapVpcNameToID (api : Ec2Answers) : gmap string string :=
  match describeVpcs api with
  | inl _ => ∅
  | inr vpcs => fold_left (fun m vpc => if decide (vpc.2 = []) then m else <[vpc_name_tag vpc.2 := vpc.1]> m) vpcs ∅
  end.

Definition buildMapVpcPeers (api : Ec2Answers) : gmap string (list string) :=
  match describeVpcPeeringConnections api with
  | inl _ => ∅
  | inr conns =>
      fold_left (fun m conn =>
        let m1 := <[conn.1 := (default [] (m !! conn.1) ++ [conn.2])%list]> m in
        <[conn.2 := (default [] (m1 !! conn.2) ++ [conn.1])%list]> m1) conns (∅ : gmap string (list string))
  end.

Definition ec2_DoResourceInventory (api : Ec2Answers) (s : ec2Service) : option error * ec2Service :=
  let '(e, s1) :=
    match getInstances api s with
    | inl e => (Some e, s)
    | inr instances =>
        (None, ec2_with_snapshot
           (Some (mkSnapshot (list_to_set (map (fun i => ToLower (evm_VpcId i)) instances)) (buildMapVpcPeers api)))
           (fold_left (fun m i => <[ToLower (evm_InstanceId i) := i]> m) instances ∅) (buildMapVpcNameToID api) s)
    end in
  (e, mkEc2Svc (es_config s1) (es_apiClient s1) (es_instances s1) (es_vpcNameToID s1) (es_instanceFilters s1)
        (UpdateInventoryPollStats e (es_inventoryStats s1))).

Definition ec2_SetResourceFilters (selector : option CloudEntitySelector) (s : ec2Service) : ec2Service :=
  let '(filters, dropped) := SetResourceFilters selector (es_instanceFilters s) in
  let s1 := mkEc2Svc (es_config s) (es_apiClient s) (es_instances s) (es_vpcNameToID s) filters (es_inventoryStats s) in
  if dropped : bool then ec2_with_snapshot None ∅ ∅ s1 else s1.

Definition ec2_GetResourceCRDs (namespace : string) (s : ec2Service) : list (option VirtualMachine) :=
  map (fun i => Some (ec2InstanceToVirtualMachineCRD i namespace)) (getCachedInstances s).

(** Whether there are filters, and whether they are nil. *)
Definition ec2_HasFiltersConfigured (s : ec2Service) : bool * bool :=
  let '(filters, found) := getInstanceResourceFilters (es_instanceFilters s) in (found, bool_decide (filters = [])).

Definition ec2_SetInventoryStats (stats : CloudServiceStats) (s : ec2Service) : ec2Service :=
  mkEc2Svc (es_config s) (es_apiClient s) (es_instances s) (es_vpcNameToID s) (es_instanceFilters s) stats.

Definition ec2_ResetCachedState (s : ec2Service) : ec2Service :=
  let s1 := ec2_SetResourceFilters None s in ec2_SetInventoryStats (ResetInventoryPollStats (es_inventoryStats s1)) s1.

Definition ec2_UpdateServiceConfig (new s : ec2Service) : ec2Service :=
  mkEc2Svc (es_config s) (es_apiClient new) (es_instances s) (es_vpcNameToID s) (es_instanceFilters s) (es_inventoryStats s).

Definition fresh_ec2Service (name apiClient : string) : ec2Service :=
  mkEc2Svc (mkEc2Service name None) apiClient ∅ ∅ ∅ (mkStats 0 0 None).

(** [compute]: the API client of the SDK, or the error of making it. *)
Definition newEC2ServiceConfig (name : string) (compute : error + string) : error + ec2Service :=
  match compute with
  | inl e => inl ("error creating ec2 sdk api client for account : " +:+ name +:+ ", err: " +:+ e)
  | inr apiClient => inr (fresh_ec2Service name apiClient)
  end.

(** The answers depend on the client. *)
#[export] Instance Ec2ServiceInstance : CloudService := {|
  Svc := ec2Service;
  Env := string -> Ec2Answers;
  UpdateServiceConfig := ec2_UpdateServiceConfig;
  svc_SetResourceFilters := ec2_SetResourceFilters;
  HasFiltersConfigured := ec2_HasFiltersConfigured;
  DoResourceInventory env s := ec2_DoResourceInventory (env (es_apiClient s)) s;
  GetInventoryStats := es_inventoryStats;
  SetInventoryStats := ec2_SetInventoryStats;
  GetResourceCRDs := ec2_GetResourceCRDs;
  GetName _ := "EC2";
  GetType _ := CloudServiceTypeCompute;
  ResetCachedState := ec2_ResetCachedState
|}.

(** ** Azure *)

(** A virtual network: identifier, first address prefix, and its peerings, each
    with the remote network and its first prefix. *)
Record VirtualNetwork := mkVnet {
  vn_ID : string;
  vn_AddressPrefix : string;
  vn_Peerings : list (string * string)
}.

Record AzureAnswers := mkAzureAnswers {
  queryVirtualMachines : string -> list string -> error + list virtualMachineTable;
  listVirtualNetworks : error + list VirtualNetwork
}.

(** [computeServiceConfig] with the virtual machines of its snapshot. *)
Record computeService := mkComputeSvc {
  cs_config : computeServiceConfig;
  cs_apiClients : string;
  cs_virtualMachines : gmap string virtualMachineTable;
  cs_inventoryStats : CloudServiceStats
}.

Definition cs_with (snapshot : option computeResourcesCacheSnapshot) (filters : gmap string (list string))
    (vms : gmap string virtualMachineTable) (s : computeService) : computeService :=
  mkComputeSvc (mkComputeService (comp_accountName (cs_config s)) (comp_credentials (cs_config s)) snapshot filters)
    (cs_apiClients s) vms (cs_inventoryStats s).

Definition getCachedVirtualMachines (s : computeService) : list virtualMachineTable :=
  match comp_snapshot (cs_config s) with
  | None => []
  | Some _ => map snd (go_range (cs_virtualMachines s))
  end.

(** The queries of [getVirtualMachines], one after another. *)
Fixpoint query_all (api : AzureAnswers) (queries subscriptions : list string) : error + list virtualMachineTable :=
  match queries with
  | [] => inr []
  | q :: queries =>
      match queryVirtualMachines api q subscriptions with
      | inl e => inl e
      | inr l => match query_all api queries subscriptions with inl e => inl e | inr rest => inr (l ++ rest)%list end
      end
  end.

Definition cs_filters (s : computeService) : list string * bool :=
  let cred := comp_credentials (cs_config s) in
  getComputeResourceFilters [aac_SubscriptionID cred] [aac_TenantID cred] [aac_region cred] (comp_computeFilters (cs_config s)).

Definition az_buildMapVpcPeers (api : AzureAnswers) : gmap string (list (string * string * string)) :=
  match listVirtualNetworks api with
  | inl _ => ∅
  | inr vnets =>
      fold_left (fun m vnet =>
        fold_left (fun m (peer : string * string) =>
          let accepterID := ToLower (vn_ID vnet) in
          <[accepterID := (default [] (m !! accepterID) ++
             [(ToLower peer.1, ToLower peer.2, ToLower (vn_AddressPrefix vnet))])%list]> m) (vn_Peerings vnet) m)
        vnets (∅ : gmap string (list (string * string * string)))
  end.

Definition az_DoResourceInventory (api : AzureAnswers) (s : computeService) : option error * computeService :=
  match query_all api (cs_filters s).1 [aac_SubscriptionID (comp_credentials (cs_config s))] with
  | inl e => (Some e, s)
  | inr vms =>
      (None, cs_with (Some (mkComputeSnapshot (list_to_set (map vmt_VnetID vms)) (az_buildMapVpcPeers api)))
         (comp_computeFilters (cs_config s))
         (fold_left (fun m vm => <[ToLower (vmt_ID vm) := vm]> m) vms ∅) s)
  end.

Definition cs_SetResourceFilters (selector : option CloudEntitySelector) (s : computeService) : computeService :=
  let cred := comp_credentials (cs_config s) in
  let '(filters, dropped) := az_SetResourceFilters [aac_SubscriptionID cred] [aac_TenantID cred] [aac_region cred]
                               selector (comp_computeFilters (cs_config s)) in
  if dropped : bool then cs_with None filters ∅ s else cs_with (comp_snapshot (cs_config s)) filters (cs_virtualMachines s) s.

(** A virtual machine whose network has no valid identifier becomes nil. *)
Definition cs_GetResourceCRDs (namespace : string) (s : computeService) : list (option VirtualMachine) :=
  map (fun vm => computeInstanceToVirtualMachineCRD vm namespace) (getCachedVirtualMachines s).

Definition cs_HasFiltersConfigured (s : computeService) : bool * bool :=
  let '(filters, found) := cs_filters s in (found, bool_decide (filters = [])).

Definition cs_SetInventoryStats (stats : CloudServiceStats) (s : computeService) : computeService :=
  mkComputeSvc (cs_config s) (cs_apiClients s) (cs_virtualMachines s) stats.

Definition cs_ResetCachedState (s : computeService) : computeService :=
  let s1 := cs_SetResourceFilters None s in cs_SetInventoryStats (ResetInventoryPollStats (cs_inventoryStats s1)) s1.

Definition cs_UpdateServiceConfig (new s : computeService) : computeService :=
  mkComputeSvc (mkComputeService (comp_accountName (cs_config s)) (comp_credentials (cs_config new)) (comp_snapshot (cs_config s))
      (comp_computeFilters (cs_config s)))
    (cs_apiClients new) (cs_virtualMachines s) (cs_inventoryStats s).

(** The SDK clients, made one after another; [cs_apiClients] stands for all of
    them. *)
Record AzureClients := mkAzureClients {
  new_networkInterfaces : error + unit;
  new_securityGroups : error + unit;
  new_applicationSecurityGroups : error + unit;
  new_resourceGraph : error + unit;
  new_virtualNetworks : error + unit
}.

Definition client_error (what name e : string) : error := "error creating " +:+ what +:+ " sdk api client for account : " +:+ name +:+ ", err: " +:+ e.

Definition newComputeServiceConfig (name apiClients : string) (service : AzureClients) (credentials : azureAccountConfig) : error + computeService :=
  match new_networkInterfaces service with inl e => inl (client_error "compute" name e) | inr _ =>
  match new_securityGroups service with inl e => inl (client_error "security-groups" name e) | inr _ =>
  match new_applicationSecurityGroups service with inl e => inl (client_error "application-security-groups" name e) | inr _ =>
  match new_resourceGraph service with inl e => inl (client_error "resource-graph" name e) | inr _ =>
  match new_virtualNetworks service with inl e => inl (client_error "virtual networks" name e) | inr _ =>
  inr (mkComputeSvc (mkComputeService name credentials None ∅) apiClients ∅ (mkStats 0 0 None))
  end end end end end.

#[export] Instance ComputeServiceInstance : CloudService := {|
  Svc := computeService;
  Env := string -> AzureAnswers;
  UpdateServiceConfig := cs_UpdateServiceConfig;
  svc_SetResourceFilters := cs_SetResourceFilters;
  HasFiltersConfigured := cs_HasFiltersConfigured;
  DoResourceInventory env s := az_DoResourceInventory (env (cs_apiClients s)) s;
  GetInventoryStats := cs_inventoryStats;
  SetInventoryStats := cs_SetInventoryStats;
  GetResourceCRDs := cs_GetResourceCRDs;
  GetName _ := "COMPUTE";
  GetType _ := CloudServiceTypeCompute;
  ResetCachedState := cs_ResetCachedState
|}.

End Inventory.
