(* ===== verification/Credentials.v ===== *)
(** * Credentials of accounts

    Reading, comparing and using the credentials of an account
    ([aws_account_mgmt.go], [azure_account_mgmt.go], [aws_services.go],
    [azure_services.go] and the two [..._cloudcommonhelper_impl.go]), and the
    webhook that checks them ([cloudprovideraccount_webhook.go]).

    [encoding/json] is a parameter ([unmarshal]) and so are the SDKs that make API
    clients.  [None] is a panic. *)

From stdpp Require Import base strings list gmap.
From Stdlib Require Import Ascii ZArith Lia.
From S2P Require Import Prelude GoStrings AwsModel AwsSecurity Selector AzureModel AzureQuery AzureSecurity Accounts Inventory.

#[local] Open Scope string_scope.

(** ** [base64.StdEncoding] *)

Definition base64_digit (c : ascii) : option N :=
  let n := N_of_ascii c in
  (if (65 <=? n) && (n <=? 90) then Some (n - 65)
   else if (97 <=? n) && (n <=? 122) then Some (n - 71)
   else if (48 <=? n) && (n <=? 57) then Some (n + 4)
   else if n =? 43 then Some 62
   else if n =? 47 then Some 63
   else None)%N.

Definition padding : ascii := "="%char.

(** The bytes of a quantum of four digits. *)
Definition quantum (a b c d : N) : list ascii :=
  let v := (a * 262144 + b * 4096 + c * 64 + d)%N in
  [ascii_of_N (v / 65536); ascii_of_N (v / 256 mod 256); ascii_of_N (v mod 256)].

Fixpoint base64_quanta (s : list ascii) : option (list ascii) :=
  match s with
  | [] => Some []
  | a :: b :: c :: d :: rest =>
      x ← base64_digit a;
      y ← base64_digit b;
      if decide (c = padding) then
        if decide (d = padding /\ rest = []) then Some (take 1 (quantum x y 0 0)) else None
      else
        z ← base64_digit c;
        if decide (d = padding) then
          if decide (rest = []) then Some (take 2 (quantum x y z 0)) else None
        else
          w ← base64_digit d;
          out ← base64_quanta rest;
          Some (quantum x y z w ++ out)%list
  | _ => None
  end.

(** Line breaks are skipped; [CorruptInputError] is given without its offset. *)
Definition DecodeString (s : string) : error + string :=
  match base64_quanta (filter (fun c => c <> "010"%char /\ c <> "013"%char) (String.list_ascii_of_string s)) with
  | Some out => inr (String.string_of_list_ascii out)
  | None => inl "illegal base64 data"
  end.

Example decode_padded : DecodeString "YWI=" = inr "ab" /\ DecodeString "YQ==" = inr "a" /\ DecodeString "YWJj" = inr "abc".
Proof. split; [|split]; reflexivity. Qed.

Example decode_corrupt : DecodeString "YWI" = inl "illegal base64 data".
Proof. reflexivity. Qed.

(** ** Secrets *)

Record SecretReference := mkSecretRef { sec_Name : string; sec_Namespace : string; sec_Key : string }.

(** What the API returns for a secret: its [data], when it has that field; a
    value that is there is a string. *)
Class SecretClient := {
  Secrets : Type;
  GetSecret : NamespacedName -> Secrets -> error + option (gmap string string)
}.

Record AwsAccountCredential := mkAwsCred {
  AccessKeyID : string;
  AccessKeySecret : string;
  RoleArn : string;
  ExternalID : string
}.
Record AzureAccountCredential := mkAzureCred {
  SubscriptionID : string;
  ClientID : string;
  TenantID : string;
  ClientKey : string
}.

(** The section of an account object: reference and region. *)
Record ProviderConfig := mkProviderConfig { pc_SecretRef : option SecretReference; pc_Region : string }.

Section Credentials.
Context {SC : SecretClient}.

(** The lookup of the key: the type assertions panic on a secret without data and
    on a missing key. *)
Definition secret_value (s : SecretReference) (c : Secrets) : option (error + string) :=
  match GetSecret (sec_Namespace s, sec_Name s) c with
  | inl e => Some (inl e)
  | inr None => None
  | inr (Some data) => v ← data !! sec_Key s; Some (inr v)
  end.

Definition extractSecret {C} (unmarshal : string -> error + C) (s : option SecretReference) (c : Secrets) : option (error + C) :=
  match s with
  | None => Some (inl "secret reference not found")
  | Some s =>
      r ← secret_value s c;
      Some (match r with
            | inl e => inl e
            | inr v => match DecodeString v with inl e => inl e | inr text => unmarshal text end
            end)
  end.

(** ** AWS *)

Record awsAccountConfig := mkAwsAccount { awc_credential : AwsAccountCredential; awc_region : string }.

Definition aws_setAccountCredentials (unmarshal : string -> error + AwsAccountCredential) (client : Secrets) (credentials : ProviderConfig) :
    option (error + option awsAccountConfig) :=
  r ← extractSecret unmarshal (pc_SecretRef credentials) client;
  Some (match r with inl e => inl e | inr cred => inr (Some (mkAwsAccount cred (TrimSpace (pc_Region credentials)))) end).

(** Each comparison sets the flag. *)
Definition aws_compareAccountCredentials (accountName : string) (existing new : awsAccountConfig) : bool :=
  bool_decide (AccessKeyID (awc_credential existing) <> AccessKeyID (awc_credential new)) ||
  bool_decide (AccessKeySecret (awc_credential existing) <> AccessKeySecret (awc_credential new)) ||
  bool_decide (awc_region existing <> awc_region new).

(** [newServiceSdkConfigProvider] of the SDK gives a client or an error. *)
Definition newAwsServiceConfigs (sdk : awsAccountConfig -> error + (error + string)) (name : NamespacedName) (cred : awsAccountConfig) :
    error + list ec2Service :=
  match sdk cred with
  | inl e => inl e
  | inr compute =>
      match newEC2ServiceConfig (NamespacedName_String name) compute with
      | inl e => inl e
      | inr svc => inr [svc]
      end
  end.

(** ** Azure *)

Record azureAccount := mkAzAccountConfig { azc_credential : AzureAccountCredential; azc_region : string }.

(** The plug-in has its own copy of the function, for its type of credentials. *)
Definition az_extractSecret (unmarshal : string -> error + AzureAccountCredential) (s : option SecretReference) (c : Secrets) :
    option (error + AzureAccountCredential) := extractSecret unmarshal s c.

Definition az_setAccountCredentials (unmarshal : string -> error + AzureAccountCredential) (client : Secrets) (credentials : ProviderConfig) :
    option (error + option azureAccount) :=
  r ← az_extractSecret unmarshal (pc_SecretRef credentials) client;
  Some (match r with inl e => inl e | inr cred => inr (Some (mkAzAccountConfig cred (TrimSpace (pc_Region credentials)))) end).

Definition az_compareAccountCredentials (accountName : string) (existing new : azureAccount) : bool :=
  bool_decide (SubscriptionID (azc_credential existing) <> SubscriptionID (azc_credential new)) ||
  bool_decide (ClientID (azc_credential existing) <> ClientID (azc_credential new)) ||
  bool_decide (TenantID (azc_credential existing) <> TenantID (azc_credential new)) ||
  bool_decide (ClientKey (azc_credential existing) <> ClientKey (azc_credential new)) ||
  bool_decide (azc_region existing <> azc_region new).

(** The part of the credentials that the service keeps for its queries. *)
Definition service_credentials (a : azureAccount) : azureAccountConfig :=
  mkAzureAccount (SubscriptionID (azc_credential a)) (TenantID (azc_credential a)) (azc_region a).

Definition newAzureServiceConfigs (sdk : azureAccount -> error + (string * AzureClients)) (name : NamespacedName) (cred : azureAccount) :
    error + list computeService :=
  match sdk cred with
  | inl e => inl e
  | inr (clients, service) =>
      match newComputeServiceConfig (NamespacedName_String name) clients service (service_credentials cred) with
      | inl e => inl e
      | inr svc => inr [svc]
      end
  end.

(** ** The helpers of both plug-ins *)

Context {RNG : MapRange}.

Definition awsCloudCommonHelperImpl (unmarshal : string -> error + AwsAccountCredential) (sdk : awsAccountConfig -> error + (error + string)) :
    @CloudCommonHelper Ec2ServiceInstance :=
  @Build_CloudCommonHelper Ec2ServiceInstance Secrets ProviderConfig awsAccountConfig
    (Some (aws_setAccountCredentials unmarshal)) (Some aws_compareAccountCredentials) (Some (newAwsServiceConfigs sdk)).

Definition azureCloudCommonHelperImpl (unmarshal : string -> error + AzureAccountCredential) (sdk : azureAccount -> error + (string * AzureClients)) :
    @CloudCommonHelper ComputeServiceInstance :=
  @Build_CloudCommonHelper ComputeServiceInstance Secrets ProviderConfig azureAccount
    (Some (az_setAccountCredentials unmarshal)) (Some az_compareAccountCredentials) (Some (newAzureServiceConfigs sdk)).

(** ** The webhook of accounts *)

Definition MinPollInterval : Z := 30.

(** The specification with its sections. *)
Record CloudProviderAccountSpec := mkCPASpec {
  cps_PollIntervalInSeconds : option Z;
  cps_AWSConfig : option ProviderConfig;
  cps_AzureConfig : option ProviderConfig
}.

Definition provider_of (s : CloudProviderAccountSpec) : error + CloudProvider :=
  GetAccountProviderType (mkAccountSpec (bool_decide (is_Some (cps_AWSConfig s))) (bool_decide (is_Some (cps_AzureConfig s)))).

Definition acc_Default (s : CloudProviderAccountSpec) : CloudProviderAccountSpec :=
  mkCPASpec (Some (default 60%Z (cps_PollIntervalInSeconds s))) (cps_AWSConfig s) (cps_AzureConfig s).

Definition blank (s : string) : bool := bool_decide (TrimSpace s = "").

(** The secret of a section, decoded; a nil reference is dereferenced. *)
Definition webhook_secret {C} (unmarshal : string -> error + C) (config : ProviderConfig) (c : Secrets) : option (error + C) :=
  ref ← pc_SecretRef config;
  r ← secret_value ref c;
  Some (match r with
        | inl e => inl ("unable to get secret: " +:+ e)
        | inr v =>
            match DecodeString v with
            | inl e => inl ("unable to decode the secret: " +:+ e)
            | inr text => match unmarshal text with inl e => inl ("unable to unmarshal the json: " +:+ e) | inr cred => inr cred end
            end
        end).

Definition validateAWSAccount (unmarshal : string -> error + AwsAccountCredential) (regions : gset string) (config : ProviderConfig) (c : Secrets) :
    option (option error) :=
  r ← webhook_secret unmarshal config c;
  Some (match r with
        | inl e => Some e
        | inr cred =>
            if blank (RoleArn cred) && (blank (AccessKeyID cred) || blank (AccessKeySecret cred))
            then Some "must specify either credentials or role arn, cannot both be empty"
            else if blank (pc_Region config) then Some "region cannot be blank or empty"
            else if decide (pc_Region config ∈ regions) then None
            else Some (pc_Region config +:+ " not in supported regions")
        end).

Definition validateAzureAccount (unmarshal : string -> error + AzureAccountCredential) (config : ProviderConfig) (c : Secrets) :
    option (option error) :=
  r ← webhook_secret unmarshal config c;
  Some (match r with
        | inl e => Some e
        | inr cred =>
            if blank (SubscriptionID cred) then Some "subscription id cannot be blank or empty"
            else if blank (TenantID cred) then Some "tenant id cannot be blank or empty"
            else if blank (ClientID cred) || blank (ClientKey cred)
            then Some "must specify either credentials or managed identity client id, cannot both be empty"
            else if blank (pc_Region config) then Some "region cannot be blank or empty"
            else None
        end).

(** [ValidateCreate]; [ValidateUpdate] does the same. *)
Definition acc_ValidateCreate (aws_unmarshal : string -> error + AwsAccountCredential) (az_unmarshal : string -> error + AzureAccountCredential)
    (regions : gset string) (c : Secrets) (s : CloudProviderAccountSpec) : option (option error) :=
  let check_interval :=
    i ← cps_PollIntervalInSeconds s;
    Some (if (i <? MinPollInterval)%Z then Some "pollIntervalInSeconds should be >= 30. If not specified, defaults to 60" else None) in
  match provider_of s with
  | inl e => Some (Some e)
  | inr AWSCloudProvider =>
      config ← cps_AWSConfig s;
      r ← validateAWSAccount aws_unmarshal regions config c;
      match r with Some e => Some (Some e) | None => check_interval end
  | inr AzureCloudProvider =>
      config ← cps_AzureConfig s;
      r ← validateAzureAccount az_unmarshal config c;
      match r with Some e => Some (Some e) | None => check_interval end
  end.

End Credentials.
