(* ===== verification/CredentialsTheorems.v ===== *)
(** * Credentials: what is admitted, and when a change is seen *)

From stdpp Require Import base strings list gmap.
From Stdlib Require Import Ascii ZArith Lia.
From S2P Require Import Prelude GoStrings AwsModel AwsSecurity Selector AzureModel AzureQuery AzureSecurity Accounts Inventory Credentials.

#[local] Open Scope string_scope.

Section Webhook.
Context {SC : SecretClient} (aws_unmarshal : string -> error + AwsAccountCredential) (az_unmarshal : string -> error + AzureAccountCredential).
Context (regions : gset string).

#[local] Abbreviation admits c s := (acc_ValidateCreate aws_unmarshal az_unmarshal regions c s = Some None).

(** Credentials the plug-in can use. *)
Definition usable_aws (cred : AwsAccountCredential) : Prop :=
  TrimSpace (RoleArn cred) <> "" \/ (TrimSpace (AccessKeyID cred) <> "" /\ TrimSpace (AccessKeySecret cred) <> "").
Definition usable_azure (cred : AzureAccountCredential) : Prop :=
  TrimSpace (SubscriptionID cred) <> "" /\ TrimSpace (TenantID cred) <> "" /\ TrimSpace (ClientID cred) <> "" /\ TrimSpace (ClientKey cred) <> "".

Lemma blank_false s : blank s = false <-> TrimSpace s <> "".
Proof. unfold blank. by rewrite bool_decide_eq_false. Qed.

Lemma blank_true s : blank s = true <-> TrimSpace s = "".
Proof. unfold blank. by rewrite bool_decide_eq_true. Qed.

(** What the webhook reads is what the plug-in reads. *)
Lemma webhook_secret_extract {C} (unmarshal : string -> error + C) config c cred :
  webhook_secret unmarshal config c = Some (inr cred) -> extractSecret unmarshal (pc_SecretRef config) c = Some (inr cred).
Proof.
  unfold webhook_secret, extractSecret. destruct (pc_SecretRef config) as [ref|]; [|done]. simpl.
  destruct (secret_value ref c) as [[e|v]|]; simpl; [done| |done]. destruct (DecodeString v) as [e|text]; [done|].
  by destruct (unmarshal text).
Qed.

Lemma validateAWSAccount_admits config c :
  validateAWSAccount aws_unmarshal regions config c = Some None ->
  exists cred, aws_setAccountCredentials aws_unmarshal c config = Some (inr (Some (mkAwsAccount cred (TrimSpace (pc_Region config))))) /\
    usable_aws cred /\ TrimSpace (pc_Region config) <> "".
Proof.
  unfold validateAWSAccount. destruct (webhook_secret _ config c) as [[e|cred]|] eqn:Es; simpl; [done| |done].
  apply webhook_secret_extract in Es. destruct (blank (RoleArn cred)) eqn:E1; simpl.
  - destruct (blank (AccessKeyID cred)) eqn:E2; [done|]. destruct (blank (AccessKeySecret cred)) eqn:E3; [done|]. simpl.
    destruct (blank (pc_Region config)) eqn:E4; [done|]. intros _. exists cred. unfold aws_setAccountCredentials. rewrite Es. split; [done|].
    apply blank_false in E2, E3, E4. split; [by right|done].
  - destruct (blank (pc_Region config)) eqn:E4; [done|]. intros _. exists cred. unfold aws_setAccountCredentials. rewrite Es. split; [done|].
    apply blank_false in E1, E4. split; [by left|done].
Qed.

Lemma validateAzureAccount_admits config c :
  validateAzureAccount az_unmarshal config c = Some None ->
  exists cred, az_setAccountCredentials az_unmarshal c config = Some (inr (Some (mkAzAccountConfig cred (TrimSpace (pc_Region config))))) /\
    usable_azure cred /\ TrimSpace (pc_Region config) <> "".
Proof.
  unfold validateAzureAccount. destruct (webhook_secret _ config c) as [[e|cred]|] eqn:Es; simpl; [done| |done].
  apply webhook_secret_extract in Es. destruct (blank (SubscriptionID cred)) eqn:E1; [done|]. destruct (blank (TenantID cred)) eqn:E2; [done|].
  destruct (blank (ClientID cred)) eqn:E3; [done|]. destruct (blank (ClientKey cred)) eqn:E4; [done|]. simpl.
  destruct (blank (pc_Region config)) eqn:E5; [done|]. intros _. exists cred. unfold az_setAccountCredentials, az_extractSecret. rewrite Es. split; [done|].
  apply blank_false in E1, E2, E3, E4, E5. done.
Qed.


(** A defaulted account is never refused for its poll interval being absent: the
    check does not dereference nil. *)
Lemma default_has_interval s : is_Some (cps_PollIntervalInSeconds (acc_Default s)).
Proof. by eexists. Qed.

(** A secret that loses its key makes the plug-in panic. *)
Theorem secret_without_key_panics {C} (unmarshal : string -> error + C) ref c data :
  GetSecret (sec_Namespace ref, sec_Name ref) c = inr (Some data) -> data !! sec_Key ref = None ->
  extractSecret unmarshal (Some ref) c = None.
Proof. intros Hs Hd. unfold extractSecret, secret_value. by rewrite Hs, Hd. Qed.

End Webhook.

(** ** Changes *)

(** Azure: the comparison tells exactly the changed credentials. *)
Theorem az_compare_spec name a b : az_compareAccountCredentials name a b = true <-> a <> b.
Proof.
  destruct a as [[s1 c1 t1 k1] r1], b as [[s2 c2 t2 k2] r2]. unfold az_compareAccountCredentials. simpl.
  rewrite !orb_true_iff, !bool_decide_eq_true. split.
  - intros [[[[H|H]|H]|H]|H] E; by injection E.
  - intros Hne. destruct (decide (s1 = s2)); [|tauto]. destruct (decide (c1 = c2)); [|tauto]. destruct (decide (t1 = t2)); [|tauto].
    destruct (decide (k1 = k2)); [|tauto]. destruct (decide (r1 = r2)); [|tauto]. by destruct Hne; subst.
Qed.

Section Update.
Context {SC : SecretClient} {RNG : MapRange} (unmarshal : string -> error + AwsAccountCredential) (sdk : awsAccountConfig -> error + (error + string)).

#[local] Instance helper : @CloudCommonHelper Ec2ServiceInstance := awsCloudCommonHelperImpl unmarshal sdk.

(** AWS: the role and the external identifier are not compared, so an account
    whose role changes keeps its credentials and API client. *)
Theorem role_change_is_missed (a : @cloudAccountConfig Ec2ServiceInstance helper) svcs key secret role ext role' ext' region :
  acc_credentials a = mkAwsAccount (mkAwsCred key secret role ext) region ->
  update aws_compareAccountCredentials (mkAwsAccount (mkAwsCred key secret role' ext') region) svcs a = a.
Proof.
  intros Ha. unfold update. rewrite Ha. unfold aws_compareAccountCredentials. simpl. by rewrite !bool_decide_false by (intros H; by apply H).
Qed.

End Update.

(** ** A concrete secret *)

Section Witness.

#[local] Instance SimSecrets : SecretClient := {|
  Secrets := gmap NamespacedName (gmap string string);
  GetSecret name c := match c !! name with Some data => inr (Some data) | None => inl "not found" end
|}.

(** The text [ab] stands for the JSON of the credentials. *)
Definition sim_unmarshal (text : string) : error + AwsAccountCredential :=
  if decide (text = "ab") then inr (mkAwsCred "key" "secret" "" "") else inl "invalid character".
Definition no_unmarshal (text : string) : error + AzureAccountCredential := inl "invalid character".

Definition sim_secrets : @Secrets SimSecrets := ({[("ns", "creds") := {["aws" := "YWI="]}]} : gmap NamespacedName (gmap string string)).
Definition sim_spec : CloudProviderAccountSpec :=
  mkCPASpec (Some 60%Z) (Some (mkProviderConfig (Some (mkSecretRef "creds" "ns" "aws")) " us-west-1")) None.


End Witness.
