(* ===== verification/Webhooks.v ===== *)
(** * Admission of objects and API sessions of accounts

    The webhooks as they are registered ([cloudprovideraccount_webhook.go],
    [cloudentityselector_webhook.go], [virtualmachine_webhook.go] with the verbs of
    their markers and of config/webhook/manifests.yaml), and the sessions made with
    the credentials of an admitted account ([aws_services.go], [azure_services.go]).
    [None] is a panic. *)

From stdpp Require Import base strings list gmap.
From Stdlib Require Import ZArith Lia.
From S2P Require Import Prelude GoStrings AwsModel Selector VirtualMachine Credentials.

#[local] Open Scope string_scope.

(** ** Accounts *)

Section Accounts.
Context {SC : SecretClient}.
Context (aws_unmarshal : string -> error + AwsAccountCredential) (az_unmarshal : string -> error + AzureAccountCredential).
Context (regions : gset string).

(** [ValidateUpdate]: the statements of [ValidateCreate]. *)
Definition acc_ValidateUpdate (c : Secrets) (old s : CloudProviderAccountSpec) : option (option error) :=
  match provider_of s with
  | inl e => Some (Some e)
  | inr provider =>
      r ← match provider with
          | AWSCloudProvider => config ← cps_AWSConfig s; validateAWSAccount aws_unmarshal regions config c
          | AzureCloudProvider => config ← cps_AzureConfig s; validateAzureAccount az_unmarshal config c
          end;
      match r with
      | Some e => Some (Some e)
      | None =>
          i ← cps_PollIntervalInSeconds s;
          Some (if (i <? MinPollInterval)%Z
                then Some "pollIntervalInSeconds should be >= 30. If not specified, defaults to 60" else None)
      end
  end.

Definition acc_ValidateDelete : option error := None.

(** The operations on an account, with the webhooks registered for them: the
    mutating one for creation only, the validating one for creation and update.
    The result is the object that is stored, or the reason why not. *)
Inductive Operation := CREATE | UPDATE (old : CloudProviderAccountSpec).

Definition admit_account (op : Operation) (c : Secrets) (s : CloudProviderAccountSpec) :
    option (error + CloudProviderAccountSpec) :=
  match op with
  | CREATE =>
      let s := acc_Default s in
      r ← acc_ValidateCreate aws_unmarshal az_unmarshal regions c s;
      Some (match r with Some e => inl e | None => inr s end)
  | UPDATE old =>
      r ← acc_ValidateUpdate c old s;
      Some (match r with Some e => inl e | None => inr s end)
  end.

Lemma acc_ValidateUpdate_create c old s :
  acc_ValidateUpdate c old s = acc_ValidateCreate aws_unmarshal az_unmarshal regions c s.
Proof.
  unfold acc_ValidateUpdate, acc_ValidateCreate. destruct (provider_of s) as [e|[]]; [done|..].
  - by destruct (cps_AWSConfig s) as [config|]; simpl; [destruct (validateAWSAccount _ _ _ _)|].
  - by destruct (cps_AzureConfig s) as [config|]; simpl; [destruct (validateAzureAccount _ _ _)|].
Qed.

(** An account that is created without an interval is checked, never a panic for
    that; one whose interval is dropped by an update panics as soon as the rest of
    it is in order. *)
Theorem update_without_interval_panics c old s :
  cps_PollIntervalInSeconds s = None ->
  admit_account CREATE c s = Some (inr (acc_Default s)) -> admit_account (UPDATE old) c s = None.
Proof.
  intros Hi Ha. unfold admit_account in *. rewrite acc_ValidateUpdate_create. unfold acc_ValidateCreate in *.
  change (provider_of (acc_Default s)) with (provider_of s) in Ha.
  change (cps_AWSConfig (acc_Default s)) with (cps_AWSConfig s) in Ha.
  change (cps_AzureConfig (acc_Default s)) with (cps_AzureConfig s) in Ha.
  rewrite Hi. destruct (provider_of s) as [e|[]]; [done|..].
  - destruct (cps_AWSConfig s) as [config|]; [|done]. simpl in *.
    by destruct (validateAWSAccount _ _ _ _) as [[e|]|].
  - destruct (cps_AzureConfig s) as [config|]; [|done]. simpl in *.
    by destruct (validateAzureAccount _ _ _) as [[e|]|].
Qed.

End Accounts.

(** ** Selectors and virtual machines *)

Definition ces_ValidateDelete : option error := None.

(** [GetOwnerAccount]: the account of the selector's namespace. *)
Definition GetOwnerAccount {A} (Get : string -> string -> error + A) (namespace accountName : string) : error + A :=
  Get namespace accountName.

(** The webhook of virtual machines lets everything pass. *)
Definition vm_Default (vm : VirtualMachine) : VirtualMachine := vm.
Definition vm_ValidateCreate (vm : VirtualMachine) : option error := None.
Definition vm_ValidateUpdate (old vm : VirtualMachine) : option error := None.
Definition vm_ValidateDelete (vm : VirtualMachine) : option error := None.

(** [(VMState) String]. *)
Definition VMState_String (this : string) : string :=
  if decide (this = Running) then "running"
  else if decide (this = Stopped) then "stopped"
  else if decide (this = Stopping) then "stopping"
  else if decide (this = ShuttingDown) then "shutting down"
  else if decide (this = Starting) then "starting"
  else "unknown status".

(** ** Sessions *)

Section Sessions.
Context {Session : Type}.

(** The credentials of a session: those of a role that is assumed through another
    session, or a key. *)
Inductive SdkCredentials :=
  | AssumeRoleProvider (Client : Session) (RoleARN : string) (ExternalID : option string)
  | StaticCredentials (id secret : string).

(** [session.NewSession] of the SDK, for a region, with credentials if given. *)
Variable NewSession : string -> option SdkCredentials -> error + Session.

Definition session_error (e : error) : error := "unable to initialize AWS session: " +:+ e.

Definition aws_newServiceSdkConfigProvider (accConfig : awsAccountConfig) : error + Session :=
  let cred := awc_credential accConfig in
  let creds :=
    if decide (RoleArn cred <> "") then
      match NewSession (awc_region accConfig) None with
      | inl e => inl (session_error e)
      | inr sess =>
          inr (AssumeRoleProvider sess (RoleArn cred) (if decide (ExternalID cred = "") then None else Some (ExternalID cred)))
      end
    else inr (StaticCredentials (AccessKeyID cred) (AccessKeySecret cred)) in
  match creds with
  | inl e => inl e
  | inr creds =>
      match NewSession (awc_region accConfig) (Some creds) with
      | inl e => inl (session_error e)
      | inr sess => inr sess
      end
  end.

(** [newServiceSdkConfigProvider] of Azure: the authorizer of the client. *)
Definition azure_newServiceSdkConfigProvider {Authorizer} (ClientCredentials : string -> string -> string -> error + Authorizer)
    (accCreds : azureAccount) : error + Authorizer :=
  let cred := azc_credential accCreds in
  match ClientCredentials (ClientID cred) (ClientKey cred) (TenantID cred) with
  | inl e => inl ("unable to initialize Azure authorizer from credentials: " +:+ e)
  | inr authorizer => inr authorizer
  end.

(** The webhook takes a role ARN of white space for none and accepts the account
    for its key; the plug-in assumes that role. *)
Theorem blank_role_is_assumed (accConfig : awsAccountConfig) sess sess' :
  TrimSpace (RoleArn (awc_credential accConfig)) = "" -> RoleArn (awc_credential accConfig) <> "" ->
  ExternalID (awc_credential accConfig) = "" ->
  NewSession (awc_region accConfig) None = inr sess ->
  NewSession (awc_region accConfig) (Some (AssumeRoleProvider sess (RoleArn (awc_credential accConfig)) None)) = inr sess' ->
  aws_newServiceSdkConfigProvider accConfig = inr sess'.
Proof.
  intros _ Hne Hext H1 H2. unfold aws_newServiceSdkConfigProvider. rewrite decide_True by done.
  rewrite H1, Hext, decide_True by done. by rewrite H2.
Qed.

End Sessions.
