(* ===== verification/InventoryTheorems.v ===== *)
(** * The inventory: what is imported

    The virtual machines an account reports after a poll are the instances its
    selector describes. *)

From stdpp Require Import base strings list gmap.
From Stdlib Require Import ZArith Lia.
From S2P Require Import Prelude GoStrings AwsModel AwsSecurity Selector SelectorTheorems VirtualMachine AzureModel AzureQuery AzureSecurity.
From S2P Require Import Accounts Inventory.

#[local] Open Scope string_scope.
#[local] Open Scope Z_scope.

(** ** Instances and their attributes *)

(** The codes of the states, by the name EC2 gives them. *)
Definition state_code (state : string) : string :=
  if decide (state = "pending") then "0" else if decide (state = "running") then "16"
  else if decide (state = "shutting-down") then "32" else if decide (state = "terminated") then "48"
  else if decide (state = "stopping") then "64" else if decide (state = "stopped") then "80" else "".

Definition attributes_of (i : Ec2VM) : Ec2Instance :=
  mkInstance (evm_InstanceId i) (evm_VpcId i) (snd <$> find (fun t => bool_decide (t.1 = "Name")) (evm_Tags i)) (state_code (evm_State i)).

Section Importing.
Context {RNG : MapRange} (value_matches : string -> string -> Prop).

(** EC2 returns the instances of the account that a request asks for. *)
Definition answers_for (api : Ec2Answers) (account : list Ec2VM) : Prop :=
  forall fs, exists l, describeInstances api fs = inr l /\
    forall i, i ∈ l <-> i ∈ account /\ request_holds value_matches (attributes_of i) fs.

Lemma describe_all_answers api account requests :
  answers_for api account ->
  exists l, describe_all api requests = inr l /\
    forall i, i ∈ l <-> i ∈ account /\ exists fs, fs ∈ requests /\ request_holds value_matches (attributes_of i) fs.
Proof.
  intros Ha. induction requests as [|fs requests (rest & Er & Hr)]; cbn [describe_all].
  { exists []. split; [done|]. intros i. split; [intros Hi; by apply elem_of_nil in Hi|]. intros (_ & fs & Hfs & _). by apply elem_of_nil in Hfs. }
  destruct (Ha fs) as (l & -> & Hl). rewrite Er. eexists. split; [done|]. intros i. rewrite elem_of_app, Hl, Hr. split.
  - intros [[? ?]|(? & fs' & ? & ?)]; (split; [done|]); [exists fs|exists fs']; rewrite elem_of_cons; auto.
  - intros (? & fs' & [->|?]%elem_of_cons & ?); [by left|right]. eauto.
Qed.

(** The instances by identifier are all of them. *)
Lemma instances_by_id (account l : list Ec2VM) :
  (forall i, i ∈ l -> i ∈ account) -> NoDup (map (fun i => ToLower (evm_InstanceId i)) account) ->
  forall i, i ∈ map snd (go_range (fold_left (fun m i => <[ToLower (evm_InstanceId i) := i]> m) l (∅ : gmap string Ec2VM))) <-> i ∈ l.
Proof.
  intros Hsub Hnd i. rewrite elem_of_go_range_values.
  setoid_rewrite (fold_insert_lookup (fun i => ToLower (evm_InstanceId i))). split.
  - intros [k Hk]. destruct (last_with _ k l) as [j|] eqn:E; [|by rewrite lookup_empty in Hk].
    injection Hk as ->. by apply last_with_key in E as [_ ?].
  - intros Hi. exists (ToLower (evm_InstanceId i)). destruct (last_with _ _ l) as [j|] eqn:E.
    + apply last_with_key in E as [Hk Hj]. f_equal. by apply (NoDup_key_inj _ _ _ _ Hnd); [apply Hsub..|].
    + apply last_with_None in E. destruct E. apply list_elem_of_fmap. eauto.
Qed.

(** The instances cached after a poll. *)
Lemma cached_instances_selected a l ces api account s :
  GetAccountProviderType a = inr AWSCloudProvider -> validateMatchSections (inr a) l = None ->
  (forall s, s ∈ l -> no_blank s) -> l <> [] ->
  es_instanceFilters s = {[ces := buildEc2Filters l]} ->
  answers_for api account -> NoDup (map (fun i => ToLower (evm_InstanceId i)) account) ->
  (ec2_DoResourceInventory api s).1 = None /\
  forall i, i ∈ getCachedInstances (ec2_DoResourceInventory api s).2 <->
    i ∈ account /\ valid_state value_matches (attributes_of i) /\
    exists sel, sel ∈ l /\ match_selector value_matches (getCachedVpcNameToID s) (attributes_of i) sel.
Proof.
  intros Ha Hv Hnb Hne Hf Hapi Hnd. unfold ec2_DoResourceInventory, getInstances. rewrite Hf.
  destruct (describe_all_answers api account (instance_requests {[ces := buildEc2Filters l]} (getCachedVpcNameToID s)) Hapi)
    as (insts & -> & His). cbn [fst snd]. split; [done|].
  intros i. unfold getCachedInstances. cbn [es_config ec2_with_snapshot ec2_snapshot es_instances].
  rewrite (instances_by_id account insts (fun i H => proj1 (proj1 (His i) H)) Hnd), His.
  by rewrite (requests_select value_matches a l ces).
Qed.

(** A poll of an AWS account whose only selector the webhook has admitted (with
    an identifier or name in every VM match) succeeds when EC2 answers, and the
    [VirtualMachine] objects reported afterwards are those of exactly the
    instances of the account, in a state that is not pending or terminated, that
    some entry of the selector describes; names of VPCs are those of the poll
    before. *)
Theorem inventory_imports_selected a l ces api account s :
  GetAccountProviderType a = inr AWSCloudProvider -> validateMatchSections (inr a) l = None ->
  (forall s, s ∈ l -> no_blank s) -> l <> [] ->
  es_instanceFilters s = {[ces := buildEc2Filters l]} ->
  answers_for api account -> NoDup (map (fun i => ToLower (evm_InstanceId i)) account) ->
  (ec2_DoResourceInventory api s).1 = None /\
  forall namespace vm, vm ∈ ec2_GetResourceCRDs namespace (ec2_DoResourceInventory api s).2 <->
    exists i, i ∈ account /\ vm = Some (ec2InstanceToVirtualMachineCRD i namespace) /\
      valid_state value_matches (attributes_of i) /\
      exists sel, sel ∈ l /\ match_selector value_matches (getCachedVpcNameToID s) (attributes_of i) sel.
Proof.
  intros Ha Hv Hnb Hne Hf Hapi Hnd.
  destruct (cached_instances_selected a l ces api account s Ha Hv Hnb Hne Hf Hapi Hnd) as [He Hi]. split; [done|].
  intros namespace vm. unfold ec2_GetResourceCRDs. rewrite list_elem_of_fmap. setoid_rewrite Hi. split.
  - intros (i & -> & ? & ?). eauto.
  - intros (i & ? & -> & ?). eauto.
Qed.

(** A failed poll keeps what was known. *)
Lemma ec2_inventory_error api s e namespace :
  (ec2_DoResourceInventory api s).1 = Some e ->
  ec2_GetResourceCRDs namespace (ec2_DoResourceInventory api s).2 = ec2_GetResourceCRDs namespace s.
Proof. unfold ec2_DoResourceInventory. by destruct (getInstances api s). Qed.

End Importing.

(** ** A concrete account *)

Section Sim.
#[local] Existing Instance map_to_list_range.

Definition sim_filter (i : Ec2Instance) (f : Filter) : bool :=
  match attribute i (f_Name f) with Some a => bool_decide (a ∈ f_Values f) | None => false end.

(** EC2 with the given instances, filters without wildcards. *)
Definition sim_answers (account : list Ec2VM) : Ec2Answers :=
  mkEc2Answers (fun fs => inr (filter (fun i => forallb (sim_filter (attributes_of i)) fs) account)) (inr []) (inr []).

Lemma sim_answers_law account : answers_for eq (sim_answers account) account.
Proof.
  intros fs. eexists. split; [reflexivity|]. intros i. rewrite list_elem_of_filter, Is_true_true, forallb_forall.
  unfold request_holds, filter_holds, sim_filter. rewrite (and_comm (i ∈ account)).
  apply and_iff_compat_r, forall_proper. intros f. rewrite list_elem_of_In. apply imp_iff_compat_l. split.
  - destruct (attribute _ _) as [a|]; [|done]. intros ?%bool_decide_eq_true_1. eauto.
  - intros (a & v & -> & Hv & <-). by apply bool_decide_eq_true_2.
Qed.

Definition web_vm : Ec2VM := mkEc2VM "i-01" "vpc-1" [("Name", "web")] [] "running".
Definition db_vm : Ec2VM := mkEc2VM "i-02" "vpc-2" [("Name", "db")] [] "running".
Definition web_service : ec2Service :=
  mkEc2Svc (mkEc2Service "ns/aws" None) "client" ∅ ∅ {["ns/sel" := buildEc2Filters web_selector]} (mkStats 0 0 None).

Lemma web_selector_no_blank s : s ∈ web_selector -> no_blank s.
Proof.
  intros [->|[->|[]%not_elem_of_nil]%elem_of_cons]%elem_of_cons m [->|[]%not_elem_of_nil]%elem_of_cons; [by right|by left].
Qed.

Lemma sim_distinct : NoDup (map (fun i => ToLower (evm_InstanceId i)) [web_vm; db_vm]).
Proof.
  change (NoDup ["i-01"; "i-02"]). apply NoDup_cons. split; [|apply NoDup_singleton].
  by intros ?%list_elem_of_singleton.
Qed.

(** Of two running instances the selected one is imported. *)
Lemma inventory_imports_selected_witness :
  (ec2_DoResourceInventory (sim_answers [web_vm; db_vm]) web_service).1 = None /\
  Some (ec2InstanceToVirtualMachineCRD web_vm "ns") ∈
    ec2_GetResourceCRDs "ns" (ec2_DoResourceInventory (sim_answers [web_vm; db_vm]) web_service).2.
Proof.
  destruct (inventory_imports_selected eq aws_account web_selector "ns/sel" (sim_answers [web_vm; db_vm]) [web_vm; db_vm] web_service
    eq_refl eq_refl web_selector_no_blank ltac:(discriminate) eq_refl (sim_answers_law _) sim_distinct) as [He Hi].
  split; [exact He|]. apply Hi. clear He Hi. exists web_vm. split; [left|]. split; [reflexivity|].
  split; [exists "16"; split; [left|reflexivity]|]. exists (mkSelector (Some (mkMatch "" "vpc-1")) [mkMatch "web" ""]).
  split; [left|]. split; [by split|]. right. exists (mkMatch "web" ""). split; [left|].
  split; [done|]. intros _. exists "web". split; reflexivity.
Defined.

End Sim.
