(* ===== verification/AccountsTheorems.v ===== *)
(** * Accounts: the invariant of the state, and how failures show

    The well-formedness of [cloudCommon] by induction over its operations, and
    theorems on what an account reports. *)

From stdpp Require Import base strings list gmap.
From Stdlib Require Import ZArith Lia Relations.
From S2P Require Import Prelude GoStrings AwsModel AwsSecurity Selector VirtualMachine AzureModel AzureQuery AzureSecurity Accounts Inventory.

#[local] Open Scope string_scope.

(** No operation renames a service. *)
Class ServiceLaws (CS : CloudService) := {
  update_name (new s : Svc) : GetName (UpdateServiceConfig new s) = GetName s;
  filters_name sel (s : Svc) : GetName (svc_SetResourceFilters sel s) = GetName s;
  inventory_name env (s : Svc) : GetName (DoResourceInventory env s).2 = GetName s;
  stats_name st (s : Svc) : GetName (SetInventoryStats st s) = GetName s;
  reset_name (s : Svc) : GetName (ResetCachedState s) = GetName s
}.

#[export] Instance Ec2ServiceLaws {RNG : MapRange} : ServiceLaws Ec2ServiceInstance.
Proof. by split. Qed.
#[export] Instance ComputeServiceLaws {RNG : MapRange} : ServiceLaws ComputeServiceInstance.
Proof. by split. Qed.

Section Accounts.
Context {CS : CloudService} {CH : @CloudCommonHelper CS} {SL : ServiceLaws CS} {RNG : MapRange}.

(** ** The invariant *)

Definition services_ok (m : gmap string Svc) : Prop := forall n s, m !! n = Some s -> GetName s = n.

(** Every account and every service stands under its name. *)
Definition accounts_ok (c : cloudCommon) : Prop :=
  forall n a, (c : gmap NamespacedName cloudAccountConfig) !! n = Some a -> acc_namespacedName a = n /\ services_ok (acc_serviceConfigs a).

Lemma services_fmap f m : (forall s, GetName (f s) = GetName s) -> services_ok m -> services_ok (f <$> m).
Proof. intros Hf Hm n s. rewrite lookup_fmap_Some. intros (s' & <- & Hs). rewrite Hf. by apply Hm. Qed.

Lemma services_by_name_ok l : services_ok (services_by_name l).
Proof.
  intros n s. unfold services_by_name. rewrite fold_insert_lookup. destruct (last_with GetName n l) as [x|] eqn:E.
  - intros [= <-]. by apply last_with_key in E as [? _].
  - by rewrite lookup_empty.
Qed.

Lemma sync_service_name env s : GetName (sync_service env s).2 = GetName s.
Proof.
  unfold sync_service. destruct (HasFiltersConfigured s).1; [|done].
  pose proof (inventory_name env s) as Hn. destruct (DoResourceInventory env s) as [err s1]. simpl in *. by rewrite stats_name.
Qed.

Lemma performInventorySync_ok env a :
  services_ok (acc_serviceConfigs a) ->
  acc_namespacedName (performInventorySync env a).2 = acc_namespacedName a /\
  services_ok (acc_serviceConfigs (performInventorySync env a).2).
Proof.
  intros Ha. split; [done|]. simpl. rewrite <- map_fmap_compose. by apply services_fmap; [intros s; apply sync_service_name|].
Qed.

Lemma accounts_insert c n a :
  accounts_ok c -> acc_namespacedName a = n -> services_ok (acc_serviceConfigs a) -> accounts_ok (<[n := a]> c).
Proof.
  intros Hc Hn Hs n' a' Ha. apply (lookup_insert_Some (M := gmap NamespacedName)) in Ha as [[<- <-]|[_ Ha]]; [done|by apply Hc].
Qed.

Lemma updateCloudAccountConfig_ok client creds a a' :
  services_ok (acc_serviceConfigs a) -> updateCloudAccountConfig client creds a = Some (inr a') ->
  acc_namespacedName a' = acc_namespacedName a /\ services_ok (acc_serviceConfigs a').
Proof.
  intros Ha. unfold updateCloudAccountConfig. destruct (convert_credentials _ _ _) as [[|cred]|]; simpl; [done| |done].
  destruct GetCloudCredentialsComparatorFunc as [cmp|]; [|by intros [= <-]].
  destruct (create_services _ _) as [|svcs]; [done|]. intros [= <-]. unfold update. case_match; [|done]. split; [done|]. simpl.
  intros n s. rewrite map_lookup_imap. destruct (acc_serviceConfigs a !! n) as [s0|] eqn:E; simpl; [|done]. intros [= <-].
  destruct (svcs !! n); [rewrite update_name|]; by apply Ha.
Qed.

Inductive accounts_step : cloudCommon -> cloudCommon -> Prop :=
| step_add client name interval creds c e c' : AddCloudAccount client name interval creds c = Some (e, c') -> accounts_step c c'
| step_remove name c : accounts_step c (RemoveCloudAccount name c)
| step_add_selector env name selector c : accounts_step c (AddSelector env name selector c).2
| step_remove_selector name selectorName c : accounts_step c (RemoveSelector name selectorName c)
| step_periodic env name a (c : cloudCommon) : GetCloudAccountByName name c = Some a -> accounts_step c (<[name := periodic_sync env a]> c).

Lemma add_account_ok client name interval creds c e c' :
  accounts_ok c -> AddCloudAccount client name interval creds c = Some (e, c') -> accounts_ok c'.
Proof.
  intros Hc. unfold AddCloudAccount. destruct (c !! name) as [a|] eqn:Ea.
  - destruct (Hc _ _ Ea) as [Hn Hs]. destruct (updateCloudAccountConfig client creds a) as [[e1|a1]|] eqn:Eu; simpl; [by intros [= <- <-]|intros [= <- <-]|done].
    apply updateCloudAccountConfig_ok in Eu as [Hn1 Hs1]; [|done]. apply accounts_insert; [done|congruence|done].
  - destruct interval as [i|]; [|done]. simpl. unfold newCloudAccountConfig.
    destruct (convert_credentials _ _ _) as [[|cred]|]; simpl; [by intros [= <- <-]| |done]. unfold create_services.
    destruct GetCloudServicesCreateFunc as [f|]; [|by intros [= <- <-]]. destruct (f name cred) as [|l]; intros [= <- <-]; [done|].
    apply accounts_insert; [done|done|apply services_by_name_ok].
Qed.

Lemma accounts_step_ok c c' : accounts_step c c' -> accounts_ok c -> accounts_ok c'.
Proof.
  destruct 1 as [client name interval creds c e c' Ha|name c|env name sel c|name sel c|env name a c Ha]; intros Hc.
  - by eapply add_account_ok.
  - intros n a Ha. unfold RemoveCloudAccount in Ha. apply (lookup_delete_Some (M := gmap NamespacedName)) in Ha as [_ Ha]. by apply Hc.
  - unfold AddSelector. destruct (GetCloudAccountByName name c) as [a|] eqn:Ea; [|done]. destruct (Hc _ _ Ea) as [Hn Hs].
    unfold startPeriodicInventorySync. cbn [multierr performInventorySync snd]. apply accounts_insert; [done|done|]. simpl.
    rewrite <- map_fmap_compose. apply services_fmap; [intros s; apply sync_service_name|].
    by apply services_fmap; [intros s; apply filters_name|].
  - unfold RemoveSelector. destruct (GetCloudAccountByName name c) as [a|] eqn:Ea; [|done]. destruct (Hc _ _ Ea) as [Hn Hs].
    apply accounts_insert; [done|done|]. by apply services_fmap; [intros s; apply reset_name|].
  - destruct (Hc _ _ Ha) as [Hn Hs]. unfold periodic_sync. case_match; [|by apply accounts_insert].
    destruct (performInventorySync_ok env a Hs). apply accounts_insert; [done|congruence|done].
Qed.

(** C30: Whatever accounts and selectors are added and removed and however the
    inventories go, every account of a plug-in stands under its namespaced name
    and each of its services under the name it reports, so that a service that is
    looked up by name is the service of that name. *)
Theorem accounts_named c :
  clos_refl_trans_1n _ accounts_step (∅ : gmap NamespacedName cloudAccountConfig) c ->
  forall n a, GetCloudAccountByName n c = Some a -> acc_namespacedName a = n /\
    forall name s, GetServiceConfigByName name a = inr s -> GetName s = name.
Proof.
  intros Hreach. assert (accounts_ok c) as Hok.
  { assert (accounts_ok (∅ : gmap NamespacedName cloudAccountConfig)) as H0.
    { intros n a E. discriminate (eq_trans (eq_sym E) (lookup_empty n)). }
    revert H0. induction Hreach as [|x y z Hxy _ IH]; [done|]. intros H0. by apply IH, (accounts_step_ok x y). }
  intros n a Ha. destruct (Hok n a Ha) as [Hn Hs]. split; [done|]. intros name s. unfold GetServiceConfigByName.
  destruct (acc_serviceConfigs a !! name) as [s'|] eqn:E; [|done]. intros [= <-]. by apply Hs.
Qed.

(** ** Failures *)

(** Adding a selector to an account never reports a failed inventory, though
    the caller acts on the error: the goroutines log their errors and send none
    on the channel that is collected. *)
Theorem inventory_failure_is_not_reported env name selector c a :
  GetCloudAccountByName name c = Some a -> (AddSelector env name selector c).1 = None.
Proof. intros Ha. unfold AddSelector. by rewrite Ha. Qed.

Lemma fold_no_error (l : list (string * (option error * Svc))) x :
  (forall k r, (k, r) ∈ l -> r.1 = None) ->
  fold_left (fun err r => match r.2.1 with Some e => e | None => err end) l x = x.
Proof.
  induction l as [|[k r] l IH]; intros Hl; [done|]. simpl. rewrite (Hl k r (list_elem_of_here _ _)). apply IH.
  intros k' r' Hk'. apply (Hl k'). by right.
Qed.

(** The error in the status of an account stays when its services recover. *)
Theorem status_error_stays env a :
  (forall n s, acc_serviceConfigs a !! n = Some s -> (sync_service env s).1 = None) ->
  acc_StatusError (performInventorySync env a).2 = acc_StatusError a.
Proof.
  intros Hall. apply fold_no_error. intros k r (s & <- & Hs)%elem_of_go_range%lookup_fmap_Some. by eapply Hall.
Qed.

End Accounts.

Section Ec2.
Context {RNG : MapRange}.

(** Resetting a service, when its selector is removed, keeps the filters. *)
Theorem removed_selector_keeps_filters s : es_instanceFilters (ec2_ResetCachedState s) = es_instanceFilters s.
Proof. done. Qed.

(** A successful poll of an EC2 service counts twice. *)
Theorem ec2_poll_counts_twice (env : string -> Ec2Answers) (s : ec2Service) :
  (ec2_HasFiltersConfigured s).1 = true -> (ec2_DoResourceInventory (env (es_apiClient s)) s).1 = None ->
  totalPollCnt (es_inventoryStats (@sync_service Ec2ServiceInstance env s).2) = uint64 (uint64 (totalPollCnt (es_inventoryStats s) + 1) + 1).
Proof.
  intros Hf He. unfold sync_service. simpl. rewrite Hf. revert He. unfold ec2_DoResourceInventory. by destruct (getInstances _ s).
Qed.

End Ec2.

(** ** Concrete accounts *)

Section Witnesses.
#[local] Existing Instance map_to_list_range.

(** Credentials are the name of the API client. *)
#[local] Instance SimHelper : @CloudCommonHelper Ec2ServiceInstance := {|
  Client := unit;
  Creds := string;
  AccCfg := string;
  SetAccountCredentialsFunc := Some (fun _ creds => Some (if decide (creds = "") then inl "no credentials" else inr (Some creds)));
  GetCloudCredentialsComparatorFunc := Some (fun _ new old => bool_decide (new <> old));
  GetCloudServicesCreateFunc := Some (fun name cred => inr [fresh_ec2Service (NamespacedName_String name) cred : @Svc Ec2ServiceInstance])
|}.

Definition sim_service : @Svc Ec2ServiceInstance := fresh_ec2Service "ns/aws" "key".
Definition sim_added_account : @cloudAccountConfig Ec2ServiceInstance SimHelper :=
  @mkAccountConfig Ec2ServiceInstance SimHelper ("ns", "aws") "key" (services_by_name [sim_service]) 60 false "".
Definition sim_added : @cloudCommon Ec2ServiceInstance SimHelper := (<[("ns", "aws") := sim_added_account]> ∅ : gmap NamespacedName _).

Lemma sim_add : AddCloudAccount tt ("ns", "aws") (Some 60%Z) "key" (∅ : gmap NamespacedName cloudAccountConfig) = Some (None, sim_added).
Proof. reflexivity. Qed.

Lemma sim_lookup : GetCloudAccountByName ("ns", "aws") sim_added = Some sim_added_account.
Proof. exact (lookup_insert_eq (M := gmap NamespacedName) ∅ ("ns", "aws") sim_added_account). Qed.

Lemma sim_lookup_service : GetServiceConfigByName "EC2" sim_added_account = inr sim_service.
Proof. reflexivity. Qed.

Lemma accounts_named_witness :
  GetServiceConfigByName "EC2" sim_added_account = inr sim_service /\ GetName sim_service = "EC2".
Proof.
  split; [exact sim_lookup_service|].
  refine (proj2 (accounts_named (CS := Ec2ServiceInstance) (CH := SimHelper) sim_added _ ("ns", "aws") sim_added_account sim_lookup)
    "EC2" sim_service sim_lookup_service).
  eapply Relation_Operators.rt1n_trans; [|apply Relation_Operators.rt1n_refl].
  exact (step_add (CH := SimHelper) tt ("ns", "aws") (Some 60%Z) "key" _ None sim_added sim_add).
Defined.

(** EC2 does not answer. *)
Definition ec2_down : string -> Ec2Answers := fun _ => mkEc2Answers (fun _ => inl "timeout") (inl "timeout") (inl "timeout").

Lemma inventory_failure_is_not_reported_witness :
  (ec2_DoResourceInventory (ec2_down "key") (ec2_SetResourceFilters (Some (mkCES "ns" "sel" "aws" [] true)) sim_service)).1
    = Some "timeout" /\
  (AddSelector ec2_down ("ns", "aws") (mkCES "ns" "sel" "aws" [] true) sim_added).1 = None.
Proof.
  split; [reflexivity|].
  exact (inventory_failure_is_not_reported (CH := SimHelper) ec2_down ("ns", "aws") (mkCES "ns" "sel" "aws" [] true) sim_added
    sim_added_account sim_lookup).
Defined.

End Witnesses.
