(* ===== verification/Plugins.v ===== *)
(** * Plug-ins and the dispatcher

    The interface every cloud implements ([cloudapi/common/cloud.go]), the
    registry of plug-ins ([plugins.go]), the dispatcher of security-group
    requests ([securitygroup_impl.go]) and the two plug-ins as instances of the
    interface ([aws_cloudinterface_impl.go], [azure_cloudinterface_impl.go]).

    [Cl] is the state of all plug-ins and of the clouds behind them. *)

From stdpp Require Import base strings list gmap.
From Stdlib Require Import ZArith.
From S2P Require Import Prelude GoStrings GoFmt SecurityGroup AwsModel AwsSecurity Selector VirtualMachine AzureModel AzureQuery AzureSecurity AzureView.
From S2P Require Import Accounts Inventory.

#[local] Open Scope string_scope.

(** The account resource: name, specification, poll interval and the error of
    its status. *)
Record CloudProviderAccount := mkCPA {
  cpa_Name : NamespacedName;
  cpa_Spec : AccountSpec;
  cpa_PollIntervalInSeconds : option Z;
  cpa_StatusError : string
}.

(** ** The interface *)

Definition ProviderType : Type := string.
Definition provider_name (p : CloudProvider) : ProviderType :=
  match p with AWSCloudProvider => "AWS" | AzureCloudProvider => "Azure" end.

(** A method of a plug-in: it returns an error or a value, panics or blocks. *)
Definition Method (Cl A : Type) : Type := Cl -> Outcome ((error + A) * Cl).

Record CloudInterface (Cl : Type) := mkCloudInterface {
  Instances : Cl -> list error * list (option VirtualMachine);
  InstancesGivenProviderAccount : NamespacedName -> Cl -> error + list (option VirtualMachine);
  IsVirtualPrivateCloudPresent : string -> Cl -> bool;
  AddProviderAccount : CloudProviderAccount -> Method Cl unit;
  RemoveProviderAccount : NamespacedName -> Cl -> Cl;
  AddAccountResourceSelector : NamespacedName -> CloudEntitySelector -> Method Cl unit;
  RemoveAccountResourcesSelector : NamespacedName -> string -> Cl -> Cl;
  GetAccountStatus : NamespacedName -> Cl -> error + string;
  ci_CreateSecurityGroup : CloudResourceID -> bool -> Method Cl string;
  ci_UpdateSecurityGroupRules : CloudResourceID -> list IngressRule -> list EgressRule -> Method Cl unit;
  ci_UpdateSecurityGroupMembers : CloudResourceID -> list CloudResource -> bool -> Method Cl unit;
  ci_DeleteSecurityGroup : CloudResourceID -> bool -> Method Cl unit;
  ci_GetEnforcedSecurity : Method Cl (list SynchronizationContent)
}.
Arguments Instances {Cl} _ _.
Arguments InstancesGivenProviderAccount {Cl} _ _ _.
Arguments IsVirtualPrivateCloudPresent {Cl} _ _ _.
Arguments AddProviderAccount {Cl} _ _ _.
Arguments RemoveProviderAccount {Cl} _ _ _.
Arguments AddAccountResourceSelector {Cl} _ _ _ _.
Arguments RemoveAccountResourcesSelector {Cl} _ _ _ _.
Arguments GetAccountStatus {Cl} _ _ _.
Arguments ci_CreateSecurityGroup {Cl} _ _ _ _.
Arguments ci_UpdateSecurityGroupRules {Cl} _ _ _ _ _.
Arguments ci_UpdateSecurityGroupMembers {Cl} _ _ _ _ _.
Arguments ci_DeleteSecurityGroup {Cl} _ _ _ _.
Arguments ci_GetEnforcedSecurity {Cl} _ _.

Section Registry.
Context {RNG : MapRange} {Cl : Type}.

(** ** The registry ([plugins.go]) *)

Definition Providers : Type := gmap ProviderType (CloudInterface Cl).

Definition registerCloudProvider (providerType : ProviderType) (cloud : CloudInterface Cl) (providers : Providers) : Providers :=
  match providers !! providerType with
  | Some _ => providers
  | None => <[providerType := cloud]> providers
  end.

(** [init]: the plug-ins of AWS and Azure. *)
Definition init_providers (aws azure : CloudInterface Cl) : Providers :=
  registerCloudProvider (provider_name AzureCloudProvider) azure
    (registerCloudProvider (provider_name AWSCloudProvider) aws ∅).

Definition GetCloudInterface (providerType : ProviderType) (providers : Providers) : error + CloudInterface Cl :=
  match providers !! providerType with
  | None => inl ("unsupported cloudv1alpha1 provider " +:+ Quote providerType)
  | Some cloud => inr cloud
  end.

Definition GetSupportedCloudProviderTypes (providers : Providers) : list ProviderType := map fst (go_range providers).

(** ** The dispatcher ([securitygroup_impl.go]) *)

Fixpoint find_interface (types : list ProviderType) (vpc : string) (providers : Providers) (c : Cl) : option (CloudInterface Cl) :=
  match types with
  | [] => None
  | t :: types =>
      match GetCloudInterface t providers with
      | inl _ => find_interface types vpc providers c
      | inr cloud => if IsVirtualPrivateCloudPresent cloud vpc c then Some cloud else find_interface types vpc providers c
      end
  end.

Definition no_cloud_error (vpc : string) : error := "virtual private cloud [" +:+ vpc +:+ "] not managed by supported clouds".

Definition getCloudInterfaceForCloudResource (id : CloudResourceID) (providers : Providers) (c : Cl) : error + CloudInterface Cl :=
  match find_interface (GetSupportedCloudProviderTypes providers) (cid_Vpc id) providers c with
  | Some cloud => inr cloud
  | None => inl (no_cloud_error (cid_Vpc id))
  end.

(** A request: the plug-in of the group's VPC serves it; the channel carries
    the error, or nil. *)
Definition dispatch {A} (id : CloudResourceID) (serve : CloudInterface Cl -> Method Cl A) (providers : Providers) (c : Cl) :
    Outcome (option error * Cl) :=
  match getCloudInterfaceForCloudResource id providers c with
  | inl e => Returned (Some e, c)
  | inr cloud =>
      match serve cloud c with
      | Returned (inl e, c') => Returned (Some e, c')
      | Returned (inr _, c') => Returned (None, c')
      | Panicked => Panicked
      | Blocked => Blocked
      end
  end.

Definition sg_CreateSecurityGroup id membershipOnly := dispatch id (fun cloud => ci_CreateSecurityGroup cloud id membershipOnly).
Definition sg_UpdateSecurityGroupMembers id members membershipOnly :=
  dispatch id (fun cloud => ci_UpdateSecurityGroupMembers cloud id members membershipOnly).
Definition sg_UpdateSecurityGroupRules id ingressRules egressRules :=
  dispatch id (fun cloud => ci_UpdateSecurityGroupRules cloud id ingressRules egressRules).
Definition sg_DeleteSecurityGroup id membershipOnly := dispatch id (fun cloud => ci_DeleteSecurityGroup cloud id membershipOnly).

(** [GetSecurityGroupSyncChan]: what the channel carries until it is closed, the
    plug-ins asked in the order [types]; a plug-in has no error to report. *)
Fixpoint enforced_of (types : list ProviderType) (providers : Providers) (c : Cl) : Outcome (list SynchronizationContent * Cl) :=
  match types with
  | [] => Returned ([], c)
  | t :: types =>
      match GetCloudInterface t providers with
      | inl _ => enforced_of types providers c
      | inr cloud =>
          match ci_GetEnforcedSecurity cloud c with
          | Returned (r, c1) =>
              match enforced_of types providers c1 with
              | Returned (rest, c2) => Returned ((match r with inl _ => [] | inr l => l end ++ rest)%list, c2)
              | Panicked => Panicked
              | Blocked => Blocked
              end
          | Panicked => Panicked
          | Blocked => Blocked
          end
      end
  end.

Definition GetSecurityGroupSyncChan (providers : Providers) (c : Cl) : Outcome (list SynchronizationContent * Cl) :=
  enforced_of (GetSupportedCloudProviderTypes providers) providers c.

End Registry.
Arguments Providers : clear implicits.

(** ** The plug-ins as instances of the interface *)

(** The state of both plug-ins: accounts, and what the security code works
    on. *)
Section Implementations.
Context {RNG : MapRange} {E : EC2} {Z : Azure}.
Context (AH : @CloudCommonHelper Ec2ServiceInstance) (ZH : @CloudCommonHelper ComputeServiceInstance).

Record PluginState := mkPlugins {
  pl_aws : @cloudCommon Ec2ServiceInstance AH;
  pl_awsState : AwsState;
  pl_azure : @cloudCommon ComputeServiceInstance ZH;
  pl_azCloud : AzCloud
}.

Definition with_aws a s := mkPlugins a (pl_awsState s) (pl_azure s) (pl_azCloud s).
Definition with_azure a s := mkPlugins (pl_aws s) (pl_awsState s) a (pl_azCloud s).

(** The accounts as the security code sees them: their EC2 and compute
    services. *)
Definition aws_accounts (s : PluginState) : list Account :=
  map (fun kv => mkAccount (NamespacedName_String kv.1)
    (match @GetServiceConfigByName Ec2ServiceInstance AH "EC2" kv.2 with inl e => inl e | inr svc => inr (es_config svc) end)) (go_range (pl_aws s)).

Definition azure_accounts (s : PluginState) : list AzAccount :=
  map (fun kv => mkAzAccount (NamespacedName_String kv.1)
    (match @GetServiceConfigByName ComputeServiceInstance ZH "COMPUTE" kv.2 with inl e => inl (Errorf e) | inr svc => inr (cs_config svc) end)) (go_range (pl_azure s)).

(** Running a method of the AWS security code, and of the Azure one. *)
Definition on_aws {A} (m : list Account -> AM A) : Method PluginState A := fun s =>
  match m (aws_accounts s) (pl_awsState s) with
  | None => Panicked
  | Some (r, st) => Returned (r, mkPlugins (pl_aws s) st (pl_azure s) (pl_azCloud s))
  end.

Definition on_azure {A} (m : list AzAccount -> ZM A) : Method PluginState A := fun s =>
  match m (azure_accounts s) (pl_azCloud s) with
  | Returned (r, c) =>
      Returned (match r with inl e => inl (e_Error e) | inr a => inr a end, mkPlugins (pl_aws s) (pl_awsState s) (pl_azure s) c)
  | Panicked => Panicked
  | Blocked => Blocked
  end.

Definition account_result {S} (set : S -> PluginState -> PluginState) (r : option (option error * S)) : Method PluginState unit := fun s =>
  match r with
  | None => Panicked
  | Some (e, c) => Returned (match e with Some e => inl e | None => inr tt end, set c s)
  end.

(** The Kubernetes client, the configuration sections of an account, what an
    inventory finds, and which inventories are initialised in time. *)
Context (aws_client : @Client _ AH) (AWSConfig : CloudProviderAccount -> @Creds _ AH) (aws_env : PluginState -> string -> Ec2Answers).
Context (az_client : @Client _ ZH) (AzureConfig : CloudProviderAccount -> @Creds _ ZH) (az_env : PluginState -> string -> AzureAnswers).
Context (initialized : PluginState -> string -> bool).

Definition awsCloud : CloudInterface PluginState := {|
  Instances s := @GetAllCloudAccountsComputeResourceCRDs Ec2ServiceInstance AH RNG (pl_aws s);
  InstancesGivenProviderAccount name s := @GetCloudAccountComputeResourceCRDs Ec2ServiceInstance AH RNG name (pl_aws s);
  IsVirtualPrivateCloudPresent vpc s := bool_decide (is_Some (getVpcAccount (aws_accounts s) vpc));
  AddProviderAccount account s :=
    account_result with_aws
      (@AddCloudAccount Ec2ServiceInstance AH aws_client (cpa_Name account) (cpa_PollIntervalInSeconds account) (AWSConfig account) (pl_aws s)) s;
  RemoveProviderAccount name s := with_aws (@RemoveCloudAccount Ec2ServiceInstance AH name (pl_aws s)) s;
  AddAccountResourceSelector name selector s := account_result with_aws (Some (@AddSelector Ec2ServiceInstance AH RNG (aws_env s) name selector (pl_aws s))) s;
  RemoveAccountResourcesSelector name selectorName s := with_aws (@RemoveSelector Ec2ServiceInstance AH name selectorName (pl_aws s)) s;
  GetAccountStatus name s := @GetStatus Ec2ServiceInstance AH name (pl_aws s);
  ci_CreateSecurityGroup id membershipOnly := on_aws (fun accounts => CreateSecurityGroup accounts id membershipOnly);
  ci_UpdateSecurityGroupRules id ingress egress := on_aws (fun accounts => UpdateSecurityGroupRules accounts id ingress egress);
  ci_UpdateSecurityGroupMembers id members membershipOnly :=
    on_aws (fun accounts => UpdateSecurityGroupMembers accounts id members membershipOnly);
  ci_DeleteSecurityGroup id membershipOnly := on_aws (fun accounts => DeleteSecurityGroup accounts id membershipOnly);
  ci_GetEnforcedSecurity s := on_aws (GetEnforcedSecurity (initialized s)) s
|}.

Definition azureCloud : CloudInterface PluginState := {|
  Instances s := @GetAllCloudAccountsComputeResourceCRDs ComputeServiceInstance ZH RNG (pl_azure s);
  InstancesGivenProviderAccount name s := @GetCloudAccountComputeResourceCRDs ComputeServiceInstance ZH RNG name (pl_azure s);
  IsVirtualPrivateCloudPresent vpc s := bool_decide (is_Some (getVnetAccount (azure_accounts s) vpc));
  AddProviderAccount account s :=
    account_result with_azure
      (@AddCloudAccount ComputeServiceInstance ZH az_client (cpa_Name account) (cpa_PollIntervalInSeconds account) (AzureConfig account) (pl_azure s)) s;
  RemoveProviderAccount name s := with_azure (@RemoveCloudAccount ComputeServiceInstance ZH name (pl_azure s)) s;
  AddAccountResourceSelector name selector s := account_result with_azure (Some (@AddSelector ComputeServiceInstance ZH RNG (az_env s) name selector (pl_azure s))) s;
  RemoveAccountResourcesSelector name selectorName s := with_azure (@RemoveSelector ComputeServiceInstance ZH name selectorName (pl_azure s)) s;
  GetAccountStatus name s := @GetStatus ComputeServiceInstance ZH name (pl_azure s);
  ci_CreateSecurityGroup id membershipOnly := on_azure (fun accounts => az_CreateSecurityGroup accounts id membershipOnly);
  ci_UpdateSecurityGroupRules id ingress egress := on_azure (fun accounts => az_UpdateSecurityGroupRules accounts id ingress egress);
  ci_UpdateSecurityGroupMembers id members membershipOnly :=
    on_azure (fun accounts => az_UpdateSecurityGroupMembers accounts id members membershipOnly);
  ci_DeleteSecurityGroup id membershipOnly := on_azure (fun accounts => az_DeleteSecurityGroup accounts id membershipOnly);
  ci_GetEnforcedSecurity s := on_azure (az_GetEnforcedSecurity (initialized s)) s
|}.

(** The registry of the program. *)
Definition nephe_providers : Providers PluginState := init_providers awsCloud azureCloud.

End Implementations.
