(* ===== verification/PluginsTheorems.v ===== *)
(** * The dispatcher: where a request goes *)

From stdpp Require Import base strings list gmap.
From Stdlib Require Import ZArith.
From S2P Require Import Prelude GoStrings SecurityGroup AwsModel Selector AzureModel Accounts Plugins.

#[local] Open Scope string_scope.

Section Dispatch.
Context {RNG : MapRange} {Cl : Type}.

Lemma find_interface_spec types vpc (providers : Providers Cl) c :
  match find_interface types vpc providers c with
  | Some cloud => exists t, t ∈ types /\ providers !! t = Some cloud /\ IsVirtualPrivateCloudPresent cloud vpc c = true
  | None => forall t cloud, t ∈ types -> providers !! t = Some cloud -> IsVirtualPrivateCloudPresent cloud vpc c = false
  end.
Proof.
  induction types as [|t types IH]; cbn [find_interface]; [intros t cloud []%not_elem_of_nil|].
  unfold GetCloudInterface. destruct (providers !! t) as [cloud|] eqn:Et.
  - destruct (IsVirtualPrivateCloudPresent cloud vpc c) eqn:Ep.
    + exists t. split; [left|done].
    + destruct (find_interface types vpc providers c).
      * destruct IH as (t' & ? & ?). exists t'. split; [by right|done].
      * intros t' cloud' [->|Ht]%elem_of_cons Hc; [congruence|eauto].
  - destruct (find_interface types vpc providers c).
    + destruct IH as (t' & ? & ?). exists t'. split; [by right|done].
    + intros t' cloud' [->|Ht]%elem_of_cons Hc; [congruence|eauto].
Qed.

Lemma supported_types t (providers : Providers Cl) cloud :
  providers !! t = Some cloud -> t ∈ GetSupportedCloudProviderTypes providers.
Proof.
  intros Ht. apply list_elem_of_fmap. exists (t, cloud). split; [done|]. by apply elem_of_go_range.
Qed.

Lemma dispatch_managed {A} id (serve : CloudInterface Cl -> Method Cl A) (providers : Providers Cl) c :
  (forall t1 t2 c1 c2, providers !! t1 = Some c1 -> providers !! t2 = Some c2 ->
     IsVirtualPrivateCloudPresent c1 (cid_Vpc id) c = true -> IsVirtualPrivateCloudPresent c2 (cid_Vpc id) c = true -> t1 = t2) ->
  (forall t cloud, providers !! t = Some cloud -> IsVirtualPrivateCloudPresent cloud (cid_Vpc id) c = true ->
     dispatch id serve providers c =
       match serve cloud c with
       | Returned (inl e, c') => Returned (Some e, c')
       | Returned (inr _, c') => Returned (None, c')
       | Panicked => Panicked
       | Blocked => Blocked
       end) /\
  ((forall t cloud, providers !! t = Some cloud -> IsVirtualPrivateCloudPresent cloud (cid_Vpc id) c = false) ->
     dispatch id serve providers c = Returned (Some (no_cloud_error (cid_Vpc id)), c)).
Proof.
  intros Hone. unfold dispatch, getCloudInterfaceForCloudResource.
  pose proof (find_interface_spec (GetSupportedCloudProviderTypes providers) (cid_Vpc id) providers c) as Hf.
  destruct (find_interface _ _ _ _) as [found|].
  - destruct Hf as (t & _ & Ht & Hp). split.
    + intros t' cloud Ht' Hp'. rewrite (Hone t t' found cloud Ht Ht' Hp Hp') in Ht. rewrite Ht in Ht'. by injection Ht' as ->.
    + intros Hnone. by rewrite (Hnone t found Ht) in Hp.
  - split; [|done]. intros t cloud Ht Hp. by rewrite (Hf t cloud (supported_types t providers cloud Ht) Ht) in Hp.
Qed.

(** C29: When one plug-in alone manages the VPC of a group, every request for the
    group, to create it, update its members or rules, or delete it, is served by
    that plug-in and reports its error, in whatever order the plug-ins are asked;
    when none manages it, the request fails and nothing changes. *)
Theorem dispatch_to_managing_cloud {A} id (serve : CloudInterface Cl -> Method Cl A) (providers : Providers Cl) c :
  (forall t1 t2 c1 c2, providers !! t1 = Some c1 -> providers !! t2 = Some c2 ->
     IsVirtualPrivateCloudPresent c1 (cid_Vpc id) c = true -> IsVirtualPrivateCloudPresent c2 (cid_Vpc id) c = true -> t1 = t2) ->
  (forall t cloud, providers !! t = Some cloud -> IsVirtualPrivateCloudPresent cloud (cid_Vpc id) c = true ->
     dispatch id serve providers c =
       match serve cloud c with
       | Returned (inl e, c') => Returned (Some e, c')
       | Returned (inr _, c') => Returned (None, c')
       | Panicked => Panicked
       | Blocked => Blocked
       end) /\
  ((forall t cloud, providers !! t = Some cloud -> IsVirtualPrivateCloudPresent cloud (cid_Vpc id) c = false) ->
     dispatch id serve providers c = Returned (Some (no_cloud_error (cid_Vpc id)), c)).
Proof. exact (dispatch_managed id serve providers c). Qed.

End Dispatch.

(** ** Two clouds *)

Section Witness.
#[local] Existing Instance map_to_list_range.

(** A plug-in that manages one VPC and counts the groups created in it. *)
Definition counting_cloud (vpc : string) (count : nat * nat -> nat * nat) : CloudInterface (nat * nat) := {|
  Instances _ := ([], []);
  InstancesGivenProviderAccount _ _ := inl "unable to find cloud account";
  IsVirtualPrivateCloudPresent v _ := bool_decide (v = vpc);
  AddProviderAccount _ c := Returned (inr tt, c);
  RemoveProviderAccount _ c := c;
  AddAccountResourceSelector _ _ c := Returned (inr tt, c);
  RemoveAccountResourcesSelector _ _ c := c;
  GetAccountStatus _ _ := inr "";
  ci_CreateSecurityGroup id _ c := Returned (inr (cid_Name id), count c);
  ci_UpdateSecurityGroupRules _ _ _ c := Returned (inr tt, c);
  ci_UpdateSecurityGroupMembers _ _ _ c := Returned (inr tt, c);
  ci_DeleteSecurityGroup _ _ c := Returned (inr tt, c);
  ci_GetEnforcedSecurity c := Returned (inr [], c)
|}.

Definition two_clouds : Providers (nat * nat) :=
  init_providers (counting_cloud "vpc-1" (fun c => (S c.1, c.2))) (counting_cloud "vnet-1" (fun c => (c.1, S c.2))).

Lemma two_clouds_lookup t cloud :
  two_clouds !! t = Some cloud ->
  (t = "AWS" /\ cloud = counting_cloud "vpc-1" (fun c => (S c.1, c.2))) \/
  (t = "Azure" /\ cloud = counting_cloud "vnet-1" (fun c => (c.1, S c.2))).
Proof.
  intros Ht.
  assert (<["Azure" := counting_cloud "vnet-1" (fun c => (c.1, S c.2))]>
    (<["AWS" := counting_cloud "vpc-1" (fun c => (S c.1, c.2))]> (∅ : gmap string (CloudInterface (nat * nat)))) !! t = Some cloud) as Hm
    by exact Ht.
  apply lookup_insert_Some in Hm as [[<- <-]|[_ Hm]]; [by right|].
  apply lookup_insert_Some in Hm as [[<- <-]|[_ Hm]]; [by left|]. by rewrite lookup_empty in Hm.
Qed.

(** The group in [vnet-1] is created by the second plug-in. *)
Lemma dispatch_to_managing_cloud_witness :
  sg_CreateSecurityGroup (mkCloudResourceID "web" "vnet-1") false two_clouds (0, 0)%nat = Returned (None, (0, 1)%nat).
Proof.
  refine (proj1 (dispatch_to_managing_cloud (mkCloudResourceID "web" "vnet-1")
    (fun cloud => ci_CreateSecurityGroup cloud (mkCloudResourceID "web" "vnet-1") false) two_clouds (0, 0)%nat _)
    "Azure" (counting_cloud "vnet-1" (fun c => (c.1, S c.2))) eq_refl eq_refl).
  intros t1 t2 c1 c2 [[-> ->]|[-> ->]]%two_clouds_lookup [[-> ->]|[-> ->]]%two_clouds_lookup; vm_compute; congruence.
Defined.

End Witness.
