(* ===== verification/Dispatcher.v ===== *)
(** * Requests of the reconciler through the dispatcher

    The reconciler calls [CloudSecurityGroup], which is [SecurityGroupImpl] of
    securitygroup_impl.go: [serve_request].  A request for a group of a VPC that one
    cloud alone manages is the request to that cloud's plug-in, as
    [PolicyEnforcement] and [AzureEnforcement] have it. *)

From stdpp Require Import base strings list gmap.
From S2P Require Import Prelude SecurityGroup NPState AwsModel AwsSecurity AzureModel AzureSecurity Selector Accounts Inventory.
From S2P Require Import Plugins PluginsTheorems Enforcement AzureEnforcement.

#[local] Open Scope string_scope.

Definition request_id (q : CloudRequest) : CloudResourceID :=
  match q with
  | NPState.CreateSecurityGroup id _ | NPState.DeleteSecurityGroup id _
  | NPState.UpdateSecurityGroupMembers id _ _ | NPState.UpdateSecurityGroupRules id _ _ => id
  end.

(** The methods of [CloudSecurityGroupAPI]. *)
Definition serve_request {Cl} `{MapRange} (q : CloudRequest) : Providers Cl -> Cl -> Outcome (option error * Cl) :=
  match q with
  | NPState.CreateSecurityGroup id mo => sg_CreateSecurityGroup id mo
  | NPState.DeleteSecurityGroup id mo => sg_DeleteSecurityGroup id mo
  | NPState.UpdateSecurityGroupMembers id ms mo => sg_UpdateSecurityGroupMembers id ms mo
  | NPState.UpdateSecurityGroupRules id ing eg => sg_UpdateSecurityGroupRules id ing eg
  end.

Section Dispatcher.
Context {RNG : MapRange} {E : EC2} {Z : Azure}.
Context (AH : @CloudCommonHelper Ec2ServiceInstance) (ZH : @CloudCommonHelper ComputeServiceInstance).
Context (aws_client : @Client _ AH) (AWSConfig : CloudProviderAccount -> @Creds _ AH) (aws_env : PluginState AH ZH -> string -> Ec2Answers).
Context (az_client : @Client _ ZH) (AzureConfig : CloudProviderAccount -> @Creds _ ZH) (az_env : PluginState AH ZH -> string -> AzureAnswers).
Context (initialized : PluginState AH ZH -> string -> bool).

Definition providers : Providers (PluginState AH ZH) :=
  nephe_providers AH ZH aws_client AWSConfig aws_env az_client AzureConfig az_env initialized.

Let aws_cloud := awsCloud AH ZH aws_client AWSConfig aws_env initialized.
Let azure_cloud := azureCloud AH ZH az_client AzureConfig az_env initialized.

Lemma providers_lookup t cloud :
  providers !! t = Some cloud -> (t = "AWS" /\ cloud = aws_cloud) \/ (t = "Azure" /\ cloud = azure_cloud).
Proof.
  intros Ht. assert (<["Azure" := azure_cloud]> (<["AWS" := aws_cloud]> (∅ : gmap string _)) !! t = Some cloud) as Hm by exact Ht.
  apply lookup_insert_Some in Hm as [[<- <-]|[_ Hm]]; [by right|].
  apply lookup_insert_Some in Hm as [[<- <-]|[_ Hm]]; [by left|]. by rewrite lookup_empty in Hm.
Qed.

Definition on_aws_state (st : AwsState) (s : PluginState AH ZH) : PluginState AH ZH :=
  mkPlugins AH ZH (pl_aws AH ZH s) st (pl_azure AH ZH s) (pl_azCloud AH ZH s).
Definition on_azure_state (c : AzCloud) (s : PluginState AH ZH) : PluginState AH ZH :=
  mkPlugins AH ZH (pl_aws AH ZH s) (pl_awsState AH ZH s) (pl_azure AH ZH s) c.

(** One of the two plug-ins manages the VPC. *)
Definition aws_manages (vpc : string) (s : PluginState AH ZH) : Prop :=
  is_Some (getVpcAccount (aws_accounts AH ZH s) vpc) /\ getVnetAccount (azure_accounts AH ZH s) vpc = None.
Definition azure_manages (vpc : string) (s : PluginState AH ZH) : Prop :=
  is_Some (getVnetAccount (azure_accounts AH ZH s) vpc) /\ getVpcAccount (aws_accounts AH ZH s) vpc = None.

(** When one plug-in has the VPC, no other does. *)
Lemma one_manager vpc s :
  aws_manages vpc s \/ azure_manages vpc s -> forall t1 t2 c1 c2, providers !! t1 = Some c1 -> providers !! t2 = Some c2 ->
  IsVirtualPrivateCloudPresent c1 vpc s = true -> IsVirtualPrivateCloudPresent c2 vpc s = true -> t1 = t2.
Proof.
  intros Hm t1 t2 c1 c2 [[-> ->]|[-> ->]]%providers_lookup [[-> ->]|[-> ->]]%providers_lookup; try done;
    simpl; rewrite !bool_decide_eq_true; intros [x Hx] [y Hy]; destruct Hm as [[_ Hn]|[_ Hn]]; congruence.
Qed.

(** A request for a group of a VPC that AWS alone manages is served by the AWS
    plug-in: its error is reported, and only its state changes. *)
Theorem request_reaches_aws q s :
  aws_manages (cid_Vpc (request_id q)) s ->
  serve_request q providers s =
    match aws_serve (aws_accounts AH ZH s) q (pl_awsState AH ZH s) with
    | None => Panicked
    | Some (inl e, st) => Returned (Some e, on_aws_state st s)
    | Some (inr _, st) => Returned (None, on_aws_state st s)
    end.
Proof.
  intros Hm. assert (IsVirtualPrivateCloudPresent aws_cloud (cid_Vpc (request_id q)) s = true) as Hp
    by (apply bool_decide_eq_true; apply Hm).
  pose proof (fun A serve => proj1 (dispatch_managed (A := A) (request_id q) serve providers s (one_manager _ s (or_introl Hm)))
    "AWS" aws_cloud eq_refl Hp) as Hd.
  destruct q as [id mo|id mo|id ms mo|id ing eg]; cbn [serve_request request_id aws_serve] in *;
    unfold sg_CreateSecurityGroup, sg_DeleteSecurityGroup, sg_UpdateSecurityGroupMembers, sg_UpdateSecurityGroupRules;
    rewrite Hd; cbn; unfold on_aws; unfold mbind, AM_bind.
  - destruct (CreateSecurityGroup _ _ _ _) as [[[e|g] st]|]; done.
  - destruct (DeleteSecurityGroup _ _ _ _) as [[[e|g] st]|]; done.
  - destruct (UpdateSecurityGroupMembers _ _ _ _ _) as [[[e|g] st]|]; done.
  - destruct (UpdateSecurityGroupRules _ _ _ _ _) as [[[e|g] st]|]; done.
Qed.

(** And the same for Azure. *)
Theorem request_reaches_azure q s :
  azure_manages (cid_Vpc (request_id q)) s ->
  serve_request q providers s =
    match azure_serve (azure_accounts AH ZH s) q (pl_azCloud AH ZH s) with
    | Returned (inl e, c) => Returned (Some (e_Error e), on_azure_state c s)
    | Returned (inr _, c) => Returned (None, on_azure_state c s)
    | Panicked => Panicked
    | Blocked => Blocked
    end.
Proof.
  intros Hm. assert (IsVirtualPrivateCloudPresent azure_cloud (cid_Vpc (request_id q)) s = true) as Hp
    by (apply bool_decide_eq_true; apply Hm).
  pose proof (fun A serve => proj1 (dispatch_managed (A := A) (request_id q) serve providers s (one_manager _ s (or_intror Hm)))
    "Azure" azure_cloud eq_refl Hp) as Hd.
  destruct q as [id mo|id mo|id ms mo|id ing eg]; cbn [serve_request request_id azure_serve] in *;
    unfold sg_CreateSecurityGroup, sg_DeleteSecurityGroup, sg_UpdateSecurityGroupMembers, sg_UpdateSecurityGroupRules;
    rewrite Hd; cbn; unfold on_azure; unfold mbind, ZM_bind.
  - destruct (az_CreateSecurityGroup _ _ _ _) as [[[e|g] st]| |]; done.
  - destruct (az_DeleteSecurityGroup _ _ _ _) as [[[e|g] st]| |]; done.
  - destruct (az_UpdateSecurityGroupMembers _ _ _ _ _) as [[[e|g] st]| |]; done.
  - destruct (az_UpdateSecurityGroupRules _ _ _ _ _) as [[[e|g] st]| |]; done.
Qed.

End Dispatcher.
