(* ===== verification/Poller.v ===== *)
(** * The account poller

    Model of [account_poller.go]: what a poll does with the virtual machines an
    account reports, against the [VirtualMachine] objects of the Kubernetes API.

    The client of the API is a class.  A method that panics gives [Panicked]. *)

From stdpp Require Import base strings list gmap.
From Stdlib Require Import ZArith.
From S2P Require Import Prelude GoStrings AwsModel Selector VirtualMachine AzureModel Accounts Plugins.

#[local] Open Scope string_scope.

(** ** The Kubernetes client *)

Inductive KError := NotFound | OtherError (e : error).

Class KubeClient := {
  Kube : Type;
  ListVMs : string -> Kube -> KError + list VirtualMachine;
  GetVM : NamespacedName -> Kube -> KError + VirtualMachine;
  CreateVM : VirtualMachine -> Kube -> option KError * Kube;
  UpdateVMStatus : VirtualMachine -> Kube -> option KError * Kube;
  DeleteVM : VirtualMachine -> Kube -> option KError * Kube;
  GetAccount : NamespacedName -> Kube -> KError + CloudProviderAccount;
  UpdateAccountStatus : CloudProviderAccount -> Kube -> option KError * Kube;
  GetSelector : NamespacedName -> Kube -> KError + CloudEntitySelector;
  (** the virtual machines of a namespace whose first owner has the name *)
  ListVMsByOwner : string -> string -> Kube -> KError + list VirtualMachine;
  (** [controllerutil.SetControllerReference] *)
  SetControllerReference : CloudEntitySelector -> VirtualMachine -> KError + VirtualMachine
}.

Definition vm_key (vm : VirtualMachine) : NamespacedName := (vm_Namespace vm, vm_Name vm).
Definition vm_with_status (st : VirtualMachineStatus) (vm : VirtualMachine) : VirtualMachine :=
  mkVM (vm_Name vm) (vm_Namespace vm) (vm_Annotations vm) (vm_OwnerReferences vm) st.
Definition emptyStatus : VirtualMachineStatus := mkVMStatus "" "" ∅ [] "".
Definition emptyVM : VirtualMachine := mkVM "" "" ∅ [] emptyStatus.

(** [accountPoller], without the client, log and scheme. *)
Record accountPoller := mkPoller {
  ap_pollIntvInSeconds : Z;
  ap_cloudType : CloudProvider;
  ap_namespacedName : NamespacedName;
  ap_selector : CloudEntitySelector
}.

(** ** Comparing what was discovered *)

Definition convertAddressToMap (addresses : list IPAddress) : gset string :=
  list_to_set (map (fun a => AddressType_String (ip_AddressType a) +:+ ":" +:+ ip_Address a) addresses).

Definition convertNetworkInterfacesToMap (nwInterfaces : list VMNetworkInterface) : gmap string VMNetworkInterface :=
  fold_left (fun m n => <[vni_Name n := n]> m) nwInterfaces ∅.

(** Each loop returns false at the first difference, in whatever order it
    ranges. *)
Definition areIPAddressesSame (s1 s2 : list IPAddress) : bool :=
  forallb (fun key => bool_decide (key ∈ convertAddressToMap s2)) (elements (convertAddressToMap s1)).

Definition areTagsSame (s1 s2 : gmap string string) : bool :=
  forallb (fun '(key1, value1) =>
    match s2 !! key1 with
    | None => false
    | Some value2 => bool_decide (ToLower value1 = ToLower value2)
    end) (map_to_list s1).

Definition areNetworkInterfacesSame (s1 s2 : list VMNetworkInterface) : bool :=
  bool_decide (length s1 = length s2) &&
  forallb (fun '(key1, value1) =>
    match convertNetworkInterfacesToMap s2 !! key1 with
    | None => false
    | Some value2 =>
        bool_decide (ToLower (vni_Name value1) = ToLower (vni_Name value2)) &&
        bool_decide (ToLower (vni_MAC value1) = ToLower (vni_MAC value2)) &&
        bool_decide (length (vni_IPs value1) = length (vni_IPs value2)) &&
        areIPAddressesSame (vni_IPs value1) (vni_IPs value2)
    end) (map_to_list (convertNetworkInterfacesToMap s1)).

Definition areDiscoveredFieldsSameVirtualMachineStatus (s1 s2 : VirtualMachineStatus) : bool :=
  bool_decide (vs_Provider s1 = vs_Provider s2) &&
  bool_decide (vs_State s1 = vs_State s2) &&
  bool_decide (vs_VirtualPrivateCloud s1 = vs_VirtualPrivateCloud s2) &&
  bool_decide (size (vs_Tags s1) = size (vs_Tags s2)) &&
  bool_decide (length (vs_NetworkInterfaces s1) = length (vs_NetworkInterfaces s2)) &&
  areTagsSame (vs_Tags s1) (vs_Tags s2) &&
  areNetworkInterfacesSame (vs_NetworkInterfaces s1) (vs_NetworkInterfaces s2).

Definition updateCloudDiscoveredFieldsOfVirtualMachineStatus (current discovered : VirtualMachineStatus) : VirtualMachineStatus :=
  mkVMStatus (vs_Provider discovered) (vs_VirtualPrivateCloud discovered) (vs_Tags discovered)
    (vs_NetworkInterfaces discovered) (vs_State discovered).

(** [ownerSelector] has the poller's selector under its name. *)
Definition isVirtualMachineOwnedBy (vm : VirtualMachine) (ownerSelector : gmap string CloudEntitySelector) : bool :=
  existsb (fun r =>
    match ownerSelector !! or_Name r with
    | Some _ => bool_decide (or_Kind r = "CloudEntitySelector")
    | None => false
    end) (vm_OwnerReferences vm).

Section Poller.
Context {RNG : MapRange} {KC : KubeClient}.

(** ** What is to be done *)

Definition getCurrentVirtualMachinesByName (p : accountPoller) (k : Kube) : KError + gmap string VirtualMachine :=
  match ListVMs (ces_namespace (ap_selector p)) k with
  | inl e => inl e
  | inr items =>
      inr (fold_left (fun m vm =>
             if isVirtualMachineOwnedBy vm {[ces_name (ap_selector p) := ap_selector p]} then <[vm_Name vm := vm]> m else m) items ∅)
  end.

(** The lists under [accountResourceToCreate], [accountResourceToDelete] and
    [accountResourceToUpdate].  Those to create may be nil. *)
Record Operations := mkOps {
  toCreate : list (option VirtualMachine);
  toDelete : list VirtualMachine;
  toUpdate : list VirtualMachine
}.

(** The loop over the discovered virtual machines: the rest of the current ones,
    those to create and those to update; a nil one panics. *)
Fixpoint sort_discovered (discovered : list (option VirtualMachine)) (current : gmap string VirtualMachine)
    (create update : list VirtualMachine) : option (gmap string VirtualMachine * list VirtualMachine * list VirtualMachine) :=
  match discovered with
  | [] => Some (current, create, update)
  | None :: _ => None
  | Some d :: discovered =>
      match current !! vm_Name d with
      | None => sort_discovered discovered current (create ++ [d]) update
      | Some c =>
          sort_discovered discovered (delete (vm_Name c) current) create
            (if areDiscoveredFieldsSameVirtualMachineStatus (vm_Status c) (vm_Status d) then update else update ++ [d])
      end
  end%list.

Definition findVirtualMachinesByOperation (p : accountPoller) (discovered : list (option VirtualMachine)) (k : Kube) :
    Outcome (KError + Operations) :=
  match getCurrentVirtualMachinesByName p k with
  | inl e => Returned (inl e)
  | inr current =>
      if decide (size current = 0%nat) then Returned (inr (mkOps discovered [] []))
      else match sort_discovered discovered current [] [] with
           | None => Panicked
           | Some (rest, create, update) => Returned (inr (mkOps (map Some create) (map snd (go_range rest)) update))
           end
  end.

(** ** Doing it *)

(** One object created; the error, if any, does not stop the loop. *)
Definition create_vm (p : accountPoller) (vm : VirtualMachine) (k : Kube) : list KError * Kube :=
  match SetControllerReference (ap_selector p) vm with
  | inl e => ([e], k)
  | inr vm1 =>
      let vmStatus := vm_Status vm1 in
      match CreateVM vm1 k with
      | (Some e, k1) => ([e], k1)
      | (None, k1) =>
          match UpdateVMStatus (vm_with_status vmStatus vm1) k1 with
          | (Some e, k2) => ([e], k2)
          | (None, k2) => ([], k2)
          end
      end
  end.

Fixpoint create_vms (p : accountPoller) (vms : list (option VirtualMachine)) (k : Kube) : option (list KError * Kube) :=
  match vms with
  | [] => Some ([], k)
  | None :: _ => None
  | Some vm :: vms =>
      let '(es, k1) := create_vm p vm k in
      match create_vms p vms k1 with
      | None => None
      | Some (es', k2) => Some ((es ++ es')%list, k2)
      end
  end.

Definition delete_vm (vm : VirtualMachine) (k : Kube) : list KError * Kube :=
  match DeleteVM vm k with
  | (Some (OtherError e), k1) => ([OtherError e], k1)
  | (_, k1) => ([], k1)
  end.

Definition update_vm (vm : VirtualMachine) (k : Kube) : list KError * Kube :=
  let write currentVM :=
    match UpdateVMStatus (vm_with_status (updateCloudDiscoveredFieldsOfVirtualMachineStatus (vm_Status currentVM) (vm_Status vm)) currentVM) k with
    | (Some e, k1) => ([e], k1)
    | (None, k1) => ([], k1)
    end in
  match GetVM (vm_key vm) k with
  | inl (OtherError e) => ([OtherError e], k)
  | inl NotFound => write emptyVM
  | inr currentVM => write currentVM
  end.

Fixpoint for_each (step : VirtualMachine -> Kube -> list KError * Kube) (vms : list VirtualMachine) (k : Kube) : list KError * Kube :=
  match vms with
  | [] => ([], k)
  | vm :: vms => let '(es, k1) := step vm k in let '(es', k2) := for_each step vms k1 in ((es ++ es')%list, k2)
  end.

(** The errors are collected by [multierr]. *)
Definition doVirtualMachineOperations (p : accountPoller) (virtualMachines : list (option VirtualMachine)) (k : Kube) :
    Outcome (list KError * Kube) :=
  match findVirtualMachinesByOperation p virtualMachines k with
  | Panicked => Panicked
  | Blocked => Blocked
  | Returned (inl e) => Returned ([e], k)
  | Returned (inr ops) =>
      match create_vms p (toCreate ops) k with
      | None => Panicked
      | Some (es1, k1) =>
          let '(es2, k2) := for_each delete_vm (toDelete ops) k1 in
          let '(es3, k3) := for_each update_vm (toUpdate ops) k2 in
          Returned ((es1 ++ es2 ++ es3)%list, k3)
      end
  end.

(** ** A poll *)

Context {Cl : Type}.

Definition getComputeResources (p : accountPoller) (cloud : CloudInterface Cl) (c : Cl) : list (option VirtualMachine) :=
  match InstancesGivenProviderAccount cloud (ap_namespacedName p) c with
  | inl _ => []
  | inr vms => vms
  end.

Definition emptyAccount : CloudProviderAccount := mkCPA ("", "") (mkAccountSpec false false) None "".

Definition updateAccountStatus (discovered : string) (account : CloudProviderAccount) : CloudProviderAccount :=
  mkCPA (cpa_Name account) (cpa_Spec account) (cpa_PollIntervalInSeconds account) discovered.

(** Every error is logged and the poll goes on; an account that was not found is
    empty. *)
Definition doAccountPoller (providers : Providers Cl) (c : Cl) (p : accountPoller) (k : Kube) : Outcome Kube :=
  match GetCloudInterface (provider_name (ap_cloudType p)) providers with
  | inl _ => Returned k
  | inr cloud =>
      let account := match GetAccount (ap_namespacedName p) k with inl _ => emptyAccount | inr a => a end in
      let account1 := match GetAccountStatus cloud (ap_namespacedName p) c with
                      | inl _ => account
                      | inr st => updateAccountStatus st account
                      end in
      let '(_, k1) := UpdateAccountStatus account1 k in
      match doVirtualMachineOperations p (getComputeResources p cloud c) k1 with
      | Returned (_, k2) => Returned k2
      | Panicked => Panicked
      | Blocked => Blocked
      end
  end.

End Poller.
