(* ===== verification/PollerTheorems.v ===== *)
(** * The account poller: convergence and safety

    Laws of the Kubernetes API over its objects ([KubeLaws], [KubeHealthy]), and
    what a poll does with them: it touches only the objects of its selector, and
    brings these to what was discovered. *)

From stdpp Require Import base strings list gmap.
From Stdlib Require Import ZArith Lia.
From S2P Require Import Prelude GoStrings AwsModel Selector VirtualMachine AzureModel Accounts Plugins Poller.

#[local] Open Scope string_scope.

(** ** The Kubernetes API *)

(** [vms] are the objects; reads are up to date, a failed write changes
    nothing, [Create] drops the status and a status update keeps the rest. *)
Class KubeLaws (KC : KubeClient) := {
  vms : Kube -> gmap NamespacedName VirtualMachine;
  vms_key k n vm : vms k !! n = Some vm -> vm_key vm = n;
  vms_named k : vms k !! ("", "") = None;
  list_law ns k l : ListVMs ns k = inr l -> forall vm, vm ∈ l <-> vms k !! vm_key vm = Some vm /\ vm_Namespace vm = ns;
  get_law n k :
    match GetVM n k with
    | inr vm => vms k !! n = Some vm
    | inl NotFound => vms k !! n = None
    | inl (OtherError _) => True
    end;
  create_law vm k :
    match CreateVM vm k with
    | (None, k') => vms k !! vm_key vm = None /\ vms k' = <[vm_key vm := vm_with_status emptyStatus vm]> (vms k)
    | (Some _, k') => vms k' = vms k
    end;
  status_law vm k :
    match UpdateVMStatus vm k with
    | (None, k') => exists o, vms k !! vm_key vm = Some o /\ vms k' = <[vm_key vm := vm_with_status (vm_Status vm) o]> (vms k)
    | (Some _, k') => vms k' = vms k
    end;
  delete_law vm k :
    match DeleteVM vm k with
    | (None, k') => vms k' = delete (vm_key vm) (vms k)
    | (Some NotFound, k') => vms k !! vm_key vm = None /\ vms k' = vms k
    | (Some (OtherError _), k') => vms k' = vms k
    end;
  account_status_law a k : vms (UpdateAccountStatus a k).2 = vms k;
  reference_law s vm vm' : SetControllerReference s vm = inr vm' ->
    exists owners, vm' = mkVM (vm_Name vm) (vm_Namespace vm) (vm_Annotations vm) owners (vm_Status vm) /\
      mkOwner "CloudEntitySelector" (ces_name s) ∈ owners
}.

(** Every request that can be served is served. *)
Class KubeHealthy (KC : KubeClient) {KL : KubeLaws KC} := {
  list_served ns k : exists l, ListVMs ns k = inr l;
  get_served n k : forall e, GetVM n k <> inl (OtherError e);
  create_served vm k : vm_Name vm <> "" -> vms k !! vm_key vm = None -> (CreateVM vm k).1 = None;
  status_served vm k : is_Some (vms k !! vm_key vm) -> (UpdateVMStatus vm k).1 = None;
  delete_served vm k : forall e, (DeleteVM vm k).1 <> Some (OtherError e);
  reference_served s vm : vm_OwnerReferences vm = [] -> exists vm', SetControllerReference s vm = inr vm'
}.

(** ** Comparison *)

Lemma same_status_refl st : areDiscoveredFieldsSameVirtualMachineStatus st st = true.
Proof.
  unfold areDiscoveredFieldsSameVirtualMachineStatus. rewrite !bool_decide_true by done. simpl. apply andb_true_iff. split.
  - apply forallb_forall. intros [k v] Hk%list_elem_of_In%elem_of_map_to_list. rewrite Hk. by apply bool_decide_true.
  - unfold areNetworkInterfacesSame. rewrite bool_decide_true by done. apply forallb_forall.
    intros [k v] Hk%list_elem_of_In%elem_of_map_to_list. rewrite Hk, !bool_decide_true by done. simpl.
    apply forallb_forall. intros x Hx%list_elem_of_In%elem_of_elements. by apply bool_decide_true.
Qed.

(** Elements put into a map when [f] holds, none of them overwritten. *)
Lemma fold_insert_if {A} (f : A -> bool) (key : A -> string) (view : string -> option A) l (m : gmap string A) :
  (forall x, x ∈ l -> view (key x) = Some x) -> (forall n v, m !! n = Some v -> view n = Some v) ->
  forall n v, fold_left (fun m x => if f x then <[key x := x]> m else m) l m !! n = Some v <->
    m !! n = Some v \/ (v ∈ l /\ key v = n /\ f v = true).
Proof.
  revert m. induction l as [|x l IH]; intros m Hl Hm n v; simpl.
  { split; [auto|]. by intros [?|[?%not_elem_of_nil _]]. }
  assert (forall y, y ∈ l -> view (key y) = Some y) as Hl' by (intros y Hy; apply Hl; by right).
  pose proof (Hl x (list_elem_of_here _ _)) as Hx. rewrite elem_of_cons. destruct (f x) eqn:Hf.
  - rewrite IH; [|done|intros n' v' [[<- <-]|[_ ?]]%lookup_insert_Some; auto]. split.
    + intros [[[<- <-]|[_ ?]]%lookup_insert_Some|(? & ? & ?)]; auto.
    + intros [Hv|([->|?] & <- & ?)]; [|left; by rewrite lookup_insert_eq|auto]. left.
      destruct (decide (n = key x)) as [->|]; [|by rewrite lookup_insert_ne].
      rewrite lookup_insert_eq. apply Hm in Hv. congruence.
  - rewrite IH by done. split; [intros [?|(? & ? & ?)]; auto|]. intros [?|([->|?] & ? & ?)]; auto. congruence.
Qed.

Section Polls.
Context {RNG : MapRange} {KC : KubeClient} {KL : KubeLaws KC} (p : accountPoller).

(** ** The objects of a selector *)

Definition owned (vm : VirtualMachine) : Prop := mkOwner "CloudEntitySelector" (ces_name (ap_selector p)) ∈ vm_OwnerReferences vm.

Definition mine (n : NamespacedName) (vm : VirtualMachine) : Prop := n.1 = ces_namespace (ap_selector p) /\ owned vm.

Lemma owned_spec vm : isVirtualMachineOwnedBy vm {[ces_name (ap_selector p) := ap_selector p]} = true <-> owned vm.
Proof.
  unfold isVirtualMachineOwnedBy, owned. rewrite existsb_exists. split.
  - intros ([kind name] & Hin%list_elem_of_In & Hr). simpl in Hr.
    destruct (decide (name = ces_name (ap_selector p))) as [->|Hne]; [|by rewrite lookup_singleton_ne in Hr].
    rewrite lookup_singleton_eq in Hr. apply bool_decide_eq_true_1 in Hr as ->. done.
  - intros Hin%list_elem_of_In. eexists. split; [exact Hin|]. cbn [or_Name or_Kind]. rewrite lookup_singleton_eq. by apply bool_decide_true.
Qed.

Lemma owned_with_status st vm : owned (vm_with_status st vm) <-> owned vm.
Proof. done. Qed.

Lemma current_spec k current :
  getCurrentVirtualMachinesByName p k = inr current ->
  forall n vm, current !! n = Some vm <-> vms k !! (ces_namespace (ap_selector p), n) = Some vm /\ owned vm.
Proof.
  unfold getCurrentVirtualMachinesByName. destruct (ListVMs _ _) as [|items] eqn:El; [done|]. intros [= <-] n vm.
  pose proof (list_law _ _ _ El) as Hl.
  rewrite (fold_insert_if _ vm_Name (fun n => vms k !! (ces_namespace (ap_selector p), n))).
  - rewrite lookup_empty, owned_spec, Hl. split.
    + intros [?|([Hk Hns] & <- & ?)]; [done|]. unfold vm_key in Hk. rewrite Hns in Hk. done.
    + intros [Hk Ho]. right. pose proof (vms_key _ _ _ Hk) as E. rewrite E. injection E as -> ->. done.
  - intros x [Hk Hns]%Hl. unfold vm_key in Hk. rewrite Hns in Hk. done.
  - intros ? ?. by rewrite lookup_empty.
Qed.

(** ** The operations found *)

Definition is_new (current : gmap string VirtualMachine) (d : VirtualMachine) : Prop := current !! vm_Name d = None.
Definition is_changed (current : gmap string VirtualMachine) (d : VirtualMachine) : Prop :=
  match current !! vm_Name d with
  | Some c => areDiscoveredFieldsSameVirtualMachineStatus (vm_Status c) (vm_Status d) = false
  | None => False
  end.
#[local] Instance is_new_dec current d : Decision (is_new current d).
Proof. unfold is_new. apply _. Defined.
#[local] Instance is_changed_dec current d : Decision (is_changed current d).
Proof. unfold is_changed. destruct (current !! _); apply _. Defined.

Lemma filter_deleted current d ds :
  vm_Name d ∉ map vm_Name ds ->
  filter (is_new (delete (vm_Name d) current)) ds = filter (is_new current) ds /\
  filter (is_changed (delete (vm_Name d) current)) ds = filter (is_changed current) ds.
Proof.
  intros Hd. split; apply filter_Forall_iff, list.Forall_forall; intros x Hx; unfold is_new, is_changed;
    (rewrite lookup_delete_ne; [done|]); intros Hn; apply Hd; rewrite Hn; apply list_elem_of_fmap; eauto.
Qed.

Lemma sort_discovered_spec ds current create update :
  NoDup (map vm_Name ds) -> (forall n c, current !! n = Some c -> vm_Name c = n) ->
  exists rest, sort_discovered (map Some ds) current create update =
    Some (rest, (create ++ filter (is_new current) ds)%list, (update ++ filter (is_changed current) ds)%list) /\
    forall n c, rest !! n = Some c <-> current !! n = Some c /\ n ∉ map vm_Name ds.
Proof.
  revert current create update. induction ds as [|d ds IH]; intros current create update Hnd Hk.
  { exists current. rewrite !app_nil_r. split; [done|]. intros n c. set_solver. }
  apply NoDup_cons in Hnd as [Hd Hnd]. cbn [map sort_discovered]. rewrite !filter_cons.
  destruct (current !! vm_Name d) as [c|] eqn:E.
  - rewrite (Hk _ _ E). destruct (IH (delete (vm_Name d) current) create
        (if areDiscoveredFieldsSameVirtualMachineStatus (vm_Status c) (vm_Status d) then update else (update ++ [d])%list) Hnd)
      as (rest & -> & Hr).
    { intros n c' [_ Hc]%lookup_delete_Some. by apply Hk. }
    exists rest. split.
    + rewrite decide_False by (unfold is_new; by rewrite E).
      destruct (filter_deleted current d ds Hd) as [-> ->]. destruct (areDiscoveredFieldsSameVirtualMachineStatus _ _) eqn:Es.
      * rewrite decide_False; [done|]. unfold is_changed. rewrite E. congruence.
      * rewrite decide_True, <- app_assoc; [done|]. unfold is_changed. by rewrite E.
    + intros n c'. rewrite Hr, lookup_delete_Some. set_solver.
  - destruct (IH current (create ++ [d])%list update Hnd Hk) as (rest & -> & Hr). exists rest. split.
    + rewrite decide_True by done. rewrite decide_False, <- app_assoc; [done|]. unfold is_changed. rewrite E. tauto.
    + intros n c'. rewrite Hr. assert (current !! n = Some c' -> n <> vm_Name d) by congruence. set_solver.
Qed.

(** The operations, whether or not there are current objects. *)
Lemma operations_spec ds k current :
  getCurrentVirtualMachinesByName p k = inr current -> NoDup (map vm_Name ds) ->
  exists rest, findVirtualMachinesByOperation p (map Some ds) k =
    Returned (inr (mkOps (map Some (filter (is_new current) ds)) rest (filter (is_changed current) ds))) /\
    NoDup (map vm_key rest) /\
    forall vm, vm ∈ rest <-> current !! vm_Name vm = Some vm /\ vm_Name vm ∉ map vm_Name ds.
Proof.
  intros Hc Hnd. pose proof (current_spec k current Hc) as Hs.
  assert (forall n c, current !! n = Some c -> vm_key c = (ces_namespace (ap_selector p), n)) as Hkey.
  { intros n c [? _]%Hs. eauto using vms_key. }
  unfold findVirtualMachinesByOperation. rewrite Hc. case_decide as Hz.
  - apply map_size_empty_inv in Hz as ->. exists []. rewrite (filter_Forall (is_new ∅)), (filter_Forall_not (is_changed ∅)).
    + split; [done|]. split; [constructor|]. intros vm. rewrite lookup_empty. set_solver.
    + apply list.Forall_forall. intros x _. unfold is_changed. rewrite lookup_empty. tauto.
    + apply list.Forall_forall. intros x _. unfold is_new. by rewrite lookup_empty.
  - destruct (sort_discovered_spec ds current [] [] Hnd) as (rest & -> & Hr). { intros n c E. apply Hkey in E. by injection E. }
    exists (map snd (go_range rest)). split; [done|].
    assert (forall n c, rest !! n = Some c -> vm_Name c = n) as Hn. { intros n c [E%Hkey _]%Hr. by injection E. }
    split.
    + apply (NoDup_fmap_1 snd). rewrite <- list_fmap_compose. change (NoDup (map vm_Name (map snd (go_range rest)))).
      rewrite (go_range_values_keys vm_Name rest Hn). apply NoDup_go_range_keys.
    + intros vm. rewrite elem_of_go_range_values. split.
      * intros [n Hv]. rewrite (Hn _ _ Hv). by apply Hr.
      * intros H. exists (vm_Name vm). by apply Hr.
Qed.

(** ** Nothing else is touched *)

(** The objects of [k0] that are not the selector's are in [k]. *)
Definition kept (k0 k : Kube) : Prop := forall n o, vms k0 !! n = Some o -> ~ mine n o -> vms k !! n = Some o.

(** A step that writes only under [n], where [k0] has no foreign object. *)
Lemma kept_write k0 k k' n :
  kept k0 k -> (forall o, vms k0 !! n = Some o -> mine n o) -> (forall n', n' <> n -> vms k' !! n' = vms k !! n') -> kept k0 k'.
Proof.
  intros Hk Hn Hw n' o Ho Hm. destruct (decide (n' = n)) as [->|Hne]; [by destruct Hm; apply Hn|].
  rewrite Hw by done. by apply Hk.
Qed.

Lemma status_writes vm k n : n <> vm_key vm -> vms (UpdateVMStatus vm k).2 !! n = vms k !! n.
Proof.
  intros Hn. pose proof (status_law vm k) as H. destruct (UpdateVMStatus vm k) as [[e|] k']; simpl.
  - by rewrite H.
  - destruct H as (o & _ & ->). by rewrite lookup_insert_ne.
Qed.

Lemma create_vm_kept k0 vm k : kept k0 k -> kept k0 (create_vm p vm k).2.
Proof.
  intros Hk. unfold create_vm. destruct (SetControllerReference _ _) as [|vm1]; [done|].
  pose proof (create_law vm1 k) as Hc. destruct (CreateVM vm1 k) as [[e|] k1]; simpl.
  { intros n o. rewrite Hc. apply Hk. }
  destruct Hc as [Hnone Hk1].
  assert (kept k0 (UpdateVMStatus (vm_with_status (vm_Status vm1) vm1) k1).2) as H.
  { intros n o Ho Hm. specialize (Hk n o Ho Hm). assert (n <> vm_key vm1) by congruence.
    rewrite status_writes by done. by rewrite Hk1, lookup_insert_ne. }
  destruct (UpdateVMStatus _ _) as [[e|] k2]; done.
Qed.

Lemma create_vms_kept k0 l k es k' : create_vms p l k = Some (es, k') -> kept k0 k -> kept k0 k'.
Proof.
  revert k es. induction l as [|[vm|] l IH]; intros k es; simpl; [by intros [= <- <-]| |done].
  pose proof (create_vm_kept k0 vm k) as Hc. destruct (create_vm p vm k) as [es1 k1].
  destruct (create_vms p l k1) as [[es2 k2]|] eqn:E; [|done]. intros [= <- <-] Hk. eauto.
Qed.

Lemma delete_vm_kept k0 vm k : kept k0 k -> (forall o, vms k0 !! vm_key vm = Some o -> mine (vm_key vm) o) -> kept k0 (delete_vm vm k).2.
Proof.
  intros Hk Hm. apply (kept_write k0 k _ (vm_key vm) Hk Hm). intros n Hn. unfold delete_vm. pose proof (delete_law vm k) as H.
  destruct (DeleteVM vm k) as [[[|e]|] k']; simpl; [by destruct H as [_ ->]|by rewrite H|by rewrite H, lookup_delete_ne].
Qed.

Lemma update_vm_kept k0 vm k : kept k0 k -> (forall o, vms k0 !! vm_key vm = Some o -> mine (vm_key vm) o) -> kept k0 (update_vm vm k).2.
Proof.
  intros Hk Hm. unfold update_vm. pose proof (get_law (vm_key vm) k) as Hg.
  destruct (GetVM (vm_key vm) k) as [[|e]|cur]; [|done|].
  - match goal with |- context [UpdateVMStatus ?x k] => set (w := x) end.
    assert (vms (UpdateVMStatus w k).2 = vms k) as Hw.
    { pose proof (status_law w k) as H. destruct (UpdateVMStatus w k) as [[e|] k']; [done|].
      destruct H as (o & Ho & _). by rewrite vms_named in Ho. }
    destruct (UpdateVMStatus w k) as [[e|] k']; simpl in *; intros n o; rewrite Hw; apply Hk.
  - apply vms_key in Hg. match goal with |- context [UpdateVMStatus ?x k] => set (w := x) end.
    assert (vm_key w = vm_key vm) as Hwk by done.
    assert (kept k0 (UpdateVMStatus w k).2) as H.
    { apply (kept_write k0 k _ (vm_key vm) Hk Hm). intros n Hn. apply status_writes. by rewrite Hwk. }
    destruct (UpdateVMStatus w k) as [[e|] k']; done.
Qed.

Lemma for_each_kept (step : VirtualMachine -> Kube -> list KError * Kube) k0 (P : VirtualMachine -> Prop) l k :
  (forall vm k, P vm -> kept k0 k -> kept k0 (step vm k).2) -> Forall P l -> kept k0 k -> kept k0 (for_each step l k).2.
Proof.
  intros Hs Hl. revert k. induction Hl as [|vm l Hvm _ IH]; intros k Hk; [done|]. simpl.
  pose proof (Hs vm k Hvm Hk) as H1. destruct (step vm k) as [es k1]. specialize (IH k1 H1).
  by destruct (for_each step l k1).
Qed.

Lemma sort_discovered_sub ds current create update rest create' update' :
  sort_discovered ds current create update = Some (rest, create', update') ->
  rest ⊆ current /\ forall d, d ∈ update' -> d ∈ update \/ Some d ∈ ds /\ is_Some (current !! vm_Name d).
Proof.
  revert current create update. induction ds as [|[d|] ds IH]; intros current create update; simpl; [|destruct (current !! vm_Name d) as [c|] eqn:E|done].
  - intros [= <- <- <-]. auto.
  - intros [Hr Hu]%IH. split; [etrans; [exact Hr|apply delete_subseteq]|]. intros x [Hx|[Hin Hx]]%Hu.
    + case_match; [by left|]. apply elem_of_app in Hx as [?| ->%list_elem_of_singleton]; [by left|].
      right. split; [left|by rewrite E].
    + right. split; [by right|]. destruct Hx as [y [_ Hy]%lookup_delete_Some]. eauto.
  - intros [Hr Hu]%IH. split; [done|]. intros x [Hx|[Hin Hx]]%Hu; [by left|right]. split; [by right|done].
Qed.

Lemma operations_kept ds k es k' :
  (forall d, Some d ∈ ds -> vm_Namespace d = ces_namespace (ap_selector p)) ->
  doVirtualMachineOperations p ds k = Returned (es, k') -> kept k k'.
Proof.
  intros Hns. unfold doVirtualMachineOperations, findVirtualMachinesByOperation.
  destruct (getCurrentVirtualMachinesByName p k) as [|current] eqn:Hc; [intros [= <- <-] n o; done|].
  pose proof (current_spec k current Hc) as Hs.
  assert (forall n c, current !! n = Some c -> vm_key c = (ces_namespace (ap_selector p), n)) as Hkey.
  { intros n c [? _]%Hs. eauto using vms_key. }
  set (P := fun vm => forall o, vms k !! vm_key vm = Some o -> mine (vm_key vm) o).
  assert (forall ops, Forall P (toDelete ops) -> Forall P (toUpdate ops) ->
    match create_vms p (toCreate ops) k with
    | None => Panicked
    | Some (es1, k1) =>
        let '(es2, k2) := for_each delete_vm (toDelete ops) k1 in
        let '(es3, k3) := for_each update_vm (toUpdate ops) k2 in Returned ((es1 ++ es2 ++ es3)%list, k3)
    end = Returned (es, k') -> kept k k') as Hrun.
  { intros ops Hd Hu. destruct (create_vms p (toCreate ops) k) as [[es1 k1]|] eqn:E; [|done].
    apply (create_vms_kept k) in E; [|by intros n o].
    pose proof (for_each_kept delete_vm k P _ k1 (fun vm k' H1 H2 => delete_vm_kept k vm k' H2 H1) Hd E) as H2.
    destruct (for_each delete_vm _ k1) as [es2 k2].
    pose proof (for_each_kept update_vm k P _ k2 (fun vm k' H1 H2 => update_vm_kept k vm k' H2 H1) Hu H2) as H3.
    destruct (for_each update_vm _ k2) as [es3 k3]. by intros [= _ <-]. }
  case_decide; [apply Hrun; constructor|].
  destruct (sort_discovered ds current [] []) as [[[rest create] update]|] eqn:E; [|done].
  apply sort_discovered_sub in E as [Hr Hu]. apply Hrun; apply list.Forall_forall; simpl; unfold P.
  - intros c [n Hn]%elem_of_go_range_values o Ho. apply (lookup_weaken _ _ _ _ Hn) in Hr. pose proof Hr as [Hv Hown]%Hs.
    pose proof (Hkey _ _ Hr) as Ek. rewrite Ek in *. split; [done|]. by pose proof (eq_trans (eq_sym Ho) Hv) as [= ->].
  - intros d [?%not_elem_of_nil|[Hin [c Hcur]]]%Hu o Ho; [done|]. pose proof Hcur as [Hv Hown]%Hs. unfold vm_key in *.
    rewrite (Hns d Hin) in *. split; [done|]. by pose proof (eq_trans (eq_sym Ho) Hv) as [= ->].
Qed.

(** C16: Whatever the Kubernetes API answers, a poll that returns changes no
    object of another namespace and none without an owner reference to the
    poller's selector: it may fail half-way, but never writes to the objects of
    others. *)
Theorem poll_keeps_others ds k es k' :
  (forall d, Some d ∈ ds -> vm_Namespace d = ces_namespace (ap_selector p)) ->
  doVirtualMachineOperations p ds k = Returned (es, k') ->
  forall n o, vms k !! n = Some o -> n.1 <> ces_namespace (ap_selector p) \/ ~ owned o -> vms k' !! n = Some o.
Proof.
  intros Hns Hrun n o Ho Hm. apply (operations_kept ds k es k' Hns Hrun n o Ho). unfold mine. tauto.
Qed.

(** ** Runs without errors *)

Lemma create_vm_done c k k' :
  create_vm p c k = ([], k') ->
  (exists o, vms k' !! vm_key c = Some o /\ owned o /\ vm_Status o = vm_Status c) /\
  (forall n, n <> vm_key c -> vms k' !! n = vms k !! n).
Proof.
  unfold create_vm. destruct (SetControllerReference _ _) as [|vm1] eqn:Ev; [done|].
  apply reference_law in Ev as (owners & -> & Howner). simpl.
  match goal with |- context [CreateVM ?x k] => set (vm1 := x) end.
  pose proof (create_law vm1 k) as H1. destruct (CreateVM vm1 k) as [[e|] k0]; [done|]. destruct H1 as [_ H1].
  match goal with |- context [UpdateVMStatus ?x k0] => set (vm2 := x) end.
  pose proof (status_law vm2 k0) as H2. destruct (UpdateVMStatus vm2 k0) as [[e|] k0']; [done|].
  destruct H2 as (o & Ho & H2). intros [= <-]. rewrite H2. change (vm_key vm2) with (vm_key c) in *.
  rewrite H1 in *. change (vm_key vm1) with (vm_key c) in *. rewrite lookup_insert_eq in Ho. injection Ho as <-. split.
  - eexists. split; [by rewrite lookup_insert_eq|]. done.
  - intros n Hn. by rewrite !lookup_insert_ne.
Qed.

Lemma create_vms_done cs k k' :
  create_vms p (map Some cs) k = Some ([], k') -> NoDup (map vm_key cs) ->
  (forall c, c ∈ cs -> exists o, vms k' !! vm_key c = Some o /\ owned o /\ vm_Status o = vm_Status c) /\
  (forall n, n ∉ map vm_key cs -> vms k' !! n = vms k !! n).
Proof.
  revert k. induction cs as [|c cs IH]; intros k; simpl.
  { intros [= <-] _. split; [intros c []%not_elem_of_nil|done]. }
  destruct (create_vm p c k) as [es1 k1] eqn:Ec. destruct (create_vms p (map Some cs) k1) as [[es2 k2]|] eqn:Er; [|done].
  intros [= [-> ->]%app_eq_nil <-] [Hc Hnd]%NoDup_cons. destruct (IH k1 Er Hnd) as [Hcs Hrest].
  destruct (create_vm_done c k k1 Ec) as [Hnew Hframe]. split.
  - intros x [->|Hx]%elem_of_cons; [|by apply Hcs]. destruct Hnew as (o & Ho & ?). exists o. by rewrite Hrest.
  - intros n [Hn Hn']%not_elem_of_cons. rewrite Hrest by done. by apply Hframe.
Qed.

Lemma delete_vms_done l k k' :
  for_each delete_vm l k = ([], k') -> forall n, vms k' !! n = if decide (n ∈ map vm_key l) then None else vms k !! n.
Proof.
  revert k. induction l as [|vm l IH]; intros k; cbn [for_each map].
  { intros [= <-] n. by rewrite decide_False by apply not_elem_of_nil. }
  destruct (delete_vm vm k) as [es1 k1] eqn:E. destruct (for_each delete_vm l k1) as [es2 k2] eqn:El.
  intros [= [-> ->]%app_eq_nil <-] n. rewrite (IH k1 El).
  assert (vms k1 = delete (vm_key vm) (vms k)) as ->.
  { revert E. unfold delete_vm. pose proof (delete_law vm k) as H. destruct (DeleteVM vm k) as [[[|e]|] k0]; [|done|]; intros [= <-]; [|done].
    destruct H as [H ->]. by rewrite delete_id. }
  destruct (decide (n = vm_key vm)) as [->|Hn].
  - rewrite lookup_delete_eq. rewrite (decide_True _ _ (list_elem_of_here (vm_key vm) (map vm_key l))). by case_decide.
  - rewrite lookup_delete_ne by done. apply decide_ext. rewrite elem_of_cons. tauto.
Qed.

Lemma update_vm_done d k k' :
  update_vm d k = ([], k') ->
  exists o, vms k !! vm_key d = Some o /\ vms k' = <[vm_key d := vm_with_status (vm_Status d) o]> (vms k).
Proof.
  unfold update_vm. pose proof (get_law (vm_key d) k) as Hg. destruct (GetVM (vm_key d) k) as [[|e]|cur]; [|done|];
    match goal with |- context [UpdateVMStatus ?x k] => set (w := x) end;
    pose proof (status_law w k) as H; destruct (UpdateVMStatus w k) as [[e|] k0]; try done; intros [= <-];
    destruct H as (o & Ho & ->).
  - by rewrite vms_named in Ho.
  - assert (vm_key w = vm_key d) as Hw by apply (vms_key _ _ _ Hg). rewrite Hw in *. exists o. split; [done|]. f_equal.
    subst w. simpl. by destruct (vm_Status d).
Qed.

Lemma update_vms_done l k k' :
  for_each update_vm l k = ([], k') -> NoDup (map vm_key l) ->
  (forall d, d ∈ l -> exists o, vms k !! vm_key d = Some o /\ vms k' !! vm_key d = Some (vm_with_status (vm_Status d) o)) /\
  (forall n, n ∉ map vm_key l -> vms k' !! n = vms k !! n).
Proof.
  revert k. induction l as [|d l IH]; intros k; simpl.
  { intros [= <-] _. split; [intros d []%not_elem_of_nil|done]. }
  destruct (update_vm d k) as [es1 k1] eqn:E. destruct (for_each update_vm l k1) as [es2 k2] eqn:El.
  intros [= [-> ->]%app_eq_nil <-] [Hd Hnd]%NoDup_cons. destruct (IH k1 El Hnd) as [Hl Hrest].
  destruct (update_vm_done d k k1 E) as (o & Ho & Hk1). split.
  - intros x [->|Hx]%elem_of_cons.
    + exists o. split; [done|]. by rewrite Hrest, Hk1, lookup_insert_eq.
    + destruct (Hl x Hx) as (o' & Ho' & ?). exists o'. split; [|done]. rewrite Hk1, lookup_insert_ne in Ho'; [done|].
      intros Hn. apply Hd. rewrite Hn. apply list_elem_of_fmap. eauto.
  - intros n [Hn Hn']%not_elem_of_cons. by rewrite Hrest, Hk1, lookup_insert_ne by done.
Qed.

(** ** Convergence *)

(** The selector's objects are the discovered virtual machines. *)
Definition settled (ds : list VirtualMachine) (k : Kube) : Prop :=
  (forall d, d ∈ ds -> exists o, vms k !! vm_key d = Some o /\ owned o /\
     areDiscoveredFieldsSameVirtualMachineStatus (vm_Status o) (vm_Status d) = true) /\
  (forall n o, vms k !! (ces_namespace (ap_selector p), n) = Some o -> owned o -> n ∈ map vm_Name ds).

(** What a poll is given: distinct names, in the selector's namespace. *)
Definition discovered_ok (ds : list VirtualMachine) : Prop :=
  NoDup (map vm_Name ds) /\ forall d, d ∈ ds -> vm_Namespace d = ces_namespace (ap_selector p).

Lemma discovered_key ds d : discovered_ok ds -> d ∈ ds -> vm_key d = (ces_namespace (ap_selector p), vm_Name d).
Proof. intros [_ Hns] Hd. unfold vm_key. by rewrite Hns. Qed.

Lemma discovered_key_in ds (P : VirtualMachine -> Prop) `{!forall d, Decision (P d)} d :
  discovered_ok ds -> d ∈ ds -> vm_key d ∈ map vm_key (filter P ds) <-> P d.
Proof.
  intros Hok Hd. rewrite list_elem_of_fmap. split.
  - intros (d' & Hk & [Hp Hd']%list_elem_of_filter). rewrite (discovered_key ds d), (discovered_key ds d') in Hk by done.
    injection Hk as Hn. by rewrite (NoDup_key_inj vm_Name ds d d' (proj1 Hok) Hd Hd' Hn).
  - intros Hp. exists d. split; [done|]. by apply list_elem_of_filter.
Qed.

Lemma discovered_keys_NoDup ds (P : VirtualMachine -> Prop) `{!forall d, Decision (P d)} :
  discovered_ok ds -> NoDup (map vm_key (filter P ds)).
Proof.
  intros [Hnd _]. apply (NoDup_fmap_1 snd). rewrite <- list_fmap_compose.
  eapply sublist_NoDup; [exact Hnd|]. apply (fmap_sublist vm_Name), sublist_filter.
Qed.

Lemma key_not_discovered ds (P : VirtualMachine -> Prop) `{!forall d, Decision (P d)} ns n :
  n ∉ map vm_Name ds -> (ns, n) ∉ map vm_key (filter P ds).
Proof.
  intros Hn (d & [= _ ->] & [_ Hd]%list_elem_of_filter)%list_elem_of_fmap. apply Hn, list_elem_of_fmap. eauto.
Qed.

(** A poll without errors, step by step. *)
Lemma error_free_run ds k k' :
  discovered_ok ds -> doVirtualMachineOperations p (map Some ds) k = Returned ([], k') ->
  exists current rest k1 k2, getCurrentVirtualMachinesByName p k = inr current /\
    (forall vm, vm ∈ rest <-> current !! vm_Name vm = Some vm /\ vm_Name vm ∉ map vm_Name ds) /\
    create_vms p (map Some (filter (is_new current) ds)) k = Some ([], k1) /\
    for_each delete_vm rest k1 = ([], k2) /\ for_each update_vm (filter (is_changed current) ds) k2 = ([], k').
Proof.
  intros [Hnd Hns]. unfold doVirtualMachineOperations. destruct (getCurrentVirtualMachinesByName p k) as [e|current] eqn:Hc.
  { unfold findVirtualMachinesByOperation. by rewrite Hc. }
  destruct (operations_spec ds k current Hc Hnd) as (rest & -> & _ & Hr). simpl.
  destruct (create_vms p _ k) as [[es1 k1]|] eqn:E1; [|done]. destruct (for_each delete_vm rest k1) as [es2 k2] eqn:E2.
  destruct (for_each update_vm _ k2) as [es3 k3] eqn:E3. intros [= [-> [-> ->]%app_eq_nil]%app_eq_nil <-].
  exists current, rest, k1, k2. done.
Qed.

Lemma error_free_settles ds k k' :
  discovered_ok ds -> doVirtualMachineOperations p (map Some ds) k = Returned ([], k') -> settled ds k'.
Proof.
  intros Hok Hrun. destruct (error_free_run ds k k' Hok Hrun) as (current & rest & k1 & k2 & Hc & Hr & E1 & E2 & E3).
  pose proof (current_spec k current Hc) as Hs.
  destruct (create_vms_done _ _ _ E1 (discovered_keys_NoDup ds _ Hok)) as [Hnew Hframe1].
  pose proof (delete_vms_done _ _ _ E2) as Hdel.
  destruct (update_vms_done _ _ _ E3 (discovered_keys_NoDup ds _ Hok)) as [Hupd Hframe3].
  assert (forall d, d ∈ ds -> vms k2 !! vm_key d = vms k1 !! vm_key d) as Hkept.
  { intros d Hd. rewrite Hdel, decide_False; [done|]. intros (vm & [= _ Hn] & [_ Hvm]%Hr)%list_elem_of_fmap.
    apply Hvm. rewrite <- Hn. apply list_elem_of_fmap. eauto. }
  split.
  - intros d Hd. destruct (current !! vm_Name d) as [c|] eqn:Ec.
    + assert (vms k2 !! vm_key d = Some c /\ owned c) as [H2 Ho].
      { rewrite Hkept by done. rewrite Hframe1; [rewrite (discovered_key ds d) by done; by apply Hs|].
        rewrite discovered_key_in by done. unfold is_new. congruence. }
      destruct (decide (is_changed current d)) as [Hch|Hch].
      * destruct (Hupd d) as (o & Ho' & H3); [by apply list_elem_of_filter|]. rewrite H2 in Ho'. injection Ho' as <-.
        eexists. split; [exact H3|]. split; [done|]. apply same_status_refl.
      * exists c. rewrite Hframe3 by (by rewrite discovered_key_in). split; [done|]. split; [done|].
        unfold is_changed in Hch. rewrite Ec in Hch. by destruct (areDiscoveredFieldsSameVirtualMachineStatus _ _).
    + destruct (Hnew d) as (o & Ho & Hown & Hst); [by apply list_elem_of_filter|]. exists o.
      rewrite Hframe3, Hkept by (rewrite ?discovered_key_in by done; unfold is_changed; rewrite ?Ec; tauto).
      split; [done|]. split; [done|]. rewrite Hst. apply same_status_refl.
  - intros n o Ho Hown. destruct (decide (n ∈ map vm_Name ds)) as [|Hn]; [done|]. exfalso.
    rewrite Hframe3, Hdel in Ho by (by apply key_not_discovered). case_decide as Hd; [done|]. apply Hd.
    rewrite Hframe1 in Ho by (by apply key_not_discovered). pose proof (vms_key _ _ _ Ho) as Hk. apply list_elem_of_fmap.
    exists o. split; [done|]. injection Hk as _ Hk. rewrite Hr, Hk. split; [|done]. by apply Hs.
Qed.

(** A settled selector needs nothing. *)
Lemma settled_stays ds k current :
  discovered_ok ds -> settled ds k -> getCurrentVirtualMachinesByName p k = inr current ->
  doVirtualMachineOperations p (map Some ds) k = Returned ([], k).
Proof.
  intros Hok [Hds Hothers] Hc. pose proof (current_spec k current Hc) as Hs.
  assert (forall d, d ∈ ds -> exists o, current !! vm_Name d = Some o /\
    areDiscoveredFieldsSameVirtualMachineStatus (vm_Status o) (vm_Status d) = true) as Hcur.
  { intros d Hd. destruct (Hds d Hd) as (o & Ho & Hown & ?). exists o. split; [|done]. apply Hs.
    by rewrite (discovered_key ds d) in Ho. }
  destruct (operations_spec ds k current Hc (proj1 Hok)) as (rest & Hops & _ & Hr).
  unfold doVirtualMachineOperations. rewrite Hops. cbn [toCreate toDelete toUpdate].
  rewrite (filter_Forall_not (is_new current)), (filter_Forall_not (is_changed current)).
  - destruct rest as [|vm rest]; [done|]. destruct (proj1 (Hr vm) (list_elem_of_here _ _)) as [Hvm Hn].
    apply Hs in Hvm as [Hvm Hown]. by destruct Hn; apply (Hothers _ vm).
  - apply list.Forall_forall. intros d Hd. destruct (Hcur d Hd) as (o & Ho & Hsame). unfold is_changed. rewrite Ho. congruence.
  - apply list.Forall_forall. intros d Hd. destruct (Hcur d Hd) as (o & Ho & _). unfold is_new. congruence.
Qed.

(** ** Progress *)

(** A discovered machine has a name and no owner yet. *)
Definition fresh (d : VirtualMachine) : Prop := vm_Name d <> "" /\ vm_OwnerReferences d = [].

Section Healthy.
Context {KH : KubeHealthy KC}.

Lemma create_vm_runs c k : vms k !! vm_key c = None -> fresh c -> exists k', create_vm p c k = ([], k').
Proof.
  intros Hno [Hname Howners]. unfold create_vm. destruct (reference_served (ap_selector p) c Howners) as [vm1 Hvm1]. rewrite Hvm1.
  apply reference_law in Hvm1 as (owners & -> & _). simpl. match goal with |- context [CreateVM ?x k] => set (vm1 := x) end.
  pose proof (create_served vm1 k Hname Hno) as Hc. pose proof (create_law vm1 k) as Hl.
  destruct (CreateVM vm1 k) as [e k1]. simpl in Hc. subst e. destruct Hl as [_ Hl].
  match goal with |- context [UpdateVMStatus ?x k1] => set (vm2 := x) end.
  pose proof (status_served vm2 k1) as Hs. destruct (UpdateVMStatus vm2 k1) as [e k2]. simpl in Hs. exists k2.
  rewrite Hs; [done|]. rewrite Hl. change (vm_key vm2) with (vm_key vm1). by rewrite lookup_insert_eq.
Qed.

Lemma create_vms_run cs k :
  (forall c, c ∈ cs -> vms k !! vm_key c = None /\ fresh c) -> NoDup (map vm_key cs) ->
  exists k', create_vms p (map Some cs) k = Some ([], k').
Proof.
  revert k. induction cs as [|c cs IH]; intros k Hcs Hnd; [by eexists|]. apply NoDup_cons in Hnd as [Hc Hnd]. simpl.
  destruct (Hcs c (list_elem_of_here _ _)) as [Hno Howners]. destruct (create_vm_runs c k Hno Howners) as [k1 E]. rewrite E.
  destruct (IH k1) as [k2 ->]; [|done|by eexists]. intros x Hx. destruct (Hcs x) as [? ?]; [by right|]. split; [|done].
  rewrite (proj2 (create_vm_done c k k1 E)); [done|]. intros Hk. apply Hc. rewrite <- Hk. apply list_elem_of_fmap. eauto.
Qed.

Lemma delete_vms_run l k : exists k', for_each delete_vm l k = ([], k').
Proof.
  revert k. induction l as [|vm l IH]; intros k; [by eexists|]. simpl.
  assert (exists k1, delete_vm vm k = ([], k1)) as [k1 ->].
  { unfold delete_vm. pose proof (delete_served vm k) as H. destruct (DeleteVM vm k) as [[[|e]|] k1]; [by eexists| |by eexists].
    by destruct (H e). }
  destruct (IH k1) as [k2 ->]. by eexists.
Qed.

Lemma update_vms_run l k : (forall d, d ∈ l -> is_Some (vms k !! vm_key d)) -> exists k', for_each update_vm l k = ([], k').
Proof.
  revert k. induction l as [|d l IH]; intros k Hl; [by eexists|]. simpl.
  assert (exists k1, update_vm d k = ([], k1)) as [k1 E].
  { destruct (Hl d (list_elem_of_here _ _)) as [o Ho]. unfold update_vm. pose proof (get_law (vm_key d) k) as Hg.
    pose proof (get_served (vm_key d) k) as Hs. destruct (GetVM (vm_key d) k) as [[|e]|cur]; [congruence|by destruct (Hs e)|].
    match goal with |- context [UpdateVMStatus ?x k] => set (w := x) end. pose proof (status_served w k) as Hw.
    destruct (UpdateVMStatus w k) as [e k1]. simpl in Hw. rewrite Hw; [by eexists|].
    change (vm_key w) with (vm_key cur). rewrite (vms_key _ _ _ Hg). eauto. }
  rewrite E. destruct (IH k1) as [k2 ->]; [|by eexists]. destruct (update_vm_done d k k1 E) as (o & _ & ->).
  intros x Hx. rewrite lookup_insert_is_Some. destruct (decide (vm_key d = vm_key x)); [by left|right]. split; [done|].
  apply Hl. by right.
Qed.

Lemma operations_run ds k :
  discovered_ok ds -> (forall d, d ∈ ds -> fresh d) ->
  (forall d o, d ∈ ds -> vms k !! vm_key d = Some o -> owned o) ->
  exists k', doVirtualMachineOperations p (map Some ds) k = Returned ([], k').
Proof.
  intros Hok Howners Hfree. destruct (list_served (ces_namespace (ap_selector p)) k) as [l Hl].
  destruct (getCurrentVirtualMachinesByName p k) as [e|current] eqn:Hc.
  { unfold getCurrentVirtualMachinesByName in Hc. by rewrite Hl in Hc. }
  pose proof (current_spec k current Hc) as Hs.
  destruct (operations_spec ds k current Hc (proj1 Hok)) as (rest & Hops & _ & Hr). unfold doVirtualMachineOperations.
  rewrite Hops. cbn [toCreate toDelete toUpdate]. destruct (create_vms_run (filter (is_new current) ds) k) as [k1 E1].
  { intros c [Hnew Hd]%list_elem_of_filter. split; [|by apply Howners]. destruct (vms k !! vm_key c) as [o|] eqn:Ho; [|done].
    exfalso. unfold is_new in Hnew. pose proof (Hfree c o Hd Ho) as Hown. rewrite (discovered_key ds c) in Ho by done.
    assert (current !! vm_Name c = Some o) by (by apply Hs). congruence. }
  { by apply discovered_keys_NoDup. }
  rewrite E1. destruct (delete_vms_run rest k1) as [k2 E2]. rewrite E2.
  destruct (update_vms_run (filter (is_changed current) ds) k2) as [k3 ->]; [|by exists k3].
  intros d [Hch Hd]%list_elem_of_filter. unfold is_changed in Hch. destruct (current !! vm_Name d) as [c|] eqn:Ec; [|done].
  rewrite (delete_vms_done _ _ _ E2), decide_False.
  - rewrite (proj2 (create_vms_done _ _ _ E1 (discovered_keys_NoDup ds _ Hok))).
    + apply Hs in Ec as [Hv _]. rewrite (discovered_key ds d) by done. eauto.
    + rewrite discovered_key_in by done. unfold is_new. congruence.
  - intros (vm & [= _ Hn] & [_ Hvm]%Hr)%list_elem_of_fmap. apply Hvm. rewrite <- Hn. apply list_elem_of_fmap. eauto.
Qed.


End Healthy.

End Polls.
