(* ===== verification/PollerSim.v ===== *)
(** * A simulated Kubernetes API

    An instance of the client that satisfies the laws and serves every request,
    and polls run on it. *)

From stdpp Require Import base strings list gmap.
From Stdlib Require Import ZArith Lia.
From S2P Require Import Prelude GoStrings AwsModel Selector VirtualMachine AzureModel Accounts Plugins Poller PollerTheorems.

#[local] Open Scope string_scope.

(** The objects, without those that have no name. *)
Record SimKubeState := mkSimKube {
  sk_vms : gmap NamespacedName VirtualMachine;
  sk_accounts : gmap NamespacedName CloudProviderAccount;
  sk_selectors : gmap NamespacedName CloudEntitySelector
}.

Definition sk_with (m : gmap NamespacedName VirtualMachine) (k : SimKubeState) : SimKubeState :=
  mkSimKube m (sk_accounts k) (sk_selectors k).

(** Only well-formed entries are objects. *)
Definition well_keyed (e : NamespacedName * VirtualMachine) : Prop := vm_key e.2 = e.1 /\ e.1 <> ("", "").
#[export] Instance well_keyed_dec e : Decision (well_keyed e).
Proof. unfold well_keyed. apply _. Defined.

Definition sim_vms (k : SimKubeState) : gmap NamespacedName VirtualMachine := filter well_keyed (sk_vms k).

Definition found {A} (o : option A) : KError + A := match o with Some a => inr a | None => inl NotFound end.

#[export] Instance SimKube : KubeClient := {|
  Kube := SimKubeState;
  ListVMs ns k := inr (filter (fun vm => vm_Namespace vm = ns) (map snd (map_to_list (sim_vms k))));
  GetVM n k := found (sim_vms k !! n);
  CreateVM vm k :=
    if decide (vm_key vm = ("", "")) then (Some (OtherError "name is required"), k)
    else match sim_vms k !! vm_key vm with
         | Some _ => (Some (OtherError "already exists"), k)
         | None => (None, sk_with (<[vm_key vm := vm_with_status emptyStatus vm]> (sim_vms k)) k)
         end;
  UpdateVMStatus vm k :=
    match sim_vms k !! vm_key vm with
    | None => (Some NotFound, k)
    | Some o => (None, sk_with (<[vm_key vm := vm_with_status (vm_Status vm) o]> (sim_vms k)) k)
    end;
  DeleteVM vm k :=
    match sim_vms k !! vm_key vm with
    | None => (Some NotFound, k)
    | Some _ => (None, sk_with (delete (vm_key vm) (sim_vms k)) k)
    end;
  GetAccount n k := found (sk_accounts k !! n);
  UpdateAccountStatus a k := (None, mkSimKube (sk_vms k) (<[cpa_Name a := a]> (sk_accounts k)) (sk_selectors k));
  GetSelector n k := found (sk_selectors k !! n);
  ListVMsByOwner ns owner k :=
    inr (filter (fun vm => vm_Namespace vm = ns /\ (or_Name <$> head (vm_OwnerReferences vm)) = Some owner) (map snd (map_to_list (sim_vms k))));
  SetControllerReference s vm :=
    inr (mkVM (vm_Name vm) (vm_Namespace vm) (vm_Annotations vm)
           (mkOwner "CloudEntitySelector" (ces_name s) :: vm_OwnerReferences vm) (vm_Status vm))
|}.

Lemma sim_vms_keys (k : SimKubeState) n vm : sim_vms k !! n = Some vm -> well_keyed (n, vm).
Proof. by intros [_ ?]%map_lookup_filter_Some. Qed.

(** Well-formed maps are kept as they are. *)
Lemma sim_vms_with m k : map_Forall (fun n vm => well_keyed (n, vm)) m -> sim_vms (sk_with m k) = m.
Proof. intros Hm. apply map_filter_id. intros n vm Hn. by apply Hm. Qed.

Lemma sim_vms_Forall k : map_Forall (fun n vm => well_keyed (n, vm)) (sim_vms k).
Proof. intros n vm. apply sim_vms_keys. Qed.

#[export] Instance SimKubeLaws : KubeLaws SimKube.
Proof.
  refine {| vms := sim_vms |}.
  - by intros k n vm [? _]%sim_vms_keys.
  - intros k. destruct (sim_vms k !! ("", "")) eqn:E; [|done]. by apply sim_vms_keys in E as [_ []].
  - intros ns k l [= <-] vm. rewrite list_elem_of_filter, list_elem_of_fmap. split.
    + intros (Hns & [n vm'] & -> & Hin%elem_of_map_to_list). destruct (sim_vms_keys _ _ _ Hin) as [Hk _]. simpl in *. by rewrite Hk.
    + intros [Hk Hns]. split; [done|]. exists (vm_key vm, vm). split; [done|]. by apply elem_of_map_to_list.
  - intros n k. simpl. by destruct (sim_vms k !! n).
  - intros vm k. simpl. case_decide as Hv; [done|]. destruct (sim_vms k !! vm_key vm) eqn:E; [done|]. split; [done|].
    apply sim_vms_with, map_Forall_insert_2; [by split|apply sim_vms_Forall].
  - intros vm k. simpl. destruct (sim_vms k !! vm_key vm) as [o|] eqn:E; [|done]. exists o. split; [done|].
    apply sim_vms_with, map_Forall_insert_2; [by apply sim_vms_keys in E|apply sim_vms_Forall].
  - intros vm k. simpl. destruct (sim_vms k !! vm_key vm) as [o|] eqn:E; [|done].
    apply sim_vms_with, map_Forall_delete, sim_vms_Forall.
  - done.
  - intros s vm vm' [= <-]. eexists. split; [done|]. left.
Defined.

#[export] Instance SimKubeHealthy : KubeHealthy SimKube.
Proof.
  split.
  - by eexists.
  - intros n k e. simpl. by destruct (sim_vms k !! n).
  - intros vm k Hn E. simpl in *. rewrite decide_False; [by rewrite E|]. by intros [= _ ?].
  - intros vm k [o E]. simpl in *. by rewrite E.
  - intros vm k e. simpl. by destruct (sim_vms k !! vm_key vm).
  - by eexists.
Qed.

(** ** Polls *)

Definition web_poller : accountPoller := mkPoller 60 AWSCloudProvider ("ns", "aws") (mkCES "ns" "sel" "aws" [] true).

Definition sim_status (state : string) : VirtualMachineStatus := mkVMStatus "AWS" "vpc-1" ∅ [] state.
Definition sim_vm (name state : string) (owners : list OwnerReference) : VirtualMachine :=
  mkVM name "ns" ∅ owners (sim_status state).
Definition sel_owner : OwnerReference := mkOwner "CloudEntitySelector" "sel".

(** Object [i-1] is out of date, [i-2] is gone, [i-3] is new; [i-9] has another
    owner. *)
Definition sim_objects : list VirtualMachine :=
  [sim_vm "i-1" "running" [sel_owner]; sim_vm "i-2" "running" [sel_owner]; sim_vm "i-9" "running" [mkOwner "CloudEntitySelector" "other"]].
Definition sim_kube : SimKubeState := mkSimKube (list_to_map (map (fun vm => (vm_key vm, vm)) sim_objects)) ∅ ∅.
Definition sim_discovered : list VirtualMachine := [sim_vm "i-1" "stopped" []; sim_vm "i-3" "running" []].

Section Witnesses.
#[local] Existing Instance map_to_list_range.

Lemma sim_discovered_ok : discovered_ok web_poller sim_discovered.
Proof.
  split.
  - apply NoDup_cons. split; [by intros ?%list_elem_of_singleton|]. apply NoDup_singleton.
  - by intros d [->|[->|[]%not_elem_of_nil]%elem_of_cons]%elem_of_cons.
Qed.

Lemma sim_discovered_fresh d : d ∈ sim_discovered -> fresh d.
Proof. by intros [->|[->|[]%not_elem_of_nil]%elem_of_cons]%elem_of_cons. Qed.

Lemma sim_discovered_free d o : d ∈ sim_discovered -> vms sim_kube !! vm_key d = Some o -> owned web_poller o.
Proof.
  intros [->|[->|[]%not_elem_of_nil]%elem_of_cons]%elem_of_cons; vm_compute; [|done]. intros [= <-]. left.
Qed.


(** The object of the other selector is there after the poll. *)
Lemma poll_keeps_others_witness :
  exists es k', doVirtualMachineOperations web_poller (map Some sim_discovered) sim_kube = Returned (es, k') /\
    vms k' !! ("ns", "i-9") = Some (sim_vm "i-9" "running" [mkOwner "CloudEntitySelector" "other"]).
Proof.
  destruct (operations_run (KC := SimKube) web_poller sim_discovered sim_kube sim_discovered_ok sim_discovered_fresh sim_discovered_free) as [k' Hrun].
  exists [], k'. split; [exact Hrun|].
  refine (poll_keeps_others (KC := SimKube) web_poller (map Some sim_discovered) sim_kube [] k' _ Hrun ("ns", "i-9") _ _ _).
  - by intros d (d' & [= ->] & Hd')%list_elem_of_fmap; apply sim_discovered_ok.
  - vm_compute. reflexivity.
  - right. by intros ?%list_elem_of_singleton.
Defined.

End Witnesses.
