(* ===== verification/Controllers.v ===== *)
(** * The account and selector controllers

    Models of [cloudprovideraccount_controller.go] and
    [cloudentityselector_controller.go]: reconciliation of account objects into
    the plug-ins and of selector objects into account pollers. *)

From stdpp Require Import base strings list gmap.
From Stdlib Require Import ZArith.
From S2P Require Import Prelude GoStrings AwsModel Selector VirtualMachine AzureModel Accounts Plugins Poller.

#[local] Open Scope string_scope.

(** The error a controller reports for one of the Kubernetes client. *)
Definition KError_String (e : KError) : error := match e with NotFound => "not found" | OtherError e => e end.

Section Controllers.
Context {RNG : MapRange} {KC : KubeClient} {Cl : Type} (providers : Providers Cl).

(** ** Accounts ([cloudprovideraccount_controller.go]) *)

Definition AccountReconciler : Type := gmap NamespacedName ProviderType.

Definition addAccountProviderType (name : NamespacedName) (provider : CloudProvider) (r : AccountReconciler) :
    ProviderType * AccountReconciler :=
  let providerType := provider_name provider in (providerType, <[name := providerType]> r).
Definition removeAccountProviderType (name : NamespacedName) (r : AccountReconciler) : AccountReconciler := delete name r.
(** A missing entry reads as the empty string. *)
Definition getAccountProviderType (name : NamespacedName) (r : AccountReconciler) : ProviderType := default "" (r !! name).

Definition acc_processCreate (name : NamespacedName) (account : CloudProviderAccount) (c : Cl) (r : AccountReconciler) :
    Outcome (option error * (Cl * AccountReconciler)) :=
  match GetAccountProviderType (cpa_Spec account) with
  | inl e => Returned (Some e, (c, r))
  | inr accountCloudType =>
      let '(cloudType, r1) := addAccountProviderType name accountCloudType r in
      match GetCloudInterface cloudType providers with
      | inl e => Returned (Some e, (c, r1))
      | inr cloud =>
          match AddProviderAccount cloud account c with
          | Returned (inl e, c1) => Returned (Some e, (c1, r1))
          | Returned (inr _, c1) => Returned (None, (c1, r1))
          | Panicked => Panicked
          | Blocked => Blocked
          end
      end
  end.

Definition acc_processDelete (name : NamespacedName) (c : Cl) (r : AccountReconciler) : option error * (Cl * AccountReconciler) :=
  match GetCloudInterface (getAccountProviderType name r) providers with
  | inl e => (Some e, (c, r))
  | inr cloud => (None, (RemoveProviderAccount cloud name c, removeAccountProviderType name r))
  end.

Definition acc_Reconcile (name : NamespacedName) (k : Kube) (c : Cl) (r : AccountReconciler) :
    Outcome (option error * (Cl * AccountReconciler)) :=
  match GetAccount name k with
  | inl NotFound => Returned (acc_processDelete name c r)
  | inl (OtherError e) => Returned (Some e, (c, r))
  | inr account =>
      match acc_processCreate name account c r with
      | Returned (Some e, (c1, r1)) => Returned (Some e, (acc_processDelete name c1 r1).2)
      | Returned (None, cr) => Returned (None, cr)
      | Panicked => Panicked
      | Blocked => Blocked
      end
  end.

(** ** Selectors ([cloudentityselector_controller.go]) *)

(** The pollers, and those whose goroutine runs; closing the channel of a poller
    stops it. *)
Record SelectorReconciler := mkSelectorReconciler {
  accPollers : gmap NamespacedName accountPoller;
  running : gset NamespacedName
}.

Definition selector_key (selector : CloudEntitySelector) : NamespacedName := (ces_namespace selector, ces_name selector).

(** The poller of the selector, or nil, and whether it was there before.  The
    account is looked up without regard to errors; its poll interval is
    dereferenced. *)
Definition addAccountPoller (selector : CloudEntitySelector) (k : Kube) (r : SelectorReconciler) :
    Outcome (option accountPoller * bool * SelectorReconciler) :=
  match accPollers r !! selector_key selector with
  | Some poller => Returned (Some poller, true, r)
  | None =>
      let accountName := (ces_namespace selector, ces_AccountName selector) in
      let account := match GetAccount accountName k with inl _ => emptyAccount | inr a => a end in
      match GetAccountProviderType (cpa_Spec account) with
      | inl _ => Returned (None, false, r)
      | inr accountCloudType =>
          match cpa_PollIntervalInSeconds account with
          | None => Panicked
          | Some interval =>
              let poller := mkPoller interval accountCloudType accountName selector in
              Returned (Some poller, false, mkSelectorReconciler (<[selector_key selector := poller]> (accPollers r)) (running r))
          end
      end
  end.

Definition removeAccountPoller (name : NamespacedName) (r : SelectorReconciler) : option accountPoller * SelectorReconciler :=
  match accPollers r !! name with
  | None => (None, r)
  | Some poller => (Some poller, mkSelectorReconciler (delete name (accPollers r)) (running r ∖ {[name]}))
  end.

Definition sel_processDelete (name : NamespacedName) (c : Cl) (r : SelectorReconciler) : option error * (Cl * SelectorReconciler) :=
  match removeAccountPoller name r with
  | (None, r1) => (None, (c, r1))
  | (Some poller, r1) =>
      match GetCloudInterface (provider_name (ap_cloudType poller)) providers with
      | inl e => (Some e, (c, r1))
      | inr cloud => (None, (RemoveAccountResourcesSelector cloud (ap_namespacedName poller) name.2 c, r1))
      end
  end.

(** A failed addition is undone when the poller is new. *)
Definition undo (preExists : bool) (name : NamespacedName) (c : Cl) (r : SelectorReconciler) : Cl * SelectorReconciler :=
  if preExists then (c, r) else (sel_processDelete name c r).2.

(** The current objects of the selector are compared with themselves; errors are
    logged. *)
Definition recompute (poller : accountPoller) (selector : CloudEntitySelector) (k : Kube) : Outcome Kube :=
  if decide (ces_VMSelector selector = []) then Returned k
  else match ListVMsByOwner (ces_namespace selector) (ces_name selector) k with
       | inl _ => Returned k
       | inr items =>
           match doVirtualMachineOperations poller (map Some items) k with
           | Returned (_, k1) => Returned k1
           | Panicked => Panicked
           | Blocked => Blocked
           end
       end.

(** A nil poller is dereferenced, by [doVirtualMachineOperations] or for its
    cloud type. *)
Definition sel_processCreateOrUpdate (selector : CloudEntitySelector) (name : NamespacedName) (k : Kube) (c : Cl)
    (r : SelectorReconciler) : Outcome (option error * (Kube * (Cl * SelectorReconciler))) :=
  match addAccountPoller selector k r with
  | Panicked => Panicked
  | Blocked => Blocked
  | Returned (None, _, _) => Panicked
  | Returned (Some poller, preExists, r1) =>
      match recompute poller selector k with
      | Panicked => Panicked
      | Blocked => Blocked
      | Returned k1 =>
          match GetCloudInterface (provider_name (ap_cloudType poller)) providers with
          | inl e => Returned (Some e, (k1, undo preExists name c r1))
          | inr cloud =>
              match AddAccountResourceSelector cloud (ap_namespacedName poller) selector c with
              | Panicked => Panicked
              | Blocked => Blocked
              | Returned (inl e, c1) => Returned (Some e, (k1, undo preExists name c1 r1))
              | Returned (inr _, c1) =>
                  Returned (None, (k1, (c1,
                    if preExists then r1 else mkSelectorReconciler (accPollers r1) ({[selector_key selector]} ∪ running r1))))
              end
          end
      end
  end.

Definition sel_Reconcile (name : NamespacedName) (k : Kube) (c : Cl) (r : SelectorReconciler) :
    Outcome (option error * (Kube * (Cl * SelectorReconciler))) :=
  match GetSelector name k with
  | inl NotFound => let '(e, cr) := sel_processDelete name c r in Returned (e, (k, cr))
  | inl (OtherError e) => Returned (Some e, (k, (c, r)))
  | inr selector => sel_processCreateOrUpdate selector name k c r
  end.

(** A turn of the goroutine of a running poller. *)
Definition poll (name : NamespacedName) (k : Kube) (c : Cl) (r : SelectorReconciler) : Outcome Kube :=
  if decide (name ∈ running r) then
    match accPollers r !! name with
    | Some poller => doAccountPoller providers c poller k
    | None => Returned k
    end
  else Returned k.

End Controllers.
