(* ===== verification/ControllersTheorems.v ===== *)
(** * The controllers: reachable states

    Invariants of the pollers and of the provider types, by induction on the
    steps of the controllers, whatever the other parts of the system do in
    between. *)

From stdpp Require Import base strings list gmap.
From Stdlib Require Import ZArith Relations.
From S2P Require Import Prelude GoStrings AwsModel Selector VirtualMachine AzureModel Accounts Plugins Poller PollerTheorems PollerSim Controllers.

#[local] Open Scope string_scope.

Section Reachability.
Context {RNG : MapRange} {KC : KubeClient} {Cl : Type} (aws azure : CloudInterface Cl).
(** The API returns objects under their name. *)
Context (selector_law : forall name k s, GetSelector name k = inr s -> selector_key s = name).

#[local] Abbreviation providers := (init_providers aws azure).

Lemma registered p : exists cloud, GetCloudInterface (provider_name p) providers = inr cloud.
Proof. by destruct p; eexists. Qed.

(** ** Pollers *)

(** The selector controller: objects, plug-ins and pollers. *)
Definition SelState : Type := Kube * Cl * SelectorReconciler.

Inductive sel_step : SelState -> SelState -> Prop :=
| sel_reconciles name k c r e k' c' r' :
    sel_Reconcile providers name k c r = Returned (e, (k', (c', r'))) -> sel_step (k, c, r) (k', c', r')
| sel_polls name k c r k' : poll providers name k c r = Returned k' -> sel_step (k, c, r) (k', c, r)
| sel_others k c r k' c' : sel_step (k, c, r) (k', c', r).

(** Every poller is registered for its selector and runs, and nothing else
    runs. *)
Record pollers_ok (r : SelectorReconciler) : Prop := {
  pollers_running : running r = dom (accPollers r);
  pollers_selector n p : accPollers r !! n = Some p ->
    selector_key (ap_selector p) = n /\ ap_namespacedName p = (ces_namespace (ap_selector p), ces_AccountName (ap_selector p))
}.

Lemma add_spec s k r p pre r1 :
  pollers_ok r -> addAccountPoller s k r = Returned (Some p, pre, r1) ->
  (pre = true /\ r1 = r) \/
  (pre = false /\ accPollers r !! selector_key s = None /\ running r1 = running r /\
   accPollers r1 = <[selector_key s := p]> (accPollers r) /\
   selector_key (ap_selector p) = selector_key s /\ ap_namespacedName p = (ces_namespace (ap_selector p), ces_AccountName (ap_selector p))).
Proof.
  intros Hok. unfold addAccountPoller. destruct (accPollers r !! selector_key s) as [q|] eqn:E.
  { intros [= <- <- <-]. by left. }
  destruct (GetAccountProviderType _); [done|]. destruct (cpa_PollIntervalInSeconds _); [|done]. intros [= <- <- <-]. by right.
Qed.

(** Undoing an addition gives the pollers as they were. *)
Lemma undo_spec s c r p r1 :
  pollers_ok r -> accPollers r !! selector_key s = None -> running r1 = running r ->
  accPollers r1 = <[selector_key s := p]> (accPollers r) ->
  pollers_ok (undo providers false (selector_key s) c r1).2.
Proof.
  intros [Hrun Hsel] Hno Hr1 Hp1. unfold undo, sel_processDelete, removeAccountPoller. rewrite Hp1, lookup_insert_eq.
  destruct (registered (ap_cloudType p)) as [cloud ->]. simpl. rewrite delete_insert_id by done. rewrite Hr1, Hrun. split; simpl; [|done].
  apply not_elem_of_dom in Hno. set_solver.
Qed.

Lemma processCreateOrUpdate_ok s k c r e k' c' r' :
  pollers_ok r -> sel_processCreateOrUpdate providers s (selector_key s) k c r = Returned (e, (k', (c', r'))) -> pollers_ok r'.
Proof.
  intros Hok. unfold sel_processCreateOrUpdate. destruct (addAccountPoller s k r) as [[[[p|] pre] r1]| |] eqn:Ea; try done.
  apply (add_spec s k r p pre r1 Hok) in Ea. destruct (recompute p s k) as [k1| |]; try done.
  destruct (GetCloudInterface _ _) as [e1|cloud] eqn:Eg; [by destruct (registered (ap_cloudType p)) as [cloud Hc]; rewrite Hc in Eg|].
  destruct (AddAccountResourceSelector _ _ _ _) as [[[e1|[]] c1]| |]; try done; destruct Ea as [[-> ->]|(-> & Hno & Hr1 & Hp1 & Hsel)].
  - by intros [= <- <- <- <-].
  - pose proof (undo_spec s c1 r p r1 Hok Hno Hr1 Hp1) as H. destruct (undo _ _ _ _ _) as [c2 r2]. by intros [= <- <- <- <-].
  - by intros [= <- <- <- <-].
  - intros [= <- <- <- <-]. destruct Hok as [Hrun Hs]. split; simpl; rewrite Hp1.
    + by rewrite Hr1, Hrun, dom_insert_L.
    + intros n q [[<- <-]|[_ ?]]%lookup_insert_Some; [done|by apply Hs].
Qed.

Lemma processDelete_ok name c r : pollers_ok r -> pollers_ok (sel_processDelete providers name c r).2.2.
Proof.
  intros [Hrun Hs]. unfold sel_processDelete, removeAccountPoller. destruct (accPollers r !! name) as [p|] eqn:E; [|done].
  destruct (GetCloudInterface _ _); (split; simpl; [by rewrite Hrun, dom_delete_L|by intros n q [_ ?]%lookup_delete_Some; apply Hs]).
Qed.

Lemma sel_step_ok s s' : sel_step s s' -> pollers_ok s.2 -> pollers_ok s'.2.
Proof.
  destruct 1 as [name k c r e k' c' r' Hr| |]; simpl; [|done..]. intros Hok. revert Hr. unfold sel_Reconcile.
  destruct (GetSelector name k) as [[|e1]|s] eqn:Es.
  - pose proof (processDelete_ok name c r Hok) as H. destruct (sel_processDelete _ _ _ _) as [e2 [c2 r2]]. by intros [= <- <- <- <-].
  - by intros [= <- <- <- <-].
  - apply selector_law in Es as <-. by apply processCreateOrUpdate_ok.
Qed.

(** C18: In every state reached from the start, whatever the API, the clouds and
    other components do, a selector has a registered poller exactly when the
    poller's goroutine runs; a failed addition leaves none behind, and every
    poller is registered under its own selector for that selector's account. *)
Theorem pollers_invariant k c s :
  clos_refl_trans_1n _ sel_step (k, c, mkSelectorReconciler ∅ ∅) s -> pollers_ok s.2.
Proof.
  intros Hreach. assert (pollers_ok (k, c, mkSelectorReconciler ∅ ∅).2) as H0.
  { split; simpl; [by rewrite dom_empty_L|]. intros n p. by rewrite lookup_empty. }
  revert H0. induction Hreach as [|x y z Hxy _ IH]; intros H0; [done|]. apply IH. by apply (sel_step_ok x y).
Qed.

(** A selector whose account cannot be read, because it was deleted or the
    API failed, makes the controller panic: [addAccountPoller] returns nil and
    the caller dereferences it. *)
Theorem selector_without_account_panics name s k c r e :
  GetSelector name k = inr s -> accPollers r !! name = None ->
  GetAccount (ces_namespace s, ces_AccountName s) k = inl e ->
  sel_Reconcile providers name k c r = Panicked.
Proof.
  intros Hs Hno Ha. pose proof (selector_law _ _ _ Hs) as Hk. unfold sel_Reconcile, sel_processCreateOrUpdate, addAccountPoller.
  by rewrite Hs, Hk, Hno, Ha.
Qed.

(** ** Provider types *)

Inductive acc_step : Cl * AccountReconciler -> Cl * AccountReconciler -> Prop :=
| acc_reconciles name k c r e cr : acc_Reconcile providers name k c r = Returned (e, cr) -> acc_step (c, r) cr
| acc_others c r c' : acc_step (c, r) (c', r).

Definition types_ok (r : AccountReconciler) : Prop := forall n t, r !! n = Some t -> exists p, t = provider_name p.

Lemma acc_processDelete_ok name c r : types_ok r -> types_ok (acc_processDelete providers name c r).2.2.
Proof.
  intros Hok. unfold acc_processDelete. destruct (GetCloudInterface _ _); simpl; [done|].
  unfold removeAccountProviderType. intros n t [_ ?]%lookup_delete_Some. eauto.
Qed.

Lemma acc_step_ok s s' : acc_step s s' -> types_ok s.2 -> types_ok s'.2.
Proof.
  destruct 1 as [name k c r e cr Hr|]; [|done]. intros Hok. simpl in Hok. revert Hr. unfold acc_Reconcile.
  destruct (GetAccount name k) as [[|e1]|account].
  - pose proof (acc_processDelete_ok name c r Hok) as H. destruct (acc_processDelete _ _ _ _). by intros [= <- <-].
  - by intros [= <- <-].
  - unfold acc_processCreate. destruct (GetAccountProviderType _) as [e1|p].
    { pose proof (acc_processDelete_ok name c r Hok) as H. by intros [= <- <-]. }
    simpl. destruct (registered p) as [cloud ->].
    assert (types_ok (<[name := provider_name p]> r)) as Hok'.
    { intros n t [[<- <-]|[_ ?]]%lookup_insert_Some; eauto. }
    destruct (AddProviderAccount cloud account c) as [[[e1|[]] c1]| |]; try done.
    + pose proof (acc_processDelete_ok name c1 _ Hok') as H. by intros [= <- <-].
    + by intros [= <- <-].
Qed.

(** The account controller records only types of registered plug-ins: in
    every reachable state the deletion of a recorded account finds its plug-in,
    removes the account from it and the record, and reports no error. *)
Theorem provider_types_registered c s :
  clos_refl_trans_1n _ acc_step (c, ∅) s ->
  forall n t, s.2 !! n = Some t -> exists cloud, GetCloudInterface t providers = inr cloud /\
    acc_processDelete providers n s.1 s.2 = (None, (RemoveProviderAccount cloud n s.1, delete n s.2)).
Proof.
  intros Hreach n t Hn. assert (types_ok s.2) as Hok.
  { assert (types_ok (c, (∅ : AccountReconciler)).2) as H0 by (intros n1 t1 E; discriminate (eq_trans (eq_sym E) (lookup_empty n1))).
    revert H0. clear Hn. induction Hreach as [|x y z Hxy _ IH]; intros H0; [done|]. apply IH. by apply (acc_step_ok x y). }
  destruct (Hok n t Hn) as [p ->]. destruct (registered p) as [cloud Hc]. exists cloud. split; [done|].
  assert (getAccountProviderType n s.2 = provider_name p) as Ht by exact (f_equal (default "") Hn).
  unfold acc_processDelete. by rewrite Ht, Hc.
Qed.

End Reachability.

(** ** Concrete runs *)

Section Witnesses.
#[local] Existing Instance map_to_list_range.

(** A plug-in that remembers its accounts and the selectors added. *)
Definition SimCl : Type := gset NamespacedName * list string.
Definition sim_cloud : CloudInterface SimCl := {|
  Instances _ := ([], []);
  InstancesGivenProviderAccount name c := if decide (name ∈ c.1) then inr [] else inl "unable to find cloud account";
  IsVirtualPrivateCloudPresent _ _ := false;
  AddProviderAccount account c := Returned (inr tt, ({[cpa_Name account]} ∪ c.1, c.2));
  RemoveProviderAccount name c := (c.1 ∖ {[name]}, c.2);
  AddAccountResourceSelector name selector c :=
    Returned (if decide (name ∈ c.1) then (inr tt, (c.1, ces_name selector :: c.2)) else (inl "account not found", c));
  RemoveAccountResourcesSelector _ _ c := (c.1, []);
  GetAccountStatus _ _ := inr "";
  ci_CreateSecurityGroup _ _ c := Returned (inl "no cloud", c);
  ci_UpdateSecurityGroupRules _ _ _ c := Returned (inl "no cloud", c);
  ci_UpdateSecurityGroupMembers _ _ _ c := Returned (inl "no cloud", c);
  ci_DeleteSecurityGroup _ _ c := Returned (inl "no cloud", c);
  ci_GetEnforcedSecurity c := Returned (inr [], c)
|}.

Definition sim_account : CloudProviderAccount := mkCPA ("ns", "aws") (mkAccountSpec true false) (Some 60%Z) "".
Definition sim_selector : CloudEntitySelector := mkCES "ns" "sel" "aws" [] true.

(** Objects under their keys, with and without the account. *)
Definition keyed_objects (accounts : gmap NamespacedName CloudProviderAccount) : SimKubeState :=
  mkSimKube ∅ accounts {[("ns", "sel") := sim_selector]}.

(** The simulated API with selectors that are stored under their key. *)
#[local] Instance KeyedKube : KubeClient := {|
  Kube := SimKubeState;
  ListVMs := @ListVMs SimKube;
  GetVM := @GetVM SimKube;
  CreateVM := @CreateVM SimKube;
  UpdateVMStatus := @UpdateVMStatus SimKube;
  DeleteVM := @DeleteVM SimKube;
  GetAccount := @GetAccount SimKube;
  UpdateAccountStatus := @UpdateAccountStatus SimKube;
  GetSelector name k := found (s ← sk_selectors k !! name; if decide (selector_key s = name) then Some s else None);
  ListVMsByOwner := @ListVMsByOwner SimKube;
  SetControllerReference := @SetControllerReference SimKube
|}.

Lemma keyed_selectors name (k : SimKubeState) s : GetSelector (KubeClient := KeyedKube) name k = inr s -> selector_key s = name.
Proof. simpl. destruct (sk_selectors k !! name) as [s'|]; simpl; [|done]. case_decide; simpl; [|done]. by intros [= <-]. Qed.

Definition after_add : SelState (KC := KeyedKube) (Cl := SimCl) :=
  (keyed_objects {[("ns", "aws") := sim_account]}, ({[("ns", "aws")]}, ["sel"]),
   mkSelectorReconciler {[("ns", "sel") := mkPoller 60 AWSCloudProvider ("ns", "aws") sim_selector]} {[("ns", "sel")]}).

(** A selector is added; its poller runs. *)
Lemma pollers_invariant_witness : pollers_ok after_add.2.
Proof.
  refine (pollers_invariant sim_cloud sim_cloud keyed_selectors (keyed_objects {[("ns", "aws") := sim_account]})
    ({[("ns", "aws")]}, []) after_add _).
  eapply Relation_Operators.rt1n_trans; [|apply Relation_Operators.rt1n_refl]. unfold after_add. apply (sel_reconciles (KC := KeyedKube) _ _ ("ns", "sel")) with (e := None).
  by_evaluation.
Defined.

Lemma selector_without_account_panics_witness :
  sel_Reconcile (init_providers sim_cloud sim_cloud) ("ns", "sel") (keyed_objects ∅) (∅, []) (mkSelectorReconciler ∅ ∅) = Panicked.
Proof.
  exact (selector_without_account_panics sim_cloud sim_cloud keyed_selectors ("ns", "sel") sim_selector (keyed_objects ∅) (∅, [])
    (mkSelectorReconciler ∅ ∅) NotFound eq_refl eq_refl eq_refl).
Defined.

Lemma provider_types_registered_witness :
  exists cloud, GetCloudInterface "AWS" (init_providers sim_cloud sim_cloud) = inr cloud /\
    acc_processDelete (init_providers sim_cloud sim_cloud) ("ns", "aws") ({[("ns", "aws")]}, []) {[("ns", "aws") := "AWS"]} =
      (None, (RemoveProviderAccount cloud ("ns", "aws") ({[("ns", "aws")]}, []), delete ("ns", "aws") {[("ns", "aws") := "AWS"]})).
Proof.
  refine (provider_types_registered sim_cloud sim_cloud (∅, []) (({[("ns", "aws")]}, []), {[("ns", "aws") := "AWS"]}) _ ("ns", "aws") "AWS" _);
    [|apply lookup_singleton_eq].
  eapply Relation_Operators.rt1n_trans; [|apply Relation_Operators.rt1n_refl].
  apply (acc_reconciles (KC := KeyedKube) _ _ ("ns", "aws") (keyed_objects {[("ns", "aws") := sim_account]}) (∅, []) ∅ None).
  by_evaluation.
Defined.

End Witnesses.
