(* ===== verification/ImportTheorems.v ===== *)
(** * From a selector to virtual machine objects

    The composition of selector conversion, inventory, accounts, plug-in and
    poller for AWS: adding a selector and polling once makes [VirtualMachine]
    objects of exactly the instances the selector describes. *)

From stdpp Require Import base strings list gmap.
From Stdlib Require Import ZArith Lia.
From S2P Require Import Prelude GoStrings AwsModel AwsSecurity AwsLaws Selector SelectorTheorems VirtualMachine AzureModel AzureQuery AzureSecurity AzureSim.
From S2P Require Import Accounts Inventory InventoryTheorems Plugins Poller PollerTheorems PollerSim.

#[local] Open Scope string_scope.

Lemma GetCloudAccountByName_insert `{CloudCommonHelper} name a (c : cloudCommon) : GetCloudAccountByName name (<[name := a]> c) = Some a.
Proof. exact (lookup_insert_eq (M := gmap NamespacedName) c name a). Qed.

(** ** The service after a selector is added *)

Section Service.
Context {RNG : MapRange} (value_matches : string -> string -> Prop).

(** The names of the instances reported are distinct. *)
Lemma reported_NoDup api s :
  (ec2_DoResourceInventory api s).1 = None ->
  NoDup (map evm_InstanceId (getCachedInstances (ec2_DoResourceInventory api s).2)).
Proof.
  unfold ec2_DoResourceInventory. destruct (getInstances api s) as [|l]; [done|]. intros _.
  unfold getCachedInstances. cbn [snd es_config ec2_with_snapshot ec2_snapshot es_instances].
  set (m := fold_left _ l ∅). apply (NoDup_fmap_1 ToLower). rewrite <- list_fmap_compose.
  change (NoDup (map (fun i => ToLower (evm_InstanceId i)) (map snd (go_range m)))).
  rewrite (go_range_values_keys (fun i => ToLower (evm_InstanceId i)) m); [apply NoDup_go_range_keys|].
  intros k i. unfold m. rewrite (fold_insert_lookup (fun i => ToLower (evm_InstanceId i))).
  destruct (last_with _ k l) as [j|] eqn:E; [|by rewrite lookup_empty]. intros [= <-]. by apply last_with_key in E as [? _].
Qed.

(** The service of an account after [AddSelector]. *)
Definition polled_service (env : string -> Ec2Answers) (selector : CloudEntitySelector) (svc : ec2Service) : ec2Service :=
  (@sync_service Ec2ServiceInstance env (ec2_SetResourceFilters (Some selector) svc)).2.

Lemma add_selector_filters selector svc :
  es_instanceFilters svc = ∅ ->
  es_instanceFilters (ec2_SetResourceFilters (Some selector) svc) = {[ces_name selector := buildEc2Filters (ces_VMSelector selector)]} /\
  getCachedVpcNameToID (ec2_SetResourceFilters (Some selector) svc) = getCachedVpcNameToID svc /\
  (ec2_HasFiltersConfigured (ec2_SetResourceFilters (Some selector) svc)).1 = true.
Proof.
  intros Hf. unfold ec2_SetResourceFilters, SetResourceFilters. cbn [convertSelectorToEC2InstanceFilters]. simpl. rewrite Hf.
  split; [done|]. split; [done|]. unfold ec2_HasFiltersConfigured, getInstanceResourceFilters. simpl.
  rewrite decide_False by apply insert_non_empty. by destruct (existsb _ _).
Qed.

(** The virtual machines it reports. *)
Lemma polled_service_reports env selector svc account a :
  GetAccountProviderType a = inr AWSCloudProvider -> validateMatchSections (inr a) (ces_VMSelector selector) = None ->
  (forall s, s ∈ ces_VMSelector selector -> no_blank s) -> ces_VMSelector selector <> [] ->
  es_instanceFilters svc = ∅ -> answers_for value_matches (env (es_apiClient svc)) account ->
  NoDup (map (fun i => ToLower (evm_InstanceId i)) account) ->
  exists instances, NoDup (map evm_InstanceId instances) /\
    (forall namespace, ec2_GetResourceCRDs namespace (polled_service env selector svc) =
      map Some (map (fun i => ec2InstanceToVirtualMachineCRD i namespace) instances)) /\
    forall i, i ∈ instances <-> i ∈ account /\ valid_state value_matches (attributes_of i) /\
      exists sel, sel ∈ ces_VMSelector selector /\ match_selector value_matches (getCachedVpcNameToID svc) (attributes_of i) sel.
Proof.
  intros Ha Hv Hnb Hne Hf Hapi Hnd. destruct (add_selector_filters selector svc Hf) as (Hf1 & Hn1 & Hh1).
  set (svc1 := ec2_SetResourceFilters (Some selector) svc) in *. set (api := env (es_apiClient svc)) in *.
  assert (polled_service env selector svc =
    ec2_SetInventoryStats (UpdateInventoryPollStats (ec2_DoResourceInventory api svc1).1 (es_inventoryStats (ec2_DoResourceInventory api svc1).2))
      (ec2_DoResourceInventory api svc1).2) as Hsvc.
  { unfold polled_service, sync_service. simpl. fold svc1. rewrite Hh1. fold api. by destruct (ec2_DoResourceInventory api svc1). }
  destruct (cached_instances_selected value_matches a _ _ api account svc1 Ha Hv Hnb Hne Hf1 Hapi Hnd) as [He Hi].
  exists (getCachedInstances (ec2_DoResourceInventory api svc1).2). split; [by apply reported_NoDup|]. split.
  - intros ns. rewrite Hsvc. unfold ec2_GetResourceCRDs. by rewrite map_map.
  - intros i. by rewrite Hi, Hn1.
Qed.

End Service.

(** ** The account, the plug-in and the poller *)

Section Importing.
Context {RNG : MapRange} {E : EC2} {Z : Azure} (value_matches : string -> string -> Prop).
Context (AH : @CloudCommonHelper Ec2ServiceInstance) (ZH : @CloudCommonHelper ComputeServiceInstance).
Context (aws_client : @Client _ AH) (AWSConfig : CloudProviderAccount -> @Creds _ AH) (aws_env : PluginState AH ZH -> string -> Ec2Answers).
Context (az_client : @Client _ ZH) (AzureConfig : CloudProviderAccount -> @Creds _ ZH) (az_env : PluginState AH ZH -> string -> AzureAnswers).
Context (initialized : PluginState AH ZH -> string -> bool).
Context {KC : KubeClient} {KL : KubeLaws KC} {KH : KubeHealthy KC}.

#[local] Abbreviation the_aws := (awsCloud AH ZH aws_client AWSConfig aws_env initialized).
#[local] Abbreviation the_providers := (nephe_providers AH ZH aws_client AWSConfig aws_env az_client AzureConfig az_env initialized).

(** After the addition the account reports what its service reports. *)
Lemma add_selector_reports selector s name acc svc :
  pl_aws AH ZH s !! name = Some acc -> acc_namespacedName acc = name -> acc_serviceConfigs acc = {["EC2" := svc]} ->
  exists s', AddAccountResourceSelector the_aws name selector s = Returned (inr tt, s') /\
    InstancesGivenProviderAccount the_aws name s' = inr (ec2_GetResourceCRDs name.1 (polled_service (aws_env s) selector svc)).
Proof.
  intros Hacc Hname Hsvc. simpl. unfold account_result, AddSelector, GetCloudAccountByName. rewrite Hacc, Hsvc. simpl.
  eexists. split; [reflexivity|]. unfold GetCloudAccountComputeResourceCRDs, with_aws. simpl.
  rewrite GetCloudAccountByName_insert. simpl. rewrite !map_fmap_singleton, go_range_singleton. simpl. rewrite Hname.
  by rewrite app_nil_r.
Qed.

(** What a poll that discovers machines does, when the API serves. *)
Lemma account_poll p s k ds :
  ap_cloudType p = AWSCloudProvider -> InstancesGivenProviderAccount the_aws (ap_namespacedName p) s = inr (map Some ds) ->
  discovered_ok p ds -> (forall d, d ∈ ds -> fresh d) -> (forall d o, d ∈ ds -> vms k !! vm_key d = Some o -> owned p o) ->
  exists k', doAccountPoller the_providers s p k = Returned k' /\ settled p ds k'.
Proof.
  intros Ht Hi Hok Hfresh Hfree. unfold doAccountPoller. rewrite Ht.
  change (GetCloudInterface (provider_name AWSCloudProvider) the_providers) with (@inr error _ the_aws). cbv beta iota.
  unfold getComputeResources. rewrite Hi. match goal with |- context [UpdateAccountStatus ?a k] => set (account1 := a) end.
  pose proof (account_status_law account1 k) as Hk. destruct (UpdateAccountStatus account1 k) as [e k1]. simpl in Hk.
  destruct (operations_run p ds k1 Hok Hfresh) as [k' Hrun]; [by intros d o; rewrite Hk; apply Hfree|].
  rewrite Hrun. exists k'. split; [done|]. by apply (error_free_settles p ds k1).
Qed.


End Importing.

(** ** A concrete import *)

Section Witness.
#[local] Existing Instance map_to_list_range.

(** Accounts that are already there need no helper. *)
Definition no_helper {CS : CloudService} : CloudCommonHelper := {|
  Client := unit;
  Creds := unit;
  AccCfg := unit;
  SetAccountCredentialsFunc := None;
  GetCloudCredentialsComparatorFunc := None;
  GetCloudServicesCreateFunc := None
|}.
#[local] Abbreviation AWSHelper := (@no_helper Ec2ServiceInstance).
#[local] Abbreviation AzureHelper := (@no_helper ComputeServiceInstance).

Definition plain_service : ec2Service := fresh_ec2Service "ns/aws" "client".
Definition plain_account : @cloudAccountConfig Ec2ServiceInstance AWSHelper :=
  @mkAccountConfig Ec2ServiceInstance AWSHelper ("ns", "aws") tt {["EC2" := plain_service]} 60 false "".
Definition plain_state : @PluginState map_to_list_range SimEC2 SimAzure AWSHelper AzureHelper :=
  @mkPlugins map_to_list_range SimEC2 SimAzure AWSHelper AzureHelper
    {[("ns", "aws") := plain_account]} (@mkAwsState SimEC2 (AwsLaws.mkSim [] [] 0) ∅) ∅ (AzureSim.mkSim ∅ ∅ ∅ ∅ "").
Definition web_ces : CloudEntitySelector := mkCES "ns" "sel" "aws" web_selector true.


End Witness.
