(* ===== verification/Converter.v ===== *)
(** * The converter

    Model of [pkg/converter]: [VMConverter] keeps an [ExternalEntity] for every
    virtual machine with addresses ([source/virtualmachine_converter.go]), made of
    the machine by [target/externalentity.go].  Failed events are tried again
    through timers. *)

From stdpp Require Import base strings list gmap.
From Stdlib Require Import Ascii ZArith.
From S2P Require Import Prelude GoStrings AwsModel VirtualMachine Accounts Poller.

#[local] Open Scope string_scope.

(** ** External entities ([target/externalentity.go]) *)

(** Labels, the addresses of the endpoints, external node; entities made here
    have no ports.  [ee_Owner] is the name of the controlling machine. *)
Record ExternalEntity := mkEE {
  ee_Name : string;
  ee_Namespace : string;
  ee_Labels : gmap string string;
  ee_Endpoints : list string;
  ee_ExternalNode : string;
  ee_Owner : option string
}.

Definition LabelSizeLimit : nat := 64.
Definition ExternalEntityLabelKeyNamespace : string := "namespace.nephe".
Definition ExternalEntityLabelKeyKind : string := "kind.nephe".
Definition ExternalEntityLabelKeyName : string := "name.nephe".
Definition ExternalEntityLabelKeyTagPostfix : string := ".tag.nephe".
Definition ExternalEntityLabelCloudVPCKey : string := "vpc.nephe".
Definition ANPNepheController : string := "nephe-controller".

(** An event: the machine with the generation of its metadata; a deleted machine
    comes without status and with generation 0. *)
Record VirtualMachineSource := mkSource { src_VM : VirtualMachine; src_Generation : Z }.

Definition GetEndPointAddresses (v : VirtualMachineSource) : list string := map ip_Address (GetVMIPAddresses (src_VM v)).
Definition GetTags (v : VirtualMachineSource) : gmap string string := vs_Tags (vm_Status (src_VM v)).
Definition GetLabelsFromClient (v : VirtualMachineSource) : gmap string string :=
  {[ExternalEntityLabelCloudVPCKey := vs_VirtualPrivateCloud (vm_Status (src_VM v))]}.

(** The type name is [VirtualMachine]. *)
Definition GetExternalEntityLabelKind (v : VirtualMachineSource) : string := ToLower "VirtualMachine".
Definition GetExternalEntityName (v : VirtualMachineSource) : string := ToLower "VirtualMachine" +:+ "-" +:+ vm_Name (src_VM v).
Definition GetObjectKeyFromSource (v : VirtualMachineSource) : NamespacedName := (vm_Namespace (src_VM v), GetExternalEntityName v).

(** The characters outside [LabelExpression]. *)
Definition label_char (c : ascii) : bool :=
  let n := Ascii.nat_of_ascii c in
  ((97 <=? n) && (n <=? 122) || (65 <=? n) && (n <=? 90) || (48 <=? n) && (n <=? 57) || (n =? 95) || (n =? 45))%nat.

(** [ReplaceAllString] of the others by nothing. *)
Fixpoint label_chars (s : string) : string :=
  match s with
  | "" => ""
  | String c s => if label_char c then String c (label_chars s) else label_chars s
  end.

Definition limited (s : string) : string :=
  if decide (LabelSizeLimit < String.length s)%nat then String.substring 0 LabelSizeLimit s else s.

Definition tag_label (key val : string) : string * string :=
  (ToLower (limited (label_chars key +:+ ExternalEntityLabelKeyTagPostfix)), ToLower (limited (label_chars val))).

Section Target.
Context {RNG : MapRange}.

Definition PopulateExternalEntityFrom (v : VirtualMachineSource) (e : ExternalEntity) : ExternalEntity :=
  let labels := <[ExternalEntityLabelKeyNamespace := ToLower (vm_Namespace (src_VM v))]>
    (<[ExternalEntityLabelKeyName := ToLower (vm_Name (src_VM v))]> {[ExternalEntityLabelKeyKind := GetExternalEntityLabelKind v]}) in
  let labels1 := fold_left (fun m '(k, x) => <[k := x]> m) (go_range (GetLabelsFromClient v)) labels in
  let labels2 := fold_left (fun m '(k, x) => let '(fk, fv) := tag_label k x in <[fk := fv]> m) (go_range (GetTags v)) labels1 in
  mkEE (ee_Name e) (ee_Namespace e) labels2 (GetEndPointAddresses v) ANPNepheController (ee_Owner e).

Definition PatchExternalEntityFrom (v : VirtualMachineSource) (patch : ExternalEntity) : ExternalEntity := PopulateExternalEntityFrom v patch.

(** [referenced] tells whether [SetControllerReference] succeeds. *)
Definition NewExternalEntityFrom (referenced : bool) (v : VirtualMachineSource) (name namespace : string) : ExternalEntity :=
  let e := PopulateExternalEntityFrom v (mkEE "" "" ∅ [] "" None) in
  mkEE name namespace (ee_Labels e) (ee_Endpoints e) (ee_ExternalNode e) (if referenced then Some (vm_Name (src_VM v)) else None).

End Target.

(** ** The converter ([source/virtualmachine_converter.go]) *)

(** The client, on external entities.  [ee_Patch] has the new object and the
    base. *)
Class EntityClient := {
  Entities : Type;
  ee_Get : NamespacedName -> Entities -> KError + ExternalEntity;
  ee_Create : ExternalEntity -> Entities -> option KError * Entities;
  ee_Patch : ExternalEntity -> ExternalEntity -> Entities -> option KError * Entities;
  ee_Delete : ExternalEntity -> Entities -> option KError * Entities;
  ee_Referenced : VirtualMachineSource -> bool
}.

Definition maxRetry : Z := 5.

Record retryRecord := mkRetry { rr_retryCount : Z; rr_item : VirtualMachineSource }.

Section Converter.
Context {RNG : MapRange} {EC : EntityClient}.

(** [failedUpdates], and the events that wait in timers. *)
Record ConverterState := mkConverter {
  failedUpdates : gmap NamespacedName retryRecord;
  timers : list VirtualMachineSource;
  cv_entities : Entities
}.

Definition isNewEvent (cur record : VirtualMachineSource) : bool := negb (src_Generation cur =? src_Generation record)%Z.

Definition IgnoreNotFound (e : option KError) : option KError :=
  match e with Some NotFound => None | _ => e end.

(** The part between the guard and the deferred function: the error. *)
Definition handle_event (vm : VirtualMachineSource) (es : Entities) : option KError * Entities :=
  let key := GetObjectKeyFromSource vm in
  let isDelete := bool_decide (length (GetEndPointAddresses vm) = 0%nat) in
  match ee_Get key es with
  | inl (OtherError e) => (Some (OtherError e), es)
  | inl NotFound =>
      if isDelete then (None, es) else ee_Create (NewExternalEntityFrom (ee_Referenced vm) vm key.2 key.1) es
  | inr externEntity =>
      if isDelete then let '(e, es1) := ee_Delete externEntity es in (IgnoreNotFound e, es1)
      else ee_Patch (PatchExternalEntityFrom vm externEntity) externEntity es
  end.

(** The deferred function. *)
Definition retry_later (vm : VirtualMachineSource) (err : option KError) (failed : gmap NamespacedName retryRecord)
    (ts : list VirtualMachineSource) : gmap NamespacedName retryRecord * list VirtualMachineSource :=
  let key := GetObjectKeyFromSource vm in
  match err with
  | None => (delete key failed, ts)
  | Some _ =>
      let record := match failed !! key with
                    | None => mkRetry 0 vm
                    | Some record => if isNewEvent vm (rr_item record) then mkRetry 0 vm else record
                    end in
      let record1 := mkRetry (rr_retryCount record + 1) (rr_item record) in
      if (maxRetry <=? rr_retryCount record1)%Z then (delete key failed, ts)
      else (<[key := record1]> failed, (ts ++ [vm])%list)
  end.

Definition processEvent (vm : VirtualMachineSource) (isRetry : bool) (s : ConverterState) : ConverterState :=
  let ignore := if isRetry then
                  match failedUpdates s !! GetObjectKeyFromSource vm with
                  | None => true
                  | Some retry => isNewEvent (rr_item retry) vm
                  end
                else false in
  if ignore : bool then s
  else
    let '(err, es) := handle_event vm (cv_entities s) in
    let '(failed, ts) := retry_later vm err (failedUpdates s) (timers s) in
    mkConverter failed ts es.

(** ** Events of virtual machines ([virtualmachine_controller.go])

    [Reconcile] forwards the object it reads, and for one that is gone an empty
    object of its name. *)
Definition vm_Reconcile (name : NamespacedName) (read : KError + VirtualMachineSource) : KError + VirtualMachineSource :=
  match read with
  | inl (OtherError e) => inl (OtherError e)
  | inl NotFound => inr (mkSource (mkVM name.2 name.1 ∅ [] emptyStatus) 0)
  | inr vm => inr vm
  end.

(** A timer fires: its event is received as a retry. *)
Definition fire (before after : list VirtualMachineSource) (vm : VirtualMachineSource) (s : ConverterState) : ConverterState :=
  processEvent vm true (mkConverter (failedUpdates s) (before ++ after) (cv_entities s)).

(** [Start]: events from the channel, retries from timers; other components
    change the entities. *)
Inductive converter_step : ConverterState -> ConverterState -> Prop :=
| converter_event vm s : converter_step s (processEvent vm false s)
| converter_retry before vm after s : timers s = (before ++ vm :: after)%list -> converter_step s (fire before after vm s)
| converter_env failed ts es es' : converter_step (mkConverter failed ts es) (mkConverter failed ts es').

End Converter.
