(* ===== verification/ConverterTheorems.v ===== *)
(** * The converter: entities and retries *)

From stdpp Require Import base strings list gmap.
From Stdlib Require Import Ascii ZArith Lia Relations.
From S2P Require Import Prelude GoStrings AwsModel VirtualMachine Accounts Poller PollerTheorems PollerSim Converter.

#[local] Open Scope string_scope.

(** ** The API *)

Definition ee_key (e : ExternalEntity) : NamespacedName := (ee_Namespace e, ee_Name e).

(** [entities] are the objects; a failed write changes nothing. *)
Class EntityLaws (EC : EntityClient) := {
  entities : Entities -> gmap NamespacedName ExternalEntity;
  entities_key es n e : entities es !! n = Some e -> ee_key e = n;
  ee_get_law n es :
    match ee_Get n es with
    | inr e => entities es !! n = Some e
    | inl NotFound => entities es !! n = None
    | inl (OtherError _) => True
    end;
  ee_create_law e es :
    match ee_Create e es with
    | (None, es') => entities es' = <[ee_key e := e]> (entities es)
    | (Some _, es') => entities es' = entities es
    end;
  ee_patch_law new base es : ee_key new = ee_key base ->
    match ee_Patch new base es with
    | (None, es') => entities es' = <[ee_key new := new]> (entities es)
    | (Some _, es') => entities es' = entities es
    end;
  ee_delete_law e es :
    match ee_Delete e es with
    | (None, es') => entities es' = delete (ee_key e) (entities es)
    | (Some NotFound, es') => entities es !! ee_key e = None /\ entities es' = entities es
    | (Some (OtherError _), es') => entities es' = entities es
    end
}.

Section Entities.
Context {RNG : MapRange} {EC : EntityClient} {EL : EntityLaws EC}.

(** The entity stands for the machine: its addresses and labels. *)
Definition represents (v : VirtualMachineSource) (e : ExternalEntity) : Prop :=
  ee_Endpoints e = GetEndPointAddresses v /\ ee_ExternalNode e = ANPNepheController /\
  ee_Labels e = ee_Labels (PopulateExternalEntityFrom v e).

Lemma handle_event_spec v es err es' :
  handle_event v es = (err, es') ->
  (forall n, n <> GetObjectKeyFromSource v -> entities es' !! n = entities es !! n) /\
  match err with
  | None => if decide (GetEndPointAddresses v = []) then entities es' !! GetObjectKeyFromSource v = None
            else exists e, entities es' !! GetObjectKeyFromSource v = Some e /\ represents v e
  | Some _ => entities es' = entities es
  end.
Proof.
  unfold handle_event. set (key := GetObjectKeyFromSource v). pose proof (ee_get_law key es) as Hg.
  assert (bool_decide (length (GetEndPointAddresses v) = 0%nat) = bool_decide (GetEndPointAddresses v = [])) as ->.
  { apply bool_decide_ext. by destruct (GetEndPointAddresses v). }
  destruct (ee_Get key es) as [[|e]|old]; [| |apply entities_key in Hg as Hk].
  - case_decide as Ha; [rewrite bool_decide_true by done; by intros [= <- <-]|rewrite bool_decide_false by done].
    match goal with |- ee_Create ?x es = _ -> _ => set (new := x); intros Hc; pose proof (ee_create_law new es) as Hl end.
    rewrite Hc in Hl. change (ee_key new) with key in Hl. destruct err as [e|]; [by rewrite Hl|]. rewrite Hl. split.
    + intros n Hn. by rewrite lookup_insert_ne.
    + exists new. split; [by rewrite lookup_insert_eq|]. done.
  - by intros [= <- <-].
  - case_decide as Ha; [rewrite bool_decide_true by done|rewrite bool_decide_false by done].
    + pose proof (ee_delete_law old es) as Hl. rewrite Hk in Hl.
      destruct (ee_Delete old es) as [[[|e]|] es1]; intros [= <- <-]; simpl; [destruct Hl as [Hl _]; congruence|by rewrite Hl|rewrite Hl].
      split; [|by rewrite lookup_delete_eq]. intros n Hn. by rewrite lookup_delete_ne.
    + intros Hp. pose proof (ee_patch_law (PatchExternalEntityFrom v old) old es eq_refl) as Hl. rewrite Hp in Hl.
      change (ee_key (PatchExternalEntityFrom v old)) with (ee_key old) in Hl. rewrite Hk in Hl.
      destruct err as [e|]; [by rewrite Hl|]. rewrite Hl. split.
      * intros n Hn. by rewrite lookup_insert_ne.
      * eexists. split; [by rewrite lookup_insert_eq|]. done.
Qed.

(** C17: An event that is handled leaves the external entity of the machine, and
    no other, as the machine is: none when it has no address, otherwise one with
    exactly its addresses as endpoints and its labels; then no retry of the
    machine is on record.  An event that fails changes no entity. *)
Theorem event_realizes_machine v s err es :
  handle_event v (cv_entities s) = (err, es) ->
  let s' := processEvent v false s in
  (forall n, n <> GetObjectKeyFromSource v -> entities (cv_entities s') !! n = entities (cv_entities s) !! n) /\
  match err with
  | None => failedUpdates s' !! GetObjectKeyFromSource v = None /\
            if decide (GetEndPointAddresses v = []) then entities (cv_entities s') !! GetObjectKeyFromSource v = None
            else exists e, entities (cv_entities s') !! GetObjectKeyFromSource v = Some e /\ represents v e
  | Some _ => entities (cv_entities s') = entities (cv_entities s)
  end.
Proof.
  intros Hh. cbv zeta. unfold processEvent. rewrite Hh. destruct (handle_event_spec v _ _ _ Hh) as [Hframe Hres].
  destruct (retry_later v err (failedUpdates s) (timers s)) as [failed ts] eqn:Er. simpl. split; [done|].
  destruct err as [e|]; [done|]. split; [|done]. injection Er as <- _. apply lookup_delete_eq.
Qed.

(** The event of a deleted machine removes its entity. *)
Lemma deleted_machine_loses_entity name s v es :
  vm_Reconcile name (inl NotFound) = inr v -> handle_event v (cv_entities s) = (None, es) ->
  entities (cv_entities (processEvent v false s)) !! (name.1, GetExternalEntityName v) = None.
Proof.
  intros [= <-] Hh. unfold processEvent. rewrite Hh. destruct (handle_event_spec _ _ _ _ Hh) as [_ Hres]. exact Hres.
Qed.

End Entities.

(** ** Retries *)

Section Retries.
Context {RNG : MapRange} {EC : EntityClient}.

(** The records have their key, and counts below the limit. *)
Definition retries_ok (failed : gmap NamespacedName retryRecord) : Prop :=
  forall n r, failed !! n = Some r -> GetObjectKeyFromSource (rr_item r) = n /\ (1 <= rr_retryCount r < maxRetry)%Z.

Lemma retry_later_ok v err failed ts : retries_ok failed -> retries_ok (retry_later v err failed ts).1.
Proof.
  intros Hok. unfold retry_later. destruct err as [e|]; simpl; [|intros n r [_ ?]%lookup_delete_Some; by apply Hok].
  case_match eqn:Hmax; simpl; [intros n r [_ ?]%lookup_delete_Some; by apply Hok|].
  intros n r [[<- <-]|[_ ?]]%lookup_insert_Some; [|by apply Hok]. simpl in *. apply Z.leb_gt in Hmax.
  destruct (failed !! GetObjectKeyFromSource v) as [r|] eqn:E; [|simpl in *; split; [done|lia]].
  destruct (isNewEvent v (rr_item r)); simpl in *; [split; [done|lia]|]. apply Hok in E as [Hk ?]. split; [done|lia].
Qed.

Lemma processEvent_ok v isRetry s : retries_ok (failedUpdates s) -> retries_ok (failedUpdates (processEvent v isRetry s)).
Proof.
  intros Hok. unfold processEvent. case_match; [done|]. destruct (handle_event v (cv_entities s)) as [err es].
  pose proof (retry_later_ok v err (failedUpdates s) (timers s) Hok) as Hres. by destruct (retry_later _ _ _ _).
Qed.

Lemma fire_ok before vm after s : retries_ok (failedUpdates s) -> retries_ok (failedUpdates (fire before after vm s)).
Proof. intros Hok. by apply processEvent_ok. Qed.

Lemma converter_step_ok s s' : converter_step s s' -> retries_ok (failedUpdates s) -> retries_ok (failedUpdates s').
Proof. destruct 1; [by apply processEvent_ok|by apply fire_ok|done]. Qed.

Lemma reachable_ok es s : clos_refl_trans_1n _ converter_step (mkConverter ∅ [] es) s -> retries_ok (failedUpdates s).
Proof.
  intros Hreach. assert (retries_ok (failedUpdates (mkConverter ∅ [] es))) as H0.
  { intros n r E. discriminate (eq_trans (eq_sym E) (lookup_empty n)). }
  revert H0. induction Hreach as [|x y z Hxy _ IH]; [done|]. intros H0. by apply IH, (converter_step_ok x y).
Qed.

(** In every state the converter reaches, for any events, timers and answers
    of the API, a machine on record has been tried at least once and fewer than
    [maxRetry] times, and stands under its own key. *)
Theorem retry_counts_bounded es s :
  clos_refl_trans_1n _ converter_step (mkConverter ∅ [] es) s ->
  forall n r, failedUpdates s !! n = Some r -> GetObjectKeyFromSource (rr_item r) = n /\ (1 <= rr_retryCount r < maxRetry)%Z.
Proof.
  apply reachable_ok.
Qed.

(** What is left to be tried. *)
Definition attempts_left (failed : gmap NamespacedName retryRecord) : Z :=
  map_fold (fun _ r n => (maxRetry - rr_retryCount r + n)%Z) 0%Z failed.

Lemma attempts_insert failed n r :
  failed !! n = None -> attempts_left (<[n := r]> failed) = (maxRetry - rr_retryCount r + attempts_left failed)%Z.
Proof. intros Hn. unfold attempts_left. rewrite map_fold_insert_L; [done| |done]. intros. lia. Qed.

Lemma attempts_delete failed n r :
  failed !! n = Some r -> attempts_left failed = (maxRetry - rr_retryCount r + attempts_left (delete n failed))%Z.
Proof. intros Hn. rewrite <- (attempts_insert (delete n failed) n) by apply lookup_delete_eq. by rewrite insert_delete_id. Qed.

Lemma attempts_nonneg failed : retries_ok failed -> (0 <= attempts_left failed)%Z.
Proof.
  intros Hok. unfold attempts_left. revert Hok. refine (map_fold_weak_ind (fun n m => retries_ok m -> (0 <= n)%Z) _ _ _ _ failed); [lia|].
  intros n r m x Hn IH Hok. assert (1 <= rr_retryCount r < maxRetry)%Z by (apply (Hok n); apply lookup_insert_eq).
  assert (retries_ok m) as Hm; [|specialize (IH Hm); lia]. intros n' r' E. apply Hok. rewrite lookup_insert_ne; [done|congruence].
Qed.

(** A bound on the retries to come. *)
Definition retries_left (s : ConverterState) : Z := (maxRetry * Z.of_nat (length (timers s)) + attempts_left (failedUpdates s))%Z.

Lemma retry_decreases before vm after s :
  retries_ok (failedUpdates s) -> timers s = (before ++ vm :: after)%list ->
  (retries_left (fire before after vm s) < retries_left s)%Z.
Proof.
  intros Hok Ht. unfold fire, retries_left at 2. rewrite Ht. unfold processEvent. cbn [failedUpdates timers cv_entities].
  assert (forall r, (maxRetry * Z.of_nat (length (before ++ vm :: after)) + r = maxRetry * Z.of_nat (length (before ++ after)) + maxRetry + r)%Z) as Hlen.
  { intros r. rewrite !length_app. simpl. lia. }
  rewrite Hlen. destruct (failedUpdates s !! GetObjectKeyFromSource vm) as [r|] eqn:E.
  2: { unfold retries_left. simpl. unfold maxRetry. lia. }
  destruct (isNewEvent (rr_item r) vm) eqn:En; [unfold retries_left; simpl; unfold maxRetry; lia|].
  destruct (handle_event vm (cv_entities s)) as [err es]. destruct (Hok _ _ E) as [Hk Hr]. pose proof (attempts_delete _ _ _ E) as Hd.
  assert (isNewEvent vm (rr_item r) = false) as En'.
  { unfold isNewEvent in *. by rewrite Z.eqb_sym. }
  unfold retry_later. rewrite E, En'. unfold retries_left. destruct err as [e|]; [|cbn [failedUpdates timers]; lia].
  destruct (maxRetry <=? _)%Z; cbn [failedUpdates timers]; [lia|].
  rewrite <- insert_delete_eq, attempts_insert by apply lookup_delete_eq. cbn [rr_retryCount]. rewrite (length_app _ [vm]). simpl length. lia.
Qed.

Definition retry_step (s s' : ConverterState) : Prop :=
  exists before vm after, timers s = (before ++ vm :: after)%list /\ s' = fire before after vm s.

(** A sequence of [n] retries. *)
Inductive retry_run : nat -> ConverterState -> ConverterState -> Prop :=
| retry_stop s : retry_run 0 s s
| retry_more n s s1 s2 : retry_step s s1 -> retry_run n s1 s2 -> retry_run (S n) s s2.

Lemma retry_run_bound n s s' : retries_ok (failedUpdates s) -> retry_run n s s' -> (Z.of_nat n + retries_left s' <= retries_left s)%Z.
Proof.
  intros Hok Hrun. induction Hrun as [|n s s1 s2 (before & vm & after & Ht & ->) _ IH]; [lia|].
  pose proof (retry_decreases before vm after s Hok Ht). specialize (IH (fire_ok _ _ _ _ Hok)). lia.
Qed.

(** C20: Retries end: from a reachable state, without new events, no more than
    [retries_left] timers fire, whatever the API answers and in whatever order
    they fire. *)
Theorem retries_terminate es s n s' :
  clos_refl_trans_1n _ converter_step (mkConverter ∅ [] es) s -> retry_run n s s' -> (Z.of_nat n <= retries_left s)%Z.
Proof.
  intros Hok%reachable_ok Hrun.
  pose proof (retry_run_bound n s s' Hok Hrun) as Hb.
  assert (retries_ok (failedUpdates s')) as Hok'.
  { clear Hb. induction Hrun as [|n s s1 s2 (before & vm & after & Ht & ->) _ IH]; [done|]. by apply IH, fire_ok. }
  pose proof (attempts_nonneg _ Hok'). unfold retries_left at 1 in Hb. unfold maxRetry in *. lia.
Qed.

Lemma first_failure v failed ts es e es' :
  failed !! GetObjectKeyFromSource v = None -> handle_event v es = (Some e, es') ->
  processEvent v false (mkConverter failed ts es) = mkConverter (<[GetObjectKeyFromSource v := mkRetry 1 v]> failed) (ts ++ [v]) es'.
Proof. intros Hno Hh. unfold processEvent. cbn [cv_entities]. rewrite Hh. unfold retry_later. cbn [failedUpdates]. by rewrite Hno. Qed.

Lemma second_failure v1 v failed ts es e es' r :
  failed !! GetObjectKeyFromSource v = Some r -> isNewEvent v v1 = false -> r = mkRetry 1 v1 -> handle_event v es = (Some e, es') ->
  processEvent v false (mkConverter failed ts es) = mkConverter (<[GetObjectKeyFromSource v := mkRetry 2 v1]> failed) (ts ++ [v]) es'.
Proof.
  intros Hr Hn -> Hh. unfold processEvent. cbn [cv_entities]. rewrite Hh. unfold retry_later. cbn [failedUpdates]. rewrite Hr. cbn [rr_item].
  by rewrite Hn.
Qed.

(** Status updates do not change the generation of a machine, so two events
    of it look alike: when both fail and the API recovers, the retry of the older
    one succeeds first and removes the record, and the retry of the newer one is
    dropped.  The entity is left with the older state. *)
Theorem stale_retry_wins v1 v2 failed es0 es1 es2 es3 es4 e1 e2 :
  GetObjectKeyFromSource v1 = GetObjectKeyFromSource v2 -> src_Generation v1 = src_Generation v2 ->
  failed !! GetObjectKeyFromSource v1 = None ->
  handle_event v1 es0 = (Some e1, es1) -> handle_event v2 es1 = (Some e2, es2) -> handle_event v1 es3 = (None, es4) ->
  let down := processEvent v2 false (processEvent v1 false (mkConverter failed [] es0)) in
  timers down = [v1; v2] /\ cv_entities down = es2 /\
  fire [] [] v2 (fire [] [v2] v1 (mkConverter (failedUpdates down) (timers down) es3)) = mkConverter failed [] es4.
Proof.
  intros Hk Hg Hno H1 H2 H3. cbv zeta. rewrite (first_failure v1 failed [] es0 e1 es1 Hno H1).
  rewrite (second_failure v1 v2 _ _ es1 e2 es2 (mkRetry 1 v1)); [|rewrite <- Hk; apply lookup_insert_eq|by unfold isNewEvent; rewrite Hg, Z.eqb_refl|done|done].
  simpl. split; [done|]. split; [done|]. rewrite <- Hk. unfold fire, processEvent. cbn [failedUpdates timers cv_entities app].
  rewrite lookup_insert_eq. cbn [rr_item]. assert (isNewEvent v1 v1 = false) as -> by (unfold isNewEvent; by rewrite Z.eqb_refl). rewrite H3.
  cbn [retry_later failedUpdates timers cv_entities]. by rewrite <- Hk, insert_insert_eq, delete_insert_id, Hno.
Qed.

End Retries.

(** ** Labels *)

Lemma substring_length n s : (n <= String.length s)%nat -> String.length (String.substring 0 n s) = n.
Proof. revert n. induction s as [|c s IH]; intros [|n] Hn; simpl in *; [done|lia|done|]. rewrite IH; lia. Qed.

(** The limit of Kubernetes for the value of a label is 63 characters; a tag
    with a longer value becomes a label of 64. *)
Theorem long_tag_exceeds_limit key val :
  (LabelSizeLimit <= String.length (label_chars val))%nat -> String.length (tag_label key val).2 = 64%nat.
Proof.
  intros Hlen. simpl. rewrite ToLower_length. unfold limited. case_decide as Hl.
  - apply (substring_length 64). unfold LabelSizeLimit in Hl. lia.
  - unfold LabelSizeLimit in *. lia.
Qed.

(** ** Concrete runs *)

Section Witnesses.
#[local] Existing Instance map_to_list_range.

(** Entities under their key, and whether the API answers. *)
Definition SimEntities : Type := bool * gmap NamespacedName ExternalEntity.

Definition keyed (e : NamespacedName * ExternalEntity) : Prop := ee_key e.2 = e.1.
#[local] Instance keyed_dec e : Decision (keyed e).
Proof. unfold keyed. apply _. Defined.

Definition sim_entities (s : SimEntities) : gmap NamespacedName ExternalEntity := filter keyed s.2.

Definition sim_write (s : SimEntities) (m : gmap NamespacedName ExternalEntity) : option KError * SimEntities :=
  if s.1 then (None, (true, m)) else (Some (OtherError "timeout"), s).

#[local] Instance SimEntityClient : EntityClient := {|
  Entities := SimEntities;
  ee_Get n s := if (s : SimEntities).1 then found (sim_entities s !! n) else inl (OtherError "timeout");
  ee_Create e s := sim_write s (<[ee_key e := e]> (sim_entities s));
  ee_Patch new _ s := sim_write s (<[ee_key new := new]> (sim_entities s));
  ee_Delete e s := sim_write s (delete (ee_key e) (sim_entities s));
  ee_Referenced _ := true
|}.

Lemma sim_entities_id b m : map_Forall (fun n e => keyed (n, e)) m -> sim_entities (b, m) = m.
Proof. intros Hm. apply map_filter_id. intros n e Hn. by apply Hm. Qed.

Lemma sim_entities_keyed s : map_Forall (fun n e => keyed (n, e)) (sim_entities s).
Proof. by intros n e [_ ?]%map_lookup_filter_Some. Qed.

#[local] Instance SimEntityLaws : EntityLaws SimEntityClient.
Proof.
  refine {| entities := sim_entities |}.
  - intros s n e E. by apply (sim_entities_keyed s) in E.
  - intros n s. simpl. destruct s.1; [|done]. by destruct (sim_entities s !! n).
  - intros e s. simpl. unfold sim_write. destruct s.1; [|done]. apply sim_entities_id, map_Forall_insert_2; [done|apply sim_entities_keyed].
  - intros new base s _. simpl. unfold sim_write. destruct s.1; [|done].
    apply sim_entities_id, map_Forall_insert_2; [done|apply sim_entities_keyed].
  - intros e s. simpl. unfold sim_write. destruct s.1; [|done]. apply sim_entities_id, map_Forall_delete, sim_entities_keyed.
Defined.

Definition sim_source (address : string) : VirtualMachineSource :=
  mkSource (mkVM "i-1" "ns" ∅ [] (mkVMStatus "AWS" "vpc-1" ∅ [mkVMNetworkInterface "eni-1" "" [mkIPAddress AddressTypeInternalIP address]] "running")) 1.

Definition up : @Entities SimEntityClient := (true, ∅).
Definition down : @Entities SimEntityClient := (false, ∅).

Lemma event_realizes_machine_witness :
  exists e, entities (cv_entities (processEvent (sim_source "10.0.0.1") false (mkConverter ∅ [] up))) !! ("ns", "virtualmachine-i-1") = Some e /\
    ee_Endpoints e = ["10.0.0.1"].
Proof.
  destruct (event_realizes_machine (EC := SimEntityClient) (sim_source "10.0.0.1") (mkConverter ∅ [] up) None _ eq_refl)
    as (_ & _ & e & He & Hend & _). exists e. split; [exact He|exact Hend].
Defined.

(** One failed event is on record. *)
Definition one_failure : ConverterState := processEvent (sim_source "10.0.0.1") false (mkConverter ∅ [] down).

Lemma one_failure_reached : clos_refl_trans_1n _ converter_step (mkConverter ∅ [] down) one_failure.
Proof. eapply Relation_Operators.rt1n_trans; [apply (converter_event (sim_source "10.0.0.1"))|apply Relation_Operators.rt1n_refl]. Qed.

Lemma retry_counts_bounded_witness : (1 <= rr_retryCount (mkRetry 1 (sim_source "10.0.0.1")) < maxRetry)%Z.
Proof.
  exact (proj2 (retry_counts_bounded down one_failure one_failure_reached ("ns", "virtualmachine-i-1") (mkRetry 1 (sim_source "10.0.0.1")) eq_refl)).
Defined.

(** It is tried four more times. *)
Lemma retries_terminate_witness : (1 <= retries_left one_failure)%Z.
Proof.
  apply (retries_terminate down one_failure 1 (fire [] [] (sim_source "10.0.0.1") one_failure) one_failure_reached).
  eapply retry_more; [|apply retry_stop]. exists [], (sim_source "10.0.0.1"), []. split; reflexivity.
Defined.

(** The machine moves from address 1 to address 2 while the API is down. *)
Lemma stale_retry_wins_witness :
  let state := processEvent (sim_source "10.0.0.2") false (processEvent (sim_source "10.0.0.1") false (mkConverter ∅ [] down)) in
  exists es4, handle_event (sim_source "10.0.0.1") up = (None, es4) /\
    fire [] [] (sim_source "10.0.0.2") (fire [] [sim_source "10.0.0.2"] (sim_source "10.0.0.1") (mkConverter (failedUpdates state) (timers state) up))
      = mkConverter ∅ [] es4.
Proof.
  cbv zeta. eexists. split; [reflexivity|].
  apply (stale_retry_wins (EC := SimEntityClient) (sim_source "10.0.0.1") (sim_source "10.0.0.2") ∅ down down down up _ (OtherError "timeout") (OtherError "timeout"));
    reflexivity.
Defined.

End Witnesses.
