(* ===== verification/VMPolicy.v ===== *)
(** * The virtual machine policy API

    Model of [pkg/apiserver/registry/virtualmachinepolicy/rest.go]: the statuses
    the network-policy reconciler stores for a virtual machine, as a
    [VirtualMachinePolicy]. *)

From stdpp Require Import base strings list gmap.
From Stdlib Require Import ZArith.
From S2P Require Import Prelude GoStrings.

#[local] Open Scope string_scope.

Inductive Realization := Success | RInProgress | Failed.
Record PolicyStatus := mkPolicyStatus { ps_Realization : Realization; ps_Reason : string }.
#[export] Instance Realization_eq_dec : EqDecision Realization.
Proof. solve_decision. Defined.
#[export] Instance PolicyStatus_eq_dec : EqDecision PolicyStatus.
Proof. solve_decision. Defined.

Record VirtualMachinePolicy := mkVMP {
  vmp_Namespace : string;
  vmp_Name : string;
  vmp_Realization : Realization;
  vmp_NetworkPolicyDetails : gmap string PolicyStatus
}.

(** [cloud.NetworkPolicyStatus], the statuses by policy. *)
Record InternalStatus := mkInternal { is_Namespace : string; is_Name : string; is_NPStatus : gmap string string }.

Definition NoneString : string := "<none>".
Definition NetworkPolicyStatusApplied : string := "applied".
Definition InProgress_String : string := "in-progress".

(** What a stored status says. *)
Definition policy_status (status : string) : PolicyStatus :=
  if decide (status = NetworkPolicyStatusApplied) then mkPolicyStatus Success NoneString
  else if Contains status InProgress_String then mkPolicyStatus RInProgress NoneString
  else mkPolicyStatus Failed status.

Section Rest.
Context {RNG : MapRange}.

(** The loop: details, and the flags [failed] and [inProgress]. *)
Definition convert_loop (entries : list (string * string)) : gmap string PolicyStatus * bool * bool :=
  fold_left (fun '(npStatusList, failed, inProgress) '(anp, status) =>
    let st := policy_status status in
    (<[anp := st]> npStatusList,
     if decide (ps_Realization st = Failed) then true else failed,
     if decide (ps_Realization st = RInProgress) then true else inProgress)) entries (∅, false, false).

Definition convertToVMP (internal : InternalStatus) : VirtualMachinePolicy :=
  let '(npStatusList, failed, inProgress) := convert_loop (go_range (is_NPStatus internal)) in
  mkVMP (is_Namespace internal) (is_Name internal)
    (if failed : bool then Failed else if inProgress : bool then RInProgress else Success) npStatusList.

(** [vmpIndexer]: the statuses under namespace and name. *)
Definition Indexer : Type := gmap (string * string) InternalStatus.

Inductive RestError := BadRequest | RestNotFound (name : string).

(** The namespace of the request, if it has one. *)
Definition rest_Get (ns : option string) (name : string) (idx : Indexer) : RestError + VirtualMachinePolicy :=
  match ns with
  | None => inl BadRequest
  | Some n =>
      if decide (n = "") then inl BadRequest
      else match idx !! (n, name) with
           | None => inl (RestNotFound name)
           | Some obj => inr (convertToVMP obj)
           end
  end.

Definition rest_List (ns : option string) (idx : Indexer) : list VirtualMachinePolicy :=
  let objs := if decide (default "" ns = "") then map snd (go_range idx)
              else filter (fun o => is_Namespace o = default "" ns) (map snd (go_range idx)) in
  map convertToVMP objs.

(** [ConvertToTable]: a row per object, with its name, realization and the number
    of its policies; [metatable.MetaToTableRow] ranges over the items of a list. *)
Definition Realization_String (r : Realization) : string :=
  match r with Success => "SUCCESS" | RInProgress => "IN-PROGRESS" | Failed => "FAILED" end.

Definition table_row (vmp : VirtualMachinePolicy) : string * string * nat :=
  (vmp_Name vmp, Realization_String (vmp_Realization vmp), size (vmp_NetworkPolicyDetails vmp)).

Definition ConvertToTable (obj : VirtualMachinePolicy + list VirtualMachinePolicy) : list (string * string * nat) :=
  match obj with inl vmp => [table_row vmp] | inr items => map table_row items end.

Lemma convert_loop_spec entries :
  NoDup entries.*1 ->
  let '(details, failed, inProgress) := convert_loop entries in
  (forall anp, details !! anp = policy_status <$> (list_to_map entries : gmap string string) !! anp) /\
  (failed = true <-> exists anp status, (anp, status) ∈ entries /\ ps_Realization (policy_status status) = Failed) /\
  (inProgress = true <-> exists anp status, (anp, status) ∈ entries /\ ps_Realization (policy_status status) = RInProgress).
Proof.
  unfold convert_loop. induction entries as [|[a st] entries IH] using rev_ind; intros Hnd.
  { split; [done|]. split; (split; [done|intros (? & ? & []%not_elem_of_nil & _)]). }
  rewrite fmap_app in Hnd. apply NoDup_app in Hnd as (Hnd & Hdisj & _). specialize (IH Hnd).
  rewrite fold_left_app. destruct (fold_left _ entries _) as [[details failed] inProgress]. destruct IH as (Hd & Hf & Hp). cbn.
  assert (forall (P : string -> Prop) (b : bool), (b = true <-> exists anp status, (anp, status) ∈ entries /\ P status) ->
    forall b', b' = true <-> b = true \/ P st -> b' = true <-> exists anp status, (anp, status) ∈ (entries ++ [(a, st)])%list /\ P status) as Hstep.
  { intros P b Hb b' Hb'. rewrite Hb', Hb. setoid_rewrite elem_of_app. setoid_rewrite list_elem_of_singleton. split.
    - intros [(anp & s & ? & ?)|?]; [exists anp, s|exists a, st]; auto.
    - intros (anp & s & [?|[= -> ->]] & ?); [left; eauto|by right]. }
  split; [|split].
  - intros anp. destruct (decide (anp = a)) as [->|Hne].
    + rewrite lookup_insert_eq, list_to_map_app, lookup_union_r.
      * simpl. by rewrite lookup_insert_eq.
      * apply not_elem_of_list_to_map_1. intros Hin. apply (Hdisj a Hin). left.
    + rewrite lookup_insert_ne, Hd, list_to_map_app by done. f_equal.
      rewrite lookup_union_l; [done|]. simpl. by rewrite lookup_insert_ne.
  - apply (Hstep (fun s => ps_Realization (policy_status s) = Failed) failed Hf). case_decide; [tauto|]. tauto.
  - apply (Hstep (fun s => ps_Realization (policy_status s) = RInProgress) inProgress Hp). case_decide; tauto.
Qed.

(** C35: A [VirtualMachinePolicy] tells every policy of the machine, applied, in
    progress or failed with its message, and sums them up: failed when one has
    failed, otherwise in progress when one is, otherwise a success; the order in
    which the statuses are ranged over does not matter. *)
Theorem convertToVMP_summary internal :
  (forall anp, vmp_NetworkPolicyDetails (convertToVMP internal) !! anp = policy_status <$> is_NPStatus internal !! anp) /\
  let has r := exists anp status, is_NPStatus internal !! anp = Some status /\ ps_Realization (policy_status status) = r in
  (vmp_Realization (convertToVMP internal) = Failed <-> has Failed) /\
  (vmp_Realization (convertToVMP internal) = RInProgress <-> ~ has Failed /\ has RInProgress) /\
  (vmp_Realization (convertToVMP internal) = Success <->
    forall anp status, is_NPStatus internal !! anp = Some status -> status = NetworkPolicyStatusApplied).
Proof.
  unfold convertToVMP. pose proof (convert_loop_spec (go_range (is_NPStatus internal)) (NoDup_go_range_keys _)) as H.
  destruct (convert_loop _) as [[details failed] inProgress]. destruct H as (Hd & Hf & Hp). setoid_rewrite elem_of_go_range in Hf.
  setoid_rewrite elem_of_go_range in Hp. cbn [vmp_NetworkPolicyDetails vmp_Realization]. split.
  - intros anp. rewrite Hd. f_equal. rewrite (list_to_map_proper _ (map_to_list (is_NPStatus internal))).
    + by rewrite list_to_map_to_list.
    + apply NoDup_go_range_keys.
    + apply go_range_perm.
  - assert (forall st, ps_Realization (policy_status st) = Success <-> st = NetworkPolicyStatusApplied) as Hs.
    { intros st. unfold policy_status. case_decide; [done|]. by destruct (Contains _ _). }
    cbv zeta. rewrite <- Hf, <- Hp. split; [by destruct failed, inProgress|]. split; [destruct failed, inProgress; intuition congruence|].
    setoid_rewrite <- Hs. split.
    + destruct failed; [done|]. destruct inProgress; [done|]. intros _ anp st Hst.
      destruct (ps_Realization (policy_status st)) eqn:Er; [done| |].
      * by discriminate (proj2 Hp); eauto.
      * by discriminate (proj2 Hf); eauto.
    + intros Hall. destruct failed; [|destruct inProgress; [|done]].
      * destruct (proj1 Hf eq_refl) as (anp & st & Hst & Hr). specialize (Hall anp st Hst). congruence.
      * destruct (proj1 Hp eq_refl) as (anp & st & Hst & Hr). specialize (Hall anp st Hst). congruence.
Qed.

End Rest.
